(** * Layered subscriptions of react-redux: listener registries and
      subscription nodes (utils/Subscription.ts, components/Provider.tsx)

    The development follows the source.  [Registry] embeds
    [createListenerCollection]: the doubly linked list of Listener objects
    lives in an explicit heap indexed by creation order, and the closure
    variables [first], [last] and every [isSubscribed] flag are fields of the
    collection state.  [Pass] runs [notify] over callbacks that unsubscribe
    listeners or throw.  [Subscription] embeds [createSubscription] over a
    world of nodes, and [Provider] embeds the attach effect. *)

From Stdlib Require Import ZArith Lia.
From stdpp Require Import base list.

Set Default Proof Using "Type".

(** ** Outcomes of effectful code

    Every JavaScript function of the source is a state transformer that
    either completes or aborts; the state reached is kept in both cases, so
    that what happened before an abort can still be inspected. *)

Inductive error : Type :=
  | TypeError            (* a method that the object does not have was called *)
  | Thrown (name : nat)  (* an exception raised by a consumer callback *)
  | Dangling             (* a reference to an object that was never created *)
  | OutOfFuel.           (* the bound on nested calls and loop turns was hit *)

Inductive outcome (W A : Type) : Type :=
  | Done (a : A) (w : W)
  | Abort (e : error) (w : W).
Arguments Done {W A} a w.
Arguments Abort {W A} e w.

Definition M (W A : Type) : Type := W → outcome W A.

Definition ret {W A} (a : A) : M W A := fun w => Done a w.

Definition bind {W A B} (m : M W A) (k : A → M W B) : M W B :=
  fun w => match m w with
           | Done a w' => k a w'
           | Abort e w' => Abort e w'
           end.

Definition abort {W A} (e : error) : M W A := fun w => Abort e w.
Definition gets {W A} (f : W → A) : M W A := fun w => Done (f w) w.
Definition modify {W} (f : W → W) : M W unit := fun w => Done tt (f w).

Notation "x <- m ;; k" := (bind m (fun x => k))
  (at level 20, m at level 99, k at level 200, only parsing).
Notation "m ;; k" := (bind m (fun _ => k))
  (at level 100, k at level 200, only parsing, right associativity).

Definition final {W A} (o : outcome W A) : W :=
  match o with Done _ w => w | Abort _ w => w end.

Definition completes {W A} (o : outcome W A) : Prop :=
  match o with Done _ _ => True | Abort _ _ => False end.

(** [batch] comes from [./batch], which the core only consumes: it invokes
    the function it is given, synchronously. *)
(** Modelled from the spec: the batching wrapper [batch(fn)] of section 6,
    which "invokes fn synchronously". *)
Definition batch {W A} (fn : M W A) : M W A := fn.

(** stdpp's [last] of a list, under a name that the [last] variable of the
    collection does not hide. *)
Abbreviation list_last := last (only parsing).

(** ** The listener collection *)

Module Registry.

Section Collection.
Context {C : Type}.

(** [type Listener = { callback; next; prev }], with references to other
    Listener objects as indices into the heap. *)
Record Listener : Type := mkListener {
  callback : C;
  next : option nat;
  prev : option nat;
}.

(** The state closed over by one call of [createListenerCollection]. *)
Record ListenerCollection : Type := mkCollection {
  first : option nat;
  last : option nat;
  heap : list Listener;       (* the Listener objects, in creation order *)
  isSubscribed : list bool;   (* the flag of the subscribe call that made each *)
}.

Definition createListenerCollection : ListenerCollection :=
  {| first := None; last := None; heap := []; isSubscribed := [] |}.

Definition set_first (v : option nat) (c : ListenerCollection) :=
  {| first := v; last := last c; heap := heap c; isSubscribed := isSubscribed c |}.
Definition set_last (v : option nat) (c : ListenerCollection) :=
  {| first := first c; last := v; heap := heap c; isSubscribed := isSubscribed c |}.
Definition set_heap (h : list Listener) (c : ListenerCollection) :=
  {| first := first c; last := last c; heap := h; isSubscribed := isSubscribed c |}.
Definition set_flags (f : list bool) (c : ListenerCollection) :=
  {| first := first c; last := last c; heap := heap c; isSubscribed := f |}.

Definition with_next (v : option nat) (x : Listener) : Listener :=
  {| callback := callback x; next := v; prev := prev x |}.
Definition with_prev (v : option nat) (x : Listener) : Listener :=
  {| callback := callback x; next := next x; prev := v |}.

(** [listener.next] and [listener.prev], read from the heap. *)
Definition next_of (l : nat) (c : ListenerCollection) : option nat :=
  match heap c !! l with Some x => next x | None => None end.
Definition prev_of (l : nat) (c : ListenerCollection) : option nat :=
  match heap c !! l with Some x => prev x | None => None end.

(** [p.next = v] and [n.prev = v]. *)
Definition assign_next (p : nat) (v : option nat) (c : ListenerCollection) :=
  set_heap (alter (with_next v) p (heap c)) c.
Definition assign_prev (n : nat) (v : option nat) (c : ListenerCollection) :=
  set_heap (alter (with_prev v) n (heap c)) c.

(** [clear()] *)
Definition clear (c : ListenerCollection) : ListenerCollection :=
  set_last None (set_first None c).

(** [subscribe(callback)]: the new Listener is the next heap cell; its index
    stands for the [unsubscribe] closure that is returned. *)
Definition subscribe (cb : C) (c : ListenerCollection) : nat * ListenerCollection :=
  let listener := length (heap c) in
  let c1 :=
    {| first := first c;
       last := Some listener;
       heap := heap c ++ [ {| callback := cb; next := None; prev := last c |} ];
       isSubscribed := isSubscribed c ++ [true] |} in
  (listener,
   match prev_of listener c1 with
   | Some p => assign_next p (Some listener) c1
   | None => set_first (Some listener) c1
   end).

(** The closure [unsubscribe] returned by the subscribe call that created
    [listener]. *)
Definition unsubscribe (listener : nat) (c : ListenerCollection) : ListenerCollection :=
  match isSubscribed c !! listener, first c with
  | Some true, Some _ =>
      let c1 := set_flags (<[listener := false]> (isSubscribed c)) c in
      let c2 :=
        match next_of listener c1 with
        | Some n => assign_prev n (prev_of listener c1) c1
        | None => set_last (prev_of listener c1) c1
        end in
      match prev_of listener c2 with
      | Some p => assign_next p (next_of listener c2) c2
      | None => set_first (next_of listener c2) c2
      end
  | _, _ => c
  end.

(** [get()]: the loop follows [next] from [first]; [None] means that the
    loop did not finish within the bound. *)
Fixpoint get_loop (fuel : nat) (c : ListenerCollection) (listener : option nat)
  : option (list nat) :=
  match listener with
  | None => Some []
  | Some l =>
      match fuel with
      | O => None
      | S fuel' =>
          match get_loop fuel' c (next_of l c) with
          | Some listeners => Some (l :: listeners)
          | None => None
          end
      end
  end.

Definition get (c : ListenerCollection) : option (list nat) :=
  get_loop (length (heap c)) c (first c).

(** [notify()]: the loop of the source over any state [W] that holds the
    collection.  [cells w] is the heap as the callbacks left it, and
    [run l cb] is the call [listener.callback()] for listener [l]. *)
Section Notify.
Context {W : Type}.
Variable cells : W → list Listener.
Variable run : nat → C → M W unit.

Fixpoint notify_loop (fuel : nat) (listener : option nat) : M W unit :=
  match listener with
  | None => ret tt
  | Some l =>
      match fuel with
      | O => abort OutOfFuel
      | S fuel' =>
          x <- gets (fun w => cells w !! l) ;;
          match x with
          | None => abort Dangling
          | Some cell =>
              run l (callback cell) ;;
              x' <- gets (fun w => cells w !! l) ;;
              notify_loop fuel' (match x' with Some cell' => next cell' | None => None end)
          end
      end
  end.
End Notify.

End Collection.

Arguments Listener : clear implicits.
Arguments ListenerCollection : clear implicits.

(** One turn of the loop of [notify]. *)
Lemma notify_loop_turn {C W} (cells : W → list (Listener C)) run fuel l cell w :
  cells w !! l = Some cell →
  notify_loop cells run (S fuel) (Some l) w
  = match run l (callback cell) w with
    | Done _ w' =>
        notify_loop cells run fuel
          (match cells w' !! l with Some cell' => next cell' | None => None end) w'
    | Abort e w' => Abort e w'
    end.
Proof. intros H. simpl. unfold bind at 1, gets at 1. rewrite H. reflexivity. Qed.

Lemma notify_loop_end {C W} (cells : W → list (Listener C)) run fuel w :
  notify_loop cells run fuel None w = Done tt w.
Proof. by destruct fuel. Qed.

(** *** What one call does to the heap *)

Section Effects.
Context {C : Type}.
Implicit Types (c : ListenerCollection C) (x : Listener C).

(** The cell of a neighbour of the listener that is unlinked. *)
Definition relink (nxt prv : option nat) (i : nat) (x : Listener C) : Listener C :=
  {| callback := callback x;
     next := if decide (prv = Some i) then nxt else next x;
     prev := if decide (nxt = Some i) then prv else prev x |}.

Lemma unsubscribe_skip l c :
  isSubscribed c !! l ≠ Some true ∨ first c = None → unsubscribe l c = c.
Proof.
  unfold unsubscribe. intros [H|H].
  - destruct (isSubscribed c !! l) as [[]|]; congruence.
  - rewrite H. by destruct (isSubscribed c !! l) as [[]|].
Qed.

Lemma unsubscribe_heap_length l c :
  length (heap (unsubscribe l c)) = length (heap c).
Proof.
  unfold unsubscribe.
  destruct (isSubscribed c !! l) as [[]|]; [|done..].
  destruct (first c); [|done].
  repeat (match goal with |- context [match ?o with _ => _ end] => destruct o end;
          simpl; rewrite ?length_alter); done.
Qed.

Lemma unsubscribe_effect l c cell :
  isSubscribed c !! l = Some true →
  is_Some (first c) →
  heap c !! l = Some cell →
  next cell ≠ Some l →
  prev cell ≠ Some l →
  isSubscribed (unsubscribe l c) = <[l := false]> (isSubscribed c)
  ∧ first (unsubscribe l c) = match prev cell with Some _ => first c | None => next cell end
  ∧ last (unsubscribe l c) = match next cell with Some _ => last c | None => prev cell end
  ∧ ∀ i, heap (unsubscribe l c) !! i = relink (next cell) (prev cell) i <$> heap c !! i.
Proof.
  intros Hflag [f Hf] Hcell Hn Hp. unfold unsubscribe. rewrite Hflag, Hf.
  destruct cell as [cb nx pv]; simpl in *.
  assert (Hl : ∀ g (j : nat), Some j ≠ Some l → alter g j (heap c) !! l = Some (mkListener cb nx pv)).
  { intros g j ?. rewrite list_lookup_alter_ne by congruence. done. }
  unfold next_of, prev_of; simpl. rewrite Hcell; simpl.
  destruct nx as [n|]; simpl; [rewrite Hl by done|rewrite Hcell]; simpl;
    (destruct pv as [p|]; simpl; [try rewrite Hl by done; try rewrite Hcell|]);
    simpl; (repeat split; [done..|]); intros i;
    rewrite ?list_lookup_alter; unfold relink;
    unfold with_next, with_prev;
    repeat case_decide; simplify_eq; try done;
    by destruct (heap c !! i) as [[]|].
Qed.

(** The cell of the old tail when a listener is appended. *)
Definition extend (tl : option nat) (l i : nat) (x : Listener C) : Listener C :=
  {| callback := callback x;
     next := if decide (tl = Some i) then Some l else next x;
     prev := prev x |}.

Lemma subscribe_effect cb c :
  (∀ p, last c = Some p → p < length (heap c)) →
  (subscribe cb c).1 = length (heap c)
  ∧ isSubscribed (subscribe cb c).2 = isSubscribed c ++ [true]
  ∧ first (subscribe cb c).2
    = match last c with Some _ => first c | None => Some (length (heap c)) end
  ∧ last (subscribe cb c).2 = Some (length (heap c))
  ∧ heap (subscribe cb c).2 !! length (heap c)
    = Some {| callback := cb; next := None; prev := last c |}
  ∧ length (heap (subscribe cb c).2) = S (length (heap c))
  ∧ ∀ i, i ≠ length (heap c) →
      heap (subscribe cb c).2 !! i = extend (last c) (length (heap c)) i <$> heap c !! i.
Proof.
  intros Hlast. unfold subscribe, next_of, prev_of; simpl.
  rewrite lookup_app_r, Nat.sub_diag by done; simpl.
  destruct (last c) as [p|] eqn:El; simpl.
  - specialize (Hlast p eq_refl).
    repeat split; try done.
    + rewrite list_lookup_alter_ne by lia.
      by rewrite lookup_app_r, Nat.sub_diag.
    + rewrite length_alter, length_app; simpl; lia.
    + intros i Hi. rewrite list_lookup_alter. unfold extend.
      destruct (decide (i < length (heap c))).
      * rewrite !lookup_app_l by lia.
        repeat case_decide; simplify_eq; try done;
          by destruct (heap c !! _) as [[]|].
      * rewrite (lookup_ge_None_2 (heap c) i) by lia.
        case_decide; [lia|]. apply lookup_ge_None_2.
        rewrite length_app; simpl; lia.
  - repeat split; try done.
    + by rewrite lookup_app_r, Nat.sub_diag.
    + rewrite length_app; simpl; lia.
    + intros i Hi. unfold extend.
      destruct (decide (i < length (heap c))).
      * rewrite lookup_app_l by lia. by destruct (heap c !! i) as [[]|].
      * rewrite (lookup_ge_None_2 (heap c) i) by lia.
        apply lookup_ge_None_2. rewrite length_app; simpl; lia.
Qed.

End Effects.

(** *** The linked list that the heap represents *)

Definition increasing (L : list nat) : Prop :=
  ∀ i j x y, L !! i = Some x → L !! j = Some y → i < j → x < y.

Lemma increasing_inj L i j x :
  increasing L → L !! i = Some x → L !! j = Some x → i = j.
Proof.
  intros HL Hi Hj. destruct (Nat.lt_trichotomy i j) as [H|[H|H]]; [|done|].
  - pose proof (HL _ _ _ _ Hi Hj H). lia.
  - pose proof (HL _ _ _ _ Hj Hi H). lia.
Qed.

Lemma increasing_lookup_le L i x : increasing L → L !! i = Some x → i ≤ x.
Proof.
  intros HL. revert x. induction i as [|i IH]; intros x Hx; [lia|].
  destruct (lookup_lt_is_Some_2 L i) as [y Hy].
  { apply lookup_lt_Some in Hx. lia. }
  pose proof (IH y Hy). pose proof (HL i (S i) y x Hy Hx). lia.
Qed.

Lemma increasing_length L n :
  increasing L → (∀ x, x ∈ L → x < n) → length L ≤ n.
Proof.
  intros HL Hn. destruct (decide (length L = 0)) as [|Hne]; [lia|].
  destruct (lookup_lt_is_Some_2 L (pred (length L))) as [x Hx]; [lia|].
  pose proof (increasing_lookup_le _ _ _ HL Hx).
  pose proof (Hn x (list_elem_of_lookup_2 _ _ _ Hx)). lia.
Qed.

Lemma increasing_delete L k : increasing L → increasing (delete k L).
Proof.
  intros HL i j x y. rewrite !list_lookup_delete. intros Hi Hj Hij.
  eapply HL; [exact Hi|exact Hj|]. repeat case_decide; lia.
Qed.

Lemma increasing_snoc L n :
  increasing L → (∀ x, x ∈ L → x < n) → increasing (L ++ [n]).
Proof.
  intros HL Hn i j x y Hi Hj Hij.
  apply lookup_snoc_Some in Hi as [[? Hi]|[? ->]];
    apply lookup_snoc_Some in Hj as [[? Hj]|[? ->]]; try lia.
  - by eapply HL.
  - apply Hn. by eapply list_elem_of_lookup_2.
Qed.

Lemma filter_all {A} (P : A → Prop) `{!∀ x, Decision (P x)} (l : list A) :
  (∀ x, x ∈ l → P x) → filter P l = l.
Proof.
  induction l as [|a l IH]; intros Hall; [done|].
  rewrite filter_cons_True by (apply Hall; left).
  f_equal. apply IH. intros x Hx. apply Hall. by right.
Qed.

Lemma increasing_tail a L : increasing (a :: L) → increasing L.
Proof. intros HL i j x y Hi Hj ?. apply (HL (S i) (S j)); [done..|lia]. Qed.

Lemma increasing_delete_filter L k l :
  increasing L → L !! k = Some l → delete k L = filter (λ x, x ≠ l) L.
Proof.
  revert k. induction L as [|a L IH]; intros k HL Hk; [done|].
  pose proof (increasing_tail _ _ HL) as HL'.
  destruct k as [|k]; simpl in *.
  - simplify_eq. rewrite filter_cons_False by naive_solver.
    symmetry. apply filter_all. intros x [i Hx]%list_elem_of_lookup_1.
    pose proof (HL 0 (S i) l x eq_refl Hx). lia.
  - rewrite filter_cons_True.
    + f_equal. by apply IH.
    + pose proof (HL 0 (S k) a l eq_refl Hk). lia.
Qed.

Section Linked.
Context {C : Type}.
Implicit Types (c : ListenerCollection C) (L : list nat).

Definition neighbours L (k : nat) (x : Listener C) : Prop :=
  next x = L !! S k ∧ prev x = match k with O => None | S j => L !! j end.

(** [linked c L]: the listeners that are linked in [c] are those of [L], in
    this order, and they are those whose flag is still set. *)
Record linked c L : Prop := mkLinked {
  linked_first : first c = head L;
  linked_last : last c = list_last L;
  linked_cells : ∀ k l, L !! k = Some l → ∃ x, heap c !! l = Some x ∧ neighbours L k x;
  linked_increasing : increasing L;
  linked_flags : ∀ l, isSubscribed c !! l = Some true ↔ l ∈ L;
  linked_size : length (isSubscribed c) = length (heap c);
}.

Lemma linked_bound c L l : linked c L → l ∈ L → l < length (heap c).
Proof.
  intros HL [k Hk]%list_elem_of_lookup_1.
  destruct (linked_cells _ _ HL k l Hk) as (x & Hx & _).
  by eapply lookup_lt_Some.
Qed.

Lemma linked_empty : linked (@createListenerCollection C) [].
Proof.
  split; try done.
  intros l; split; [done|]. by intros ?%elem_of_nil.
Qed.

Lemma linked_last_index c L p :
  linked c L → last c = Some p → L !! pred (length L) = Some p.
Proof. intros HL Hp. by rewrite <- last_lookup, <- (linked_last _ _ HL). Qed.

Lemma subscribe_linked cb c L :
  linked c L → linked (subscribe cb c).2 (L ++ [length (heap c)]).
Proof.
  intros HL.
  assert (Hbound : ∀ p, last c = Some p → p < length (heap c)).
  { intros p Hp. eapply linked_bound; [done|].
    eapply list_elem_of_lookup_2, linked_last_index; eauto. }
  destruct (subscribe_effect cb c Hbound) as (_ & Hflags & Hfirst & Hlast & Hnew & Hlen & Hold).
  set (n := length (heap c)) in *.
  split.
  - rewrite Hfirst, (linked_last _ _ HL), (linked_first _ _ HL).
    destruct L as [|a L]; [done|]. simpl.
    by destruct (last_is_Some (a :: L)) as [_ [? ->]].
  - by rewrite Hlast, last_snoc.
  - intros k l [[Hk Hl]|[-> ->]]%lookup_snoc_Some.
    + destruct (linked_cells _ _ HL k l Hl) as (x & Hx & Hnx & Hpv).
      assert (l ≠ n) by (apply lookup_lt_Some in Hx; unfold n; lia).
      exists (extend (last c) n l x). split; [by rewrite Hold, Hx|].
      split; simpl.
      * case_decide as Hd.
        -- pose proof (linked_last_index _ _ _ HL Hd) as Hd'.
           rewrite (increasing_inj _ _ _ _ (linked_increasing _ _ HL) Hl Hd').
           rewrite lookup_app_r by lia.
           by replace (S (pred (length L)) - length L) with 0 by lia.
        -- rewrite Hnx. destruct (decide (S k < length L)).
           ++ by rewrite lookup_app_l.
           ++ exfalso. apply Hd. rewrite (linked_last _ _ HL), last_lookup.
              by replace (pred (length L)) with k by lia.
      * rewrite Hpv. destruct k as [|j]; [done|]. by rewrite lookup_app_l by lia.
    + eexists; split; [exact Hnew|]. split; simpl.
      * symmetry. apply lookup_ge_None_2. rewrite length_app; simpl; lia.
      * rewrite (linked_last _ _ HL), last_lookup.
        destruct L as [|a L]; [done|]. simpl length. simpl pred.
        symmetry. apply (lookup_app_l (a :: L) [l] (length L)). simpl; lia.
  - apply increasing_snoc; [apply HL|]. intros x Hx. by eapply linked_bound.
  - intros l. rewrite Hflags, elem_of_app, list_elem_of_singleton.
    rewrite <- (linked_flags _ _ HL). unfold n.
    rewrite <- (linked_size _ _ HL). rewrite lookup_snoc_Some. 
    split; [intros [[? ?]|[? ?]]; auto|].
    intros [H| ->]; [left|right; done].
    split; [|done]. by eapply lookup_lt_Some.
  - rewrite Hflags, Hlen, length_app; simpl. rewrite (linked_size _ _ HL). lia.
Qed.

Lemma linked_self c L k l x :
  linked c L → L !! k = Some l → heap c !! l = Some x →
  next x ≠ Some l ∧ prev x ≠ Some l.
Proof.
  intros HL Hk Hx. destruct (linked_cells _ _ HL k l Hk) as (x' & Hx' & Hnx & Hpv).
  simplify_eq. pose proof (linked_increasing _ _ HL) as Hinc. split.
  - rewrite Hnx. intros H. pose proof (increasing_inj _ _ _ _ Hinc Hk H). lia.
  - rewrite Hpv. destruct k as [|j]; [done|].
    intros H. pose proof (increasing_inj _ _ _ _ Hinc Hk H). lia.
Qed.

Lemma unsubscribe_linked c L k l :
  linked c L → L !! k = Some l → linked (unsubscribe l c) (delete k L).
Proof.
  intros HL Hk. pose proof (linked_increasing _ _ HL) as Hinc.
  destruct (linked_cells _ _ HL k l Hk) as (x & Hx & Hnx & Hpv).
  destruct (linked_self _ _ _ _ _ HL Hk Hx) as [Hn Hp].
  assert (Hflag : isSubscribed c !! l = Some true).
  { apply (linked_flags _ _ HL). by eapply list_elem_of_lookup_2. }
  assert (Hfst : is_Some (first c)).
  { rewrite (linked_first _ _ HL), head_lookup. apply lookup_lt_is_Some.
    apply lookup_lt_Some in Hk. lia. }
  destruct (unsubscribe_effect l c x Hflag Hfst Hx Hn Hp)
    as (Hflags & Hfirst & Hlast & Hheap).
  pose proof (lookup_lt_Some _ _ _ Hk) as Hlen.
  split.
  - rewrite Hfirst, Hpv, Hnx, !head_lookup, list_lookup_delete.
    destruct k as [|j]; [done|].
    destruct (lookup_lt_is_Some_2 L j) as [p ->]; [lia|].
    rewrite (linked_first _ _ HL), head_lookup. by rewrite decide_True by lia.
  - rewrite Hlast, Hnx, Hpv, !last_lookup, list_lookup_delete, length_delete by done.
    destruct (L !! S k) as [n|] eqn:En.
    + apply lookup_lt_Some in En. rewrite (linked_last _ _ HL), last_lookup.
      rewrite decide_False by lia. f_equal. lia.
    + apply lookup_ge_None_1 in En. destruct k as [|j].
      * rewrite decide_False by lia. symmetry. apply lookup_ge_None_2. lia.
      * rewrite decide_True by lia. f_equal. lia.
  - intros k' l'. rewrite list_lookup_delete.
    set (k0 := if decide (k' < k) then k' else S k').
    assert (Hk0 : (k' < k ∧ k0 = k') ∨ (k ≤ k' ∧ k0 = S k'))
      by (unfold k0; case_decide; lia).
    clearbody k0. intros Hk'.
    destruct (linked_cells _ _ HL _ l' Hk') as (x' & Hx' & Hnx' & Hpv').
    exists (relink (next x) (prev x) l' x'). split; [by rewrite Hheap, Hx'|].
    split; simpl.
    + rewrite list_lookup_delete. destruct (decide (prev x = Some l')) as [Hd|Hd].
      * rewrite Hpv in Hd. destruct k as [|j]; [done|].
        pose proof (increasing_inj _ _ _ _ Hinc Hd Hk').
        rewrite Hnx. f_equal. case_decide; lia.
      * rewrite Hnx'. f_equal. case_decide; [lia|].
        destruct Hk0 as [[? ->]|[? ->]]; [|done].
        destruct k as [|j]; [lia|]. exfalso. apply Hd. rewrite Hpv, <- Hk'.
        f_equal. lia.
    + destruct (decide (next x = Some l')) as [Hd|Hd].
      * rewrite Hnx in Hd.
        pose proof (increasing_inj _ _ _ _ Hinc Hd Hk') as Hkk.
        assert (k' = k) as -> by lia.
        rewrite Hpv. destruct k as [|j]; [done|].
        rewrite list_lookup_delete. by rewrite decide_True by lia.
      * rewrite Hpv'. destruct Hk0 as [[? ->]|[? ->]].
        -- destruct k' as [|j']; [done|]. rewrite list_lookup_delete.
           by rewrite decide_True by lia.
        -- destruct k' as [|j'].
           ++ exfalso. apply Hd. rewrite Hnx, <- Hk'. f_equal. lia.
           ++ rewrite list_lookup_delete. destruct (decide (j' < k)); [|done].
              exfalso. apply Hd. rewrite Hnx, <- Hk'. f_equal. lia.
  - by apply increasing_delete.
  - intros y. rewrite Hflags, (increasing_delete_filter _ _ _ Hinc Hk).
    rewrite list_elem_of_filter, <- (linked_flags _ _ HL), list_lookup_insert.
    case_decide as Hd.
    + destruct Hd as [-> _]. split; [done|]. by intros [? _].
    + split; [|by intros [_ ?]]. intros Hy. split; [|done]. intros ->.
      apply Hd. split; [done|]. by eapply lookup_lt_Some.
  - rewrite Hflags, length_insert, unsubscribe_heap_length.
    apply (linked_size _ _ HL).
Qed.

Lemma unsubscribe_unlinked c L l : linked c L → l ∉ L → unsubscribe l c = c.
Proof.
  intros HL Hl. apply unsubscribe_skip. left.
  by rewrite (linked_flags _ _ HL).
Qed.

Lemma get_loop_linked c L fuel k :
  linked c L → length L - k ≤ fuel → get_loop fuel c (L !! k) = Some (drop k L).
Proof.
  intros HL. revert k. induction fuel as [|fuel IH]; intros k Hfuel.
  - rewrite (lookup_ge_None_2 L k) by lia. simpl. by rewrite drop_ge by lia.
  - destruct (L !! k) as [l|] eqn:Hk; simpl.
    + destruct (linked_cells _ _ HL k l Hk) as (x & Hx & Hnx & _).
      unfold next_of. rewrite Hx, Hnx, IH by lia.
      by rewrite (drop_S _ _ _ Hk).
    + apply lookup_ge_None_1 in Hk. by rewrite drop_ge by lia.
Qed.

Lemma get_linked c L : linked c L → get c = Some L.
Proof.
  intros HL. unfold get. rewrite (linked_first _ _ HL), head_lookup.
  rewrite (get_loop_linked c L _ 0 HL); [done|].
  pose proof (increasing_length L (length (heap c)) (linked_increasing _ _ HL)) as H.
  rewrite Nat.sub_0_r. apply H. intros x Hx. by eapply linked_bound.
Qed.

End Linked.

(** *** Sequences of subscribe and unsubscribe calls on one collection *)

Section Calls.
Context {C : Type}.

Inductive call : Type :=
  | Subscribe (cb : C)       (* [subscribe(cb)] *)
  | Unsubscribe (l : nat).   (* the closure returned for listener [l] is called *)

Definition step (c : ListenerCollection C) (o : call) : ListenerCollection C :=
  match o with
  | Subscribe cb => (subscribe cb c).2
  | Unsubscribe l => unsubscribe l c
  end.

Definition run (calls : list call) : ListenerCollection C :=
  foldl step createListenerCollection calls.

(** The callbacks that were subscribed, in the order of the calls: the
    [l]-th of them made listener [l]. *)
Definition subscriptions (calls : list call) : list C :=
  omap (λ o, match o with Subscribe cb => Some cb | Unsubscribe _ => None end) calls.

(** The listeners whose unsubscribe function was invoked. *)
Definition unsubscribed (calls : list call) : list nat :=
  omap (λ o, match o with Subscribe _ => None | Unsubscribe l => Some l end) calls.

(** What [get()] is expected to return: the listeners in the order of
    their subscribe calls, without those that were unsubscribed. *)
Definition expected (calls : list call) : list nat :=
  filter (λ l, l ∉ unsubscribed calls) (seq 0 (length (subscriptions calls))).

(** An unsubscribe function exists only once its subscribe call has
    returned: [n] counts the listeners created so far. *)
Fixpoint handles_exist (n : nat) (calls : list call) : bool :=
  match calls with
  | [] => true
  | Subscribe _ :: rest => handles_exist (S n) rest
  | Unsubscribe l :: rest => (l <? n) && handles_exist n rest
  end.

Lemma handles_exist_app n calls1 calls2 :
  handles_exist n (calls1 ++ calls2)
  = handles_exist n calls1
    && handles_exist (n + length (subscriptions calls1)) calls2.
Proof.
  revert n. induction calls1 as [|[cb|l] calls1 IH]; intros n; simpl.
  - by rewrite Nat.add_0_r.
  - rewrite IH. do 2 f_equal. unfold subscriptions; simpl. lia.
  - rewrite IH. by rewrite andb_assoc.
Qed.

Lemma handles_exist_bound calls l :
  handles_exist 0 calls = true → l ∈ unsubscribed calls →
  l < length (subscriptions calls).
Proof.
  induction calls as [|o calls IH] using rev_ind; [by intros _ ?%elem_of_nil|].
  rewrite handles_exist_app. intros [H1 H2]%andb_prop.
  unfold unsubscribed, subscriptions in *.
  rewrite !omap_app, elem_of_app, length_app.
  destruct o as [cb|l']; simpl in *.
  - intros [Hl|Hl%elem_of_nil]; [|done]. specialize (IH H1 Hl). lia.
  - rewrite andb_true_r in H2. apply Nat.ltb_lt in H2.
    intros [Hl|Hl%list_elem_of_singleton]; [specialize (IH H1 Hl)|]; lia.
Qed.

Lemma expected_subscribe calls cb :
  handles_exist 0 calls = true →
  expected (calls ++ [Subscribe cb])
  = expected calls ++ [length (subscriptions calls)].
Proof.
  intros Hwf. unfold expected, unsubscribed, subscriptions.
  rewrite !omap_app, length_app; simpl. rewrite app_nil_r.
  rewrite Nat.add_1_r, seq_S, filter_app; simpl. f_equal.
  rewrite filter_cons_True; [done|].
  intros H%(handles_exist_bound _ _ Hwf). unfold subscriptions in H. lia.
Qed.

Lemma expected_unsubscribe calls l :
  expected (calls ++ [Unsubscribe l]) = filter (λ x, x ≠ l) (expected calls).
Proof.
  unfold expected, unsubscribed, subscriptions.
  rewrite !omap_app; simpl. rewrite app_nil_r, list_filter_filter.
  apply list_filter_iff. intros x.
  rewrite elem_of_app, list_elem_of_singleton. tauto.
Qed.

Lemma subscribe_callbacks cb (c : ListenerCollection C) :
  callback <$> heap (subscribe cb c).2 = (callback <$> heap c) ++ [cb].
Proof.
  unfold subscribe. simpl. destruct (prev_of _ _); simpl.
  - rewrite (list_fmap_alter _ _ id) by (by apply Forall_true).
    by rewrite list_alter_id, fmap_snoc.
  - by rewrite fmap_snoc.
Qed.

Lemma unsubscribe_callbacks l (c : ListenerCollection C) :
  callback <$> heap (unsubscribe l c) = callback <$> heap c.
Proof.
  unfold unsubscribe.
  destruct (isSubscribed c !! l) as [[]|]; [|done..].
  destruct (first c); [|done].
  repeat (match goal with |- context [match ?o with _ => _ end] => destruct o end;
          simpl;
          rewrite ?(list_fmap_alter _ _ id), ?list_alter_id
            by (done || by apply Forall_true)); done.
Qed.

Lemma run_linked calls :
  handles_exist 0 calls = true →
  linked (run calls) (expected calls)
  ∧ callback <$> heap (run calls) = subscriptions calls.
Proof.
  induction calls as [|o calls IH] using rev_ind; intros Hwf.
  - split; [apply linked_empty|done].
  - rewrite handles_exist_app in Hwf. apply andb_prop in Hwf as [Hwf Ho].
    destruct (IH Hwf) as [HL Hcb]. unfold run in *. rewrite foldl_snoc.
    destruct o as [cb|l]; cbn [step].
    + rewrite expected_subscribe by done. split.
      * rewrite <- Hcb, length_fmap. by apply subscribe_linked.
      * rewrite subscribe_callbacks, Hcb. unfold subscriptions.
        by rewrite omap_app.
    + rewrite expected_unsubscribe. split.
      * destruct (decide (l ∈ expected calls)) as [[k Hk]%list_elem_of_lookup_1|Hl].
        -- rewrite <- (increasing_delete_filter _ k) by (done || apply HL).
           by apply unsubscribe_linked.
        -- rewrite (unsubscribe_unlinked _ _ _ HL Hl).
           rewrite filter_all; [done|]. intros x Hx ->. done.
      * rewrite unsubscribe_callbacks, Hcb. unfold subscriptions.
        rewrite omap_app. simpl. by rewrite app_nil_r.
Qed.

End Calls.

Arguments call : clear implicits.

(** C3. After any finite sequence of subscribe and unsubscribe calls on one
    collection (no clear in between), in which an unsubscribe function is
    only called once its subscribe call has returned it, [get()] returns
    exactly the listeners whose unsubscribe function was not invoked, in the
    order of their subscribe calls, and every listener object still holds
    the callback it was subscribed with. *)
Theorem get_after_calls (C : Type) (calls : list (call C)) :
  handles_exist 0 calls = true →
  get (run calls) = Some (expected calls)
  ∧ callback <$> heap (run calls) = subscriptions calls.
Proof.
  intros Hwf. destruct (run_linked calls Hwf) as [HL Hcb].
  split; [by apply get_linked|done].
Qed.

Lemma get_after_calls_witness :
  let calls := [Subscribe 10; Subscribe 11; Subscribe 12; Unsubscribe 1;
                Unsubscribe 1; Subscribe 13; Unsubscribe 0] in
  get (run calls) = Some [2; 3]
  ∧ callback <$> heap (run calls) = [10; 11; 12; 13].
Proof.
  intros calls. apply (get_after_calls nat calls). reflexivity.
Defined.

(** *** Calling an unsubscribe function again *)

Section Again.
Context {C : Type}.
Implicit Types (c : ListenerCollection C).

Lemma unsubscribe_flags l c :
  isSubscribed c !! l = Some true → is_Some (first c) →
  isSubscribed (unsubscribe l c) = <[l := false]> (isSubscribed c).
Proof.
  intros Hl [f Hf]. unfold unsubscribe. rewrite Hl, Hf.
  repeat (match goal with |- context [match ?o with _ => _ end] => destruct o end;
          simpl); done.
Qed.

Lemma unsubscribe_idempotent l c :
  unsubscribe l (unsubscribe l c) = unsubscribe l c.
Proof.
  destruct (decide (isSubscribed c !! l = Some true)) as [Hl|Hl].
  - destruct (first c) as [f|] eqn:Hf.
    + apply unsubscribe_skip. left.
      rewrite unsubscribe_flags by (done || by rewrite Hf).
      rewrite list_lookup_insert_eq; [done|]. by eapply lookup_lt_Some.
    + rewrite (unsubscribe_skip l c); [|by right].
      apply unsubscribe_skip. by right.
  - rewrite (unsubscribe_skip l c); [|by left].
    apply unsubscribe_skip. by left.
Qed.

(** Whatever subscribe and unsubscribe calls follow, an unsubscribe function
    that was invoked before leaves the collection as it finds it. *)
Lemma unsubscribe_later (calls : list (call C)) l :
  handles_exist 0 calls = true → l ∈ unsubscribed calls →
  unsubscribe l (run calls) = run calls.
Proof.
  intros Hwf Hl. destruct (run_linked calls Hwf) as [HL _].
  apply (unsubscribe_unlinked _ _ _ HL).
  unfold expected. rewrite list_elem_of_filter. tauto.
Qed.

End Again.

(** C7. A second invocation of an unsubscribe function that is no no-op.
    Listener 0 is subscribed and the collection is cleared.  The first
    invocation of the unsubscribe function of listener 0 then returns at
    the [first === null] test, before [isSubscribed = false] is reached.
    Once listener 1 is subscribed, the second invocation passes the test and
    unlinks listener 0 from its old, empty neighbourhood: head and tail
    become null and listener 1, never unsubscribed, is lost from [get()]. *)
Theorem stale_unsubscribe_after_clear :
  let c1 := (subscribe 10 (@createListenerCollection nat)).2 in
  let c2 := unsubscribe 0 (clear c1) in
  let c3 := (subscribe 11 c2).2 in
  let c4 := unsubscribe 0 c3 in
  c2 = clear c1
  ∧ first c3 = Some 1 ∧ last c3 = Some 1 ∧ get c3 = Some [1]
  ∧ first c4 = None ∧ last c4 = None ∧ get c4 = Some []
  ∧ c4 ≠ c3.
Proof. by split_and!. Qed.

End Registry.

(** ** A notify pass over callbacks that unsubscribe and throw *)

Module Pass.
Import Registry.

(** What a consumer callback does when it is called: it calls unsubscribe
    functions of the collection it is registered in, and it may throw. *)
Inductive action : Type :=
  | Unsub (l : nat)
  | Raise (name : nat).

Definition script : Type := list action.

(** The collection, and the listeners whose callback was called so far. *)
Record state : Type := mkState {
  listeners : ListenerCollection script;
  invoked : list nat;
}.

Definition record (l : nat) (st : state) : state :=
  {| listeners := listeners st; invoked := invoked st ++ [l] |}.

Definition unlink (l : nat) (st : state) : state :=
  {| listeners := unsubscribe l (listeners st); invoked := invoked st |}.

Fixpoint perform (acts : script) : M state unit :=
  match acts with
  | [] => ret tt
  | Unsub l :: rest => modify (unlink l) ;; perform rest
  | Raise name :: _ => abort (Thrown name)
  end.

(** [listener.callback()] *)
Definition call_listener (l : nat) (cb : script) : M state unit :=
  modify (record l) ;; perform cb.

(** [notify()], with a bound on the turns of its loop. *)
Definition notify (fuel : nat) : M state unit :=
  batch (listener <- gets (λ st, first (listeners st)) ;;
         notify_loop (λ st, heap (listeners st)) call_listener fuel listener).

(** The state in which a pass starts, after the given calls. *)
Definition start (calls : list (call script)) : state :=
  {| listeners := run calls; invoked := [] |}.

Implicit Types (c : ListenerCollection script) (L ls : list nat) (st : state).

(** *** What a callback does to the collection *)

(** The unsubscribe functions that a callback calls before it returns or
    throws, and the exception that it throws, if any. *)
Fixpoint unsubs (acts : script) : list nat :=
  match acts with
  | [] => []
  | Unsub l :: rest => l :: unsubs rest
  | Raise _ :: _ => []
  end.

Fixpoint raises (acts : script) : option nat :=
  match acts with
  | [] => None
  | Unsub _ :: rest => raises rest
  | Raise name :: _ => Some name
  end.

Definition unlink_all (ls : list nat) (c : ListenerCollection script) :=
  foldl (λ c l, unsubscribe l c) c ls.

Lemma perform_spec acts st :
  perform acts st
  = let st' := {| listeners := unlink_all (unsubs acts) (listeners st);
                  invoked := invoked st |} in
    match raises acts with
    | None => Done tt st'
    | Some name => Abort (Thrown name) st'
    end.
Proof.
  revert st. induction acts as [|[l|name] acts IH]; intros st; simpl.
  - by destruct st.
  - unfold bind, modify. by rewrite IH.
  - by destruct st.
Qed.

(** *** The invariant of a pass

    [L0] are the listeners linked when the pass starts and [L] those linked
    now.  Unlinking a listener leaves its own [next] field as it was, so the
    loop may stand on a listener that is no longer linked; what it follows
    from there still points forward, stays within [L0], and passes no
    listener that is still linked. *)
Record pass_inv (L0 : list nat) (c : ListenerCollection script) (L : list nat) : Prop :=
  mkPassInv {
    pass_linked : linked c L;
    pass_sub : ∀ x, x ∈ L → x ∈ L0;
    pass_cell : ∀ x, x ∈ L0 → is_Some (heap c !! x);
    pass_forward : ∀ x y, x ∈ L0 → next_of x c = Some y → x < y ∧ y ∈ L0;
    pass_gap : ∀ x z, x ∈ L0 → z ∈ L → x < z → ∃ y, next_of x c = Some y ∧ y ≤ z;
  }.

Lemma pass_inv_start c L : linked c L → pass_inv L c L.
Proof.
  intros HL. pose proof (linked_increasing _ _ HL) as Hinc. split; try done.
  - intros x [k Hk]%list_elem_of_lookup_1.
    destruct (linked_cells _ _ HL k x Hk) as (cell & -> & _). eauto.
  - intros x y [k Hk]%list_elem_of_lookup_1 Hy.
    destruct (linked_cells _ _ HL k x Hk) as (cell & Hcell & Hnx & _).
    unfold next_of in Hy. rewrite Hcell, Hnx in Hy. split.
    + apply (Hinc k (S k)); auto.
    + by eapply list_elem_of_lookup_2.
  - intros x z [k Hk]%list_elem_of_lookup_1 [j Hj]%list_elem_of_lookup_1 Hxz.
    destruct (linked_cells _ _ HL k x Hk) as (cell & Hcell & Hnx & _).
    unfold next_of. rewrite Hcell, Hnx.
    assert (k < j).
    { destruct (decide (k < j)); [done|]. destruct (decide (j = k)) as [->|].
      - simplify_eq. lia.
      - pose proof (Hinc j k z x Hj Hk). lia. }
    destruct (lookup_lt_is_Some_2 L (S k)) as [y Hy].
    { apply lookup_lt_Some in Hj. lia. }
    exists y. split; [done|]. destruct (decide (S k = j)) as [<-|].
    + simplify_eq. lia.
    + pose proof (Hinc (S k) j y z Hy Hj). lia.
Qed.

Lemma unsubscribe_next_of l c L k x :
  linked c L → L !! k = Some l →
  next_of x (unsubscribe l c)
  = if decide (prev_of l c = Some x) then next_of l c else next_of x c.
Proof.
  intros HL Hk.
  destruct (linked_cells _ _ HL k l Hk) as (cell & Hcell & Hnb).
  destruct (linked_self _ _ _ _ _ HL Hk Hcell) as [Hn Hp].
  assert (Hflag : isSubscribed c !! l = Some true).
  { apply (linked_flags _ _ HL). by eapply list_elem_of_lookup_2. }
  assert (Hfst : is_Some (first c)).
  { rewrite (linked_first _ _ HL), head_lookup. apply lookup_lt_is_Some.
    apply lookup_lt_Some in Hk. lia. }
  destruct (unsubscribe_effect l c cell Hflag Hfst Hcell Hn Hp) as (_ & _ & _ & Hheap).
  unfold next_of, prev_of. rewrite Hheap, Hcell.
  destruct (heap c !! x) as [cx|] eqn:Hx; simpl.
  - done.
  - case_decide as Hd; [|done]. exfalso.
    destruct Hnb as [_ Hpv]. rewrite Hpv in Hd. destruct k as [|j]; [done|].
    destruct (linked_cells _ _ HL j x Hd) as (? & ? & _). congruence.
Qed.

Lemma unsubscribe_pass_inv L0 l c L :
  pass_inv L0 c L → pass_inv L0 (unsubscribe l c) (filter (λ x, x ≠ l) L).
Proof.
  intros [HL Hsub Hcell Hfwd Hgap].
  destruct (decide (l ∈ L)) as [[k Hk]%list_elem_of_lookup_1|Hl]; last first.
  { rewrite (unsubscribe_unlinked _ _ _ HL Hl).
    rewrite filter_all; [done|]. by intros x Hx ->. }
  pose proof (linked_increasing _ _ HL) as Hinc.
  pose proof (list_elem_of_lookup_2 _ _ _ Hk) as Hl.
  destruct (linked_cells _ _ HL k l Hk) as (cell & Hc & Hnx & Hpv).
  assert (Hnl : next_of l c = L !! S k) by (unfold next_of; by rewrite Hc).
  assert (Hpl : prev_of l c = match k with 0 => None | S j => L !! j end)
    by (unfold prev_of; by rewrite Hc).
  split.
  - rewrite <- (increasing_delete_filter _ k) by done. by apply unsubscribe_linked.
  - intros x [_ Hx]%list_elem_of_filter. auto.
  - intros x Hx. apply lookup_lt_is_Some. rewrite unsubscribe_heap_length.
    apply lookup_lt_is_Some. auto.
  - intros x y Hx. rewrite (unsubscribe_next_of l c L k x HL Hk).
    case_decide as Hd; [|by apply Hfwd]. intros Hy.
    destruct (Hfwd l y (Hsub _ Hl) Hy) as [? ?]. split; [|done].
    rewrite Hpl in Hd. destruct k as [|j]; [done|].
    pose proof (Hinc j (S j) x l Hd Hk). lia.
  - intros x z Hx [Hzl Hz]%list_elem_of_filter Hxz.
    rewrite (unsubscribe_next_of l c L k x HL Hk).
    case_decide as Hd; [|by apply Hgap].
    rewrite Hpl in Hd. destruct k as [|j]; [done|].
    destruct (Hgap x z Hx Hz Hxz) as (y & Hy & Hyz).
    destruct (linked_cells _ _ HL j x Hd) as (cx & Hcx & Hnx' & _).
    unfold next_of in Hy. rewrite Hcx, Hnx', Hk in Hy. simplify_eq.
    apply Hgap; [auto|done|lia].
Qed.

Lemma unlink_all_pass_inv L0 ls c L :
  pass_inv L0 c L → pass_inv L0 (unlink_all ls c) (filter (λ x, x ∉ ls) L).
Proof.
  revert c L. induction ls as [|l ls IH]; intros c L Hinv; simpl.
  - rewrite filter_all; [done|]. intros x _. apply not_elem_of_nil.
  - apply (unsubscribe_pass_inv _ l) in Hinv. apply IH in Hinv.
    rewrite list_filter_filter in Hinv.
    erewrite list_filter_iff; [exact Hinv|].
    intros x. rewrite elem_of_cons. simpl. tauto.
Qed.

Lemma unlink_all_heap ls (c : ListenerCollection script) :
  length (heap (unlink_all ls c)) = length (heap c)
  ∧ callback <$> heap (unlink_all ls c) = callback <$> heap c.
Proof.
  revert c. induction ls as [|l ls IH]; intros c; simpl; [done|].
  destruct (IH (unsubscribe l c)) as [-> ->].
  by rewrite unsubscribe_heap_length, unsubscribe_callbacks.
Qed.

(** *** The loop of a pass *)

Lemma pass_turn fuel l cell st :
  heap (listeners st) !! l = Some cell →
  notify_loop (λ st, heap (listeners st)) call_listener (S fuel) (Some l) st
  = let c1 := unlink_all (unsubs (callback cell)) (listeners st) in
    let st1 := {| listeners := c1; invoked := invoked st ++ [l] |} in
    match raises (callback cell) with
    | None => notify_loop (λ st, heap (listeners st)) call_listener
                fuel (next_of l c1) st1
    | Some name => Abort (Thrown name) st1
    end.
Proof.
  intros Hcell. rewrite (notify_loop_turn _ _ _ _ cell) by done.
  unfold call_listener at 1, bind, modify. rewrite perform_spec. simpl.
  by destruct (raises (callback cell)).
Qed.

Definition from (cur : option nat) (z : nat) : Prop :=
  match cur with Some x => x ≤ z | None => False end.

Lemma increasing_cons x tr :
  increasing tr → (∀ z, z ∈ tr → x < z) → increasing (x :: tr).
Proof.
  intros Htr Hx i j a b Hi Hj Hij. destruct j as [|j]; [lia|].
  destruct i as [|i]; simpl in *.
  - simplify_eq. apply Hx. by eapply list_elem_of_lookup_2.
  - apply (Htr i j); [done..|lia].
Qed.

Lemma increasing_last tr l z :
  increasing tr → list_last tr = Some l → z ∈ tr → z ≤ l.
Proof.
  intros Htr Hl [i Hi]%list_elem_of_lookup_1. rewrite last_lookup in Hl.
  pose proof (lookup_lt_Some _ _ _ Hi).
  destruct (decide (i = pred (length tr))) as [->|]; [simplify_eq; lia|].
  pose proof (Htr i (pred (length tr)) z l Hi Hl). lia.
Qed.

Definition quiet_on (scripts : list script) (tr : list nat) : Prop :=
  ∀ z acts, z ∈ tr → scripts !! z = Some acts → raises acts = None.

Lemma notify_loop_pass_done L0 fuel st L :
  pass_inv L0 (listeners st) L →
  let scripts := callback <$> heap (listeners st) in
  let o := notify_loop (λ st, heap (listeners st)) call_listener fuel None st in
  ∃ tr Lf,
    invoked (final o) = invoked st ++ tr
    ∧ callback <$> heap (listeners (final o)) = scripts
    ∧ pass_inv L0 (listeners (final o)) Lf
    ∧ (∀ z, z ∈ Lf → z ∈ L)
    ∧ increasing tr
    ∧ (∀ z, z ∈ tr → from None z ∧ z ∈ L0)
    ∧ ((o = Done tt (final o) ∧ quiet_on scripts tr
        ∧ (∀ z, z ∈ Lf → from None z → z ∈ tr))
       ∨ (∃ name tr0 l acts,
            o = Abort (Thrown name) (final o) ∧ tr = tr0 ++ [l]
            ∧ scripts !! l = Some acts ∧ raises acts = Some name
            ∧ quiet_on scripts tr0)).
Proof.
  intros Hinv. exists [], L. destruct fuel; simpl; rewrite app_nil_r.
  all: split_and!; try done.
  all: try (by intros ??? ?%lookup_nil_Some).
  all: try (by intros ? ?%elem_of_nil).
  all: left; split_and!; try done; by intros ?? ?%elem_of_nil.
Qed.

Lemma notify_loop_pass L0 fuel cur st L :
  pass_inv L0 (listeners st) L →
  (∀ x, cur = Some x → x ∈ L0 ∧ length (heap (listeners st)) ≤ fuel + x) →
  let scripts := callback <$> heap (listeners st) in
  let o := notify_loop (λ st, heap (listeners st)) call_listener fuel cur st in
  ∃ tr Lf,
    invoked (final o) = invoked st ++ tr
    ∧ callback <$> heap (listeners (final o)) = scripts
    ∧ pass_inv L0 (listeners (final o)) Lf
    ∧ (∀ z, z ∈ Lf → z ∈ L)
    ∧ increasing tr
    ∧ (∀ z, z ∈ tr → from cur z ∧ z ∈ L0)
    ∧ ((o = Done tt (final o) ∧ quiet_on scripts tr
        ∧ (∀ z, z ∈ Lf → from cur z → z ∈ tr))
       ∨ (∃ name tr0 l acts,
            o = Abort (Thrown name) (final o) ∧ tr = tr0 ++ [l]
            ∧ scripts !! l = Some acts ∧ raises acts = Some name
            ∧ quiet_on scripts tr0)).
Proof.
  revert cur st L. induction fuel as [|fuel IH]; intros cur st L Hinv Hcur;
    destruct cur as [x|].
  - destruct (Hcur x eq_refl) as [Hx Hfuel].
    destruct (pass_cell _ _ _ Hinv x Hx) as [cell Hcell].
    apply lookup_lt_Some in Hcell. lia.
  - by apply notify_loop_pass_done.
  - destruct (Hcur x eq_refl) as [Hx Hfuel].
    destruct (pass_cell _ _ _ Hinv x Hx) as [cell Hcell].
    intros scripts o.
    set (c1 := unlink_all (unsubs (callback cell)) (listeners st)).
    set (st1 := {| listeners := c1; invoked := invoked st ++ [x] |}).
    assert (Hstep : o = match raises (callback cell) with
                        | None => notify_loop (λ st, heap (listeners st)) call_listener
                                    fuel (next_of x c1) st1
                        | Some name => Abort (Thrown name) st1
                        end).
    { unfold o. by rewrite (pass_turn _ _ cell). }
    clearbody o. subst o.
    pose proof (unlink_all_pass_inv L0 (unsubs (callback cell)) _ _ Hinv) as Hinv1.
    fold c1 in Hinv1.
    destruct (unlink_all_heap (unsubs (callback cell)) (listeners st)) as [Hlen1 Hcb1].
    fold c1 in Hlen1, Hcb1.
    assert (Hsx : scripts !! x = Some (callback cell)).
    { unfold scripts. by rewrite list_lookup_fmap, Hcell. }
    destruct (raises (callback cell)) as [name|] eqn:Hraise.
    + exists [x], (filter (λ y, y ∉ unsubs (callback cell)) L). simpl.
      split_and!; try done.
      * by intros z [_ ?]%list_elem_of_filter.
      * intros ???? ?%lookup_lt_Some ?%lookup_lt_Some; simpl in *; lia.
      * intros z ->%list_elem_of_singleton. by simpl.
      * right. exists name, [], x, (callback cell). split_and!; try done.
        by intros ?? ?%elem_of_nil.
    + destruct (IH (next_of x c1) st1 _ Hinv1) as (tr & Lf & Htr & Hcb & HinvF & Hsub & Hinc & Hfrom & Hcase).
      { intros y Hy.
        destruct (pass_forward _ _ _ Hinv1 x y Hx Hy) as [? ?].
        split; [done|]. simpl. rewrite Hlen1. lia. }
      set (o' := notify_loop _ _ fuel (next_of x c1) st1) in *.
      exists (x :: tr), Lf. simpl in Htr. rewrite Htr, <- app_assoc. simpl.
      assert (Hlt : ∀ z, z ∈ tr → x < z).
      { intros z Hz. destruct (Hfrom z Hz) as [Hz' _].
        destruct (next_of x c1) as [y|] eqn:Hy; [|done]. simpl in Hz'.
        destruct (pass_forward _ _ _ Hinv1 x y Hx Hy). lia. }
      change (listeners st1) with c1 in Hcb, Hcase.
      rewrite Hcb1 in Hcb, Hcase. fold scripts in Hcb, Hcase.
      split_and!; try done.
      * intros z Hz. apply Hsub in Hz. by apply list_elem_of_filter in Hz as [_ ?].
      * by apply increasing_cons.
      * intros z [->|Hz]%elem_of_cons; [done|]. split; [|by apply Hfrom].
        specialize (Hlt z Hz). simpl. lia.
      * destruct Hcase as [(Ho & Hquiet & Hcover)|(name & tr0 & l & acts & Ho & -> & Hl & Hr & Hquiet)].
        -- left. split_and!; [done| |].
           ++ intros z acts [->|Hz]%elem_of_cons Hacts; [by simplify_eq|].
              by eapply Hquiet.
           ++ intros z Hz Hxz. simpl in Hxz. apply elem_of_cons.
              destruct (decide (z = x)) as [|Hne]; [by left|right].
              apply Hcover; [done|].
              destruct (pass_gap _ _ _ Hinv1 x z Hx (Hsub z Hz)) as (y & Hy & Hyz); [lia|].
              by rewrite Hy.
        -- right. exists name, (x :: tr0), l, acts. split_and!; try done.
           intros z acts' [->|Hz]%elem_of_cons Hacts; [by simplify_eq|].
           by eapply Hquiet.
  - by apply notify_loop_pass_done.
Qed.

(** *** A whole pass, from the state that a sequence of calls leaves *)

Lemma notify_pass (calls : list (call script)) fuel :
  handles_exist 0 calls = true →
  length (subscriptions calls) ≤ fuel →
  let scripts := subscriptions calls in
  let o := notify fuel (start calls) in
  ∃ Lf,
    callback <$> heap (listeners (final o)) = scripts
    ∧ linked (listeners (final o)) Lf
    ∧ (∀ z, z ∈ Lf → z ∈ expected calls)
    ∧ increasing (invoked (final o))
    ∧ (∀ z, z ∈ invoked (final o) → z ∈ expected calls)
    ∧ ((o = Done tt (final o) ∧ quiet_on scripts (invoked (final o))
        ∧ (∀ z, z ∈ Lf → z ∈ invoked (final o)))
       ∨ (∃ name tr0 l acts,
            o = Abort (Thrown name) (final o) ∧ invoked (final o) = tr0 ++ [l]
            ∧ scripts !! l = Some acts ∧ raises acts = Some name
            ∧ quiet_on scripts tr0)).
Proof.
  intros Hwf Hfuel scripts o.
  destruct (run_linked calls Hwf) as [HL Hcb].
  pose proof (pass_inv_start _ _ HL) as Hinv.
  destruct (notify_loop_pass (expected calls) fuel (first (run calls)) (start calls)
              (expected calls) Hinv) as (tr & Lf & Htr & Hcbf & HinvF & Hsub & Hinc & Hfrom & Hcase).
  { intros x Hx. simpl in *. rewrite (linked_first _ _ HL), head_lookup in Hx.
    split; [by eapply list_elem_of_lookup_2|].
    rewrite <- (length_fmap callback), Hcb. lia. }
  change (notify_loop _ _ fuel (first (run calls)) (start calls)) with o in *.
  change (listeners (start calls)) with (run calls) in *.
  simpl in Htr. rewrite Hcb in Hcbf, Hcase. fold scripts in Hcbf, Hcase.
  rewrite <- Htr in *.
  exists Lf. split_and!; try done.
  - apply HinvF.
  - intros z Hz. by apply Hfrom.
  - destruct Hcase as [(Ho & Hquiet & Hcover)|Hcase]; [left|by right].
    split_and!; try done. intros z Hz. apply Hcover; [done|].
    simpl. rewrite (linked_first _ _ HL), head_lookup.
    destruct (list_elem_of_lookup_1 _ _ (Hsub z Hz)) as [j Hj].
    destruct (lookup_lt_is_Some_2 (expected calls) 0) as [a Ha].
    { apply lookup_lt_Some in Hj. lia. }
    rewrite Ha. simpl. destruct j as [|j]; [by simplify_eq|].
    pose proof (linked_increasing _ _ HL 0 (S j) a z Ha Hj). lia.
Qed.

(** C8. When the callback of a listener that a pass invokes throws, the
    exception leaves [notify] as it is, with that listener as the last one
    invoked: no listener after it in registration order is invoked in that
    pass. *)
Theorem throwing_listener_halts_pass (calls : list (call script)) fuel l acts name :
  handles_exist 0 calls = true →
  length (subscriptions calls) ≤ fuel →
  subscriptions calls !! l = Some acts →
  raises acts = Some name →
  l ∈ invoked (final (notify fuel (start calls))) →
  ∃ st, notify fuel (start calls) = Abort (Thrown name) st
        ∧ list_last (invoked st) = Some l
        ∧ ∀ l', l < l' → l' ∉ invoked st.
Proof.
  intros Hwf Hfuel Hacts Hraise Hl.
  destruct (notify_pass calls fuel Hwf Hfuel)
    as (Lf & _ & _ & _ & Hinc & _ & [(_ & Hquiet & _)|Hcase]).
  { specialize (Hquiet l acts Hl Hacts). congruence. }
  destruct Hcase as (name' & tr0 & l0 & acts0 & Ho & Htr & Hacts0 & Hraise0 & Hquiet).
  rewrite Htr in Hl. apply elem_of_app in Hl as [Hl|Hl%list_elem_of_singleton].
  { specialize (Hquiet l acts Hl Hacts). congruence. }
  subst l0. simplify_eq. eexists. split; [exact Ho|].
  assert (Hlast : list_last (invoked (final (notify fuel (start calls)))) = Some l)
    by (rewrite Htr; apply last_snoc).
  split; [done|]. intros l' Hlt Hin.
  pose proof (increasing_last _ _ _ Hinc Hlast Hin). lia.
Qed.

Lemma throwing_listener_halts_pass_witness :
  let calls := [Subscribe []; Subscribe [Unsub 1; Raise 7]; Subscribe []] in
  ∃ st, notify 3 (start calls) = Abort (Thrown 7) st
        ∧ list_last (invoked st) = Some 1
        ∧ ∀ l', 1 < l' → l' ∉ invoked st.
Proof.
  intros calls.
  apply (throwing_listener_halts_pass calls 3 1 [Unsub 1; Raise 7] 7);
    [reflexivity|simpl; lia|reflexivity|reflexivity|].
  vm_compute. apply list_elem_of_In. simpl. auto.
Defined.

(** *** Callbacks that only unsubscribe *)

(** The callback throws nothing. *)
Definition quiet (acts : script) : bool :=
  match raises acts with None => true | Some _ => false end.

(** The pass as the specification describes it: the listeners linked when
    the pass starts are visited in order, a listener that was unsubscribed
    before its turn is skipped, and every other one is invoked once. *)
Definition removes (scripts : list script) (l : nat) : list nat :=
  match scripts !! l with Some acts => unsubs acts | None => [] end.

Fixpoint skipping (scripts : list script) (pending removed : list nat) : list nat :=
  match pending with
  | [] => []
  | l :: rest =>
      if decide (l ∈ removed) then skipping scripts rest removed
      else l :: skipping scripts rest (removes scripts l ++ removed)
  end.

(** The callback of listener [l], called while the listeners [R] follow [l]
    in the list: once it has unsubscribed [l] itself, it does not
    unsubscribe the listener that followed [l] at that moment. *)
Fixpoint heedful (l : nat) (R : list nat) (acts : script) : bool :=
  match acts with
  | [] => true
  | Unsub x :: rest =>
      if decide (x = l)
      then match R with
           | [] => true
           | y :: _ => bool_decide (y ∉ unsubs rest)
           end
      else heedful l (filter (λ z, z ≠ x) R) rest
  | Raise _ :: _ => true
  end.

(** Every callback that the pass of the specification invokes is heedful
    of the listeners that follow its own when it is called. *)
Fixpoint clean (scripts : list script) (pending removed : list nat) : bool :=
  match pending with
  | [] => true
  | l :: rest =>
      if decide (l ∈ removed) then clean scripts rest removed
      else heedful l (filter (λ x, x ∉ removed) rest)
             (match scripts !! l with Some acts => acts | None => [] end)
           && clean scripts rest (removes scripts l ++ removed)
  end.

Lemma unlink_all_linked ls c L :
  linked c L → linked (unlink_all ls c) (filter (λ x, x ∉ ls) L).
Proof. intros HL. apply (unlink_all_pass_inv L), pass_inv_start, HL. Qed.

Lemma linked_next_of c L1 l L2 :
  linked c (L1 ++ l :: L2) → next_of l c = head L2.
Proof.
  intros HL. destruct (linked_cells _ _ HL (length L1) l) as (x & Hx & Hnx & _).
  { by rewrite lookup_app_r, Nat.sub_diag. }
  unfold next_of. rewrite Hx, Hnx, head_lookup, lookup_app_r by lia.
  by replace (S (length L1) - length L1) with 1 by lia.
Qed.

Lemma linked_not_twice c L1 l L2 :
  linked c (L1 ++ l :: L2) → (l ∉ L1) ∧ (l ∉ L2).
Proof.
  intros HL. pose proof (linked_increasing _ _ HL) as Hinc.
  assert (Hl : (L1 ++ l :: L2) !! length L1 = Some l)
    by (by rewrite lookup_app_r, Nat.sub_diag).
  split; intros [i Hi]%list_elem_of_lookup_1.
  - pose proof (lookup_lt_Some _ _ _ Hi) as Hlt.
    pose proof (Hinc i (length L1) l l) as Hil.
    rewrite lookup_app_l in Hil by done. specialize (Hil Hi Hl). lia.
  - pose proof (Hinc (length L1) (S (length L1 + i)) l l Hl) as Hli.
    rewrite lookup_app_r in Hli by lia.
    replace (S (length L1 + i) - length L1) with (S i) in Hli by lia.
    specialize (Hli Hi). lia.
Qed.

Lemma linked_after c L1 l L2 x :
  linked c (L1 ++ l :: L2) → x ∈ L2 → l < x.
Proof.
  intros HL [i Hi]%list_elem_of_lookup_1.
  pose proof (linked_increasing _ _ HL) as Hinc.
  apply (Hinc (length L1) (S (length L1 + i)) l x); [| |lia].
  - by rewrite lookup_app_r, Nat.sub_diag.
  - rewrite lookup_app_r by lia.
    by replace (S (length L1 + i) - length L1) with (S i) by lia.
Qed.

(** The [next] field of a listener that is not linked stays as it is. *)
Lemma stale_next l ls :
  ∀ c L, linked c L → l ∉ L → next_of l (unlink_all ls c) = next_of l c.
Proof.
  induction ls as [|x ls IH]; intros c L HL Hl; [done|]. simpl.
  destruct (decide (x ∈ L)) as [[k Hk]%list_elem_of_lookup_1|Hx]; last first.
  { rewrite (unsubscribe_unlinked _ _ _ HL Hx). by apply (IH c L). }
  rewrite (IH (unsubscribe x c) (filter (λ z, z ≠ x) L)).
  - rewrite (unsubscribe_next_of x c L k l HL Hk).
    apply decide_False. intros Hp.
    destruct (linked_cells _ _ HL k x Hk) as (cell & Hcell & _ & Hpv).
    unfold prev_of in Hp. rewrite Hcell, Hpv in Hp.
    destruct k as [|j]; [done|]. apply Hl. by eapply list_elem_of_lookup_2.
  - apply (unsubscribe_pass_inv L), pass_inv_start, HL.
  - by intros [_ ?]%list_elem_of_filter.
Qed.

(** Where the loop goes from a listener whose callback unsubscribed the
    listener itself: to the listener that followed it at that moment. *)
Lemma self_unsubscribed_next l ls c L1 R :
  linked c (L1 ++ l :: R) →
  next_of l (unlink_all ls (unsubscribe l c)) = head R.
Proof.
  intros HL. destruct (linked_not_twice _ _ _ _ HL) as [Hl1 Hl2].
  pose proof (unsubscribe_pass_inv _ l _ _ (pass_inv_start _ _ HL)) as [HL' _ _ _ _].
  rewrite (stale_next l ls _ _ HL').
  - assert (Hk : (L1 ++ l :: R) !! length L1 = Some l)
      by (by rewrite lookup_app_r, Nat.sub_diag).
    rewrite (unsubscribe_next_of l c _ _ l HL Hk).
    destruct (linked_cells _ _ HL _ _ Hk) as (cell & Hcell & _).
    destruct (linked_self _ _ _ _ _ HL Hk Hcell) as [_ Hp].
    rewrite decide_False by (unfold prev_of; by rewrite Hcell).
    by rewrite (linked_next_of _ _ _ _ HL).
  - by intros [? _]%list_elem_of_filter.
Qed.

Lemma unsubscribe_other_linked x l c L1 R :
  x ≠ l → linked c (L1 ++ l :: R) →
  linked (unsubscribe x c) (filter (λ z, z ≠ x) L1 ++ l :: filter (λ z, z ≠ x) R).
Proof.
  intros Hx HL.
  pose proof (unsubscribe_pass_inv _ x _ _ (pass_inv_start _ _ HL)) as [HL' _ _ _ _].
  rewrite filter_app in HL'. by rewrite filter_cons_True in HL' by done.
Qed.

Lemma heedful_next l acts :
  ∀ c L1 R, linked c (L1 ++ l :: R) → heedful l R acts = true →
    next_of l (unlink_all (unsubs acts) c) = head (filter (λ x, x ∉ unsubs acts) R).
Proof.
  induction acts as [|[x|name] acts IH]; intros c L1 R HL Hheed; simpl in *.
  - rewrite filter_all by (intros; apply not_elem_of_nil). by eapply linked_next_of.
  - destruct (linked_not_twice _ _ _ _ HL) as [Hl1 Hl2]. case_decide as Hx.
    + subst x. rewrite (self_unsubscribed_next l _ c L1 R HL).
      destruct R as [|y R]; [done|].
      apply bool_decide_eq_true in Hheed.
      rewrite filter_cons_True; [done|].
      intros [->|Hy]%elem_of_cons; [|done]. apply Hl2. by left.
    + rewrite (IH _ _ _ (unsubscribe_other_linked x l c L1 R Hx HL) Hheed).
      rewrite list_filter_filter. f_equal.
      apply list_filter_iff. intros z. rewrite elem_of_cons. tauto.
  - rewrite filter_all by (intros; apply not_elem_of_nil). by eapply linked_next_of.
Qed.

Lemma heedless_next l acts :
  ∀ c L1 R, linked c (L1 ++ l :: R) → heedful l R acts = false →
    ∃ y, next_of l (unlink_all (unsubs acts) c) = Some y ∧ y ∈ R ∧ y ∈ unsubs acts.
Proof.
  induction acts as [|[x|name] acts IH]; intros c L1 R HL Hheed; simpl in *;
    [done| |done].
  case_decide as Hx.
  - subst x. rewrite (self_unsubscribed_next l _ c L1 R HL).
    destruct R as [|y R]; [done|].
    apply bool_decide_eq_false in Hheed.
    exists y. split_and!; [done|by left|].
    right. destruct (decide (y ∈ unsubs acts)); [done|]. by destruct Hheed.
  - destruct (IH _ _ _ (unsubscribe_other_linked x l c L1 R Hx HL) Hheed)
      as (y & Hy & [_ HyR]%list_elem_of_filter & Hyu).
    exists y. split_and!; [done|done|by right].
Qed.

Lemma skipping_sub scripts pending :
  ∀ removed z, z ∈ skipping scripts pending removed → z ∈ pending ∧ z ∉ removed.
Proof.
  induction pending as [|l rest IH]; intros removed z; simpl.
  { by intros ?%elem_of_nil. }
  case_decide as Hl.
  - intros [? ?]%IH. split; [by right|done].
  - intros [->|[? Hz]%IH]%elem_of_cons; [split; [by left|done]|].
    split; [by right|]. intros ?. apply Hz, elem_of_app. by right.
Qed.

(** The listeners that a loop has invoked stay invoked. *)
Lemma notify_loop_grows fuel :
  ∀ cur st, ∃ tr,
    invoked (final (notify_loop (λ st, heap (listeners st)) call_listener fuel cur st))
    = invoked st ++ tr.
Proof.
  induction fuel as [|fuel IH]; intros cur st.
  { exists []. rewrite app_nil_r. by destruct cur. }
  destruct cur as [l|]; [|exists []; by rewrite app_nil_r].
  destruct (heap (listeners st) !! l) as [cell|] eqn:Hcell; last first.
  { exists []. rewrite app_nil_r. simpl. unfold bind, gets. by rewrite Hcell. }
  rewrite (pass_turn _ _ cell) by done. cbv zeta.
  destruct (raises (callback cell)).
  - by exists [l].
  - destruct (IH (next_of l (unlink_all (unsubs (callback cell)) (listeners st)))
                {| listeners := unlink_all (unsubs (callback cell)) (listeners st);
                   invoked := invoked st ++ [l] |}) as [tr Htr].
    exists (l :: tr). rewrite Htr. simpl. by rewrite <- app_assoc.
Qed.

(** A pass whose callbacks are heedful is the pass of the specification. *)
Lemma notify_loop_clean scripts pending :
  ∀ removed st L1 fuel,
    linked (listeners st) (L1 ++ filter (λ x, x ∉ removed) pending) →
    callback <$> heap (listeners st) = scripts →
    (∀ acts, acts ∈ scripts → raises acts = None) →
    clean scripts pending removed = true →
    length (filter (λ x, x ∉ removed) pending) ≤ fuel →
    ∃ stf,
      notify_loop (λ st, heap (listeners st)) call_listener fuel
        (head (filter (λ x, x ∉ removed) pending)) st = Done tt stf
      ∧ invoked stf = invoked st ++ skipping scripts pending removed.
Proof.
  induction pending as [|l rest IH]; intros removed st L1 fuel HL Hcb Hquiet Hclean Hfuel.
  { exists st. rewrite notify_loop_end. simpl. by rewrite app_nil_r. }
  simpl skipping. simpl in Hclean. destruct (decide (l ∈ removed)) as [Hl|Hl].
  { rewrite filter_cons_False in * by tauto. by apply (IH _ _ L1). }
  rewrite filter_cons_True in * by done. simpl in Hfuel.
  apply andb_prop in Hclean as [Hheed Hclean].
  destruct fuel as [|fuel]; [lia|].
  set (R := filter (λ x, x ∉ removed) rest) in *.
  change (head (l :: R)) with (Some l).
  destruct (linked_cells _ _ HL (length L1) l) as (cell & Hcell & _).
  { by rewrite lookup_app_r, Nat.sub_diag. }
  assert (Hacts : scripts !! l = Some (callback cell)).
  { by rewrite <- Hcb, list_lookup_fmap, Hcell. }
  unfold removes in Hclean |- *. rewrite Hacts in Hheed, Hclean |- *. simpl in Hheed.
  set (acts := callback cell) in *.
  set (c1 := unlink_all (unsubs acts) (listeners st)).
  set (st1 := {| listeners := c1; invoked := invoked st ++ [l] |}).
  rewrite (pass_turn _ _ cell) by done. simpl.
  fold acts. rewrite (Hquiet acts) by (by eapply list_elem_of_lookup_2).
  fold c1 st1.
  unfold c1 at 1. rewrite (heedful_next l acts _ L1 R HL Hheed).
  unfold R. rewrite list_filter_filter.
  rewrite (list_filter_iff _ (λ x, x ∉ unsubs acts ++ removed))
    by (intros z; rewrite elem_of_app; tauto).
  destruct (IH (unsubs acts ++ removed) st1
              (filter (λ x, x ∉ unsubs acts) (L1 ++ [l])) fuel) as (stf & Ho & Hinv).
  - pose proof (unlink_all_linked (unsubs acts) _ _ HL) as HL1.
    rewrite (assoc_L _ L1 [l] R : L1 ++ l :: R = (L1 ++ [l]) ++ R), filter_app in HL1.
    unfold R in HL1. rewrite list_filter_filter in HL1.
    rewrite (list_filter_iff (λ x, (x ∉ unsubs acts) ∧ (x ∉ removed))
               (λ x, x ∉ unsubs acts ++ removed)) in HL1
      by (intros z; rewrite elem_of_app; tauto).
    exact HL1.
  - simpl. unfold c1. by destruct (unlink_all_heap (unsubs acts) (listeners st)) as [_ ->].
  - done.
  - done.
  - etrans; [|exact (le_S_n _ _ Hfuel)]. unfold R.
    rewrite <- (list_filter_filter_l (λ x, x ∉ unsubs acts ++ removed) (λ x, x ∉ removed)).
    + apply length_filter.
    + intros z. rewrite elem_of_app. tauto.
  - exists stf. split; [done|]. rewrite Hinv. simpl. by rewrite <- app_assoc.
Qed.

(** A pass with a callback that is not heedful invokes a listener that the
    pass of the specification skips. *)
Lemma notify_loop_unclean scripts pending :
  ∀ removed st L1 fuel,
    linked (listeners st) (L1 ++ filter (λ x, x ∉ removed) pending) →
    callback <$> heap (listeners st) = scripts →
    (∀ acts, acts ∈ scripts → raises acts = None) →
    (∀ x, x ∈ filter (λ x, x ∉ removed) pending → length scripts ≤ fuel + x) →
    clean scripts pending removed = false →
    ∃ y,
      y ∈ invoked (final (notify_loop (λ st, heap (listeners st)) call_listener fuel
                            (head (filter (λ x, x ∉ removed) pending)) st))
      ∧ y ∈ filter (λ x, x ∉ removed) pending
      ∧ y ∉ skipping scripts pending removed.
Proof.
  induction pending as [|l rest IH]; intros removed st L1 fuel HL Hcb Hquiet Hfuel Hclean;
    [done|].
  simpl skipping. simpl in Hclean. destruct (decide (l ∈ removed)) as [Hl|Hl].
  { rewrite filter_cons_False in * by tauto. by apply (IH _ _ L1). }
  rewrite filter_cons_True in * by done.
  set (R := filter (λ x, x ∉ removed) rest) in *.
  change (head (l :: R)) with (Some l).
  destruct (linked_cells _ _ HL (length L1) l) as (cell & Hcell & _).
  { by rewrite lookup_app_r, Nat.sub_diag. }
  assert (Hacts : scripts !! l = Some (callback cell)).
  { by rewrite <- Hcb, list_lookup_fmap, Hcell. }
  assert (Hlen : length scripts = length (heap (listeners st))).
  { by rewrite <- Hcb, length_fmap. }
  destruct fuel as [|fuel].
  { specialize (Hfuel l ltac:(by left)). apply lookup_lt_Some in Hcell. lia. }
  unfold removes in Hclean |- *. rewrite Hacts in Hclean |- *. simpl in Hclean.
  set (acts := callback cell) in *.
  set (c1 := unlink_all (unsubs acts) (listeners st)).
  set (st1 := {| listeners := c1; invoked := invoked st ++ [l] |}).
  rewrite (pass_turn _ _ cell) by done. cbv zeta.
  fold acts. rewrite (Hquiet acts) by (by eapply list_elem_of_lookup_2).
  fold c1 st1.
  destruct (unlink_all_heap (unsubs acts) (listeners st)) as [Hlen1 Hcb1].
  fold c1 in Hlen1, Hcb1.
  destruct (heedful l R acts) eqn:Hheed; simpl in Hclean.
  - unfold c1 at 1. rewrite (heedful_next l acts _ L1 R HL Hheed).
    unfold R. rewrite list_filter_filter.
    rewrite (list_filter_iff _ (λ x, x ∉ unsubs acts ++ removed))
      by (intros z; rewrite elem_of_app; tauto).
    destruct (IH (unsubs acts ++ removed) st1
                (filter (λ x, x ∉ unsubs acts) (L1 ++ [l])) fuel)
      as (y & Hy & Hin & Hskip); [| | | |done|].
    + pose proof (unlink_all_linked (unsubs acts) _ _ HL) as HL1.
      rewrite (assoc_L _ L1 [l] R : L1 ++ l :: R = (L1 ++ [l]) ++ R), filter_app in HL1.
      unfold R in HL1. rewrite list_filter_filter in HL1.
      rewrite (list_filter_iff (λ x, (x ∉ unsubs acts) ∧ (x ∉ removed))
                 (λ x, x ∉ unsubs acts ++ removed)) in HL1
        by (intros z; rewrite elem_of_app; tauto).
      exact HL1.
    + simpl. by rewrite Hcb1.
    + done.
    + intros x [Hx Hxr]%list_elem_of_filter.
      assert (l < x).
      { apply (linked_after _ _ _ _ _ HL). apply list_elem_of_filter.
        split; [|done]. intros ?. apply Hx, elem_of_app. by right. }
      specialize (Hfuel l ltac:(by left)). lia.
    + apply list_elem_of_filter in Hin as [Hyr Hyrest].
      assert (HyR : y ∈ R).
      { apply list_elem_of_filter. split; [|done].
        intros ?. apply Hyr, elem_of_app. by right. }
      exists y. split_and!; [done|by right|].
      intros [->|?]%elem_of_cons; [|done].
      pose proof (linked_after _ _ _ _ _ HL HyR). lia.
  - destruct (heedless_next l acts _ L1 R HL Hheed) as (y & Hy & HyR & Hyu).
    fold c1 in Hy. rewrite Hy.
    pose proof (linked_after _ _ _ _ _ HL HyR) as Hly.
    assert (Hycell : is_Some (heap c1 !! y)).
    { apply lookup_lt_is_Some. rewrite Hlen1.
      apply (linked_bound _ _ _ HL). apply elem_of_app. right. by right. }
    destruct Hycell as [ycell Hycell].
    destruct fuel as [|fuel].
    { specialize (Hfuel l ltac:(by left)). apply lookup_lt_Some in Hycell. lia. }
    exists y. split_and!.
    + rewrite (pass_turn _ _ ycell) by done. cbv zeta.
      destruct (raises (callback ycell)).
      * simpl. apply elem_of_app. right. by left.
      * match goal with |- _ ∈ invoked (final (notify_loop _ _ _ ?cur ?st')) =>
          destruct (notify_loop_grows fuel cur st') as [tr ->] end.
        simpl. apply elem_of_app. left. apply elem_of_app. right. by left.
    + by right.
    + intros [->|[_ Hskip]%skipping_sub]%elem_of_cons; [lia|].
      apply Hskip, elem_of_app. by left.
Qed.

(** A pass reaches every listener that no callback invoked before its turn
    has unsubscribed. *)
Lemma notify_loop_reaches L0 fuel :
  ∀ cur st L,
    pass_inv L0 (listeners st) L →
    (∀ x, cur = Some x → x ∈ L0 ∧ length (heap (listeners st)) ≤ fuel + x) →
    let scripts := callback <$> heap (listeners st) in
    (∀ acts, acts ∈ scripts → raises acts = None) →
    ∃ tr,
      invoked (final (notify_loop (λ st, heap (listeners st)) call_listener fuel cur st))
      = invoked st ++ tr
      ∧ ∀ z, z ∈ L → from cur z →
             (∀ x, x ∈ tr → x < z → z ∉ removes scripts x) → z ∈ tr.
Proof.
  induction fuel as [|fuel IH]; intros cur st L Hinv Hcur scripts Hquiet;
    destruct cur as [x|].
  - destruct (Hcur x eq_refl) as [Hx Hfuel].
    destruct (pass_cell _ _ _ Hinv x Hx) as [cell Hcell].
    apply lookup_lt_Some in Hcell. lia.
  - exists []. rewrite app_nil_r. by split.
  - destruct (Hcur x eq_refl) as [Hx Hfuel].
    destruct (pass_cell _ _ _ Hinv x Hx) as [cell Hcell].
    set (c1 := unlink_all (unsubs (callback cell)) (listeners st)).
    set (st1 := {| listeners := c1; invoked := invoked st ++ [x] |}).
    pose proof (unlink_all_pass_inv L0 (unsubs (callback cell)) _ _ Hinv) as Hinv1.
    fold c1 in Hinv1.
    destruct (unlink_all_heap (unsubs (callback cell)) (listeners st)) as [Hlen1 Hcb1].
    fold c1 in Hlen1, Hcb1.
    assert (Hsx : scripts !! x = Some (callback cell)).
    { unfold scripts. by rewrite list_lookup_fmap, Hcell. }
    rewrite (pass_turn _ _ cell) by done. cbv zeta. fold c1 st1.
    rewrite (Hquiet (callback cell)) by (by eapply list_elem_of_lookup_2).
    destruct (IH (next_of x c1) st1 _ Hinv1) as (tr & Htr & Hreach).
    { intros y Hy. destruct (pass_forward _ _ _ Hinv1 x y Hx Hy) as [? ?].
      split; [done|]. simpl. rewrite Hlen1. lia. }
    { simpl. by rewrite Hcb1. }
    exists (x :: tr). split.
    { rewrite Htr. simpl. by rewrite <- app_assoc. }
    intros z Hz Hxz Hkeep. simpl in Hxz.
    destruct (decide (z = x)) as [->|Hne]; [by left|right].
    assert (Hzl : z ∈ filter (λ y, y ∉ unsubs (callback cell)) L).
    { apply list_elem_of_filter. split; [|done].
      specialize (Hkeep x ltac:(by left) ltac:(lia)).
      unfold removes in Hkeep. by rewrite Hsx in Hkeep. }
    apply Hreach; [done| |].
    + destruct (pass_gap _ _ _ Hinv1 x z Hx Hzl) as (y & Hy & Hyz); [lia|].
      by rewrite Hy.
    + intros y Hy Hyz. simpl. rewrite Hcb1. apply Hkeep; [by right|done].
  - exists []. rewrite app_nil_r. by split.
Qed.

Lemma notify_unfold fuel (calls : list (call script)) :
  notify fuel (start calls)
  = notify_loop (λ st, heap (listeners st)) call_listener fuel
      (first (run calls)) (start calls).
Proof. reflexivity. Qed.




End Pass.

(** ** Subscription nodes *)

Module Subscription.

(** The functions that subscribing returns: the cleanup closure of the
    [k]-th [addNestedSub] call on node [s], and the unsubscribe function of
    the [i]-th [store.subscribe] call. *)
Inductive handle : Type :=
  | NestedSub (s k : nat)
  | StoreSub (i : nat).

(** The functions of type [VoidFunc] that are passed around and called. *)
Inductive closure : Type :=
  | Consumer (name : nat)           (* a callback of the application; a call is logged *)
  | HandleChangeWrapper (s : nat)   (* [subscription.handleChangeWrapper] of node [s] *)
  | NotifyNestedSubs (s : nat)      (* [subscription.notifyNestedSubs] *)
  | TrySubscribe (s : nat)          (* [subscription.trySubscribe], the self variant *)
  | TryUnsubscribe (s : nat)        (* [subscription.tryUnsubscribe], the self variant *)
  | Unsubscribe (h : handle).       (* a function that subscribing returned *)

(** What the log records. *)
Inductive event : Type :=
  | Called (name : nat)                            (* a consumer callback ran *)
  | Dispatched (src : option nat) (cb : closure)   (* the registry of node [src], or the store, invoked [cb] *)
  | Notified (s : nat)                             (* [notifyNestedSubs] of node [s] was called *)
  | Connected (s : nat)                            (* node [s] invoked its upstream subscribe *)
  | Disconnected (s : nat).                        (* node [s] invoked its stored upstream unsubscribe *)

#[export] Instance handle_eq_dec : EqDecision handle.
Proof. solve_decision. Defined.
#[export] Instance closure_eq_dec : EqDecision closure.
Proof. solve_decision. Defined.
#[export] Instance event_eq_dec : EqDecision event.
Proof. solve_decision. Defined.

(** The closure state of one [addNestedSub] call: its [removed] flag and
    the [cleanupListener] it holds, an unsubscribe function of a listener of
    one of the collections of the node. *)
Record remover : Type := mkRemover {
  removed : bool;
  cleanupListener : nat * nat;
}.

(** The state closed over by one call of [createSubscription], with the
    collections and the cleanup closures that the node has created so far. *)
Record node : Type := mkNode {
  parentSub : option nat;
  unsubscribe : option handle;
  listeners : option nat;        (* [None] is [nullListeners], [Some r] the [r]-th collection *)
  subscriptionsAmount : Z;
  selfSubscribed : bool;
  onStateChange : option closure;
  collections : list (Registry.ListenerCollection closure);
  removers : list remover;
}.

(** Modelled from the spec: the root state container of section 6, whose
    [subscribe(callback)] "registers one listener, fires on every state
    change, returns an idempotent unsubscribe" and whose [getState()] is a
    "synchronous read of current state".  States are compared by
    reference, so a state is a name. *)
Record Store : Type := mkStore {
  state : nat;
  registered : list (closure * bool);
}.

Record World : Type := mkWorld {
  nodes : list node;
  store : Store;
  log : list event;
}.

Definition init : World :=
  {| nodes := []; store := {| state := 0; registered := [] |}; log := [] |}.

(** *** Reading and writing the world *)

Definition set_nodes (f : list node → list node) (w : World) : World :=
  {| nodes := f (nodes w); store := store w; log := log w |}.
Definition set_store (f : Store → Store) (w : World) : World :=
  {| nodes := nodes w; store := f (store w); log := log w |}.

Definition emit (e : event) : M World unit :=
  modify (λ w, {| nodes := nodes w; store := store w; log := log w ++ [e] |}).

Definition get_node (s : nat) : M World node :=
  fun w => match nodes w !! s with
           | Some n => Done n w
           | None => Abort Dangling w
           end.

Definition update_node (s : nat) (f : node → node) : M World unit :=
  modify (set_nodes (alter f s)).

Definition with_amount (v : Z) (n : node) : node :=
  {| parentSub := parentSub n; unsubscribe := unsubscribe n; listeners := listeners n;
     subscriptionsAmount := v; selfSubscribed := selfSubscribed n;
     onStateChange := onStateChange n; collections := collections n;
     removers := removers n |}.
Definition with_selfSubscribed (v : bool) (n : node) : node :=
  {| parentSub := parentSub n; unsubscribe := unsubscribe n; listeners := listeners n;
     subscriptionsAmount := subscriptionsAmount n; selfSubscribed := v;
     onStateChange := onStateChange n; collections := collections n;
     removers := removers n |}.
Definition with_onStateChange (v : option closure) (n : node) : node :=
  {| parentSub := parentSub n; unsubscribe := unsubscribe n; listeners := listeners n;
     subscriptionsAmount := subscriptionsAmount n; selfSubscribed := selfSubscribed n;
     onStateChange := v; collections := collections n;
     removers := removers n |}.
Definition with_unsubscribe (v : option handle) (n : node) : node :=
  {| parentSub := parentSub n; unsubscribe := v; listeners := listeners n;
     subscriptionsAmount := subscriptionsAmount n; selfSubscribed := selfSubscribed n;
     onStateChange := onStateChange n; collections := collections n;
     removers := removers n |}.
Definition with_listeners (v : option nat) (n : node) : node :=
  {| parentSub := parentSub n; unsubscribe := unsubscribe n; listeners := v;
     subscriptionsAmount := subscriptionsAmount n; selfSubscribed := selfSubscribed n;
     onStateChange := onStateChange n; collections := collections n;
     removers := removers n |}.
Definition with_collections (v : list (Registry.ListenerCollection closure)) (n : node) : node :=
  {| parentSub := parentSub n; unsubscribe := unsubscribe n; listeners := listeners n;
     subscriptionsAmount := subscriptionsAmount n; selfSubscribed := selfSubscribed n;
     onStateChange := onStateChange n; collections := v;
     removers := removers n |}.
Definition with_removers (v : list remover) (n : node) : node :=
  {| parentSub := parentSub n; unsubscribe := unsubscribe n; listeners := listeners n;
     subscriptionsAmount := subscriptionsAmount n; selfSubscribed := selfSubscribed n;
     onStateChange := onStateChange n; collections := collections n;
     removers := v |}.

(** *** The store *)

(** [store.subscribe(listener)] *)
Definition store_subscribe (listener : closure) : M World handle :=
  i <- gets (λ w, length (registered (store w))) ;;
  modify (set_store (λ st, {| state := state st;
                              registered := registered st ++ [(listener, true)] |})) ;;
  ret (StoreSub i).

(** The unsubscribe function that the [i]-th [store.subscribe] returned. *)
Definition store_unsubscribe (i : nat) : M World unit :=
  modify (set_store (λ st, {| state := state st;
                              registered := alter (λ e, (e.1, false)) i (registered st) |})).

(** [store.getState()] *)
Definition getState : M World nat := gets (λ w, state (store w)).

(** *** [createSubscription(store, parentSub)] *)

Definition createSubscription (parent : option nat) : M World nat :=
  s <- gets (λ w, length (nodes w)) ;;
  match parent with
  | Some p => if decide (p < s) then ret tt else abort Dangling
  | None => ret tt
  end ;;
  modify (set_nodes (λ ns, ns ++ [ {| parentSub := parent; unsubscribe := None;
                                      listeners := None; subscriptionsAmount := 0;
                                      selfSubscribed := false; onStateChange := None;
                                      collections := []; removers := [] |} ])) ;;
  ret s.

(** The node once [listeners.subscribe(listener)] has run on its [r]-th
    collection [c] and the cleanup closure of the call exists. *)
Definition enlist (r : nat) (c : Registry.ListenerCollection closure)
    (listener : closure) (n : node) : node :=
  with_removers (removers n ++ [ {| removed := false;
                                   cleanupListener := (r, (Registry.subscribe listener c).1) |} ])
    (with_collections (<[r := (Registry.subscribe listener c).2]> (collections n)) n).

(** The node once [unsubscribe = h] and
    [listeners = createListenerCollection()] have run. *)
Definition install (h : handle) (n : node) : node :=
  with_listeners (Some (length (collections n)))
    (with_collections (collections n ++ [Registry.createListenerCollection])
       (with_unsubscribe (Some h) n)).

(** The node once [removed = true] and [cleanupListener()] have run in the
    [k]-th cleanup closure. *)
Definition strike (k : nat) (rm : remover) (n : node) : node :=
  with_collections (alter (Registry.unsubscribe (cleanupListener rm).2)
                      (cleanupListener rm).1 (collections n))
    (with_removers (<[k := {| removed := true; cleanupListener := cleanupListener rm |}]>
                      (removers n)) n).

(** The node once [listeners.clear()] and [listeners = nullListeners] have
    run. *)
Definition uninstall (r : nat) (n : node) : node :=
  with_listeners None (with_collections (alter Registry.clear r (collections n)) n).

(** [addNestedSub(listener)], over the [trySubscribe] that it calls.  The
    result is the index of the cleanup closure that is returned. *)
Definition addNestedSub_with (trySubscribe : nat → M World unit)
    (s : nat) (listener : closure) : M World nat :=
  trySubscribe s ;;
  n <- get_node s ;;
  match listeners n with
  | None => abort TypeError        (* [nullListeners] has no [subscribe] *)
  | Some r =>
      match collections n !! r with
      | None => abort Dangling
      | Some c =>
          update_node s (enlist r c listener) ;;
          ret (length (removers n))
      end
  end.

(** [trySubscribe()].  A parent is created before its children, so the chain
    of parents of node [s] has at most [S s] nodes. *)
Fixpoint trySubscribe_rec (fuel : nat) (s : nat) : M World unit :=
  match fuel with
  | O => abort OutOfFuel
  | S fuel' =>
      n <- get_node s ;;
      update_node s (with_amount (subscriptionsAmount n + 1)) ;;
      match unsubscribe n with
      | Some _ => ret tt
      | None =>
          emit (Connected s) ;;
          h <- match parentSub n with
               | Some p =>
                   k <- addNestedSub_with (trySubscribe_rec fuel') p (HandleChangeWrapper s) ;;
                   ret (NestedSub p k)
               | None => store_subscribe (HandleChangeWrapper s)
               end ;;
          update_node s (install h)
      end
  end.

Definition trySubscribe (s : nat) : M World unit := trySubscribe_rec (S s) s.

Definition addNestedSub (s : nat) (listener : closure) : M World closure :=
  k <- addNestedSub_with trySubscribe s listener ;;
  ret (Unsubscribe (NestedSub s k)).

(** The cleanup closure that [addNestedSub] returns, over the
    [tryUnsubscribe] that it calls. *)
Definition removeNestedSub_with (tryUnsubscribe : nat → M World unit)
    (s k : nat) : M World unit :=
  n <- get_node s ;;
  match removers n !! k with
  | None => abort Dangling
  | Some rm =>
      if removed rm then ret tt
      else
        update_node s (strike k rm) ;;
        tryUnsubscribe s
  end.

(** [tryUnsubscribe()] *)
Fixpoint tryUnsubscribe_rec (fuel : nat) (s : nat) : M World unit :=
  match fuel with
  | O => abort OutOfFuel
  | S fuel' =>
      n <- get_node s ;;
      update_node s (with_amount (subscriptionsAmount n - 1)) ;;
      match unsubscribe n with
      | Some h =>
          if decide (subscriptionsAmount n - 1 = 0)%Z then
            emit (Disconnected s) ;;
            match h with
            | NestedSub p k => removeNestedSub_with (tryUnsubscribe_rec fuel') p k
            | StoreSub i => store_unsubscribe i
            end ;;
            update_node s (with_unsubscribe None) ;;
            n' <- get_node s ;;
            match listeners n' with
            | None => abort TypeError      (* [nullListeners] has no [clear] *)
            | Some r => update_node s (uninstall r)
            end
          else ret tt
      | None => ret tt
      end
  end.

Definition tryUnsubscribe (s : nat) : M World unit := tryUnsubscribe_rec (S s) s.

Definition call_handle (h : handle) : M World unit :=
  match h with
  | NestedSub s k => removeNestedSub_with tryUnsubscribe s k
  | StoreSub i => store_unsubscribe i
  end.

(** [isSubscribed()] *)
Definition isSubscribed (s : nat) : M World bool :=
  n <- get_node s ;; ret (selfSubscribed n).

(** [trySubscribeSelf()] and [tryUnsubscribeSelf()], the public
    [trySubscribe] and [tryUnsubscribe] of the subscription object. *)
Definition trySubscribeSelf (s : nat) : M World unit :=
  n <- get_node s ;;
  if selfSubscribed n then ret tt
  else update_node s (with_selfSubscribed true) ;; trySubscribe s.

Definition tryUnsubscribeSelf (s : nat) : M World unit :=
  n <- get_node s ;;
  if selfSubscribed n
  then update_node s (with_selfSubscribed false) ;; tryUnsubscribe s
  else ret tt.

(** [subscription.onStateChange = f] *)
Definition setOnStateChange (s : nat) (f : option closure) : M World unit :=
  _ <- get_node s ;; update_node s (with_onStateChange f).

(** *** Calling closures *)

Definition collection_of (s r : nat) (w : World) : option (Registry.ListenerCollection closure) :=
  match nodes w !! s with
  | Some n => collections n !! r
  | None => None
  end.

Definition cells_of (s r : nat) (w : World) : list (Registry.Listener closure) :=
  match collection_of s r w with Some c => Registry.heap c | None => [] end.

(** [notifyNestedSubs()]: [listeners.notify()] on the collection that the
    node holds when it is called. *)
Definition notify_listeners (invoke : closure → M World unit)
    (fuel : nat) (s : nat) : M World unit :=
  n <- get_node s ;;
  match listeners n with
  | None => ret tt                 (* [nullListeners.notify()] does nothing *)
  | Some r =>
      batch (listener <- gets (λ w, match collection_of s r w with
                                    | Some c => Registry.first c
                                    | None => None
                                    end) ;;
             Registry.notify_loop (cells_of s r)
               (λ _ cb, emit (Dispatched (Some s) cb) ;; invoke cb) fuel listener)
  end.

Definition notifyNestedSubs_with (invoke : closure → M World unit)
    (fuel : nat) (s : nat) : M World unit :=
  emit (Notified s) ;; notify_listeners invoke fuel s.

(** A call of a closure; [fuel] bounds the nesting of calls and the turns
    of every loop. *)
Fixpoint call (fuel : nat) (f : closure) : M World unit :=
  match fuel with
  | O => abort OutOfFuel
  | S fuel' =>
      match f with
      | Consumer name => emit (Called name)
      | HandleChangeWrapper s =>
          n <- get_node s ;;
          match onStateChange n with
          | Some g => call fuel' g
          | None => ret tt
          end
      | NotifyNestedSubs s => notifyNestedSubs_with (call fuel') fuel' s
      | TrySubscribe s => trySubscribeSelf s
      | TryUnsubscribe s => tryUnsubscribeSelf s
      | Unsubscribe h => call_handle h
      end
  end.

Definition notifyNestedSubs (fuel : nat) (s : nat) : M World unit :=
  notifyNestedSubs_with (call fuel) fuel s.

(** A state change of the store: the listeners registered when it happens
    are fired, in order. *)
Fixpoint fire (fuel : nat) (ls : list closure) : M World unit :=
  match ls with
  | [] => ret tt
  | cb :: rest => emit (Dispatched None cb) ;; call fuel cb ;; fire fuel rest
  end.

Definition dispatch (fuel : nat) (newState : nat) : M World unit :=
  modify (set_store (λ st, {| state := newState; registered := registered st |})) ;;
  ls <- gets (λ w, (filter (λ e, e.2 = true) (registered (store w))).*1) ;;
  fire fuel ls.

(** *** What the application does with the nodes *)

Inductive op : Type :=
  | Create (parent : option nat)
  | SetOnStateChange (s : nat) (f : option closure)
  | AddNestedSub (s : nat) (listener : closure)
  | Call (f : closure)
  | Dispatch (newState : nat).

Definition run_op (fuel : nat) (o : op) : M World unit :=
  match o with
  | Create parent => _ <- createSubscription parent ;; ret tt
  | SetOnStateChange s f => setOnStateChange s f
  | AddNestedSub s listener => _ <- addNestedSub s listener ;; ret tt
  | Call f => call fuel f
  | Dispatch newState => dispatch fuel newState
  end.

Fixpoint exec (fuel : nat) (ops : list op) : M World unit :=
  match ops with
  | [] => ret tt
  | o :: rest => run_op fuel o ;; exec fuel rest
  end.

(** The consumer callbacks that a log shows, in the order of their calls. *)
Definition calls_of (l : list event) : list nat :=
  omap (λ e, match e with Called name => Some name | _ => None end) l.

(** *** Views of a world *)

Definition amount (w : World) (s : nat) : Z :=
  match nodes w !! s with Some n => subscriptionsAmount n | None => 0%Z end.

Definition connected (w : World) (s : nat) : Prop :=
  ∃ n, nodes w !! s = Some n ∧ is_Some (unsubscribe n).

(** The reasons that a node has to stay connected: the cleanup closures it
    returned that were not called yet, and its own subscription. *)
Definition reasons (n : node) : Z :=
  Z.of_nat (length (filter (λ rm, removed rm = false) (removers n)))
  + (if selfSubscribed n then 1 else 0).

Definition slack (w : World) (s : nat) : Z :=
  match nodes w !! s with
  | Some n => subscriptionsAmount n - reasons n
  | None => 0%Z
  end.

Definition occurrences (e : event) (l : list event) : nat :=
  length (filter (λ x, x = e) l).

(** The events of [seg] that tell of an upstream subscribe or unsubscribe
    are those of the nodes whose counter left or reached zero between [w]
    and [w']. *)
Definition edges (w w' : World) (seg : list event) : Prop :=
  ∀ u,
    occurrences (Connected u) seg
    = (if decide (amount w u = 0 ∧ 0 < amount w' u)%Z then 1 else 0)
    ∧ occurrences (Disconnected u) seg
      = (if decide (0 < amount w u ∧ amount w' u = 0)%Z then 1 else 0).

(** *** Consistent worlds *)

Record node_ok (ns : list node) (s : nat) (n : node) : Prop := mkNodeOk {
  ok_parent : ∀ p, parentSub n = Some p → p < s;
  ok_amount : (0 ≤ subscriptionsAmount n)%Z;
  ok_edge : subscriptionsAmount n = 0%Z ↔ unsubscribe n = None;
  ok_null : unsubscribe n = None ↔ listeners n = None;
  ok_real : ∀ r, listeners n = Some r → r < length (collections n);
  ok_handle : ∀ p k, unsubscribe n = Some (NestedSub p k) →
              parentSub n = Some p ∧ ∃ pn, ns !! p = Some pn ∧ k < length (removers pn);
}.

Definition consistent (w : World) : Prop :=
  ∀ s n, nodes w !! s = Some n → node_ok (nodes w) s n.

Definition paired (w : World) : Prop := ∀ s, slack w s = 0%Z.

(** What no call of the connection machinery changes. *)
Record node_kept (n n' : node) : Prop := mkNodeKept {
  kept_parent : parentSub n' = parentSub n;
  kept_self : selfSubscribed n' = selfSubscribed n;
  kept_handler : onStateChange n' = onStateChange n;
  kept_removers : ∀ k rm, removers n !! k = Some rm →
      ∃ rm', removers n' !! k = Some rm'
             ∧ cleanupListener rm' = cleanupListener rm
             ∧ (removed rm = true → removed rm' = true);
}.

Record kept (w w' : World) : Prop := mkKept {
  kept_length : length (nodes w') = length (nodes w);
  kept_nodes : ∀ u n, nodes w !! u = Some n →
               ∃ n', nodes w' !! u = Some n' ∧ node_kept n n';
  kept_state : state (store w') = state (store w);
}.

Lemma node_kept_refl n : node_kept n n.
Proof. split; eauto. Qed.

Lemma node_kept_trans n1 n2 n3 : node_kept n1 n2 → node_kept n2 n3 → node_kept n1 n3.
Proof.
  intros [A1 A2 A3 A4] [B1 B2 B3 B4]. split; try congruence.
  intros k rm Hrm. destruct (A4 k rm Hrm) as (rm2 & H2 & Hc2 & Hr2).
  destruct (B4 k rm2 H2) as (rm3 & H3 & Hc3 & Hr3).
  exists rm3. split_and!; [done|congruence|auto].
Qed.

Lemma kept_refl w : kept w w.
Proof. split; eauto using node_kept_refl. Qed.

Lemma kept_trans w1 w2 w3 : kept w1 w2 → kept w2 w3 → kept w1 w3.
Proof.
  intros [A1 A2 A3] [B1 B2 B3]. split; try congruence.
  intros u n Hn. destruct (A2 u n Hn) as (n2 & H2 & K2).
  destruct (B2 u n2 H2) as (n3 & H3 & K3).
  exists n3. eauto using node_kept_trans.
Qed.

(** The [k]-th cleanup closure of node [s] has run: its [removed] flag is
    set. *)
Definition struck (w : World) (s k : nat) : Prop :=
  ∃ n rm, nodes w !! s = Some n ∧ removers n !! k = Some rm ∧ removed rm = true.

Definition persists (w w' : World) : Prop := ∀ s k, struck w s k → struck w' s k.

Lemma persists_refl w : persists w w.
Proof. by intros s k. Qed.

Lemma persists_trans w1 w2 w3 : persists w1 w2 → persists w2 w3 → persists w1 w3.
Proof. intros H1 H2 s k H. by apply H2, H1. Qed.

Lemma kept_persists w w' : kept w w' → persists w w'.
Proof.
  intros K s k (n & rm & Hn & Hrm & Hr).
  destruct (kept_nodes _ _ K s n Hn) as (n' & Hn' & Kn).
  destruct (kept_removers _ _ Kn k rm Hrm) as (rm' & Hrm' & _ & Hr').
  exists n', rm'. auto.
Qed.

Lemma persists_same_nodes w w' : nodes w' = nodes w → persists w w'.
Proof. intros H s k. unfold struck. by rewrite H. Qed.

Lemma persists_update w s f :
  (∀ n, removers (f n) = removers n) → persists w (set_nodes (alter f s) w).
Proof.
  intros Hf u k (n & rm & Hn & Hrm & Hr). unfold struck.
  change (nodes (set_nodes (alter f s) w)) with (alter f s (nodes w)).
  rewrite list_lookup_alter. case_decide as Hd.
  - subst u. rewrite Hn. exists (f n), rm. by rewrite Hf.
  - by exists n, rm.
Qed.

(** *** Updates of one node *)

Lemma lookup_update w s f u :
  nodes (set_nodes (alter f s) w) !! u
  = if decide (s = u) then f <$> nodes w !! s else nodes w !! u.
Proof. apply list_lookup_alter. Qed.

Lemma lookup_update_eq w s f n :
  nodes w !! s = Some n → nodes (set_nodes (alter f s) w) !! s = Some (f n).
Proof. intros H. by rewrite lookup_update, decide_True, H. Qed.

Lemma lookup_update_ne w s f u :
  s ≠ u → nodes (set_nodes (alter f s) w) !! u = nodes w !! u.
Proof. intros H. by rewrite lookup_update, decide_False. Qed.

Lemma length_update w s f :
  length (nodes (set_nodes (alter f s) w)) = length (nodes w).
Proof. apply length_alter. Qed.

Lemma kept_update w s f :
  (∀ n, nodes w !! s = Some n → node_kept n (f n)) →
  kept w (set_nodes (alter f s) w).
Proof.
  intros Hf. split; [apply length_update| |done].
  intros u n Hn. rewrite lookup_update. case_decide as Hd.
  - subst u. rewrite Hn. eauto.
  - eauto using node_kept_refl.
Qed.

Lemma kept_log w l :
  kept w {| nodes := nodes w; store := store w; log := l |}.
Proof. split; eauto using node_kept_refl. Qed.

Lemma kept_store w f :
  state (f (store w)) = state (store w) → kept w (set_store f w).
Proof. intros H. split; eauto using node_kept_refl. Qed.

(** A node that is in order stays so when the cleanup closures of the
    other nodes only grow in number. *)
Lemma node_ok_grow ns ns' s n :
  node_ok ns s n →
  (∀ p pn, p < s → ns !! p = Some pn →
     ∃ pn', ns' !! p = Some pn' ∧ length (removers pn) ≤ length (removers pn')) →
  node_ok ns' s n.
Proof.
  intros [A1 A2 A3 A4 A5 A6] Hgrow. split; try done.
  intros p k Hu. destruct (A6 p k Hu) as (Hp & pn & Hpn & Hk).
  split; [done|]. destruct (Hgrow p pn (A1 p Hp) Hpn) as (pn' & Hpn' & Hlen).
  exists pn'. split; [done|lia].
Qed.

Lemma node_kept_length n n' :
  node_kept n n' → length (removers n) ≤ length (removers n').
Proof.
  intros [_ _ _ H].
  destruct (decide (length (removers n) = 0)) as [|Hne]; [lia|].
  destruct (lookup_lt_is_Some_2 (removers n) (pred (length (removers n)))) as [rm Hrm]; [lia|].
  destruct (H _ _ Hrm) as (rm' & Hrm' & _). apply lookup_lt_Some in Hrm'. lia.
Qed.

Lemma node_ok_kept w w' s n :
  kept w w' → node_ok (nodes w) s n → node_ok (nodes w') s n.
Proof.
  intros Hk Hok. apply (node_ok_grow _ _ _ _ Hok). intros p pn _ Hpn.
  destruct (kept_nodes _ _ Hk p pn Hpn) as (pn' & Hpn' & Hkept).
  exists pn'. split; [done|]. by apply node_kept_length.
Qed.

Definition ok_below (w : World) (s : nat) : Prop :=
  ∀ u n, u ≤ s → nodes w !! u = Some n → node_ok (nodes w) u n.

Lemma consistent_below w s : consistent w → ok_below w s.
Proof. intros H u n _. apply H. Qed.

(** *** Counting events *)

Lemma occurrences_nil e : occurrences e [] = 0.
Proof. done. Qed.

Lemma occurrences_app e l1 l2 :
  occurrences e (l1 ++ l2) = occurrences e l1 + occurrences e l2.
Proof. unfold occurrences. by rewrite filter_app, length_app. Qed.

Lemma occurrences_cons e x l :
  occurrences e (x :: l) = (if decide (x = e) then 1 else 0) + occurrences e l.
Proof. unfold occurrences. rewrite filter_cons. by case_decide. Qed.

Lemma edges_nil w w' :
  (∀ u, amount w' u = amount w u) → edges w w' [].
Proof.
  intros H u. rewrite !occurrences_nil, H. split; symmetry; apply decide_False; lia.
Qed.

(** *** [trySubscribe] *)

Lemma trySubscribe_rec_unfold fuel s w n :
  nodes w !! s = Some n →
  trySubscribe_rec (S fuel) s w
  = let w1 := set_nodes (alter (with_amount (subscriptionsAmount n + 1)) s) w in
    match unsubscribe n with
    | Some _ => Done tt w1
    | None =>
        let w2 := {| nodes := nodes w1; store := store w1;
                     log := log w1 ++ [Connected s] |} in
        match
          match parentSub n with
          | Some p =>
              (k <- addNestedSub_with (trySubscribe_rec fuel) p (HandleChangeWrapper s) ;;
               ret (NestedSub p k)) w2
          | None => store_subscribe (HandleChangeWrapper s) w2
          end
        with
        | Done h w3 => Done tt (set_nodes (alter (install h) s) w3)
        | Abort e w3 => Abort e w3
        end
    end.
Proof.
  intros Hn. simpl. unfold bind at 1, get_node at 1. rewrite Hn.
  unfold bind at 1, update_node at 1, modify at 1.
  destruct (unsubscribe n); [done|].
  unfold bind at 1, emit at 1, modify at 1. unfold bind at 1.
  by destruct (parentSub n).
Qed.

Lemma addNestedSub_with_unfold trySub s listener w w1 n r c :
  trySub s w = Done tt w1 →
  nodes w1 !! s = Some n → listeners n = Some r → collections n !! r = Some c →
  addNestedSub_with trySub s listener w
  = Done (length (removers n)) (set_nodes (alter (enlist r c listener) s) w1).
Proof.
  intros H1 Hn Hr Hc. unfold addNestedSub_with, bind. rewrite H1.
  unfold get_node. rewrite Hn, Hr, Hc. done.
Qed.

(** What a call of [trySubscribe] on node [s] does. *)
Record rises (s : nat) (w w' : World) : Prop := mkRises {
  rise_ok : ok_below w' s;
  rise_kept : kept w w';
  rise_above : ∀ u, s < u → nodes w' !! u = nodes w !! u;
  rise_amount : amount w' s = (amount w s + 1)%Z;
  rise_others : ∀ u, u ≠ s →
                amount w' u = amount w u ∨ amount w' u = (amount w u + 1)%Z;
  rise_slack : ∀ u, slack w' u = (slack w u + if decide (u = s) then 1 else 0)%Z;
  rise_connected : connected w' s;
  rise_log : ∃ seg, log w' = log w ++ seg ∧ edges w w' seg;
}.

Lemma amount_update w s f u :
  amount (set_nodes (alter f s) w) u
  = if decide (s = u)
    then match nodes w !! s with Some n => subscriptionsAmount (f n) | None => 0%Z end
    else amount w u.
Proof.
  unfold amount. rewrite lookup_update. case_decide; [|done].
  by destruct (nodes w !! s).
Qed.

Lemma slack_update w s f u :
  slack (set_nodes (alter f s) w) u
  = if decide (s = u)
    then match nodes w !! s with
         | Some n => (subscriptionsAmount (f n) - reasons (f n))%Z
         | None => 0%Z
         end
    else slack w u.
Proof.
  unfold slack. rewrite lookup_update. case_decide; [|done].
  by destruct (nodes w !! s).
Qed.

Lemma trySubscribe_rec_connected fuel s w n h :
  ok_below w s → nodes w !! s = Some n → unsubscribe n = Some h →
  ∃ w', trySubscribe_rec (S fuel) s w = Done tt w' ∧ rises s w w'.
Proof.
  intros Hok Hn Hh. rewrite (trySubscribe_rec_unfold _ _ _ _ Hn), Hh. simpl.
  set (f := with_amount (subscriptionsAmount n + 1)).
  eexists; split; [done|].
  assert (Hkept : kept w (set_nodes (alter f s) w)).
  { apply kept_update. intros n' _. by split; eauto. }
  pose proof (Hok s n (le_n _) Hn) as Hs.
  split.
  - intros u nu Hu. rewrite lookup_update. case_decide as Hd.
    + subst u. rewrite Hn. intros [= <-].
      apply (node_ok_kept w (set_nodes (alter f s) w)) in Hs; [|done].
      destruct Hs as [A1 A2 A3 A4 A5 A6]. split; simpl; try done.
      * lia.
      * rewrite Hh. split; [lia|done].
    + intros Hnu. eapply node_ok_kept; eauto.
  - done.
  - intros u Hu. apply lookup_update_ne. lia.
  - rewrite amount_update, decide_True by done. unfold amount. by rewrite Hn.
  - intros u Hu. left. rewrite amount_update. by rewrite decide_False.
  - intros u. rewrite slack_update. case_decide as Hd.
    + subst u. rewrite decide_True by done. unfold slack. rewrite Hn. simpl.
      unfold reasons. simpl. lia.
    + rewrite decide_False by done. lia.
  - exists (f n). split; [by apply lookup_update_eq|]. simpl. rewrite Hh. eauto.
  - exists []. split; [simpl; by rewrite app_nil_r|].
    intros u. rewrite !occurrences_nil, amount_update.
    destruct Hs as [_ A2 A3 _ _ _].
    destruct (decide (s = u)) as [<-|Hd].
    + unfold amount. rewrite Hn. simpl.
      split; symmetry; apply decide_False; intros [Hz ?]; [|lia].
      apply A3 in Hz. congruence.
    + split; symmetry; apply decide_False; lia.
Qed.

(** What the upstream subscribe of node [s] does, from the world [w2] in
    which the counter of [s] was incremented, to the world [w4] in which the
    handle [h] is returned. *)
Record upstream_done (s : nat) (n : node) (w2 w4 : World) (h : handle) : Prop :=
  mkUpstreamDone {
    up_kept : kept w2 w4;
    up_same : ∀ u, s ≤ u → nodes w4 !! u = nodes w2 !! u;
    up_ok : ∀ u nu, u < s → nodes w4 !! u = Some nu → node_ok (nodes w4) u nu;
    up_amount : ∀ u, amount w4 u = amount w2 u
                     ∨ (u < s ∧ amount w4 u = (amount w2 u + 1)%Z);
    up_slack : ∀ u, slack w4 u = slack w2 u;
    up_log : ∃ seg, log w4 = log w2 ++ seg ∧ edges w2 w4 seg;
    up_handle : ∀ p k, h = NestedSub p k →
                parentSub n = Some p
                ∧ ∃ pn, nodes w4 !! p = Some pn ∧ k < length (removers pn);
  }.

Lemma install_rises s w n w4 h :
  ok_below w s → nodes w !! s = Some n → unsubscribe n = None →
  let w1 := set_nodes (alter (with_amount (subscriptionsAmount n + 1)) s) w in
  let w2 := {| nodes := nodes w1; store := store w1; log := log w1 ++ [Connected s] |} in
  upstream_done s n w2 w4 h →
  rises s w (set_nodes (alter (install h) s) w4).
Proof.
  intros Hok Hn Hnone w1 w2 [Ukept Usame Uok Uamount Uslack (seg & Ulog & Uedges) Uhandle].
  pose proof (Hok s n (le_n _) Hn) as [A1 A2 A3 A4 A5 A6].
  assert (Ha : subscriptionsAmount n = 0%Z) by (by apply A3).
  set (n1 := with_amount (subscriptionsAmount n + 1) n).
  assert (Hn2 : nodes w2 !! s = Some n1) by (by apply lookup_update_eq).
  assert (Hn4 : nodes w4 !! s = Some n1) by (by rewrite Usame).
  set (w5 := set_nodes (alter (install h) s) w4).
  assert (Hn5 : nodes w5 !! s = Some (install h n1)) by (by apply lookup_update_eq).
  assert (K12 : kept w w2).
  { eapply kept_trans; [|apply kept_log]. apply kept_update. by split; eauto. }
  assert (K45 : kept w4 w5).
  { apply kept_update. by split; eauto. }
  assert (K : kept w w5) by eauto using kept_trans.
  assert (Hamt2 : ∀ u, amount w2 u = if decide (s = u) then 1%Z else amount w u).
  { intros u. change (amount w2 u) with (amount w1 u). unfold w1.
    rewrite amount_update, Hn. simpl. by rewrite Ha. }
  assert (Hamt5 : ∀ u, amount w5 u = if decide (s = u) then 1%Z else amount w4 u).
  { intros u. unfold w5. rewrite amount_update, Hn4. simpl. by rewrite Ha. }
  split.
  - intros u nu Hu Hnu. destruct (decide (u = s)) as [->|Hne].
    + rewrite Hn5 in Hnu. injection Hnu as <-. split; simpl; try done.
      * lia.
      * split; [lia|done].
      * intros r [= <-]. rewrite length_app. simpl. lia.
      * intros p k [= ->]. destruct (Uhandle p k eq_refl) as (Hp & pn & Hpn & Hk).
        split; [done|]. exists pn. split; [|done].
        specialize (A1 p Hp). rewrite list_lookup_alter_ne by lia. done.
    + unfold w5 in Hnu. rewrite lookup_update_ne in Hnu by done.
      eapply node_ok_kept; [exact K45|]. apply Uok; [lia|done].
  - done.
  - intros u Hu. unfold w5. rewrite lookup_update_ne by lia.
    rewrite Usame by lia. unfold w2; simpl. apply lookup_update_ne. lia.
  - rewrite Hamt5, decide_True by done. unfold amount. rewrite Hn. lia.
  - intros u Hu. rewrite Hamt5, decide_False by done.
    destruct (Uamount u) as [->|[_ ->]]; rewrite Hamt2, decide_False by done; auto.
  - intros u. unfold w5. rewrite slack_update, Hn4.
    destruct (decide (s = u)) as [<-|Hne].
    + rewrite decide_True by done. unfold slack. rewrite Hn. simpl.
      unfold reasons. simpl. lia.
    + rewrite decide_False by done. rewrite Uslack.
      unfold w2, slack. simpl. rewrite list_lookup_alter_ne by done. lia.
  - exists (install h n1). split; [done|]. simpl. eauto.
  - exists (Connected s :: seg). split.
    { unfold w5. simpl. rewrite Ulog. unfold w2. simpl. by rewrite <- app_assoc. }
    intros u. rewrite !occurrences_cons.
    destruct (Uedges u) as [-> ->]. rewrite Hamt5, !Hamt2.
    destruct (decide (s = u)) as [<-|Hne].
    + assert (amount w s = 0%Z) as -> by (unfold amount; by rewrite Hn).
      assert (amount w4 s = 1%Z) as -> by (unfold amount; rewrite Hn4; simpl; lia).
      split; repeat case_decide; try lia; try done.
    + split; repeat case_decide; try lia; try congruence.
Qed.

Lemma edges_same w w1 w2 seg :
  (∀ u, amount w2 u = amount w1 u) → edges w w1 seg → edges w w2 seg.
Proof. intros H He u. rewrite H. apply He. Qed.

Lemma reasons_enlist r c listener n :
  reasons (enlist r c listener n) = (reasons n + 1)%Z.
Proof.
  unfold reasons. simpl. rewrite filter_app, length_app.
  rewrite filter_cons_True by done. simpl. lia.
Qed.

Lemma node_kept_enlist r c listener n : node_kept n (enlist r c listener n).
Proof.
  split; try done. intros k rm Hrm. exists rm. split; [|done].
  simpl. by apply lookup_app_l_Some.
Qed.

Lemma node_ok_enlist ns s n r c listener :
  node_ok ns s n → node_ok ns s (enlist r c listener n).
Proof.
  intros [A1 A2 A3 A4 A5 A6]. split; try done.
  intros r' Hr'. simpl. rewrite length_insert. by apply A5.
Qed.

Lemma trySubscribe_rec_rises fuel :
  ∀ s w n, ok_below w s → nodes w !! s = Some n → s < fuel →
    ∃ w', trySubscribe_rec fuel s w = Done tt w' ∧ rises s w w'.
Proof.
  induction fuel as [|fuel IH]; intros s w n Hok Hn Hfuel; [lia|].
  destruct (unsubscribe n) as [h|] eqn:Hnone.
  { by eapply trySubscribe_rec_connected. }
  rewrite (trySubscribe_rec_unfold _ _ _ _ Hn), Hnone. cbv zeta.
  set (w1 := set_nodes (alter (with_amount (subscriptionsAmount n + 1)) s) w).
  set (w2 := {| nodes := nodes w1; store := store w1; log := log w1 ++ [Connected s] |}).
  pose proof (Hok s n (le_n _) Hn) as [A1 A2 A3 A4 A5 A6].
  assert (K12 : kept w w2).
  { eapply kept_trans; [|apply kept_log]. apply kept_update. by split; eauto. }
  assert (Hne2 : ∀ u, u ≠ s → nodes w2 !! u = nodes w !! u).
  { intros u Hu. unfold w2, w1. simpl. by apply list_lookup_alter_ne. }
  destruct (parentSub n) as [p|] eqn:Hp.
  - specialize (A1 p eq_refl).
    destruct (lookup_lt_is_Some_2 (nodes w) p) as [np Hnp].
    { apply lookup_lt_Some in Hn. lia. }
    destruct (IH p w2 np) as (w3 & H3 & R3); [| |lia|].
    { intros u nu Hu Hnu. rewrite Hne2 in Hnu by lia.
      eapply node_ok_kept; [exact K12|]. apply Hok; [lia|done]. }
    { rewrite Hne2 by lia. done. }
    destruct (rise_connected _ _ _ R3) as (np3 & Hnp3 & Hcon).
    pose proof (rise_ok _ _ _ R3 p np3 (le_n _) Hnp3) as Hok3.
    destruct (listeners np3) as [r|] eqn:Hr; last first.
    { apply (ok_null _ _ _ Hok3) in Hr. rewrite Hr in Hcon. by destruct Hcon. }
    destruct (lookup_lt_is_Some_2 (collections np3) r) as [c Hc].
    { by apply (ok_real _ _ _ Hok3). }
    unfold bind at 1.
    rewrite (addNestedSub_with_unfold _ _ _ _ _ _ _ _ H3 Hnp3 Hr Hc).
    unfold ret. eexists; split; [done|].
    set (w4 := set_nodes (alter (enlist r c (HandleChangeWrapper s)) p) w3).
    assert (K34 : kept w3 w4).
    { apply kept_update. intros; apply node_kept_enlist. }
    assert (Hamt4 : ∀ u, amount w4 u = amount w3 u).
    { intros u. unfold w4. rewrite amount_update. case_decide; [|done].
      subst u. unfold amount. by rewrite Hnp3. }
    apply (install_rises s w n w4 _ Hok Hn Hnone). fold w1 w2. split.
    + eauto using kept_trans, rise_kept.
    + intros u Hu. unfold w4. rewrite lookup_update_ne by lia.
      apply (rise_above _ _ _ R3). lia.
    + intros u nu Hu. unfold w4. rewrite lookup_update.
      destruct (decide (p = u)) as [<-|Hne].
      * rewrite Hnp3. intros [= <-]. apply node_ok_enlist.
        eapply node_ok_kept; [exact K34|done].
      * intros Hnu. eapply node_ok_kept; [exact K34|].
        destruct (decide (u ≤ p)); [by apply (rise_ok _ _ _ R3)|].
        rewrite (rise_above _ _ _ R3), Hne2 in Hnu by lia.
        apply (node_ok_kept w w3); [eauto using kept_trans, rise_kept|].
        apply Hok; [lia|done].
    + intros u. rewrite Hamt4. destruct (decide (u = p)) as [->|Hne].
      * right. split; [done|]. apply (rise_amount _ _ _ R3).
      * destruct (decide (p < u)).
        -- left. unfold amount. by rewrite (rise_above _ _ _ R3).
        -- destruct (rise_others _ _ _ R3 u Hne); [by left|right]. split; [lia|done].
    + intros u. unfold w4. rewrite slack_update.
      pose proof (rise_slack _ _ _ R3 u) as Hs.
      destruct (decide (p = u)) as [<-|Hne].
      * rewrite Hnp3, reasons_enlist. simpl.
        rewrite decide_True in Hs by done.
        unfold slack at 1 in Hs. rewrite Hnp3 in Hs. lia.
      * rewrite decide_False in Hs by done. lia.
    + destruct (rise_log _ _ _ R3) as (seg & Hlog & Hedges).
      exists seg. split; [done|]. by eapply edges_same.
    + intros p' k [= <- <-]. split; [done|].
      exists (enlist r c (HandleChangeWrapper s) np3). split.
      * unfold w4. by apply lookup_update_eq.
      * simpl. rewrite length_app. simpl. lia.
  - unfold store_subscribe, bind, gets, modify, ret.
    eexists; split; [done|].
    apply (install_rises s w n _ _ Hok Hn Hnone). fold w1 w2. split.
    + by apply kept_store.
    + done.
    + intros u nu Hu Hnu. simpl in Hnu. rewrite list_lookup_alter_ne in Hnu by lia.
      refine (node_ok_kept w w2 _ _ K12 _). apply Hok; [lia|done].
    + intros u. by left.
    + done.
    + exists []. split; [simpl; by rewrite app_nil_r|]. by apply edges_nil.
    + intros p k [=].
Qed.

(** *** [tryUnsubscribe] *)

Lemma tryUnsubscribe_rec_unfold fuel s w n :
  nodes w !! s = Some n →
  tryUnsubscribe_rec (S fuel) s w
  = let w1 := set_nodes (alter (with_amount (subscriptionsAmount n - 1)) s) w in
    match unsubscribe n with
    | Some h =>
        if decide (subscriptionsAmount n - 1 = 0)%Z then
          let w2 := {| nodes := nodes w1; store := store w1;
                       log := log w1 ++ [Disconnected s] |} in
          match
            match h with
            | NestedSub p k => removeNestedSub_with (tryUnsubscribe_rec fuel) p k w2
            | StoreSub i => store_unsubscribe i w2
            end
          with
          | Done _ w3 =>
              let w4 := set_nodes (alter (with_unsubscribe None) s) w3 in
              match nodes w4 !! s with
              | Some n' =>
                  match listeners n' with
                  | Some r => Done tt (set_nodes (alter (uninstall r) s) w4)
                  | None => Abort TypeError w4
                  end
              | None => Abort Dangling w4
              end
          | Abort e w3 => Abort e w3
          end
        else Done tt w1
    | None => Done tt w1
    end.
Proof.
  intros Hn. simpl. unfold bind at 1, get_node at 1. rewrite Hn.
  unfold bind at 1, update_node at 1, modify at 1.
  destruct (unsubscribe n) as [h|]; [|done].
  case_decide; [|done].
  unfold bind at 1, emit at 1, modify at 1. unfold bind at 1.
  destruct h as [p k|i].
  all: match goal with
       |- match ?f ?a with _ => _ end = match ?f ?b with _ => _ end =>
         change a with b; destruct (f b) as [[] w3|e w3]; [|done]
       end.
  all: unfold bind at 1, update_node at 1, modify at 1.
  all: unfold bind at 1, get_node at 1.
  all: cbn [nodes set_nodes].
  all: destruct (alter _ s (nodes w3) !! s) as [n'|]; [|done].
  all: by destruct (listeners n').
Qed.

Lemma removeNestedSub_with_unfold tryUnsub s k w n rm :
  nodes w !! s = Some n → removers n !! k = Some rm →
  removeNestedSub_with tryUnsub s k w
  = if removed rm then Done tt w
    else tryUnsub s (set_nodes (alter (strike k rm) s) w).
Proof.
  intros Hn Hrm. unfold removeNestedSub_with, bind at 1, get_node. rewrite Hn, Hrm.
  by destruct (removed rm).
Qed.

Lemma filter_insert_drop {A} (P : A → Prop) `{!∀ x, Decision (P x)} (l : list A) k y x :
  l !! k = Some y → P y → ¬ P x →
  S (length (filter P (<[k := x]> l))) = length (filter P l).
Proof.
  revert k. induction l as [|a l IH]; intros k Hk Hy Hx; [done|].
  destruct k as [|k]; simpl in *.
  - simplify_eq. by rewrite filter_cons_False, filter_cons_True.
  - rewrite !filter_cons. case_decide; simpl; rewrite (IH k); auto.
Qed.

Lemma reasons_strike k rm n :
  removers n !! k = Some rm → removed rm = false →
  reasons (strike k rm n) = (reasons n - 1)%Z.
Proof.
  intros Hrm Hfalse. unfold reasons. simpl.
  pose proof (filter_insert_drop (λ rm, removed rm = false) (removers n) k rm
                {| removed := true; cleanupListener := cleanupListener rm |}
                Hrm Hfalse ltac:(done)). lia.
Qed.

Lemma reasons_nonneg n : (0 ≤ reasons n)%Z.
Proof. unfold reasons. destruct (selfSubscribed n); lia. Qed.

Lemma node_kept_strike k rm n :
  removers n !! k = Some rm → node_kept n (strike k rm n).
Proof.
  intros Hrm. split; try done. intros k' rm' Hrm'. simpl.
  rewrite list_lookup_insert. case_decide as Hd.
  - destruct Hd as [<- _]. simplify_eq. eexists. split_and!; done.
  - exists rm'. done.
Qed.

Lemma node_ok_strike ns s n k rm :
  node_ok ns s n → node_ok ns s (strike k rm n).
Proof.
  intros [A1 A2 A3 A4 A5 A6]. split; try done.
  intros r' Hr'. simpl. rewrite length_alter. by apply A5.
Qed.

(** The collection that a node held when its counter was positive is
    cleared once the counter is zero. *)
Definition cleared (w w' : World) : Prop :=
  ∀ u n r, nodes w !! u = Some n → listeners n = Some r →
    (0 < amount w u)%Z → amount w' u = 0%Z →
    ∃ c, collection_of u r w' = Some c
         ∧ Registry.first c = None ∧ Registry.last c = None.

Lemma cleared_idle w w' : (∀ u, amount w u ≤ amount w' u)%Z → cleared w w'.
Proof. intros H u n r _ _ H1 H2. specialize (H u). lia. Qed.

(** What a call of [tryUnsubscribe] on node [s] does. *)
Record falls (s : nat) (w w' : World) : Prop := mkFalls {
  fall_ok : ok_below w' s;
  fall_kept : kept w w';
  fall_above : ∀ u, s < u → nodes w' !! u = nodes w !! u;
  fall_amount : amount w' s = (amount w s - 1)%Z;
  fall_others : ∀ u, u ≠ s →
                amount w' u = amount w u ∨ amount w' u = (amount w u - 1)%Z;
  fall_slack : ∀ u, slack w' u = (slack w u - if decide (u = s) then 1 else 0)%Z;
  fall_log : ∃ seg, log w' = log w ++ seg ∧ edges w w' seg;
  fall_cleared : cleared w w';
}.

(** What the stored upstream unsubscribe of node [s] does, from the world
    [w2] in which the counter of [s] reached zero. *)
Record downstream_done (s : nat) (w2 w3 : World) : Prop := mkDownstreamDone {
  down_kept : kept w2 w3;
  down_same : ∀ u, s ≤ u → nodes w3 !! u = nodes w2 !! u;
  down_ok : ∀ u nu, u < s → nodes w3 !! u = Some nu → node_ok (nodes w3) u nu;
  down_amount : ∀ u, amount w3 u = amount w2 u
                     ∨ (u < s ∧ amount w3 u = (amount w2 u - 1)%Z);
  down_slack : ∀ u, slack w3 u = slack w2 u;
  down_log : ∃ seg, log w3 = log w2 ++ seg ∧ edges w2 w3 seg;
  down_cleared : cleared w2 w3;
}.

Lemma tryUnsubscribe_rec_stays fuel s w n :
  ok_below w s → nodes w !! s = Some n → (1 < subscriptionsAmount n)%Z →
  ∃ w', tryUnsubscribe_rec (S fuel) s w = Done tt w' ∧ falls s w w'.
Proof.
  intros Hok Hn Hamt. rewrite (tryUnsubscribe_rec_unfold _ _ _ _ Hn). cbv zeta.
  set (f := with_amount (subscriptionsAmount n - 1)).
  pose proof (Hok s n (le_n _) Hn) as Hs.
  assert (∃ h, unsubscribe n = Some h) as [h Hh].
  { destruct (unsubscribe n) eqn:E; [eauto|]. apply (ok_edge _ _ _ Hs) in E. lia. }
  rewrite Hh, decide_False by lia.
  eexists; split; [done|].
  assert (Hkept : kept w (set_nodes (alter f s) w)).
  { apply kept_update. intros n' _. by split; eauto. }
  split.
  - intros u nu Hu. rewrite lookup_update.
    destruct (decide (s = u)) as [<-|Hd].
    + rewrite Hn. intros [= <-].
      apply (node_ok_kept w (set_nodes (alter f s) w)) in Hs; [|done].
      destruct Hs as [A1 A2 A3 A4 A5 A6]. split; simpl; try done.
      * lia.
      * rewrite Hh. split; [lia|done].
    + intros Hnu. eapply node_ok_kept; eauto.
  - done.
  - intros u Hu. apply lookup_update_ne. lia.
  - rewrite amount_update, decide_True by done. unfold amount. by rewrite Hn.
  - intros u Hu. left. rewrite amount_update. by rewrite decide_False.
  - intros u. rewrite slack_update. destruct (decide (s = u)) as [<-|Hd].
    + rewrite decide_True by done. unfold slack. rewrite Hn. simpl.
      unfold reasons. simpl. lia.
    + rewrite decide_False by done. lia.
  - exists []. split; [simpl; by rewrite app_nil_r|].
    intros u. rewrite !occurrences_nil, amount_update.
    destruct (decide (s = u)) as [<-|Hd].
    + unfold amount. rewrite Hn. simpl.
      split; symmetry; apply decide_False; lia.
    + split; symmetry; apply decide_False; lia.
  - intros u n' r Hn' _. rewrite amount_update.
    destruct (decide (s = u)) as [<-|Hd]; [|lia].
    unfold amount. rewrite Hn. simpl. lia.
Qed.

Lemma uninstall_falls s w n h w3 :
  ok_below w s → nodes w !! s = Some n → unsubscribe n = Some h →
  subscriptionsAmount n = 1%Z →
  let w1 := set_nodes (alter (with_amount (subscriptionsAmount n - 1)) s) w in
  let w2 := {| nodes := nodes w1; store := store w1; log := log w1 ++ [Disconnected s] |} in
  downstream_done s w2 w3 →
  let w4 := set_nodes (alter (with_unsubscribe None) s) w3 in
  ∃ w5,
    match nodes w4 !! s with
    | Some n' =>
        match listeners n' with
        | Some r => Done tt (set_nodes (alter (uninstall r) s) w4)
        | None => Abort TypeError w4
        end
    | None => Abort Dangling w4
    end = Done tt w5
    ∧ falls s w w5.
Proof.
  intros Hok Hn Hh Ha w1 w2 [Dkept Dsame Dok Damount Dslack (seg & Dlog & Dedges) Dcleared] w4.
  destruct (listeners n) as [r|] eqn:Hr; last first.
  { apply (ok_null _ _ _ (Hok s n (le_n _) Hn)) in Hr. congruence. }
  pose proof (Hok s n (le_n _) Hn) as [A1 A2 A3 A4 A5 A6].
  specialize (A5 r Hr).
  set (n1 := with_amount (subscriptionsAmount n - 1) n).
  assert (Hn2 : nodes w2 !! s = Some n1) by (by apply lookup_update_eq).
  assert (Hn3 : nodes w3 !! s = Some n1) by (by rewrite Dsame).
  assert (Hn4 : nodes w4 !! s = Some (with_unsubscribe None n1))
    by (by apply lookup_update_eq).
  rewrite Hn4. simpl. rewrite Hr.
  set (w5 := set_nodes (alter (uninstall r) s) w4).
  set (n5 := uninstall r (with_unsubscribe None n1)).
  assert (Hn5 : nodes w5 !! s = Some n5) by (by apply lookup_update_eq).
  exists w5. split; [done|].
  assert (K12 : kept w w2).
  { eapply kept_trans; [|apply kept_log]. apply kept_update. by split; eauto. }
  assert (K34 : kept w3 w4) by (apply kept_update; by split; eauto).
  assert (K45 : kept w4 w5) by (apply kept_update; by split; eauto).
  assert (K35 : kept w3 w5) by eauto using kept_trans.
  assert (K : kept w w5) by eauto using kept_trans.
  assert (Hne5 : ∀ u, u ≠ s → nodes w5 !! u = nodes w3 !! u).
  { intros u Hu. unfold w5, w4. by rewrite !lookup_update_ne. }
  assert (Hamt2 : ∀ u, amount w2 u = if decide (s = u) then 0%Z else amount w u).
  { intros u. change (amount w2 u) with (amount w1 u). unfold w1.
    rewrite amount_update, Hn. simpl. by rewrite Ha. }
  assert (Hamt5 : ∀ u, amount w5 u = if decide (s = u) then 0%Z else amount w3 u).
  { intros u. unfold amount. destruct (decide (s = u)) as [<-|Hne].
    - rewrite Hn5. simpl. lia.
    - by rewrite Hne5. }
  split.
  - intros u nu Hu Hnu. destruct (decide (u = s)) as [->|Hne].
    + rewrite Hn5 in Hnu. injection Hnu as <-. split; simpl; try done.
      * lia.
      * split; [done|lia].
    + rewrite Hne5 in Hnu by done.
      eapply node_ok_kept; [exact K35|]. apply Dok; [lia|done].
  - done.
  - intros u Hu. rewrite Hne5 by lia. rewrite Dsame by lia.
    unfold w2; simpl. apply list_lookup_alter_ne. lia.
  - rewrite Hamt5, decide_True by done. unfold amount. rewrite Hn. lia.
  - intros u Hu. rewrite Hamt5, decide_False by done.
    destruct (Damount u) as [->|[_ ->]]; rewrite Hamt2, decide_False by done; auto.
  - intros u. unfold slack at 1. destruct (decide (u = s)) as [->|Hne].
    + rewrite Hn5. unfold slack. rewrite Hn. simpl. unfold reasons. simpl. lia.
    + rewrite Hne5 by done. fold (slack w3 u). rewrite Dslack.
      unfold w2, slack. simpl. rewrite list_lookup_alter_ne by done. lia.
  - exists (Disconnected s :: seg). split.
    { unfold w5. simpl. rewrite Dlog. unfold w2. simpl. by rewrite <- app_assoc. }
    intros u. rewrite !occurrences_cons.
    destruct (Dedges u) as [-> ->]. rewrite Hamt5, !Hamt2.
    destruct (decide (s = u)) as [<-|Hne].
    + assert (amount w s = 1%Z) as -> by (unfold amount; by rewrite Hn).
      assert (amount w3 s = 0%Z) as -> by (unfold amount; rewrite Hn3; simpl; lia).
      split; repeat case_decide; try lia; try done.
    + split; repeat case_decide; try lia; try congruence.
  - intros u n' r' Hn' Hr' Hpos Hzero. destruct (decide (u = s)) as [->|Hne].
    + assert (n' = n) as -> by congruence.
      assert (r' = r) as -> by congruence.
      destruct (lookup_lt_is_Some_2 (collections n) r) as [c Hc]; [done|].
      exists (Registry.clear c). split; [|done].
      unfold collection_of. rewrite Hn5. simpl.
      by rewrite list_lookup_alter_eq, Hc.
    + rewrite Hamt5, decide_False in Hzero by done.
      destruct (Dcleared u n' r') as (c & Hc & Hfl); [| |  |done|].
      * unfold w2, w1. simpl. by rewrite list_lookup_alter_ne.
      * done.
      * by rewrite Hamt2, decide_False.
      * exists c. split; [|done]. unfold collection_of. by rewrite Hne5.
Qed.

Lemma edges_same_start w1 w2 w' seg :
  (∀ u, amount w2 u = amount w1 u) → edges w1 w' seg → edges w2 w' seg.
Proof. intros H He u. rewrite H. apply He. Qed.

Lemma downstream_done_idle s w w2 :
  ok_below w s → kept w w2 →
  (∀ u, u < s → nodes w2 !! u = nodes w !! u) →
  ∀ w3, nodes w3 = nodes w2 → log w3 = log w2 → state (store w3) = state (store w2) →
  downstream_done s w2 w3.
Proof.
  intros Hok K Hlow w3 Hnodes Hlog Hstate. split.
  - split; rewrite ?Hnodes; eauto using node_kept_refl.
  - intros. by rewrite Hnodes.
  - intros u nu Hu. rewrite Hnodes, Hlow by done. intros Hnu.
    refine (node_ok_kept w w2 _ _ K _). apply Hok; [lia|done].
  - intros u. left. unfold amount. by rewrite Hnodes.
  - intros u. unfold slack. by rewrite Hnodes.
  - exists []. rewrite app_nil_r. split; [done|].
    apply edges_nil. intros u. unfold amount. by rewrite Hnodes.
  - apply cleared_idle. intros u. unfold amount. rewrite Hnodes. lia.
Qed.

Lemma tryUnsubscribe_rec_falls fuel :
  ∀ s w n,
    ok_below w s → nodes w !! s = Some n → s < fuel →
    (1 ≤ subscriptionsAmount n)%Z →
    (∀ u, u < s → slack w u = 0%Z) →
    ∃ w', tryUnsubscribe_rec fuel s w = Done tt w' ∧ falls s w w'.
Proof.
  induction fuel as [|fuel IH]; intros s w n Hok Hn Hfuel Hamt Hslack; [lia|].
  destruct (decide (subscriptionsAmount n = 1%Z)) as [Ha|Ha]; last first.
  { apply (tryUnsubscribe_rec_stays fuel s w n); [done..|lia]. }
  pose proof (Hok s n (le_n _) Hn) as Hs.
  assert (∃ h, unsubscribe n = Some h) as [h Hh].
  { destruct (unsubscribe n) eqn:E; [eauto|]. apply (ok_edge _ _ _ Hs) in E. lia. }
  rewrite (tryUnsubscribe_rec_unfold _ _ _ _ Hn), Hh. cbv zeta.
  rewrite decide_True by lia.
  set (w1 := set_nodes (alter (with_amount (subscriptionsAmount n - 1)) s) w).
  set (w2 := {| nodes := nodes w1; store := store w1; log := log w1 ++ [Disconnected s] |}).
  assert (K12 : kept w w2).
  { eapply kept_trans; [|apply kept_log]. apply kept_update. by split; eauto. }
  assert (Hne2 : ∀ u, u ≠ s → nodes w2 !! u = nodes w !! u).
  { intros u Hu. unfold w2, w1. simpl. by apply list_lookup_alter_ne. }
  assert (Hlow : ∀ u, u < s → nodes w2 !! u = nodes w !! u).
  { intros u Hu. apply Hne2. lia. }
  destruct h as [p k|i].
  - destruct (ok_handle _ _ _ Hs p k Hh) as (Hp & pn & Hpn & Hk).
    pose proof (ok_parent _ _ _ Hs p Hp) as Hps.
    destruct (lookup_lt_is_Some_2 (removers pn) k Hk) as [rm Hrm].
    assert (Hpn2 : nodes w2 !! p = Some pn) by (rewrite Hlow; done).
    rewrite (removeNestedSub_with_unfold _ _ _ _ _ _ Hpn2 Hrm).
    destruct (removed rm) eqn:Hremoved.
    { apply (uninstall_falls s w n _ w2 Hok Hn Hh Ha).
      by apply (downstream_done_idle s w w2). }
    set (w2' := set_nodes (alter (strike k rm) p) w2).
    assert (K22 : kept w2 w2').
    { apply kept_update. intros n' Hn'. assert (n' = pn) as -> by congruence.
      by apply node_kept_strike. }
    assert (Hne2' : ∀ u, u ≠ p → nodes w2' !! u = nodes w2 !! u).
    { intros u Hu. unfold w2'. by apply lookup_update_ne. }
    assert (Hpn2' : nodes w2' !! p = Some (strike k rm pn)) by (by apply lookup_update_eq).
    assert (Hamt2' : ∀ u, amount w2' u = amount w2 u).
    { intros u. unfold w2'. rewrite amount_update. case_decide; [|done].
      subst u. unfold amount. by rewrite Hpn2. }
    assert (Hsp : slack w p = 0%Z) by (by apply Hslack).
    unfold slack in Hsp. rewrite Hpn in Hsp.
    pose proof (reasons_strike k rm pn Hrm Hremoved) as Hrs.
    pose proof (reasons_nonneg (strike k rm pn)) as Hrn.
    destruct (IH p w2' (strike k rm pn)) as (w3 & H3 & F3); [|done|lia|simpl; lia| |].
    { intros u nu Hu. destruct (decide (u = p)) as [->|Hne].
      - rewrite Hpn2'. intros [= <-]. apply node_ok_strike.
        refine (node_ok_kept w w2' _ _ _ _); [eauto using kept_trans|].
        apply Hok; [lia|done].
      - rewrite Hne2', Hlow by lia. intros Hnu.
        refine (node_ok_kept w w2' _ _ _ _); [eauto using kept_trans|].
        apply Hok; [lia|done]. }
    { intros u Hu. unfold slack. rewrite Hne2', Hlow by lia.
      apply Hslack. lia. }
    rewrite H3. apply (uninstall_falls s w n _ w3 Hok Hn Hh Ha). fold w1 w2. split.
    + eauto using kept_trans, fall_kept.
    + intros u Hu. rewrite (fall_above _ _ _ F3) by lia. apply Hne2'. lia.
    + intros u nu Hu Hnu. destruct (decide (u ≤ p)); [by apply (fall_ok _ _ _ F3)|].
      rewrite (fall_above _ _ _ F3), Hne2', Hlow in Hnu by lia.
      refine (node_ok_kept w w3 _ _ _ _); [eauto using kept_trans, fall_kept|].
      apply Hok; [lia|done].
    + intros u. rewrite <- Hamt2'. destruct (decide (u = p)) as [->|Hne].
      * right. split; [done|]. apply (fall_amount _ _ _ F3).
      * destruct (decide (p < u)).
        -- left. unfold amount. by rewrite (fall_above _ _ _ F3).
        -- destruct (fall_others _ _ _ F3 u Hne); [by left|right]. split; [lia|done].
    + intros u. rewrite (fall_slack _ _ _ F3). unfold w2'. rewrite slack_update.
      destruct (decide (p = u)) as [<-|Hne].
      * rewrite decide_True, Hpn2 by done. unfold slack. rewrite Hpn2. simpl in *. lia.
      * rewrite decide_False by done. lia.
    + destruct (fall_log _ _ _ F3) as (seg & Hlog & Hedges).
      exists seg. split; [done|].
      apply (edges_same_start w2'); [intros; by rewrite Hamt2'|done].
    + intros u nu r Hnu Hr Hpos Hzero. rewrite <- Hamt2' in Hpos.
      destruct (decide (u = p)) as [->|Hne].
      * assert (nu = pn) as -> by congruence.
        by apply (fall_cleared _ _ _ F3 p (strike k rm pn) r).
      * apply (fall_cleared _ _ _ F3 u nu r); [by rewrite Hne2'|done..].
  - unfold store_unsubscribe, modify.
    apply (uninstall_falls s w n _ _ Hok Hn Hh Ha).
    by apply (downstream_done_idle s w w2).
Qed.

(** *** Sound worlds *)

(** A world is sound when every node is in order and the counter of every
    node is the number of its reasons to stay connected. *)
Definition sound (w : World) : Prop := consistent w ∧ paired w.

Lemma sound_init : sound init.
Proof. split; [by intros s n ?|by intros s]. Qed.

Lemma rises_consistent s w w' : consistent w → rises s w w' → consistent w'.
Proof.
  intros Hc R u n Hn. destruct (decide (u ≤ s)); [by apply (rise_ok _ _ _ R)|].
  rewrite (rise_above _ _ _ R) in Hn by lia.
  eapply node_ok_kept; [apply (rise_kept _ _ _ R)|]. by apply Hc.
Qed.

Lemma falls_consistent s w w' : consistent w → falls s w w' → consistent w'.
Proof.
  intros Hc F u n Hn. destruct (decide (u ≤ s)); [by apply (fall_ok _ _ _ F)|].
  rewrite (fall_above _ _ _ F) in Hn by lia.
  eapply node_ok_kept; [apply (fall_kept _ _ _ F)|]. by apply Hc.
Qed.

Lemma trySubscribe_rises s w n :
  consistent w → nodes w !! s = Some n →
  ∃ w', trySubscribe s w = Done tt w' ∧ rises s w w' ∧ consistent w'.
Proof.
  intros Hc Hn.
  destruct (trySubscribe_rec_rises (S s) s w n) as (w' & H & R);
    [by apply consistent_below|done|lia|].
  exists w'. eauto using rises_consistent.
Qed.

Lemma tryUnsubscribe_falls s w n :
  consistent w → nodes w !! s = Some n →
  (1 ≤ subscriptionsAmount n)%Z → (∀ u, u < s → slack w u = 0%Z) →
  ∃ w', tryUnsubscribe s w = Done tt w' ∧ falls s w w' ∧ consistent w'.
Proof.
  intros Hc Hn Ha Hs.
  destruct (tryUnsubscribe_rec_falls (S s) s w n) as (w' & H & F);
    [by apply consistent_below|done|lia|done|done|].
  exists w'. eauto using falls_consistent.
Qed.

Lemma trySubscribe_dangling s w :
  nodes w !! s = None → trySubscribe s w = Abort Dangling w.
Proof. intros H. unfold trySubscribe. simpl. unfold bind, get_node. by rewrite H. Qed.

Lemma tryUnsubscribe_dangling s w :
  nodes w !! s = None → tryUnsubscribe s w = Abort Dangling w.
Proof. intros H. unfold tryUnsubscribe. simpl. unfold bind, get_node. by rewrite H. Qed.

(** *** One step of the application on a sound world

    [moves w o] says that the outcome [o] of a call made in world [w]
    either completed or stopped at a dangling reference before it changed
    anything, that it left a sound world, that the counter of no node moved
    by more than one, and that the log tells of exactly the nodes whose
    counter left or reached zero. *)
Record moves {A} (w : World) (o : outcome World A) : Prop := mkMoves {
  move_outcome : (∃ a, o = Done a (final o)) ∨ o = Abort Dangling w;
  move_sound : sound (final o);
  move_amount : ∀ u, amount (final o) u = amount w u
                     ∨ amount (final o) u = (amount w u + 1)%Z
                     ∨ amount (final o) u = (amount w u - 1)%Z;
  move_log : ∃ seg, log (final o) = log w ++ seg ∧ edges w (final o) seg;
  move_cleared : cleared w (final o);
  move_persists : persists w (final o);
}.

Lemma moves_idle {A} (a : A) w : sound w → moves w (Done a w).
Proof.
  intros Hs. split; simpl; eauto.
  - exists []. rewrite app_nil_r. split; [done|]. by apply edges_nil.
  - by apply cleared_idle.
  - apply persists_refl.
Qed.

Lemma moves_dangling {A} w : sound w → moves w (@Abort World A Dangling w).
Proof.
  intros Hs. split; simpl; eauto.
  - exists []. rewrite app_nil_r. split; [done|]. by apply edges_nil.
  - by apply cleared_idle.
  - apply persists_refl.
Qed.

(** An update of a node that leaves what [node_ok] reads as it is. *)
Record same_shape (n n' : node) : Prop := mkSameShape {
  shape_parent : parentSub n' = parentSub n;
  shape_unsubscribe : unsubscribe n' = unsubscribe n;
  shape_listeners : listeners n' = listeners n;
  shape_amount : subscriptionsAmount n' = subscriptionsAmount n;
  shape_collections : length (collections n') = length (collections n);
  shape_removers : length (removers n') = length (removers n);
}.

Lemma node_ok_shape ns s n n' : same_shape n n' → node_ok ns s n → node_ok ns s n'.
Proof.
  intros [B1 B2 B3 B4 B5 B6] [A1 A2 A3 A4 A5 A6].
  split; rewrite ?B1, ?B2, ?B3, ?B4, ?B5; done.
Qed.

Lemma consistent_update w s f :
  (∀ n, same_shape n (f n)) → consistent w → consistent (set_nodes (alter f s) w).
Proof.
  intros Hf Hc u nu. rewrite lookup_update.
  assert (Hgrow : ∀ v p pn, p < v → nodes w !! p = Some pn →
            ∃ pn', nodes (set_nodes (alter f s) w) !! p = Some pn'
                   ∧ length (removers pn) ≤ length (removers pn')).
  { intros v p pn _ Hpn. rewrite lookup_update. case_decide as Hd.
    - subst p. rewrite Hpn. eexists; split; [done|].
      by rewrite (shape_removers _ _ (Hf pn)).
    - eauto. }
  case_decide as Hd.
  - subst u. destruct (nodes w !! s) as [n|] eqn:Hn; [|done]. intros [= <-].
    apply (node_ok_shape _ _ n); [done|].
    eapply node_ok_grow; [by apply Hc|]. apply Hgrow.
  - intros Hnu. eapply node_ok_grow; [by apply Hc|]. apply Hgrow.
Qed.

Lemma consistent_same_nodes w w' : nodes w' = nodes w → consistent w → consistent w'.
Proof. intros H Hc s n. rewrite H. apply Hc. Qed.

Lemma paired_same_nodes w w' : nodes w' = nodes w → paired w → paired w'.
Proof. intros H Hp s. unfold slack. rewrite H. apply Hp. Qed.

Lemma sound_same_nodes w w' : nodes w' = nodes w → sound w → sound w'.
Proof. intros H [? ?]. split; eauto using consistent_same_nodes, paired_same_nodes. Qed.

Lemma amount_same_nodes w w' : nodes w' = nodes w → ∀ u, amount w' u = amount w u.
Proof. intros H u. unfold amount. by rewrite H. Qed.

Lemma trySubscribeSelf_moves s w : sound w → moves w (trySubscribeSelf s w).
Proof.
  intros [Hc Hp]. unfold trySubscribeSelf, bind at 1, get_node.
  destruct (nodes w !! s) as [n|] eqn:Hn; [|by apply moves_dangling].
  destruct (selfSubscribed n) eqn:Hself; [by apply moves_idle|].
  unfold bind, update_node, modify.
  set (w0 := set_nodes (alter (with_selfSubscribed true) s) w).
  assert (Hn0 : nodes w0 !! s = Some (with_selfSubscribed true n))
    by (by apply lookup_update_eq).
  assert (Hc0 : consistent w0) by (by apply consistent_update).
  destruct (trySubscribe_rises s w0 _ Hc0 Hn0) as (w1 & -> & R & Hc1).
  assert (Hamt0 : ∀ u, amount w0 u = amount w u).
  { intros u. unfold w0. rewrite amount_update. case_decide; [|done].
    subst u. unfold amount. by rewrite Hn. }
  split; simpl.
  - left; eauto.
  - split; [done|]. intros u. rewrite (rise_slack _ _ _ R). unfold w0.
    rewrite slack_update, Hn. specialize (Hp u). unfold slack in Hp.
    destruct (decide (s = u)) as [<-|Hne].
    + rewrite decide_True by done. rewrite Hn in Hp. unfold reasons in *. simpl.
      rewrite Hself in Hp. lia.
    + rewrite decide_False by done. fold (slack w u). unfold slack. lia.
  - intros u. rewrite <- Hamt0. destruct (decide (u = s)) as [->|Hne].
    + right; left. apply (rise_amount _ _ _ R).
    + destruct (rise_others _ _ _ R u Hne); auto.
  - destruct (rise_log _ _ _ R) as (seg & Hlog & He). exists seg. split; [done|].
    apply (edges_same_start w0); [intros; by rewrite Hamt0|done].
  - apply cleared_idle. intros u. rewrite <- Hamt0.
    destruct (decide (u = s)) as [->|Hne].
    + rewrite (rise_amount _ _ _ R). lia.
    + destruct (rise_others _ _ _ R u Hne) as [-> | ->]; lia.
  - apply (persists_trans w w0); [by apply persists_update|].
    apply kept_persists, (rise_kept _ _ _ R).
Qed.

Lemma tryUnsubscribeSelf_moves s w : sound w → moves w (tryUnsubscribeSelf s w).
Proof.
  intros [Hc Hp]. unfold tryUnsubscribeSelf, bind at 1, get_node.
  destruct (nodes w !! s) as [n|] eqn:Hn; [|by apply moves_dangling].
  destruct (selfSubscribed n) eqn:Hself; [|by apply moves_idle].
  unfold bind, update_node, modify.
  set (w0 := set_nodes (alter (with_selfSubscribed false) s) w).
  assert (Hn0 : nodes w0 !! s = Some (with_selfSubscribed false n))
    by (by apply lookup_update_eq).
  assert (Hc0 : consistent w0) by (by apply consistent_update).
  assert (Hs0 : ∀ u, slack w0 u = if decide (s = u) then 1%Z else 0%Z).
  { intros u. unfold w0. rewrite slack_update, Hn. specialize (Hp u).
    unfold slack in Hp. destruct (decide (s = u)) as [<-|Hne]; [|done].
    rewrite Hn in Hp. unfold reasons in *. simpl. rewrite Hself in Hp. lia. }
  destruct (tryUnsubscribe_falls s w0 _ Hc0 Hn0) as (w1 & -> & F & Hc1).
  { simpl. specialize (Hp s). unfold slack in Hp. rewrite Hn in Hp.
    pose proof (reasons_nonneg (with_selfSubscribed false n)) as Hr.
    unfold reasons in *. simpl in *. rewrite Hself in Hp. lia. }
  { intros u Hu. rewrite Hs0. apply decide_False. lia. }
  assert (Hamt0 : ∀ u, amount w0 u = amount w u).
  { intros u. unfold w0. rewrite amount_update. case_decide; [|done].
    subst u. unfold amount. by rewrite Hn. }
  split; simpl.
  - left; eauto.
  - split; [done|]. intros u. rewrite (fall_slack _ _ _ F), Hs0.
    destruct (decide (s = u)) as [<-|Hne].
    + rewrite decide_True by done. lia.
    + rewrite decide_False by done. lia.
  - intros u. rewrite <- Hamt0. destruct (decide (u = s)) as [->|Hne].
    + right; right. apply (fall_amount _ _ _ F).
    + destruct (fall_others _ _ _ F u Hne); auto.
  - destruct (fall_log _ _ _ F) as (seg & Hlog & He). exists seg. split; [done|].
    apply (edges_same_start w0); [intros; by rewrite Hamt0|done].
  - intros u nu r Hnu Hr Hpos Hzero. rewrite <- Hamt0 in Hpos.
    destruct (decide (u = s)) as [->|Hne].
    + assert (nu = n) as -> by congruence.
      by apply (fall_cleared _ _ _ F s (with_selfSubscribed false n) r).
    + apply (fall_cleared _ _ _ F u nu r); [|done..].
      unfold w0. by rewrite lookup_update_ne.
  - apply (persists_trans w w0); [by apply persists_update|].
    apply kept_persists, (fall_kept _ _ _ F).
Qed.

Lemma addNestedSub_with_moves s listener w :
  sound w → moves w (addNestedSub_with trySubscribe s listener w).
Proof.
  intros [Hc Hp].
  destruct (nodes w !! s) as [n|] eqn:Hn; last first.
  { unfold addNestedSub_with, bind at 1. rewrite trySubscribe_dangling by done.
    by apply moves_dangling. }
  destruct (trySubscribe_rises s w n Hc Hn) as (w1 & H1 & R & Hc1).
  destruct (rise_connected _ _ _ R) as (n1 & Hn1 & Hcon).
  pose proof (Hc1 s n1 Hn1) as Hok1.
  destruct (listeners n1) as [r|] eqn:Hr; last first.
  { apply (ok_null _ _ _ Hok1) in Hr. rewrite Hr in Hcon. by destruct Hcon. }
  destruct (lookup_lt_is_Some_2 (collections n1) r) as [c Hc'].
  { by apply (ok_real _ _ _ Hok1). }
  rewrite (addNestedSub_with_unfold _ _ _ _ _ _ _ _ H1 Hn1 Hr Hc').
  set (w2 := set_nodes (alter (enlist r c listener) s) w1).
  assert (Hamt2 : ∀ u, amount w2 u = amount w1 u).
  { intros u. unfold w2. rewrite amount_update. case_decide; [|done].
    subst u. unfold amount. by rewrite Hn1. }
  split; simpl.
  - left; eauto.
  - split.
    + intros u nu. unfold w2. rewrite lookup_update.
      assert (K : kept w1 w2).
      { apply kept_update. intros; apply node_kept_enlist. }
      destruct (decide (s = u)) as [<-|Hne].
      * rewrite Hn1. intros [= <-]. apply node_ok_enlist.
        eapply node_ok_kept; [exact K|done].
      * intros Hnu. eapply node_ok_kept; [exact K|]. by apply Hc1.
    + intros u. unfold w2. rewrite slack_update.
      pose proof (rise_slack _ _ _ R u) as Hs. rewrite (Hp u) in Hs.
      destruct (decide (s = u)) as [<-|Hne].
      * rewrite Hn1, reasons_enlist. simpl. rewrite decide_True in Hs by done.
        unfold slack in Hs. rewrite Hn1 in Hs. lia.
      * rewrite decide_False in Hs by done. lia.
  - intros u. rewrite Hamt2. destruct (decide (u = s)) as [->|Hne].
    + right; left. apply (rise_amount _ _ _ R).
    + destruct (rise_others _ _ _ R u Hne); auto.
  - destruct (rise_log _ _ _ R) as (seg & Hlog & He). exists seg. split; [done|].
    by apply (edges_same _ w1).
  - apply cleared_idle. intros u. rewrite Hamt2.
    destruct (decide (u = s)) as [->|Hne].
    + rewrite (rise_amount _ _ _ R). lia.
    + destruct (rise_others _ _ _ R u Hne) as [-> | ->]; lia.
  - apply kept_persists. eapply kept_trans; [apply (rise_kept _ _ _ R)|].
    apply kept_update. intros; apply node_kept_enlist.
Qed.

Lemma call_handle_moves h w : sound w → moves w (call_handle h w).
Proof.
  intros [Hc Hp]. destruct h as [s k|i]; simpl.
  - unfold removeNestedSub_with, bind at 1, get_node.
    destruct (nodes w !! s) as [n|] eqn:Hn; [|by apply moves_dangling].
    destruct (removers n !! k) as [rm|] eqn:Hrm; [|by apply moves_dangling].
    destruct (removed rm) eqn:Hremoved; [by apply moves_idle|].
    unfold bind, update_node, modify.
    set (w0 := set_nodes (alter (strike k rm) s) w).
    assert (Hn0 : nodes w0 !! s = Some (strike k rm n)) by (by apply lookup_update_eq).
    assert (Hc0 : consistent w0).
    { apply consistent_update; [|done]. intros n'. split; simpl; try done.
      - by rewrite length_alter.
      - by rewrite length_insert. }
    assert (Hs0 : ∀ u, slack w0 u = if decide (s = u) then 1%Z else 0%Z).
    { intros u. unfold w0. rewrite slack_update, Hn. specialize (Hp u).
      unfold slack in Hp. destruct (decide (s = u)) as [<-|Hne]; [|done].
      rewrite Hn in Hp. rewrite (reasons_strike _ _ _ Hrm Hremoved). simpl. lia. }
    destruct (tryUnsubscribe_falls s w0 _ Hc0 Hn0) as (w1 & -> & F & Hc1).
    { simpl. specialize (Hp s). unfold slack in Hp. rewrite Hn in Hp.
      pose proof (reasons_nonneg (strike k rm n)) as Hr.
      rewrite (reasons_strike _ _ _ Hrm Hremoved) in Hr. lia. }
    { intros u Hu. rewrite Hs0. apply decide_False. lia. }
    assert (Hamt0 : ∀ u, amount w0 u = amount w u).
    { intros u. unfold w0. rewrite amount_update. case_decide; [|done].
      subst u. unfold amount. by rewrite Hn. }
    split; simpl.
    + left; eauto.
    + split; [done|]. intros u. rewrite (fall_slack _ _ _ F), Hs0.
      destruct (decide (s = u)) as [<-|Hne].
      * rewrite decide_True by done. lia.
      * rewrite decide_False by done. lia.
    + intros u. rewrite <- Hamt0. destruct (decide (u = s)) as [->|Hne].
      * right; right. apply (fall_amount _ _ _ F).
      * destruct (fall_others _ _ _ F u Hne); auto.
    + destruct (fall_log _ _ _ F) as (seg & Hlog & He). exists seg. split; [done|].
      apply (edges_same_start w0); [intros; by rewrite Hamt0|done].
    + intros u nu r Hnu Hr Hpos Hzero. rewrite <- Hamt0 in Hpos.
      destruct (decide (u = s)) as [->|Hne].
      * assert (nu = n) as -> by congruence.
        by apply (fall_cleared _ _ _ F s (strike k rm n) r).
      * apply (fall_cleared _ _ _ F u nu r); [|done..].
        unfold w0. by rewrite lookup_update_ne.
    + apply kept_persists. eapply kept_trans; [|apply (fall_kept _ _ _ F)].
      apply kept_update. intros n' Hn'. assert (n' = n) as -> by congruence.
      by apply node_kept_strike.
  - unfold store_unsubscribe, modify. split; simpl.
    + left; eauto.
    + by apply (sound_same_nodes w).
    + intros u. by left.
    + exists []. rewrite app_nil_r. split; [done|]. by apply edges_nil.
    + by apply cleared_idle.
    + by apply persists_same_nodes.
Qed.

(** *** Every execution stays sound *)

(** The outcome of a call made in world [w]: it left a sound world, it is
    not the call of a method that the object lacks, and the cleanup closures
    that had run in [w] still count as run. *)
Definition safe {A} (w : World) (o : outcome World A) : Prop :=
  sound (final o) ∧ (∀ w', o ≠ Abort TypeError w') ∧ persists w (final o).

Lemma moves_safe {A} w (o : outcome World A) : moves w o → safe w o.
Proof.
  intros [[[a Ho]| ->] Hs _ _ _ Hp]; (split_and!; [done| |done]).
  - rewrite Ho. by intros w'.
  - by intros w'.
Qed.

Lemma safe_done {A} (a : A) w : sound w → safe w (Done a w).
Proof. intros Hs. split_and!; [done|done|apply persists_refl]. Qed.

Lemma safe_step {A} (a : A) w w' : sound w' → persists w w' → safe w (Done a w').
Proof. intros Hs Hp. by split_and!. Qed.

Lemma safe_abort {A} e w : sound w → e ≠ TypeError → safe w (@Abort World A e w).
Proof.
  intros Hs He. split_and!; [done| |apply persists_refl].
  intros w' [= ? ?]. done.
Qed.

Lemma safe_bind {A B} (m : M World A) (k : A → M World B) w :
  safe w (m w) → (∀ a w1, m w = Done a w1 → sound w1 → safe w1 (k a w1)) →
  safe w (bind m k w).
Proof.
  intros (Hs & Hne & Hp) Hk. unfold bind. destruct (m w) as [a w1|e w1] eqn:Hm.
  - destruct (Hk a w1 eq_refl Hs) as (Hs' & Hne' & Hp').
    split_and!; eauto using persists_trans.
  - split_and!; [done| |done]. intros w' [= ? ?]. subst. by apply (Hne w').
Qed.

Lemma notify_loop_safe {C} (cells : World → list (Registry.Listener C)) run fuel :
  (∀ l cb w, sound w → safe w (run l cb w)) →
  ∀ cur w, sound w → safe w (Registry.notify_loop cells run fuel cur w).
Proof.
  intros Hrun. induction fuel as [|fuel IH]; intros cur w Hw.
  - destruct cur; simpl; [by apply safe_abort|by apply safe_done].
  - destruct cur as [l|]; [|by apply safe_done].
    destruct (cells w !! l) as [cell|] eqn:Hcell.
    + rewrite (Registry.notify_loop_turn _ _ _ _ cell) by done.
      destruct (Hrun l (Registry.callback cell) w Hw) as (Hs & Hne & Hp).
      destruct (run l (Registry.callback cell) w) as [[] w1|e w1] eqn:Hr.
      * destruct (IH (match cells w1 !! l with
                      | Some cell' => Registry.next cell' | None => None end) w1 Hs)
          as (Hs' & Hne' & Hp').
        split_and!; eauto using persists_trans.
      * split_and!; [done| |done]. intros w' [= ? ?]. subst. by apply (Hne w').
    + simpl. unfold bind, gets. rewrite Hcell. by apply safe_abort.
Qed.

Lemma emit_safe e w : sound w → safe w (emit e w).
Proof.
  intros Hs. apply safe_step; [by apply (sound_same_nodes w)|].
  by apply persists_same_nodes.
Qed.

Lemma get_node_safe s w : sound w → safe w (get_node s w).
Proof.
  intros Hs. unfold get_node. destruct (nodes w !! s);
    [by apply safe_done|by apply safe_abort].
Qed.

Lemma get_node_done s w n w1 : get_node s w = Done n w1 → w1 = w ∧ nodes w !! s = Some n.
Proof. unfold get_node. destruct (nodes w !! s); naive_solver. Qed.

Lemma call_safe fuel : ∀ f w, sound w → safe w (call fuel f w).
Proof.
  induction fuel as [|fuel IH]; intros f w Hw; [by apply safe_abort|].
  destruct f as [name|s|s|s|s|h]; simpl.
  - by apply emit_safe.
  - apply safe_bind; [by apply get_node_safe|].
    intros n w1 _ Hw1. destruct (onStateChange n); [by apply IH|by apply safe_done].
  - unfold notifyNestedSubs_with, notify_listeners.
    apply safe_bind; [by apply emit_safe|].
    intros _ w1 _ Hw1. apply safe_bind; [by apply get_node_safe|].
    intros n w2 _ Hw2. destruct (listeners n) as [r|]; [|by apply safe_done].
    unfold batch. apply safe_bind; [by apply safe_done|].
    intros cur w3 _ Hw3. apply notify_loop_safe; [|done].
    intros l cb w4 Hw4. apply safe_bind; [by apply emit_safe|].
    intros _ w5 _ Hw5. by apply IH.
  - by apply moves_safe, trySubscribeSelf_moves.
  - by apply moves_safe, tryUnsubscribeSelf_moves.
  - by apply moves_safe, call_handle_moves.
Qed.

Lemma fire_safe fuel ls : ∀ w, sound w → safe w (fire fuel ls w).
Proof.
  induction ls as [|cb ls IH]; intros w Hw; simpl; [by apply safe_done|].
  apply safe_bind; [by apply emit_safe|]. intros _ w1 _ Hw1.
  apply safe_bind; [by apply call_safe|]. intros _ w2 _ Hw2. by apply IH.
Qed.

Lemma dispatch_safe fuel newState w : sound w → safe w (dispatch fuel newState w).
Proof.
  intros Hw. unfold dispatch.
  apply safe_bind.
  { apply safe_step; [by apply (sound_same_nodes w)|by apply persists_same_nodes]. }
  intros _ w1 _ Hw1. apply safe_bind; [by apply safe_done|].
  intros ls w2 _ Hw2. by apply fire_safe.
Qed.

Lemma createSubscription_safe parent w : sound w → safe w (createSubscription parent w).
Proof.
  intros [Hc Hp]. unfold createSubscription, bind, gets, modify, ret.
  assert (Hnew : (∀ p, parent = Some p → p < length (nodes w)) →
                 safe w (Done (length (nodes w))
                   (set_nodes (λ ns, ns ++ [ {| parentSub := parent; unsubscribe := None;
                       listeners := None; subscriptionsAmount := 0;
                       selfSubscribed := false; onStateChange := None;
                       collections := []; removers := [] |} ]) w))).
  { intros Hparent. apply safe_step; [split|].
    - intros s n. simpl. intros [[Hs Hn]|[-> <-]]%lookup_snoc_Some.
      + eapply node_ok_grow; [by apply Hc|]. intros p pn _ Hpn.
        exists pn. split; [by apply lookup_app_l_Some|done].
      + split; simpl; try done.
    - intros s. unfold slack. simpl.
      destruct (decide (s < length (nodes w))).
      + rewrite lookup_app_l by done. apply Hp.
      + destruct (decide (s = length (nodes w))) as [->|].
        * rewrite lookup_app_r, Nat.sub_diag by done. simpl. unfold reasons. simpl. lia.
        * rewrite lookup_ge_None_2; [done|]. rewrite length_app. simpl. lia.
    - intros s k (n & rm & Hn & Hrm & Hr). exists n, rm. split_and!; [|done..].
      simpl. by apply lookup_app_l_Some. }
  destruct parent as [p|]; simpl.
  - case_decide; simpl.
    + apply Hnew. by intros ? [= <-].
    + by apply safe_abort.
  - apply Hnew. by intros ? [=].
Qed.

Lemma setOnStateChange_safe s f w : sound w → safe w (setOnStateChange s f w).
Proof.
  intros [Hc Hp]. unfold setOnStateChange. apply safe_bind; [by apply get_node_safe|].
  intros n w1 [-> Hn]%get_node_done _. apply safe_step; [split|].
  - by apply consistent_update.
  - intros u. rewrite slack_update. case_decide; [|apply Hp].
    subst u. rewrite Hn. specialize (Hp s). unfold slack in Hp. by rewrite Hn in Hp.
  - by apply persists_update.
Qed.

Lemma run_op_safe fuel o w : sound w → safe w (run_op fuel o w).
Proof.
  intros Hw. destruct o as [parent|s f|s listener|f|newState]; simpl.
  - apply safe_bind; [by apply createSubscription_safe|].
    intros; by apply safe_done.
  - by apply setOnStateChange_safe.
  - apply safe_bind; [|intros; by apply safe_done].
    unfold addNestedSub. apply safe_bind; [|intros; by apply safe_done].
    by apply moves_safe, addNestedSub_with_moves.
  - by apply call_safe.
  - by apply dispatch_safe.
Qed.

Lemma exec_safe fuel ops : ∀ w, sound w → safe w (exec fuel ops w).
Proof.
  induction ops as [|o ops IH]; intros w Hw; simpl; [by apply safe_done|].
  apply safe_bind; [by apply run_op_safe|]. intros _ w1 _ Hw1. by apply IH.
Qed.

(** *** The connection of a node is edge-triggered *)

(** The calls of the application that reach the internal [trySubscribe] and
    [tryUnsubscribe]. *)
Inductive connection : Type :=
  | Add (s : nat) (listener : closure)   (* [addNestedSub(listener)] on node [s] *)
  | Remove (s k : nat)                   (* the [k]-th cleanup closure of node [s] *)
  | SelfSubscribe (s : nat)              (* the public [trySubscribe] *)
  | SelfUnsubscribe (s : nat).           (* the public [tryUnsubscribe] *)

Definition connect (c : connection) : M World unit :=
  match c with
  | Add s listener => _ <- addNestedSub s listener ;; ret tt
  | Remove s k => call_handle (NestedSub s k)
  | SelfSubscribe s => trySubscribeSelf s
  | SelfUnsubscribe s => tryUnsubscribeSelf s
  end.

(** The two states of a node: disconnected, with no upstream handle, the
    null registry and a counter of zero, and connected, with an upstream
    handle, a collection of its own and a positive counter. *)
Definition two_states (w : World) (s : nat) : Prop :=
  ∀ n, nodes w !! s = Some n →
    (0 ≤ subscriptionsAmount n)%Z
    ∧ (subscriptionsAmount n = 0%Z ↔ unsubscribe n = None)
    ∧ (unsubscribe n = None ↔ listeners n = None)
    ∧ (∀ r, listeners n = Some r → is_Some (collections n !! r)).

Lemma sound_two_states w s : sound w → two_states w s.
Proof.
  intros [Hc _] n Hn. destruct (Hc s n Hn) as [_ A2 A3 A4 A5 _].
  split_and!; try done. intros r Hr. apply lookup_lt_is_Some. by apply A5.
Qed.

Lemma connect_moves c w : sound w → moves w (connect c w).
Proof.
  intros Hw. destruct c as [s listener|s k|s|s]; simpl.
  - pose proof (addNestedSub_with_moves s listener w Hw) as [Ho Hs Ha Hl Hc Hp].
    unfold addNestedSub, bind in *.
    destruct (addNestedSub_with trySubscribe s listener w) as [k w1|e w1]; simpl in *.
    + split; simpl; eauto.
    + split; simpl; try done. destruct Ho as [[a Ha']| [= -> ->]]; [done|]. by right.
  - by apply (call_handle_moves (NestedSub s k)).
  - by apply trySubscribeSelf_moves.
  - by apply tryUnsubscribeSelf_moves.
Qed.

(** The log of a node that connects, disconnects and connects again. *)
Example reconnect :
  log (final (exec 1 [Create None; AddNestedSub 0 (Consumer 1);
                      Call (Unsubscribe (NestedSub 0 0));
                      AddNestedSub 0 (Consumer 2); AddNestedSub 0 (Consumer 3)] init))
  = [Connected 0; Disconnected 0; Connected 0].
Proof. reflexivity. Qed.

(** *** The null registry is never asked for a method it lacks *)

(** A node that holds an upstream handle over the null registry.  No
    execution produces it; it shows what the missing methods would do. *)
Definition stranded : World :=
  {| nodes := [ {| parentSub := None; unsubscribe := Some (StoreSub 0);
                   listeners := None; subscriptionsAmount := 1;
                   selfSubscribed := true; onStateChange := None;
                   collections := []; removers := [] |} ];
     store := {| state := 0; registered := [(HandleChangeWrapper 0, true)] |};
     log := [] |}.

(** C10. The null registry has no [subscribe] and no [clear]: calling either
    is a [TypeError], as the world [stranded] shows.  No execution of the
    application makes such a call: in every world that an execution
    reaches a node holds an upstream handle exactly when it holds a real
    collection, and [trySubscribe] leaves a real collection behind, so the
    [listeners.subscribe] of [addNestedSub] and the [listeners.clear] of
    [tryUnsubscribe] find their method. *)
Theorem null_registry_methods_unreachable fuel (ops : list op) :
  let w := final (exec fuel ops init) in
  (∀ w', exec fuel ops init ≠ Abort TypeError w')
  ∧ (∀ s n, nodes w !! s = Some n → (unsubscribe n = None ↔ listeners n = None))
  ∧ (∀ s n, nodes w !! s = Some n →
       ∃ w1 n1 r, trySubscribe s w = Done tt w1 ∧ nodes w1 !! s = Some n1
                  ∧ listeners n1 = Some r ∧ is_Some (collections n1 !! r))
  ∧ (∀ s listener w', addNestedSub s listener w ≠ Abort TypeError w')
  ∧ (∀ s w', tryUnsubscribeSelf s w ≠ Abort TypeError w')
  ∧ (∀ h w', call_handle h w ≠ Abort TypeError w')
  ∧ (∃ w', addNestedSub 0 (Consumer 0) stranded = Abort TypeError w')
  ∧ (∃ w', tryUnsubscribeSelf 0 stranded = Abort TypeError w').
Proof.
  intros w.
  destruct (exec_safe fuel ops init sound_init) as (Hw & Hne & _). fold w in Hw.
  split_and!.
  - done.
  - intros s n Hn. apply (ok_null (nodes w) s n). by apply Hw.
  - intros s n Hn. destruct Hw as [Hc Hp].
    destruct (trySubscribe_rises s w n Hc Hn) as (w1 & H1 & R & Hc1).
    destruct (rise_connected _ _ _ R) as (n1 & Hn1 & Hcon).
    pose proof (Hc1 s n1 Hn1) as Hok1.
    destruct (listeners n1) as [r|] eqn:Hr.
    + exists w1, n1, r. split_and!; [done..|].
      apply lookup_lt_is_Some_2. by apply (ok_real _ _ _ Hok1).
    + apply (ok_null _ _ _ Hok1) in Hr. rewrite Hr in Hcon. by destruct Hcon.
  - intros s listener w'.
    destruct (moves_safe _ _ (addNestedSub_with_moves s listener w Hw)) as (_ & H & _).
    unfold addNestedSub, bind.
    destruct (addNestedSub_with trySubscribe s listener w) as [k w1|e w1]; [done|].
    intros [= ? ?]. subst. by apply (H w').
  - intros s. apply (moves_safe _ _ (tryUnsubscribeSelf_moves s w Hw)).
  - intros h. apply (moves_safe _ _ (call_handle_moves h w Hw)).
  - by eexists.
  - by eexists.
Qed.

(** *** The public entry points *)

Lemma trySubscribeSelf_spec s w n :
  sound w → nodes w !! s = Some n →
  ∃ w1 n1, trySubscribeSelf s w = Done tt w1 ∧ sound w1
    ∧ nodes w1 !! s = Some n1 ∧ selfSubscribed n1 = true
    ∧ amount w1 s = (amount w s + if selfSubscribed n then 0 else 1)%Z
    ∧ (selfSubscribed n = true → w1 = w)
    ∧ onStateChange n1 = onStateChange n.
Proof.
  intros Hw Hn. pose proof (move_sound _ _ (trySubscribeSelf_moves s w Hw)) as Hm.
  assert (Heq : trySubscribeSelf s w
                = if selfSubscribed n then Done tt w
                  else (update_node s (with_selfSubscribed true) ;; trySubscribe s) w).
  { unfold trySubscribeSelf, bind at 1, get_node. rewrite Hn.
    by destruct (selfSubscribed n). }
  rewrite Heq in Hm |- *. clear Heq. destruct (selfSubscribed n) eqn:Hself.
  - exists w, n. split_and!; [done..|lia|done|done].
  - revert Hm. unfold bind, update_node, modify.
    set (w0 := set_nodes (alter (with_selfSubscribed true) s) w).
    assert (Hn0 : nodes w0 !! s = Some (with_selfSubscribed true n))
      by (by apply lookup_update_eq).
    assert (Hc0 : consistent w0) by (apply consistent_update; [done|apply Hw]).
    destruct (trySubscribe_rises s w0 _ Hc0 Hn0) as (w1 & -> & R & Hc1).
    intros Hm.
    destruct (kept_nodes _ _ (rise_kept _ _ _ R) s _ Hn0) as (n1 & Hn1 & K).
    exists w1, n1.
    split_and!; [done|done|done|by rewrite (kept_self _ _ K)| |done
                |by rewrite (kept_handler _ _ K)].
    rewrite (rise_amount _ _ _ R). unfold w0. rewrite amount_update, decide_True by done.
    unfold amount. rewrite Hn. simpl. lia.
Qed.

Lemma tryUnsubscribeSelf_spec s w n :
  sound w → nodes w !! s = Some n →
  ∃ w1 n1, tryUnsubscribeSelf s w = Done tt w1 ∧ sound w1
    ∧ nodes w1 !! s = Some n1 ∧ selfSubscribed n1 = false
    ∧ amount w1 s = (amount w s - if selfSubscribed n then 1 else 0)%Z
    ∧ (selfSubscribed n = false → w1 = w).
Proof.
  intros Hw Hn. pose proof (move_sound _ _ (tryUnsubscribeSelf_moves s w Hw)) as Hm.
  assert (Heq : tryUnsubscribeSelf s w
                = if selfSubscribed n
                  then (update_node s (with_selfSubscribed false) ;; tryUnsubscribe s) w
                  else Done tt w).
  { unfold tryUnsubscribeSelf, bind at 1, get_node. rewrite Hn.
    by destruct (selfSubscribed n). }
  rewrite Heq in Hm |- *. clear Heq. destruct (selfSubscribed n) eqn:Hself; last first.
  { exists w, n. split_and!; [done..|lia|done]. }
  destruct Hw as [Hc Hp]. revert Hm. unfold bind, update_node, modify.
  set (w0 := set_nodes (alter (with_selfSubscribed false) s) w).
  assert (Hn0 : nodes w0 !! s = Some (with_selfSubscribed false n))
    by (by apply lookup_update_eq).
  assert (Hc0 : consistent w0) by (by apply consistent_update).
  assert (Hs0 : ∀ u, slack w0 u = if decide (s = u) then 1%Z else 0%Z).
  { intros u. unfold w0. rewrite slack_update, Hn. specialize (Hp u).
    unfold slack in Hp. destruct (decide (s = u)) as [<-|Hne]; [|done].
    rewrite Hn in Hp. unfold reasons in *. simpl. rewrite Hself in Hp. lia. }
  destruct (tryUnsubscribe_falls s w0 _ Hc0 Hn0) as (w1 & -> & F & Hc1).
  { simpl. specialize (Hp s). unfold slack in Hp. rewrite Hn in Hp.
    pose proof (reasons_nonneg (with_selfSubscribed false n)) as Hr.
    unfold reasons in *. simpl in *. rewrite Hself in Hp. lia. }
  { intros u Hu. rewrite Hs0. apply decide_False. lia. }
  intros Hm.
  destruct (kept_nodes _ _ (fall_kept _ _ _ F) s _ Hn0) as (n1 & Hn1 & K).
  exists w1, n1. split_and!; [done|done|done|by rewrite (kept_self _ _ K)| |done].
  rewrite (fall_amount _ _ _ F). unfold w0. rewrite amount_update, decide_True by done.
  unfold amount. rewrite Hn. simpl. lia.
Qed.

(** [m] called [k] times in a row. *)
Definition times {W} (k : nat) (m : M W unit) : M W unit :=
  Nat.iter k (λ calls, calls ;; m) (ret tt).

Lemma isSubscribed_lookup s w n :
  nodes w !! s = Some n → isSubscribed s w = Done (selfSubscribed n) w.
Proof. intros H. unfold isSubscribed, bind, get_node. by rewrite H. Qed.

(** C6. On every node of a world that an execution reaches, the public
    [trySubscribe] called twice or more does what one call does: the node
    is self-subscribed, and its counter went up by one if it was not
    self-subscribed before and not at all otherwise.  One public
    [tryUnsubscribe] then takes that one count back and leaves
    [isSubscribed()] false, and further public [tryUnsubscribe] calls
    change nothing. *)
Theorem self_subscription_is_idempotent fuel (ops : list op) (s : nat) :
  let w := final (exec fuel ops init) in
  let w1 := final (trySubscribeSelf s w) in
  let w2 := final (tryUnsubscribeSelf s w1) in
  s < length (nodes w) →
  trySubscribeSelf s w = Done tt w1
  ∧ (∀ k, times (S (S k)) (trySubscribeSelf s) w = Done tt w1)
  ∧ isSubscribed s w1 = Done true w1
  ∧ (isSubscribed s w = Done false w → amount w1 s = (amount w s + 1)%Z)
  ∧ (isSubscribed s w = Done true w → w1 = w)
  ∧ tryUnsubscribeSelf s w1 = Done tt w2
  ∧ isSubscribed s w2 = Done false w2
  ∧ amount w2 s = (amount w1 s - 1)%Z
  ∧ (∀ k, times (S k) (tryUnsubscribeSelf s) w2 = Done tt w2).
Proof.
  intros w w1 w2 Hs.
  assert (Hw : sound w) by (apply (exec_safe fuel ops init), sound_init).
  destruct (lookup_lt_is_Some_2 _ _ Hs) as [n Hn].
  destruct (trySubscribeSelf_spec s w n Hw Hn)
    as (v1 & n1 & H1 & Hw1 & Hn1 & Hf1 & Ha1 & Hi1 & _).
  assert (v1 = w1) as -> by (unfold w1; by rewrite H1).
  destruct (trySubscribeSelf_spec s w1 n1 Hw1 Hn1)
    as (v & _ & H11 & _ & _ & _ & _ & Hi11 & _).
  rewrite (Hi11 Hf1) in H11. clear v Hi11.
  destruct (tryUnsubscribeSelf_spec s w1 n1 Hw1 Hn1)
    as (v2 & n2 & H2 & Hw2 & Hn2 & Hf2 & Ha2 & _).
  assert (v2 = w2) as -> by (unfold w2; by rewrite H2).
  destruct (tryUnsubscribeSelf_spec s w2 n2 Hw2 Hn2) as (v & _ & H22 & _ & _ & _ & _ & Hi22).
  rewrite (Hi22 Hf2) in H22. clear v Hi22.
  rewrite Hf1 in Ha2.
  rewrite (isSubscribed_lookup s w n Hn).
  split_and!.
  - done.
  - assert (Hk : ∀ k, times (S k) (trySubscribeSelf s) w = Done tt w1).
    { induction k as [|k IH].
      - unfold times. simpl. by unfold bind, ret.
      - unfold times in *. rewrite Nat.iter_succ. unfold bind at 1. by rewrite IH. }
    intros k. apply Hk.
  - rewrite (isSubscribed_lookup s w1 n1 Hn1). by rewrite Hf1.
  - intros [= Hf]. rewrite Hf in Ha1. lia.
  - intros [= Hf]. by apply Hi1.
  - done.
  - rewrite (isSubscribed_lookup s w2 n2 Hn2). by rewrite Hf2.
  - lia.
  - induction k as [|k IH].
    + unfold times. simpl. by unfold bind, ret.
    + unfold times in *. rewrite Nat.iter_succ. unfold bind at 1. by rewrite IH.
Qed.

Lemma self_subscription_is_idempotent_witness :
  let w := final (exec 1 [Create None; Call (TrySubscribe 0)] init) in
  let w1 := final (trySubscribeSelf 0 w) in
  times 3 (trySubscribeSelf 0) w = Done tt w1
  ∧ isSubscribed 0 w1 = Done true w1
  ∧ isSubscribed 0 (final (tryUnsubscribeSelf 0 w1)) = Done false (final (tryUnsubscribeSelf 0 w1)).
Proof.
  intros w w1.
  destruct (self_subscription_is_idempotent 1 [Create None; Call (TrySubscribe 0)] 0)
    as (_ & H2 & H3 & _ & _ & _ & H7 & _); [simpl; lia|].
  split_and!; [apply (H2 1)|apply H3|apply H7].
Defined.

(** *** Cleanup closures called again *)

Lemma call_handle_struck s k w w1 :
  sound w → call_handle (NestedSub s k) w = Done tt w1 → struck w1 s k.
Proof.
  intros [Hc Hp]. simpl. unfold removeNestedSub_with, bind at 1, get_node.
  destruct (nodes w !! s) as [n|] eqn:Hn; [|done].
  destruct (removers n !! k) as [rm|] eqn:Hrm; [|done].
  destruct (removed rm) eqn:Hremoved.
  { intros [= <-]. by exists n, rm. }
  unfold bind, update_node, modify.
  set (w0 := set_nodes (alter (strike k rm) s) w).
  assert (Hn0 : nodes w0 !! s = Some (strike k rm n)) by (by apply lookup_update_eq).
  assert (Hc0 : consistent w0).
  { apply consistent_update; [|done]. intros n'. split; simpl; try done.
    - by rewrite length_alter.
    - by rewrite length_insert. }
  assert (Hs0 : ∀ u, slack w0 u = if decide (s = u) then 1%Z else 0%Z).
  { intros u. unfold w0. rewrite slack_update, Hn. specialize (Hp u).
    unfold slack in Hp. destruct (decide (s = u)) as [<-|Hne]; [|done].
    rewrite Hn in Hp. rewrite (reasons_strike _ _ _ Hrm Hremoved). simpl. lia. }
  destruct (tryUnsubscribe_falls s w0 _ Hc0 Hn0) as (v & -> & F & Hc1).
  { simpl. specialize (Hp s). unfold slack in Hp. rewrite Hn in Hp.
    pose proof (reasons_nonneg (strike k rm n)) as Hr.
    rewrite (reasons_strike _ _ _ Hrm Hremoved) in Hr. lia. }
  { intros u Hu. rewrite Hs0. apply decide_False. lia. }
  intros [= ->]. apply (kept_persists w0 w1 (fall_kept _ _ _ F)).
  exists (strike k rm n), {| removed := true; cleanupListener := cleanupListener rm |}.
  split_and!; [done| |done]. simpl.
  apply list_lookup_insert_eq. by apply lookup_lt_Some in Hrm.
Qed.

Lemma call_handle_again s k w : struck w s k → call_handle (NestedSub s k) w = Done tt w.
Proof.
  intros (n & rm & Hn & Hrm & Hr). simpl.
  unfold removeNestedSub_with, bind, get_node. by rewrite Hn, Hrm, Hr.
Qed.

(** Where the repeated call is a no-op.  The unsubscribe function of a
    listener changes nothing when it is called twice in a row, in whatever
    state the registry is, nor when it is called again after further
    subscribe and unsubscribe calls on a registry that is never cleared.
    The cleanup closure that [addNestedSub] returned changes nothing when
    it is called again: in every world that an execution reaches, after
    the closure completed once, calling it at once or after any further
    execution returns normally and leaves the whole world, the counters and
    the registries of all nodes included, as it found it. *)
Theorem repeated_cleanup_is_a_noop :
  (∀ C (c : Registry.ListenerCollection C) l,
     Registry.unsubscribe l (Registry.unsubscribe l c) = Registry.unsubscribe l c)
  ∧ (∀ C (calls : list (Registry.call C)) l,
       Registry.handles_exist 0 calls = true → l ∈ Registry.unsubscribed calls →
       Registry.unsubscribe l (Registry.run calls) = Registry.run calls)
  ∧ (∀ fuel ops s k w1,
       call_handle (NestedSub s k) (final (exec fuel ops init)) = Done tt w1 →
       call_handle (NestedSub s k) w1 = Done tt w1
       ∧ ∀ fuel' later,
           let w2 := final (exec fuel' later w1) in
           call_handle (NestedSub s k) w2 = Done tt w2
           ∧ ∀ f, call (S f) (Unsubscribe (NestedSub s k)) w2 = Done tt w2).
Proof.
  split_and!.
  - intros C c l. apply Registry.unsubscribe_idempotent.
  - intros C calls l. apply Registry.unsubscribe_later.
  - intros fuel ops s k w1 H1.
    assert (Hw : sound (final (exec fuel ops init)))
      by (apply (exec_safe fuel ops init), sound_init).
    pose proof (call_handle_struck s k _ w1 Hw H1) as Hk.
    assert (Hw1 : sound w1).
    { pose proof (move_sound _ _ (call_handle_moves (NestedSub s k) _ Hw)) as Hs.
      by rewrite H1 in Hs. }
    split; [by apply call_handle_again|].
    intros fuel' later w2.
    destruct (exec_safe fuel' later w1 Hw1) as (_ & _ & Hp).
    split; [by apply call_handle_again, Hp|].
    intros f. simpl. by apply call_handle_again, Hp.
Qed.

(** *** A child that loses its last nested subscription *)

(** [subscription.getListeners().get()], as the callbacks of the listeners
    that it returns. *)
Definition getListeners (s : nat) (w : World) : list closure :=
  match nodes w !! s with
  | Some n =>
      match listeners n with
      | Some r =>
          match collections n !! r with
          | Some c => omap (λ l, Registry.callback <$> Registry.heap c !! l)
                        (default [] (Registry.get c))
          | None => []
          end
      | None => []                     (* [nullListeners.get()] *)
      end
  | None => []
  end.

(** *** Worlds that the components alone have built

    The components give a node the handler [notifyNestedSubs] of the node
    itself or a callback of their own, and they register callbacks of
    their own with [addNestedSub]; the [handleChangeWrapper] of a node is
    registered by [trySubscribe] only, with the parent of the node or with
    the store. *)

Definition parents (w : World) : list (option nat) := parentSub <$> nodes w.

Definition handler_ok (s : nat) (f : option closure) : bool :=
  match f with
  | None => true
  | Some (NotifyNestedSubs u) => bool_decide (u = s)
  | Some (Consumer _) => true
  | Some _ => false
  end.

Definition listener_ok (ps : list (option nat)) (s : nat) (cb : closure) : bool :=
  match cb with
  | Consumer _ => true
  | HandleChangeWrapper d => bool_decide (ps !! d = Some (Some s))
  | _ => false
  end.

Definition collection_tame (ps : list (option nat)) (s : nat)
    (c : Registry.ListenerCollection closure) : Prop :=
  Forall (λ cb, listener_ok ps s cb = true) (Registry.callback <$> Registry.heap c).

Definition node_tame (ps : list (option nat)) (s : nat) (n : node) : Prop :=
  handler_ok s (onStateChange n) = true ∧ Forall (collection_tame ps s) (collections n).

Record tame (w : World) : Prop := mkTame {
  tame_nodes : ∀ s n, nodes w !! s = Some n → node_tame (parents w) s n;
  tame_store : ∀ i f b, registered (store w) !! i = Some (f, b) →
               ∃ r, f = HandleChangeWrapper r ∧ parents w !! r = Some None;
}.

(** The events that tell of an upstream subscribe or unsubscribe. *)
Definition edge_event (e : event) : bool :=
  match e with Connected _ | Disconnected _ => true | _ => false end.

(** The state of the store is the same, and the log grew by edge events
    only. *)
Definition calm (w w' : World) : Prop :=
  state (store w') = state (store w)
  ∧ ∃ seg, log w' = log w ++ seg ∧ forallb edge_event seg = true.

(** The outcome of a call of the connection machinery made in the tame
    world [w]: the world it left is tame, has the same nodes under the same
    parents, and is calm. *)
Definition steady {A} (w : World) (o : outcome World A) : Prop :=
  tame (final o) ∧ parents (final o) = parents w ∧ calm w (final o).

Lemma tame_init : tame init.
Proof. split; [by intros s n ?|by intros i f b ?]. Qed.

Lemma calm_refl w : calm w w.
Proof. split; [done|]. exists []. by rewrite app_nil_r. Qed.

Lemma calm_trans w1 w2 w3 : calm w1 w2 → calm w2 w3 → calm w1 w3.
Proof.
  intros (A1 & s1 & A2 & A3) (B1 & s2 & B2 & B3). split; [congruence|].
  exists (s1 ++ s2). rewrite B2, A2, app_assoc. split; [done|].
  rewrite forallb_app. by rewrite A3, B3.
Qed.

Lemma calm_same w w' : state (store w') = state (store w) → log w' = log w → calm w w'.
Proof. intros H1 H2. split; [done|]. exists []. by rewrite app_nil_r. Qed.

Lemma steady_done {A} (a : A) w : tame w → steady w (Done a w).
Proof. intros Ht. split_and!; [done..|apply calm_refl]. Qed.

Lemma steady_abort {A} e w : tame w → steady w (@Abort World A e w).
Proof. intros Ht. split_and!; [done..|apply calm_refl]. Qed.

Lemma steady_bind {A B} (m : M World A) (k : A → M World B) w :
  steady w (m w) →
  (∀ a w1, m w = Done a w1 → tame w1 → parents w1 = parents w → steady w1 (k a w1)) →
  steady w (bind m k w).
Proof.
  intros (Ht & Hp & Hc) Hk. unfold bind.
  destruct (m w) as [a w1|e w1] eqn:Hm; [|by split_and!].
  destruct (Hk a w1 eq_refl Ht Hp) as (Ht' & Hp' & Hc').
  split_and!; [done| |by apply (calm_trans w w1)]. simpl in Hp. congruence.
Qed.

Lemma parents_update w s f :
  (∀ n, nodes w !! s = Some n → parentSub (f n) = parentSub n) →
  parents (set_nodes (alter f s) w) = parents w.
Proof.
  intros Hf. apply list_eq. intros i. unfold parents.
  rewrite !list_lookup_fmap, lookup_update. case_decide as Hd; [|done].
  subst i. destruct (nodes w !! s) as [n|] eqn:Hn; [|done]. simpl. by rewrite Hf.
Qed.

Lemma update_steady s f w :
  tame w →
  (∀ n, nodes w !! s = Some n →
        parentSub (f n) = parentSub n ∧ node_tame (parents w) s (f n)) →
  steady w (update_node s f w).
Proof.
  intros [Hn Hs] Hf. unfold update_node, modify, steady. simpl.
  assert (Hp : parents (set_nodes (alter f s) w) = parents w).
  { apply parents_update. intros n H. by apply Hf. }
  split_and!; [|done|by apply calm_same]. split; rewrite Hp.
  - intros u nu. rewrite lookup_update. case_decide as Hd; [|by apply Hn].
    subst u. destruct (nodes w !! s) as [n|] eqn:Hlook; [|done].
    intros [= <-]. by apply Hf.
  - apply Hs.
Qed.

Lemma tame_same_nodes w w' :
  nodes w' = nodes w → registered (store w') = registered (store w) → tame w → tame w'.
Proof.
  intros Hn Hr [H1 H2]. split; unfold parents; rewrite Hn; [done|]. by rewrite Hr.
Qed.

Lemma emit_steady e w : tame w → edge_event e = true → steady w (emit e w).
Proof.
  intros Ht He. split_and!; [by apply (tame_same_nodes w)|done|].
  split; [done|]. exists [e]. simpl. by rewrite He.
Qed.

Lemma get_node_steady s w : tame w → steady w (get_node s w).
Proof.
  intros Ht. unfold get_node.
  destruct (nodes w !! s); [by apply steady_done|by apply steady_abort].
Qed.

Lemma store_subscribe_steady r w :
  tame w → parents w !! r = Some None →
  steady w (store_subscribe (HandleChangeWrapper r) w).
Proof.
  intros [Hn Hs] Hr. split_and!; [|done|by apply calm_same]. split; [apply Hn|].
  intros i f b. simpl. intros [[_ H]|[_ [= <- <-]]]%lookup_snoc_Some; eauto.
Qed.

Lemma store_unsubscribe_steady i w : tame w → steady w (store_unsubscribe i w).
Proof.
  intros [Hn Hs]. split_and!; [|done|by apply calm_same]. split; [apply Hn|].
  intros j f b. simpl. rewrite list_lookup_alter. case_decide as Hd; [|by apply Hs].
  subst j. destruct (registered (store w) !! i) as [[f' b']|] eqn:Hi; [|done].
  intros [= <- <-]. by apply (Hs i f' b').
Qed.

Lemma node_tame_install ps s h n : node_tame ps s n → node_tame ps s (install h n).
Proof.
  intros [H1 H2]. split; [done|]. simpl. apply Forall_app_2; [done|].
  apply Forall_singleton. by apply Forall_nil.
Qed.

Lemma node_tame_enlist ps s r c cb n :
  collections n !! r = Some c → listener_ok ps s cb = true →
  node_tame ps s n → node_tame ps s (enlist r c cb n).
Proof.
  intros Hc Hcb [H1 H2]. split; [done|].
  change (collections (enlist r c cb n))
    with (<[r := (Registry.subscribe cb c).2]> (collections n)).
  apply Forall_insert; [done|].
  unfold collection_tame. rewrite Registry.subscribe_callbacks.
  apply Forall_app_2; [apply (Forall_lookup_1 _ _ _ _ H2 Hc)|by apply Forall_singleton].
Qed.

Lemma node_tame_strike ps s k rm n : node_tame ps s n → node_tame ps s (strike k rm n).
Proof.
  intros [H1 H2]. split; [done|].
  change (collections (strike k rm n))
    with (alter (Registry.unsubscribe (cleanupListener rm).2) (cleanupListener rm).1
            (collections n)).
  apply Forall_alter; [done|].
  intros c _ Hc. unfold collection_tame. by rewrite Registry.unsubscribe_callbacks.
Qed.

Lemma node_tame_uninstall ps s r n : node_tame ps s n → node_tame ps s (uninstall r n).
Proof.
  intros [H1 H2]. split; [done|]. simpl. apply Forall_alter; [done|]. by intros c _ Hc.
Qed.

Lemma addNestedSub_with_steady trySub s cb w :
  (∀ w, tame w → steady w (trySub s w)) → tame w →
  listener_ok (parents w) s cb = true →
  steady w (addNestedSub_with trySub s cb w).
Proof.
  intros Htry Ht Hcb. unfold addNestedSub_with.
  apply steady_bind; [by apply Htry|]. intros _ w1 _ Ht1 Hp1.
  apply steady_bind; [by apply get_node_steady|].
  intros n w2 [-> Hn]%get_node_done _ _.
  destruct (listeners n) as [r|]; [|by apply steady_abort].
  destruct (collections n !! r) as [c|] eqn:Hc; [|by apply steady_abort].
  apply steady_bind; [|intros; by apply steady_done].
  apply update_steady; [done|]. intros n' Hn'. assert (n' = n) as -> by congruence.
  split; [done|]. apply node_tame_enlist; [done|by rewrite Hp1|by apply Ht1].
Qed.

Lemma trySubscribe_rec_steady fuel :
  ∀ s w, tame w → steady w (trySubscribe_rec fuel s w).
Proof.
  induction fuel as [|fuel IH]; intros s w Ht; [by apply steady_abort|].
  simpl. apply steady_bind; [by apply get_node_steady|].
  intros n w0 [-> Hn]%get_node_done _ _.
  apply steady_bind.
  { apply update_steady; [done|]. intros n' Hn'. split; [done|].
    exact (tame_nodes _ Ht _ _ Hn'). }
  intros _ w1 _ Ht1 Hp1.
  destruct (unsubscribe n); [by apply steady_done|].
  apply steady_bind; [by apply emit_steady|]. intros _ w2 _ Ht2 Hp2.
  assert (Hpar : parents w2 !! s = Some (parentSub n)).
  { rewrite Hp2, Hp1. unfold parents. by rewrite list_lookup_fmap, Hn. }
  apply steady_bind.
  { destruct (parentSub n) as [p|].
    - apply steady_bind; [|intros; by apply steady_done].
      apply addNestedSub_with_steady; [apply IH|done|].
      simpl. by apply bool_decide_eq_true.
    - by apply store_subscribe_steady. }
  intros h w3 _ Ht3 Hp3. apply update_steady; [done|]. intros n3 Hn3.
  split; [done|]. apply node_tame_install. by apply (tame_nodes _ Ht3).
Qed.

Lemma removeNestedSub_with_steady tryUnsub s k w :
  (∀ w, tame w → steady w (tryUnsub s w)) → tame w →
  steady w (removeNestedSub_with tryUnsub s k w).
Proof.
  intros Htry Ht. unfold removeNestedSub_with.
  apply steady_bind; [by apply get_node_steady|].
  intros n w0 [-> Hn]%get_node_done _ _.
  destruct (removers n !! k) as [rm|]; [|by apply steady_abort].
  destruct (removed rm); [by apply steady_done|].
  apply steady_bind; [|intros _ w1 _ Ht1 _; by apply Htry].
  apply update_steady; [done|]. intros n' Hn'. split; [done|].
  apply node_tame_strike. by apply (tame_nodes _ Ht).
Qed.

Lemma tryUnsubscribe_rec_steady fuel :
  ∀ s w, tame w → steady w (tryUnsubscribe_rec fuel s w).
Proof.
  induction fuel as [|fuel IH]; intros s w Ht; [by apply steady_abort|].
  simpl. apply steady_bind; [by apply get_node_steady|].
  intros n w0 [-> Hn]%get_node_done _ _.
  apply steady_bind.
  { apply update_steady; [done|]. intros n' Hn'. split; [done|].
    exact (tame_nodes _ Ht _ _ Hn'). }
  intros _ w1 _ Ht1 Hp1.
  destruct (unsubscribe n) as [h|]; [|by apply steady_done].
  case_decide; [|by apply steady_done].
  apply steady_bind; [by apply emit_steady|]. intros _ w2 _ Ht2 Hp2.
  apply steady_bind.
  { destruct h as [p k|i].
    - apply removeNestedSub_with_steady; [apply IH|done].
    - by apply store_unsubscribe_steady. }
  intros _ w3 _ Ht3 Hp3.
  apply steady_bind.
  { apply update_steady; [done|]. intros n' Hn'. split; [done|].
    exact (tame_nodes _ Ht3 _ _ Hn'). }
  intros _ w4 _ Ht4 Hp4.
  apply steady_bind; [by apply get_node_steady|].
  intros n' w5 [-> Hn']%get_node_done _ _.
  destruct (listeners n') as [r|]; [|by apply steady_abort].
  apply update_steady; [done|]. intros n5 Hn5. split; [done|].
  apply node_tame_uninstall. by apply (tame_nodes _ Ht4).
Qed.

Lemma trySubscribeSelf_steady s w : tame w → steady w (trySubscribeSelf s w).
Proof.
  intros Ht. unfold trySubscribeSelf.
  apply steady_bind; [by apply get_node_steady|].
  intros n w0 [-> Hn]%get_node_done _ _.
  destruct (selfSubscribed n); [by apply steady_done|].
  apply steady_bind; [|intros _ w1 _ Ht1 _; by apply trySubscribe_rec_steady].
  apply update_steady; [done|]. intros n' Hn'. split; [done|].
  exact (tame_nodes _ Ht _ _ Hn').
Qed.

Lemma tryUnsubscribeSelf_steady s w : tame w → steady w (tryUnsubscribeSelf s w).
Proof.
  intros Ht. unfold tryUnsubscribeSelf.
  apply steady_bind; [by apply get_node_steady|].
  intros n w0 [-> Hn]%get_node_done _ _.
  destruct (selfSubscribed n); [|by apply steady_done].
  apply steady_bind; [|intros _ w1 _ Ht1 _; by apply tryUnsubscribe_rec_steady].
  apply update_steady; [done|]. intros n' Hn'. split; [done|].
  exact (tame_nodes _ Ht _ _ Hn').
Qed.

Lemma call_handle_steady h w : tame w → steady w (call_handle h w).
Proof.
  intros Ht. destruct h as [s k|i]; simpl.
  - apply removeNestedSub_with_steady; [|done].
    intros w1 Ht1. by apply tryUnsubscribe_rec_steady.
  - by apply store_unsubscribe_steady.
Qed.

(** *** Passive calls in a tame world *)

(** What the call of a callback of the components, of a
    [handleChangeWrapper] or of a [notifyNestedSubs] leaves alone in a tame
    world: the nodes and the store; the log grows. *)
Definition still (w w' : World) : Prop :=
  nodes w' = nodes w ∧ store w' = store w ∧ ∃ seg, log w' = log w ++ seg.

Definition passive (f : closure) : bool :=
  match f with
  | Consumer _ | HandleChangeWrapper _ | NotifyNestedSubs _ => true
  | _ => false
  end.

Lemma still_refl w : still w w.
Proof. split_and!; [done..|]. exists []. by rewrite app_nil_r. Qed.

Lemma still_trans w1 w2 w3 : still w1 w2 → still w2 w3 → still w1 w3.
Proof.
  intros (A1 & A2 & s1 & A3) (B1 & B2 & s2 & B3). split_and!; [congruence..|].
  exists (s1 ++ s2). by rewrite B3, A3, app_assoc.
Qed.

Lemma still_parents w w' : still w w' → parents w' = parents w.
Proof. intros (H & _). unfold parents. by rewrite H. Qed.

Lemma still_tame w w' : still w w' → tame w → tame w'.
Proof. intros (H1 & H2 & _). apply tame_same_nodes; [done|by rewrite H2]. Qed.

Lemma cells_tame w s r l cell :
  tame w → cells_of s r w !! l = Some cell →
  listener_ok (parents w) s (Registry.callback cell) = true.
Proof.
  intros Ht. unfold cells_of, collection_of.
  destruct (nodes w !! s) as [n|] eqn:Hn; [|done].
  destruct (collections n !! r) as [c|] eqn:Hc; [|done]. intros Hcell.
  destruct (tame_nodes _ Ht s n Hn) as [_ Hall].
  pose proof (Forall_lookup_1 _ _ _ _ Hall Hc) as Hcol.
  apply (Forall_lookup_1 _ _ l _ Hcol). by rewrite list_lookup_fmap, Hcell.
Qed.

Lemma listener_ok_passive ps s cb : listener_ok ps s cb = true → passive cb = true.
Proof. by destruct cb. Qed.

Lemma emit_done e w a w1 :
  emit e w = Done a w1 → log w1 = log w ++ [e] ∧ parents w1 = parents w.
Proof. intros [= _ <-]. done. Qed.

(** A property [inv] of the log that every passive call keeps, given what
    holds when a closure is entered ([may_enter]) and while the pass over
    the listeners of a node runs ([in_pass]). *)
Section Passive.
Variable ps : list (option nat).
Variable inv : list event → Prop.
Variable may_enter : list event → closure → Prop.
Variable in_pass : list event → nat → Prop.
Hypothesis inv_called : ∀ l x, inv l → inv (l ++ [Called x]).
Hypothesis enter_consumer : ∀ l x, may_enter l (Consumer x).
Hypothesis enter_handler :
  ∀ l c, may_enter l (HandleChangeWrapper c) → may_enter l (NotifyNestedSubs c).
Hypothesis inv_notified :
  ∀ l c, inv l → may_enter l (NotifyNestedSubs c) →
         inv (l ++ [Notified c]) ∧ in_pass (l ++ [Notified c]) c.
Hypothesis pass_grows : ∀ l l' c, in_pass l c → in_pass (l ++ l') c.
Hypothesis inv_dispatched :
  ∀ l c cb, inv l → in_pass l c → listener_ok ps c cb = true →
            inv (l ++ [Dispatched (Some c) cb])
            ∧ may_enter (l ++ [Dispatched (Some c) cb]) cb.

Definition hushed {A} (w : World) (o : outcome World A) : Prop :=
  still w (final o) ∧ inv (log (final o)).

Lemma hushed_done {A} (a : A) w : inv (log w) → hushed w (Done a w).
Proof. split; [apply still_refl|done]. Qed.

Lemma hushed_abort {A} e w : inv (log w) → hushed w (@Abort World A e w).
Proof. split; [apply still_refl|done]. Qed.

Lemma hushed_after {A} w w1 (o : outcome World A) :
  still w w1 → hushed w1 o → hushed w o.
Proof. intros Hs [Hs' Hi]. split; [by apply (still_trans w w1)|done]. Qed.

Lemma hushed_bind {A B} (m : M World A) (k : A → M World B) w :
  hushed w (m w) →
  (∀ a w1, m w = Done a w1 → still w w1 → inv (log w1) → hushed w1 (k a w1)) →
  hushed w (bind m k w).
Proof.
  intros Hm Hk. unfold bind. destruct (m w) as [a w1|e w1] eqn:Heq; [|done].
  destruct Hm as [Hs Hi]. apply (hushed_after w w1); auto.
Qed.

Lemma hushed_emit e w : inv (log w ++ [e]) → hushed w (emit e w).
Proof. intros He. split; [|done]. split_and!; [done..|]. by exists [e]. Qed.

Lemma hushed_get_node s w : inv (log w) → hushed w (get_node s w).
Proof.
  intros Hi. unfold get_node.
  destruct (nodes w !! s); [by apply hushed_done|by apply hushed_abort].
Qed.

Section Invoke.
Variable invoke : closure → M World unit.
Hypothesis invoke_hushed :
  ∀ f w, tame w → parents w = ps → passive f = true →
         inv (log w) → may_enter (log w) f → hushed w (invoke f w).

Lemma notify_loop_hushed c r fuel :
  ∀ cur w, tame w → parents w = ps → inv (log w) → in_pass (log w) c →
    hushed w
      (Registry.notify_loop (cells_of c r)
         (λ _ cb, emit (Dispatched (Some c) cb) ;; invoke cb) fuel cur w).
Proof using All.
  induction fuel as [|fuel IH]; intros cur w Ht Hps Hinv Hpass.
  - destruct cur; simpl; [by apply hushed_abort|by apply hushed_done].
  - destruct cur as [l|]; [|by apply hushed_done].
    destruct (cells_of c r w !! l) as [cell|] eqn:Hcell; last first.
    { simpl. unfold bind, gets. rewrite Hcell. by apply hushed_abort. }
    rewrite (Registry.notify_loop_turn _ _ _ _ cell) by done.
    pose proof (cells_tame _ _ _ _ _ Ht Hcell) as Hok. rewrite Hps in Hok.
    destruct (inv_dispatched _ c _ Hinv Hpass Hok) as [Hinv1 Henter].
    assert (Hrun : hushed w
              ((emit (Dispatched (Some c) (Registry.callback cell)) ;;
                invoke (Registry.callback cell)) w)).
    { apply hushed_bind; [by apply hushed_emit|].
      intros _ w1 [Hlog Hps1]%emit_done Hst _. apply invoke_hushed.
      - by apply (still_tame w).
      - congruence.
      - by apply (listener_ok_passive _ _ _ Hok).
      - by rewrite Hlog.
      - by rewrite Hlog. }
    destruct ((emit (Dispatched (Some c) (Registry.callback cell)) ;;
               invoke (Registry.callback cell)) w) as [[] w1|e w1] eqn:Hr; [|done].
    destruct Hrun as [Hst Hinv']. simpl in Hst, Hinv'.
    apply (hushed_after w w1); [done|].
    apply IH; [by apply (still_tame w)|by rewrite (still_parents _ _ Hst)|done|].
    destruct Hst as (_ & _ & seg & ->). by apply pass_grows.
Qed.

Lemma notify_listeners_hushed fuel c w :
  tame w → parents w = ps → inv (log w) → in_pass (log w) c →
  hushed w (notify_listeners invoke fuel c w).
Proof using All.
  intros Ht Hps Hinv Hpass. unfold notify_listeners.
  apply hushed_bind; [by apply hushed_get_node|].
  intros n w1 [-> Hn]%get_node_done _ _.
  destruct (listeners n) as [r|]; [|by apply hushed_done].
  unfold batch. apply hushed_bind; [by apply hushed_done|].
  intros cur w2 [= _ <-] _ _. by apply notify_loop_hushed.
Qed.

End Invoke.

Lemma call_hushed fuel :
  ∀ f w, tame w → parents w = ps → passive f = true →
         inv (log w) → may_enter (log w) f → hushed w (call fuel f w).
Proof using All.
  induction fuel as [|fuel IH]; intros f w Ht Hps Hf Hinv Hin;
    [by apply hushed_abort|].
  destruct f as [name|s|s|s|s|h]; try done; simpl.
  - apply hushed_emit. by apply inv_called.
  - apply hushed_bind; [by apply hushed_get_node|].
    intros n w1 [-> Hn]%get_node_done _ _.
    destruct (tame_nodes _ Ht s n Hn) as [Hh _].
    destruct (onStateChange n) as [g|]; [|by apply hushed_done].
    apply IH; [done|done|by destruct g|done|].
    destruct g as [x|u|u|u|u|h]; try done.
    simpl in Hh. apply bool_decide_eq_true in Hh. subst u. by apply enter_handler.
  - unfold notifyNestedSubs_with.
    destruct (inv_notified _ s Hinv Hin) as [Hinv1 Hpass].
    apply hushed_bind; [by apply hushed_emit|].
    intros _ w1 [Hlog Hps1]%emit_done Hst1 _.
    apply (notify_listeners_hushed (call fuel) IH);
      [by apply (still_tame w)|congruence|by rewrite Hlog|by rewrite Hlog].
Qed.

End Passive.

(** Passive calls leave the nodes and the store as they are. *)
Lemma call_still fuel f w : tame w → passive f = true → still w (final (call fuel f w)).
Proof.
  intros Ht Hf.
  by apply (call_hushed (parents w) (λ _, True) (λ _ _, True) (λ _ _, True)).
Qed.

(** *** A change that travels down a tame world *)

(** From position [b] of the log on, the [handleChangeWrapper] of node [c]
    was called by the parent of [c], or by the store if [c] has none. *)
Definition announced (ps : list (option nat)) (b : nat) (l : list event) (c : nat) : Prop :=
  ∃ p j, ps !! c = Some p ∧ b ≤ j ∧ l !! j = Some (Dispatched p (HandleChangeWrapper c)).

(** From position [b] of the log on, a listener of a node fires only after
    the [handleChangeWrapper] of the node was called from above. *)
Definition heralded (ps : list (option nat)) (b : nat) (l : list event) : Prop :=
  b ≤ length l
  ∧ ∀ i c cb, b ≤ i → l !! i = Some (Dispatched (Some c) cb) →
      ∃ p j, ps !! c = Some p ∧ b ≤ j < i
             ∧ l !! j = Some (Dispatched p (HandleChangeWrapper c)).

Definition entered (ps : list (option nat)) (b : nat) (l : list event) (f : closure) : Prop :=
  match f with
  | HandleChangeWrapper c | NotifyNestedSubs c => announced ps b l c
  | _ => True
  end.

Lemma announced_app ps b l l' c : announced ps b l c → announced ps b (l ++ l') c.
Proof.
  intros (p & j & Hp & Hb & Hj). exists p, j.
  split_and!; [done..|]. by apply lookup_app_l_Some.
Qed.

Lemma announced_emit ps b l d p :
  b ≤ length l → ps !! d = Some p →
  announced ps b (l ++ [Dispatched p (HandleChangeWrapper d)]) d.
Proof.
  intros Hb Hd. exists p, (length l). split_and!; [done..|].
  by rewrite lookup_app_r, Nat.sub_diag.
Qed.

Lemma heralded_snoc ps b l e :
  heralded ps b l →
  (∀ c cb, e = Dispatched (Some c) cb → announced ps b l c) →
  heralded ps b (l ++ [e]).
Proof.
  intros [Hlen Hl] He. split; [rewrite length_app; lia|].
  intros i c cb Hb [[Hi H]|[-> ->]]%lookup_snoc_Some.
  - destruct (Hl i c cb Hb H) as (p & j & Hp & Hj & Hlook).
    exists p, j. split_and!; [done|lia|lia|]. by apply lookup_app_l_Some.
  - destruct (He c cb eq_refl) as (p & j & Hp & Hj & Hlook).
    exists p, j. pose proof (lookup_lt_Some _ _ _ Hlook).
    split_and!; [done|lia|lia|]. by apply lookup_app_l_Some.
Qed.

Lemma call_heralded b fuel f w :
  tame w → passive f = true → heralded (parents w) b (log w) →
  entered (parents w) b (log w) f →
  still w (final (call fuel f w)) ∧ heralded (parents w) b (log (final (call fuel f w))).
Proof.
  intros Ht Hf Hh Hin.
  apply (call_hushed (parents w) (heralded (parents w) b) (entered (parents w) b)
           (announced (parents w) b)); try done.
  - intros l x Hl. by apply heralded_snoc.
  - intros l c Hl Hc. split; [by apply heralded_snoc|by apply announced_app].
  - intros l l' c. apply announced_app.
  - intros l c cb Hl Hc Hok. split.
    + apply heralded_snoc; [done|]. by intros c' cb' [= <- <-].
    + destruct cb as [x|d|u|u|u|h]; try done. simpl.
      apply announced_emit; [apply Hl|]. simpl in Hok.
      by apply bool_decide_eq_true in Hok.
Qed.

Lemma fire_heralded b fuel ls :
  ∀ w, tame w → heralded (parents w) b (log w) →
    (∀ f, f ∈ ls → ∃ r, f = HandleChangeWrapper r ∧ parents w !! r = Some None) →
    still w (final (fire fuel ls w))
    ∧ heralded (parents w) b (log (final (fire fuel ls w))).
Proof.
  induction ls as [|cb ls IH]; intros w Ht Hh Hls; [split; [apply still_refl|done]|].
  destruct (Hls cb) as (r & -> & Hr); [by left|].
  set (w1 := {| nodes := nodes w; store := store w;
                log := log w ++ [Dispatched None (HandleChangeWrapper r)] |}).
  assert (Heq : fire fuel (HandleChangeWrapper r :: ls) w
                = match call fuel (HandleChangeWrapper r) w1 with
                  | Done _ w2 => fire fuel ls w2
                  | Abort e w2 => Abort e w2
                  end) by reflexivity.
  rewrite Heq. clear Heq.
  assert (Hst1 : still w w1) by (split_and!; [done..|by eexists]).
  assert (Ht1 : tame w1) by (by apply (still_tame w)).
  destruct (call_heralded b fuel (HandleChangeWrapper r) w1 Ht1 eq_refl) as [Hst2 Hh2].
  { by apply heralded_snoc. }
  { apply announced_emit; [apply Hh|done]. }
  destruct (call fuel (HandleChangeWrapper r) w1) as [[] w2|e w2] eqn:Hcall.
  - simpl in Hst2, Hh2. pose proof (still_trans _ _ _ Hst1 Hst2) as Hst.
    destruct (IH w2) as [Hst3 Hh3].
    + by apply (still_tame w1).
    + by rewrite (still_parents _ _ Hst2).
    + intros f Hf. rewrite (still_parents _ _ Hst). apply Hls. by right.
    + split; [by apply (still_trans w w2)|]. by rewrite (still_parents _ _ Hst) in Hh3.
  - split; [by apply (still_trans w w1)|done].
Qed.

(** What the components do with the nodes: they install the handler
    [notifyNestedSubs] of the node itself or a callback of their own, and
    they hand callbacks of their own to [addNestedSub]. *)
Definition tame_op (o : op) : bool :=
  match o with
  | SetOnStateChange s f => handler_ok s f
  | AddNestedSub _ (Consumer _) => true
  | AddNestedSub _ _ => false
  | _ => true
  end.

Lemma tame_bind {A B} (m : M World A) (k : A → M World B) w :
  tame (final (m w)) →
  (∀ a w1, m w = Done a w1 → tame w1 → tame (final (k a w1))) →
  tame (final (bind m k w)).
Proof.
  intros Hm Hk. unfold bind. destruct (m w) as [a w1|e w1] eqn:Heq; [|done].
  by apply (Hk a w1).
Qed.

Lemma call_tame fuel f w : tame w → tame (final (call fuel f w)).
Proof.
  intros Ht. destruct (passive f) eqn:Hf.
  - apply (still_tame w); [|done]. by apply call_still.
  - destruct fuel as [|fuel]; [done|]. destruct f as [name|s|s|s|s|h]; try done; simpl.
    + by apply trySubscribeSelf_steady.
    + by apply tryUnsubscribeSelf_steady.
    + by apply call_handle_steady.
Qed.

Lemma store_listeners_tame w f :
  tame w → f ∈ (filter (λ e, e.2 = true) (registered (store w))).*1 →
  ∃ r, f = HandleChangeWrapper r ∧ parents w !! r = Some None.
Proof.
  intros Ht ([f' b] & -> & [_ Hin]%list_elem_of_filter)%list_elem_of_fmap.
  apply list_elem_of_lookup_1 in Hin as [i Hi]. by apply (tame_store _ Ht i f' b).
Qed.

Lemma dispatch_still fuel newState w :
  tame w →
  let w0 := set_store (λ st, {| state := newState; registered := registered st |}) w in
  tame w0
  ∧ still w0 (final (dispatch fuel newState w))
  ∧ heralded (parents w) (length (log w)) (log (final (dispatch fuel newState w))).
Proof.
  intros Ht w0. assert (Ht0 : tame w0) by (by apply (tame_same_nodes w)).
  split; [done|].
  apply (fire_heralded (length (log w)) fuel _ w0 Ht0).
  - split; [done|]. intros i c cb Hb Hlook. simpl in Hlook.
    apply lookup_lt_Some in Hlook. lia.
  - intros f Hf. by apply (store_listeners_tame w).
Qed.

Lemma dispatch_tame fuel newState w : tame w → tame (final (dispatch fuel newState w)).
Proof.
  intros Ht. destruct (dispatch_still fuel newState w Ht) as (Ht0 & Hst & _).
  by apply (still_tame _ _ Hst).
Qed.

Lemma listener_ok_grow ps extra s cb :
  listener_ok ps s cb = true → listener_ok (ps ++ extra) s cb = true.
Proof.
  destruct cb as [x|d|u|u|u|h]; try done. simpl.
  rewrite !bool_decide_eq_true. by apply lookup_app_l_Some.
Qed.

Lemma node_tame_grow ps extra s n : node_tame ps s n → node_tame (ps ++ extra) s n.
Proof.
  intros [H1 H2]. split; [done|]. eapply Forall_impl; [done|].
  intros c Hc. eapply Forall_impl; [done|]. intros cb. apply listener_ok_grow.
Qed.

Lemma createSubscription_tame parent w :
  tame w → tame (final (createSubscription parent w)).
Proof.
  intros Ht. unfold createSubscription, bind, gets, modify, ret.
  assert (Hnew : tame (set_nodes (λ ns, ns ++ [ {| parentSub := parent;
                    unsubscribe := None; listeners := None; subscriptionsAmount := 0;
                    selfSubscribed := false; onStateChange := None;
                    collections := []; removers := [] |} ]) w)).
  { split; unfold parents; simpl; rewrite fmap_app.
    - intros s n [[Hs Hn]|[-> <-]]%lookup_snoc_Some.
      + apply node_tame_grow. by apply (tame_nodes _ Ht).
      + split; [done|]. by apply Forall_nil.
    - intros i f b Hi. destruct (tame_store _ Ht i f b Hi) as (r & -> & Hr).
      exists r. split; [done|]. by apply lookup_app_l_Some. }
  destruct parent as [p|]; simpl; [|done]. by case_decide.
Qed.

Lemma setOnStateChange_tame s f w :
  tame w → handler_ok s f = true → tame (final (setOnStateChange s f w)).
Proof.
  intros Ht Hf. unfold setOnStateChange.
  apply tame_bind; [by apply get_node_steady|].
  intros n w1 [-> Hn]%get_node_done _.
  apply update_steady; [done|]. intros n' Hn'. split; [done|].
  split; [done|]. apply (tame_nodes _ Ht _ _ Hn').
Qed.

Lemma run_op_tame fuel o w : tame w → tame_op o = true → tame (final (run_op fuel o w)).
Proof.
  intros Ht Ho. destruct o as [parent|s f|s listener|f|newState]; simpl.
  - apply tame_bind; [by apply createSubscription_tame|]. by intros.
  - by apply setOnStateChange_tame.
  - destruct listener as [x| | | | |]; try done.
    apply tame_bind; [|by intros]. unfold addNestedSub.
    apply tame_bind; [|by intros].
    apply addNestedSub_with_steady; [|done..].
    intros w1 Ht1. by apply trySubscribe_rec_steady.
  - by apply call_tame.
  - by apply dispatch_tame.
Qed.

Lemma exec_tame fuel ops :
  ∀ w, tame w → forallb tame_op ops = true → tame (final (exec fuel ops w)).
Proof.
  induction ops as [|o ops IH]; intros w Ht Hops; [done|].
  simpl in Hops. apply andb_prop in Hops as [Ho Hops]. simpl.
  apply tame_bind; [by apply run_op_tame|]. intros _ w1 _ Ht1. by apply IH.
Qed.

(** [a] is the parent of [c], or the parent of an ancestor of [c]. *)
Inductive ancestor (ps : list (option nat)) : nat → nat → Prop :=
  | ancestor_parent a c : ps !! c = Some (Some a) → ancestor ps a c
  | ancestor_step a p c : ps !! c = Some (Some p) → ancestor ps a p → ancestor ps a c.

(** The root node of the scenario: it hands a change on to its nested
    subscribers, the owner attaches it, and [f] and [g] are registered in
    this order. *)
Definition root_with (f g : nat) : list op :=
  [Create None; SetOnStateChange 0 (Some (NotifyNestedSubs 0));
   Call (TrySubscribe 0); AddNestedSub 0 (Consumer f); AddNestedSub 0 (Consumer g)].

Lemma dispatch_heralded fuel newState w :
  tame w →
  ∃ seg, log (final (dispatch fuel newState w)) = log w ++ seg
    ∧ nodes (final (dispatch fuel newState w)) = nodes w
    ∧ ∀ i c cb, seg !! i = Some (Dispatched (Some c) cb) →
        ∃ p j, parents w !! c = Some p ∧ j < i
               ∧ seg !! j = Some (Dispatched p (HandleChangeWrapper c)).
Proof.
  intros Ht.
  destruct (dispatch_still fuel newState w Ht) as (Ht0 & Hst & _ & Hh).
  destruct Hst as (Hn & _ & seg & Hlog). simpl in Hn, Hlog.
  exists seg. split_and!; [done..|]. intros i c cb Hi.
  destruct (Hh (length (log w) + i) c cb) as (p & j & Hp & Hj & Hlook).
  - lia.
  - rewrite Hlog, lookup_app_r by lia. by replace (length (log w) + i - length (log w)) with i by lia.
  - exists p, (j - length (log w)). split_and!; [done|lia|].
    rewrite Hlog, lookup_app_r in Hlook by lia. done.
Qed.

(** *** A pass that a root node starts by itself *)

Lemma edge_events_silent x seg :
  forallb edge_event seg = true → occurrences (Notified x) seg = 0.
Proof.
  induction seg as [|e seg IH]; [done|]. simpl. intros [He Hseg]%andb_prop.
  rewrite occurrences_cons, IH by done. by destruct e.
Qed.

(** The pass over the listeners of a node [x] without parent notifies the
    nested subscribers of no node twice: [notifyNestedSubs] of [x] is not
    called again. *)
Lemma notify_listeners_silent x fuel w :
  tame w → parents w !! x = Some None →
  still w (final (notify_listeners (call fuel) fuel x w))
  ∧ occurrences (Notified x) (log (final (notify_listeners (call fuel) fuel x w)))
    = occurrences (Notified x) (log w).
Proof.
  intros Ht Hx.
  set (inv := λ l : list event,
         occurrences (Notified x) l = occurrences (Notified x) (log w)).
  set (may := λ (_ : list event) f,
         f ≠ HandleChangeWrapper x ∧ f ≠ NotifyNestedSubs x).
  assert (Hadd : ∀ l e, e ≠ Notified x → inv l → inv (l ++ [e])).
  { intros l e He Hl. unfold inv in *.
    rewrite occurrences_app, occurrences_cons, occurrences_nil, decide_False by done.
    lia. }
  assert (H1 : ∀ l y, inv l → inv (l ++ [Called y])) by (intros; by apply Hadd).
  assert (H2 : ∀ l y, may l (Consumer y)) by done.
  assert (H3 : ∀ l c, may l (HandleChangeWrapper c) → may l (NotifyNestedSubs c)).
  { intros l c [Hc _]. split; [done|]. intros [= ->]. done. }
  assert (H4 : ∀ l c, inv l → may l (NotifyNestedSubs c) →
                      inv (l ++ [Notified c]) ∧ True).
  { intros l c Hl [_ Hc]. split; [|done]. apply Hadd; [|done]. intros [= ->]. done. }
  assert (H5 : ∀ (l l' : list event) (c : nat), True → True) by done.
  assert (H6 : ∀ l c cb, inv l → True → listener_ok (parents w) c cb = true →
                 inv (l ++ [Dispatched (Some c) cb])
                 ∧ may (l ++ [Dispatched (Some c) cb]) cb).
  { intros l c cb Hl _ Hok. split; [by apply Hadd|].
    destruct cb as [y|d|u|u|u|h]; try done. split; [|done]. intros [= ->].
    simpl in Hok. apply bool_decide_eq_true in Hok. congruence. }
  apply (notify_listeners_hushed (parents w) inv may (λ _ _, True)
           H1 H2 H3 H4 H5 H6 (call fuel)); try done.
  intros f w1 Ht1 Hp1 Hf Hinv Hmay.
  by apply (call_hushed (parents w) inv may (λ _ _, True) H1 H2 H3 H4 H5 H6 fuel).
Qed.

End Subscription.

(** ** The effect of the [Provider] component *)

Module Provider.
Import Subscription.

(** The layout effect of [Provider] on the subscription of its context
    value; [previousState] is the state that was read when the component
    rendered. *)
Definition attach (fuel : nat) (subscription previousState : nat) : M World unit :=
  setOnStateChange subscription (Some (NotifyNestedSubs subscription)) ;;
  trySubscribeSelf subscription ;;
  st <- getState ;;
  if decide (previousState ≠ st) then notifyNestedSubs fuel subscription else ret tt.

(** The cleanup that the effect returns. *)
Definition detach (subscription : nat) : M World unit :=
  tryUnsubscribeSelf subscription ;; setOnStateChange subscription None.

(** C9. In a world that the components have built, on a subscription
    without parent: the effect sets [onStateChange] to the
    [notifyNestedSubs] of the subscription, then calls the public
    [trySubscribe], after which the subscription is self-subscribed and
    the handler is in place, then reads the state of the store; it goes on
    with one call of [notifyNestedSubs] if that state differs from
    [previousState] and with nothing otherwise, so that the log of the
    effect shows [notifyNestedSubs] of the subscription once in the first
    case and not at all in the second. *)
Theorem attach_notifies_iff_state_changed fuel (ops : list op) fuel' (sub prev : nat) :
  let w := final (exec fuel ops init) in
  let o := attach fuel' sub prev w in
  forallb tame_op ops = true →
  parents w !! sub = Some None →
  ∃ w1 w2 n2 seg,
    setOnStateChange sub (Some (NotifyNestedSubs sub)) w = Done tt w1
    ∧ trySubscribeSelf sub w1 = Done tt w2
    ∧ nodes w2 !! sub = Some n2
    ∧ onStateChange n2 = Some (NotifyNestedSubs sub)
    ∧ selfSubscribed n2 = true
    ∧ getState w2 = Done (state (store w)) w2
    ∧ o = (if decide (prev ≠ state (store w))
           then notifyNestedSubs fuel' sub w2 else Done tt w2)
    ∧ log (final o) = log w ++ seg
    ∧ occurrences (Notified sub) seg
      = (if decide (prev ≠ state (store w)) then 1 else 0).
Proof.
  intros w o Hops Hroot.
  assert (Hw : sound w) by (apply (exec_safe fuel ops init), sound_init).
  assert (Ht : tame w) by (by apply exec_tame; [apply tame_init|]).
  pose proof Hroot as Hn. unfold parents in Hn. rewrite list_lookup_fmap in Hn.
  destruct (nodes w !! sub) as [n|] eqn:Hlook; [|done]. clear Hn.
  set (f := Some (NotifyNestedSubs sub)).
  set (w1 := set_nodes (alter (with_onStateChange f) sub) w).
  assert (H1 : setOnStateChange sub f w = Done tt w1).
  { unfold setOnStateChange, bind, get_node. by rewrite Hlook. }
  assert (Hw1 : sound w1).
  { pose proof (setOnStateChange_safe sub f w Hw) as (Hs & _). by rewrite H1 in Hs. }
  assert (Ht1 : tame w1).
  { pose proof (setOnStateChange_tame sub f w Ht) as Hs. rewrite H1 in Hs.
    apply Hs. simpl. by apply bool_decide_eq_true. }
  assert (Hn1 : nodes w1 !! sub = Some (with_onStateChange f n))
    by (by apply lookup_update_eq).
  destruct (trySubscribeSelf_spec sub w1 _ Hw1 Hn1)
    as (w2 & n2 & H2 & Hw2 & Hn2 & Hf2 & _ & _ & Hh2).
  pose proof (trySubscribeSelf_steady sub w1 Ht1) as (Ht2 & Hp2 & Hst2 & seg1 & Hlog2 & Hseg1).
  rewrite H2 in Ht2, Hp2, Hst2, Hlog2. simpl in Ht2, Hp2, Hst2, Hlog2.
  change (state (store w1)) with (state (store w)) in Hst2.
  change (log w1) with (log w) in Hlog2.
  assert (Hp1 : parents w1 = parents w).
  { apply parents_update. by intros. }
  assert (Ho : o = if decide (prev ≠ state (store w))
                   then notifyNestedSubs fuel' sub w2 else Done tt w2).
  { unfold o, attach, bind. fold f. rewrite H1, H2. unfold getState, gets.
    rewrite Hst2. by destruct (decide (prev ≠ state (store w))). }
  pose proof (edge_events_silent sub seg1 Hseg1) as Hocc1.
  destruct (decide (prev ≠ state (store w))) as [Hd|Hd].
  - set (w3 := {| nodes := nodes w2; store := store w2;
                  log := log w2 ++ [Notified sub] |}).
    assert (Ho3 : o = notify_listeners (call fuel') fuel' sub w3) by (by rewrite Ho).
    destruct (notify_listeners_silent sub fuel' w3) as [(_ & _ & seg3 & Hlog3) Hocc].
    { by apply (tame_same_nodes w2). }
    { change (parents w3) with (parents w2). by rewrite Hp2, Hp1. }
    rewrite Hlog3, occurrences_app in Hocc.
    exists w1, w2, n2, (seg1 ++ [Notified sub] ++ seg3).
    split_and!; [done|done|done|by rewrite Hh2|done|by rewrite <- Hst2|done| |].
    + rewrite Ho3, Hlog3. simpl. rewrite Hlog2. by rewrite <- !app_assoc.
    + rewrite !occurrences_app, occurrences_cons, occurrences_nil, decide_True by done.
      lia.
  - exists w1, w2, n2, seg1.
    split_and!; [done|done|done|by rewrite Hh2|done|by rewrite <- Hst2|done| |done].
    by rewrite Ho.
Qed.

Lemma attach_notifies_iff_state_changed_witness :
  let w := final (exec 1 [Create None; AddNestedSub 0 (Consumer 5); Dispatch 3] init) in
  ∃ w1 w2 n2 seg,
    setOnStateChange 0 (Some (NotifyNestedSubs 0)) w = Done tt w1
    ∧ trySubscribeSelf 0 w1 = Done tt w2
    ∧ nodes w2 !! 0 = Some n2
    ∧ onStateChange n2 = Some (NotifyNestedSubs 0)
    ∧ selfSubscribed n2 = true
    ∧ getState w2 = Done (state (store w)) w2
    ∧ attach 3 0 0 w = (if decide (0 ≠ state (store w))
                        then notifyNestedSubs 3 0 w2 else Done tt w2)
    ∧ log (final (attach 3 0 0 w)) = log w ++ seg
    ∧ occurrences (Notified 0) seg = (if decide (0 ≠ state (store w)) then 1 else 0).
Proof.
  intros w.
  apply (attach_notifies_iff_state_changed 1
           [Create None; AddNestedSub 0 (Consumer 5); Dispatch 3] 3 0 0);
    reflexivity.
Defined.

(** The effect on a subscription that already has a nested subscriber:
    the state changed between render and effect, and the subscriber is
    called once; it did not change, and nobody is called. *)
Example attach_after_change :
  let w := final (exec 1 [Create None; AddNestedSub 0 (Consumer 5); Dispatch 3] init) in
  calls_of (log w) = []
  ∧ calls_of (log (final (attach 3 0 0 w))) = [5]
  ∧ calls_of (log (final (attach 3 0 3 w))) = [].
Proof. by vm_compute. Qed.

End Provider.

(** ** More about the listener collection *)

Module RegistryLaws.
Import Registry.

(** X1. After any sequence of subscribe and unsubscribe calls, the links
    of the collection are those of a doubly linked list of the listeners
    that [get()] returns: [first] and [last] are its ends, the [next] of
    each listener is its successor and its [prev] its predecessor, the
    listeners whose flag is set are those of the list, and the heap holds
    one Listener object per subscribe call. *)
Theorem links_stay_consistent {C} (calls : list (call C)) :
  handles_exist 0 calls = true →
  let c := run calls in
  let L := expected calls in
  get c = Some L
  ∧ first c = head L
  ∧ last c = list_last L
  ∧ (∀ k l, L !! k = Some l →
       next_of l c = L !! S k
       ∧ prev_of l c = match k with O => None | S j => L !! j end)
  ∧ (∀ l, isSubscribed c !! l = Some true ↔ l ∈ L)
  ∧ length (heap c) = length (subscriptions calls).
Proof.
  intros Hwf c L. destruct (run_linked calls Hwf) as [HL Hcb]. fold c L in HL.
  split_and!.
  - by apply get_linked.
  - apply (linked_first _ _ HL).
  - apply (linked_last _ _ HL).
  - intros k l Hk. destruct (linked_cells _ _ HL k l Hk) as (x & Hx & Hnx & Hpv).
    unfold next_of, prev_of. by rewrite Hx.
  - apply (linked_flags _ _ HL).
  - by rewrite <- Hcb, length_fmap.
Qed.

Lemma links_stay_consistent_witness :
  let calls := [Subscribe 10; Subscribe 11; Subscribe 12; Unsubscribe 1; Subscribe 13] in
  let c := run calls in
  get c = Some [0; 2; 3]
  ∧ first c = Some 0 ∧ last c = Some 3
  ∧ next_of 0 c = Some 2 ∧ prev_of 2 c = Some 0 ∧ next_of 3 c = None.
Proof.
  intros calls c.
  destruct (links_stay_consistent calls eq_refl) as (Hg & Hf & Hl & Hc & _).
  split_and!; [exact Hg|exact Hf|exact Hl|..].
  - apply (Hc 0 0 eq_refl).
  - apply (Hc 1 2 eq_refl).
  - apply (Hc 2 3 eq_refl).
Defined.

(** X2. [clear()] empties the collection whatever its state, and the
    unsubscribe functions of the listeners it held do nothing to a cleared
    collection: it stays empty, and its heap and flags stay as they are. *)
Theorem clear_empties_for_good {C} (c : ListenerCollection C) (ls : list nat) :
  let c' := foldl (λ c l, unsubscribe l c) (clear c) ls in
  c' = clear c ∧ get c' = Some [] ∧ first c' = None ∧ last c' = None
  ∧ heap c' = heap c ∧ isSubscribed c' = isSubscribed c.
Proof.
  intros c'.
  assert (Heq : c' = clear c).
  { unfold c'. induction ls as [|l ls IH] using rev_ind; [done|].
    rewrite foldl_snoc, IH. apply unsubscribe_skip. by right. }
  rewrite Heq. split_and!; try done. unfold get. by destruct (length _).
Qed.

End RegistryLaws.

(** ** More about a notify pass *)

Module PassLaws.
Import Registry Pass.

Implicit Types (st : state).

(** The unsubscribe functions that the callbacks of the listeners [tr]
    call. *)
Definition removed_by (scripts : list script) (tr : list nat) : list nat :=
  flat_map (removes scripts) tr.

Lemma unlink_all_app ls1 ls2 (c : ListenerCollection script) :
  unlink_all (ls1 ++ ls2) c = unlink_all ls2 (unlink_all ls1 c).
Proof. unfold unlink_all. by rewrite foldl_app. Qed.

Lemma notify_loop_listeners fuel :
  ∀ cur st,
    let scripts := callback <$> heap (listeners st) in
    let o := notify_loop (λ st, heap (listeners st)) call_listener fuel cur st in
    ∃ tr, invoked (final o) = invoked st ++ tr
          ∧ listeners (final o) = unlink_all (removed_by scripts tr) (listeners st).
Proof.
  induction fuel as [|fuel IH]; intros cur st scripts o.
  - exists []. unfold o. destruct cur; simpl; by rewrite app_nil_r.
  - destruct cur as [l|]; [|exists []; unfold o; simpl; by rewrite app_nil_r].
    destruct (heap (listeners st) !! l) as [cell|] eqn:Hcell; last first.
    { exists []. unfold o. simpl. unfold bind, gets. rewrite Hcell. simpl.
      by rewrite app_nil_r. }
    assert (Hacts : removes scripts l = unsubs (callback cell)).
    { unfold removes, scripts. by rewrite list_lookup_fmap, Hcell. }
    unfold o. rewrite (pass_turn _ _ _ _ Hcell). cbv zeta.
    destruct (raises (callback cell)) as [name|].
    + exists [l]. simpl. unfold removed_by. simpl. by rewrite app_nil_r, Hacts.
    + set (c1 := unlink_all (unsubs (callback cell)) (listeners st)).
      set (st1 := {| listeners := c1; invoked := invoked st ++ [l] |}).
      destruct (IH (next_of l c1) st1) as (tr & Htr & Hls).
      exists (l :: tr). rewrite Htr, Hls. simpl. split; [by rewrite <- app_assoc|].
      unfold removed_by. simpl. rewrite unlink_all_app, Hacts.
      fold c1. unfold c1 at 1.
      by destruct (unlink_all_heap (unsubs (callback cell)) (listeners st)) as [_ ->].
Qed.

(** X3. Whatever the callbacks do, and whether the pass completes, stops
    at a throwing callback or is cut short, it leaves a well-formed
    collection behind: [get()] then returns the listeners that were
    subscribed when the pass started, in order, without those whose
    unsubscribe function was called by one of the callbacks that the pass
    invoked. *)
Theorem registry_after_pass (calls : list (call script)) fuel :
  handles_exist 0 calls = true →
  let st := final (notify fuel (start calls)) in
  let gone := removed_by (subscriptions calls) (invoked st) in
  get (listeners st) = Some (filter (λ l, l ∉ gone) (expected calls))
  ∧ callback <$> heap (listeners st) = subscriptions calls
  ∧ (∀ l, isSubscribed (listeners st) !! l = Some true
          ↔ l ∈ expected calls ∧ l ∉ gone).
Proof.
  intros Hwf st gone. destruct (run_linked calls Hwf) as [HL Hcb].
  destruct (notify_loop_listeners fuel (first (run calls)) (start calls))
    as (tr & Htr & Hls).
  change (final (notify_loop _ _ _ _ _)) with st in Htr, Hls.
  simpl in Htr, Hls. rewrite Hcb in Hls.
  assert (gone = removed_by (subscriptions calls) tr) as Hgone
    by (unfold gone; by rewrite Htr).
  rewrite <- Hgone in Hls.
  pose proof (unlink_all_linked gone _ _ HL) as HLf. rewrite <- Hls in HLf.
  split_and!.
  - by apply get_linked.
  - rewrite Hls. destruct (unlink_all_heap gone (run calls)) as [_ ->]. done.
  - intros l. rewrite (linked_flags _ _ HLf), list_elem_of_filter. tauto.
Qed.

Lemma registry_after_pass_witness :
  let calls := [Subscribe [Unsub 2]; Subscribe [Unsub 0; Raise 7]; Subscribe [];
                Subscribe []] in
  let st := final (notify 4 (start calls)) in
  invoked st = [0; 1]
  ∧ get (listeners st) = Some [1; 3].
Proof.
  intros calls st. split; [reflexivity|].
  destruct (registry_after_pass calls 4 eq_refl) as (Hget & _). exact Hget.
Defined.

(** After [clear()], a pass calls nobody. *)
Lemma notify_cleared fuel st :
  notify fuel {| listeners := clear (listeners st); invoked := invoked st |}
  = Done tt {| listeners := clear (listeners st); invoked := invoked st |}.
Proof. unfold notify, batch, bind, gets. simpl. by rewrite notify_loop_end. Qed.

End PassLaws.

(** ** More about the subscription nodes *)

Module SubscriptionLaws.
Import Subscription.

(** X4. In every world that an execution reaches, the counter of a node is
    the number of its reasons to stay connected: the cleanup closures that
    its [addNestedSub] returned and that were not called yet, plus one if
    the node is self-subscribed.  It is zero exactly when the node holds no
    upstream handle. *)
Theorem counter_counts_reasons fuel (ops : list op) s n :
  nodes (final (exec fuel ops init)) !! s = Some n →
  subscriptionsAmount n
  = (Z.of_nat (length (filter (λ rm, removed rm = false) (removers n)))
     + (if selfSubscribed n then 1 else 0))%Z
  ∧ (subscriptionsAmount n = 0%Z ↔ unsubscribe n = None).
Proof.
  intros Hn.
  destruct (exec_safe fuel ops init sound_init) as ([Hc Hp] & _).
  specialize (Hp s). unfold slack in Hp. rewrite Hn in Hp. unfold reasons in Hp.
  split; [lia|]. apply (ok_edge _ _ _ (Hc s n Hn)).
Qed.

Lemma counter_counts_reasons_witness :
  let w := final (exec 1 [Create None; AddNestedSub 0 (Consumer 1);
                          AddNestedSub 0 (Consumer 2); Call (TrySubscribe 0);
                          Call (Unsubscribe (NestedSub 0 0))] init) in
  ∃ n, nodes w !! 0 = Some n
       ∧ subscriptionsAmount n
         = (Z.of_nat (length (filter (λ rm, removed rm = false) (removers n)))
            + (if selfSubscribed n then 1 else 0))%Z
       ∧ subscriptionsAmount n = 2%Z.
Proof.
  intros w.
  assert (H : ∃ n, nodes w !! 0 = Some n ∧ subscriptionsAmount n = 2%Z)
    by (eexists; split; vm_compute; reflexivity).
  destruct H as (n & Hn & H2). exists n. split_and!; [done| |done].
  apply (counter_counts_reasons 1 _ 0 n Hn).
Defined.

(** *** What the connection machinery leaves alone *)

Lemma strike_then_falls s k w n rm :
  sound w → nodes w !! s = Some n → removers n !! k = Some rm → removed rm = false →
  let w0 := set_nodes (alter (strike k rm) s) w in
  kept w w0
  ∧ ∃ w1, tryUnsubscribe s w0 = Done tt w1 ∧ falls s w0 w1 ∧ consistent w1.
Proof.
  intros [Hc Hp] Hn Hrm Hremoved w0.
  assert (Hn0 : nodes w0 !! s = Some (strike k rm n)) by (by apply lookup_update_eq).
  assert (Hc0 : consistent w0).
  { apply consistent_update; [|done]. intros n'. split; simpl; try done.
    - by rewrite length_alter.
    - by rewrite length_insert. }
  assert (Hs0 : ∀ u, slack w0 u = if decide (s = u) then 1%Z else 0%Z).
  { intros u. unfold w0. rewrite slack_update, Hn. specialize (Hp u).
    unfold slack in Hp. destruct (decide (s = u)) as [<-|Hne]; [|done].
    rewrite Hn in Hp. rewrite (reasons_strike _ _ _ Hrm Hremoved). simpl. lia. }
  split.
  { apply kept_update. intros n' Hn'. assert (n' = n) as -> by congruence.
    by apply node_kept_strike. }
  apply (tryUnsubscribe_falls s w0 _ Hc0 Hn0).
  - simpl. specialize (Hp s). unfold slack in Hp. rewrite Hn in Hp.
    pose proof (reasons_nonneg (strike k rm n)) as Hr.
    rewrite (reasons_strike _ _ _ Hrm Hremoved) in Hr. lia.
  - intros u Hu. rewrite Hs0. apply decide_False. lia.
Qed.

Lemma unself_then_falls s w n :
  sound w → nodes w !! s = Some n → selfSubscribed n = true →
  let w0 := set_nodes (alter (with_selfSubscribed false) s) w in
  ∃ w1, tryUnsubscribe s w0 = Done tt w1 ∧ falls s w0 w1 ∧ consistent w1.
Proof.
  intros [Hc Hp] Hn Hself w0.
  assert (Hn0 : nodes w0 !! s = Some (with_selfSubscribed false n))
    by (by apply lookup_update_eq).
  assert (Hc0 : consistent w0) by (by apply consistent_update).
  assert (Hs0 : ∀ u, slack w0 u = if decide (s = u) then 1%Z else 0%Z).
  { intros u. unfold w0. rewrite slack_update, Hn. specialize (Hp u).
    unfold slack in Hp. destruct (decide (s = u)) as [<-|Hne]; [|done].
    rewrite Hn in Hp. unfold reasons in *. simpl. rewrite Hself in Hp. lia. }
  apply (tryUnsubscribe_falls s w0 _ Hc0 Hn0).
  - simpl. specialize (Hp s). unfold slack in Hp. rewrite Hn in Hp.
    pose proof (reasons_nonneg (with_selfSubscribed false n)) as Hr.
    unfold reasons in *. simpl in *. rewrite Hself in Hp. lia.
  - intros u Hu. rewrite Hs0. apply decide_False. lia.
Qed.

(** The node [u] as a call of the connection machinery leaves it, but for
    the collections, the counter and the upstream handle. *)
Definition flag_after (c : connection) (u : nat) (b : bool) : bool :=
  match c with
  | SelfSubscribe s => if decide (s = u) then true else b
  | SelfUnsubscribe s => if decide (s = u) then false else b
  | _ => b
  end.

Lemma connect_kept c w :
  sound w →
  ∃ w0, kept w0 (final (connect c w))
    ∧ length (nodes w0) = length (nodes w)
    ∧ state (store w0) = state (store w)
    ∧ ∀ u n, nodes w !! u = Some n →
        ∃ n0, nodes w0 !! u = Some n0 ∧ parentSub n0 = parentSub n
              ∧ onStateChange n0 = onStateChange n
              ∧ selfSubscribed n0 = flag_after c u (selfSubscribed n).
Proof.
  intros Hw. pose proof Hw as [Hc Hp].
  assert (Hid : ∀ w', kept w w' →
            (∀ u b, flag_after c u b = b) →
            ∃ w0, kept w0 w' ∧ length (nodes w0) = length (nodes w)
              ∧ state (store w0) = state (store w)
              ∧ ∀ u n, nodes w !! u = Some n →
                  ∃ n0, nodes w0 !! u = Some n0 ∧ parentSub n0 = parentSub n
                        ∧ onStateChange n0 = onStateChange n
                        ∧ selfSubscribed n0 = flag_after c u (selfSubscribed n)).
  { intros w' K Hflag. exists w. split_and!; [done..|].
    intros u n Hn. exists n. by rewrite Hflag. }
  destruct c as [s listener|s k|s|s]; simpl.
  - apply Hid; [|done]. unfold addNestedSub, bind.
    destruct (nodes w !! s) as [n|] eqn:Hn; last first.
    { unfold addNestedSub_with, bind. rewrite trySubscribe_dangling by done.
      apply kept_refl. }
    destruct (trySubscribe_rises s w n Hc Hn) as (w1 & H1 & R & Hc1).
    unfold addNestedSub_with, bind. rewrite H1. unfold get_node.
    destruct (nodes w1 !! s) as [n1|]; [|apply (rise_kept _ _ _ R)].
    destruct (listeners n1) as [r|]; [|apply (rise_kept _ _ _ R)].
    destruct (collections n1 !! r) as [c|]; [|apply (rise_kept _ _ _ R)].
    simpl. eapply kept_trans; [apply (rise_kept _ _ _ R)|].
    apply kept_update. intros; apply node_kept_enlist.
  - apply Hid; [|done]. unfold removeNestedSub_with, bind, get_node.
    destruct (nodes w !! s) as [n|] eqn:Hn; [|apply kept_refl].
    destruct (removers n !! k) as [rm|] eqn:Hrm; [|apply kept_refl].
    destruct (removed rm) eqn:Hremoved; [apply kept_refl|].
    destruct (strike_then_falls s k w n rm Hw Hn Hrm Hremoved)
      as (K0 & w1 & H1 & F & _).
    unfold update_node, modify. rewrite H1. simpl.
    eapply kept_trans; [exact K0|apply (fall_kept _ _ _ F)].
  - unfold trySubscribeSelf, bind at 1, get_node.
    destruct (nodes w !! s) as [n|] eqn:Hn; last first.
    { exists w. split_and!; [apply kept_refl|done|done|]. intros u nu Hu. exists nu.
      split_and!; try done. case_decide; [congruence|done]. }
    destruct (selfSubscribed n) eqn:Hself.
    { exists w. split_and!; [apply kept_refl|done|done|]. intros u nu Hu. exists nu.
      split_and!; try done. case_decide; [|done]. subst u. congruence. }
    unfold bind, update_node, modify.
    set (w0 := set_nodes (alter (with_selfSubscribed true) s) w).
    assert (Hn0 : nodes w0 !! s = Some (with_selfSubscribed true n))
      by (by apply lookup_update_eq).
    assert (Hc0 : consistent w0) by (by apply consistent_update).
    destruct (trySubscribe_rises s w0 _ Hc0 Hn0) as (w1 & -> & R & _).
    exists w0. split_and!; [apply (rise_kept _ _ _ R)|apply length_update|done|].
    intros u nu Hu. unfold w0. rewrite lookup_update. case_decide as Hd.
    + subst u. rewrite Hn. assert (nu = n) as -> by congruence. by eexists.
    + by exists nu.
  - unfold tryUnsubscribeSelf, bind at 1, get_node.
    destruct (nodes w !! s) as [n|] eqn:Hn; last first.
    { exists w. split_and!; [apply kept_refl|done|done|]. intros u nu Hu. exists nu.
      split_and!; try done. case_decide; [congruence|done]. }
    destruct (selfSubscribed n) eqn:Hself; last first.
    { exists w. split_and!; [apply kept_refl|done|done|]. intros u nu Hu. exists nu.
      split_and!; try done. case_decide; [|done]. subst u. congruence. }
    unfold bind, update_node, modify.
    destruct (unself_then_falls s w n Hw Hn Hself) as (w1 & -> & F & _).
    set (w0 := set_nodes (alter (with_selfSubscribed false) s) w).
    exists w0. split_and!; [apply (fall_kept _ _ _ F)|apply length_update|done|].
    intros u nu Hu. unfold w0. rewrite lookup_update. case_decide as Hd.
    + subst u. rewrite Hn. assert (nu = n) as -> by congruence. by eexists.
    + by exists nu.
Qed.

(** X5. In every world that an execution reaches, [addNestedSub], a cleanup
    closure and the public [trySubscribe] and [tryUnsubscribe] create and
    drop no node and change neither the parent nor the [onStateChange]
    handler of any node; [isSubscribed()] of a node is changed by the
    public [trySubscribe] and [tryUnsubscribe] of this node only, so that
    nested subscriptions never show in it; and the state of the store is
    left as it is. *)
Theorem connections_leave_flags_alone fuel (ops : list op) (c : connection) u n :
  let w := final (exec fuel ops init) in
  let w' := final (connect c w) in
  nodes w !! u = Some n →
  length (nodes w') = length (nodes w)
  ∧ state (store w') = state (store w)
  ∧ ∃ n', nodes w' !! u = Some n'
      ∧ parentSub n' = parentSub n
      ∧ onStateChange n' = onStateChange n
      ∧ selfSubscribed n' = flag_after c u (selfSubscribed n)
      ∧ isSubscribed u w' = Done (flag_after c u (selfSubscribed n)) w'.
Proof.
  intros w w' Hn.
  assert (Hw : sound w) by (apply (exec_safe fuel ops init), sound_init).
  destruct (connect_kept c w Hw) as (w0 & K & Hlen & Hst & Hnodes).
  fold w' in K. destruct (Hnodes u n Hn) as (n0 & Hn0 & Hp0 & Hh0 & Hf0).
  destruct (kept_nodes _ _ K u n0 Hn0) as (n' & Hn' & Kn).
  split_and!.
  - by rewrite (kept_length _ _ K).
  - by rewrite (kept_state _ _ K).
  - exists n'. split_and!; [done|..].
    + by rewrite (kept_parent _ _ Kn).
    + by rewrite (kept_handler _ _ Kn).
    + by rewrite (kept_self _ _ Kn).
    + rewrite (isSubscribed_lookup u w' n' Hn'). by rewrite (kept_self _ _ Kn), Hf0.
Qed.

Lemma connections_leave_flags_alone_witness :
  let w := final (exec 1 [Create None; Create (Some 0); Call (TrySubscribe 1)] init) in
  let w' := final (connect (Add 1 (Consumer 3)) w) in
  isSubscribed 0 w' = Done false w' ∧ isSubscribed 1 w' = Done true w'.
Proof.
  intros w w'.
  assert (H0 : ∃ n, nodes w !! 0 = Some n ∧ selfSubscribed n = false)
    by (eexists; split; vm_compute; reflexivity).
  assert (H1 : ∃ n, nodes w !! 1 = Some n ∧ selfSubscribed n = true)
    by (eexists; split; vm_compute; reflexivity).
  destruct H0 as (n0 & Hn0 & Hf0). destruct H1 as (n1 & Hn1 & Hf1).
  destruct (connections_leave_flags_alone 1 _ (Add 1 (Consumer 3)) 0 n0 Hn0)
    as (_ & _ & m0 & _ & _ & _ & _ & Hi0).
  destruct (connections_leave_flags_alone 1 _ (Add 1 (Consumer 3)) 1 n1 Hn1)
    as (_ & _ & m1 & _ & _ & _ & _ & Hi1).
  simpl in Hi0, Hi1. rewrite Hf0 in Hi0. rewrite Hf1 in Hi1. done.
Defined.

(** *** Properties of single nodes that every execution keeps

    A node changes through nine updates only.  A property [Q] of a node
    that each of them keeps holds of all nodes of every world that an
    execution reaches, whatever closures the application registers. *)

Section Local.
Variable Q : node → Prop.
Hypothesis Q_new : ∀ parent,
  Q {| parentSub := parent; unsubscribe := None; listeners := None;
       subscriptionsAmount := 0; selfSubscribed := false; onStateChange := None;
       collections := []; removers := [] |}.
Hypothesis Q_amount : ∀ v n, Q n → Q (with_amount v n).
Hypothesis Q_self : ∀ v n, Q n → Q (with_selfSubscribed v n).
Hypothesis Q_handler : ∀ v n, Q n → Q (with_onStateChange v n).
Hypothesis Q_unsubscribe : ∀ n, Q n → Q (with_unsubscribe None n).
Hypothesis Q_install : ∀ h n, Q n → Q (install h n).
Hypothesis Q_uninstall : ∀ r n, Q n → listeners n = Some r → Q (uninstall r n).
Hypothesis Q_strike : ∀ k rm n,
  Q n → removers n !! k = Some rm → removed rm = false → Q (strike k rm n).
Hypothesis Q_enlist : ∀ r c cb n,
  Q n → listeners n = Some r → collections n !! r = Some c → Q (enlist r c cb n).

Definition everywhere (w : World) : Prop := ∀ s n, nodes w !! s = Some n → Q n.

Lemma final_bind {A B} (P : World → Prop) (m : M World A) (k : A → M World B) w :
  P (final (m w)) →
  (∀ a w1, m w = Done a w1 → P w1 → P (final (k a w1))) →
  P (final (bind m k w)).
Proof.
  intros Hm Hk. unfold bind. destruct (m w) as [a w1|e w1] eqn:Heq; [|done].
  by apply (Hk a w1).
Qed.

Lemma everywhere_update s f w :
  everywhere w → (∀ n, nodes w !! s = Some n → Q (f n)) →
  everywhere (final (update_node s f w)).
Proof.
  intros Hw Hf u nu. unfold update_node, modify.
  change (final (Done tt (set_nodes (alter f s) w))) with (set_nodes (alter f s) w).
  rewrite lookup_update.
  case_decide as Hd; [|by apply Hw]. subst u.
  destruct (nodes w !! s) as [n|] eqn:Hn; [|done]. intros [= <-]. by apply Hf.
Qed.

Lemma everywhere_get_node s w : everywhere w → everywhere (final (get_node s w)).
Proof. intros Hw. unfold get_node. by destruct (nodes w !! s). Qed.

Lemma addNestedSub_with_everywhere trySub s cb w :
  (∀ w, everywhere w → everywhere (final (trySub s w))) →
  everywhere w → everywhere (final (addNestedSub_with trySub s cb w)).
Proof using Q_enlist.
  intros Htry Hw. unfold addNestedSub_with.
  apply final_bind; [by apply Htry|]. intros _ w1 _ Hw1.
  apply final_bind; [by apply everywhere_get_node|].
  intros n w2 [-> Hn]%get_node_done _.
  destruct (listeners n) as [r|] eqn:Hr; [|done].
  destruct (collections n !! r) as [c|] eqn:Hc; [|done].
  apply final_bind; [|by intros].
  apply everywhere_update; [done|]. intros n' Hn'. assert (n' = n) as -> by congruence.
  apply Q_enlist; [by apply (Hw1 s)|done..].
Qed.

Lemma trySubscribe_rec_everywhere fuel :
  ∀ s w, everywhere w → everywhere (final (trySubscribe_rec fuel s w)).
Proof using Q_amount Q_install Q_enlist.
  induction fuel as [|fuel IH]; intros s w Hw; [done|].
  simpl. apply final_bind; [by apply everywhere_get_node|].
  intros n w0 [-> Hn]%get_node_done _.
  apply final_bind.
  { apply everywhere_update; [done|]. intros n' Hn'. apply Q_amount. by apply (Hw s). }
  intros _ w1 _ Hw1.
  destruct (unsubscribe n); [done|].
  apply final_bind; [done|]. intros _ w2 _ Hw2.
  apply final_bind.
  { destruct (parentSub n) as [p|]; [|done].
    apply final_bind; [|by intros]. apply addNestedSub_with_everywhere; [apply IH|done]. }
  intros h w3 _ Hw3. apply everywhere_update; [done|]. intros n3 Hn3.
  apply Q_install. by apply (Hw3 s).
Qed.

Lemma removeNestedSub_with_everywhere tryUnsub s k w :
  (∀ w, everywhere w → everywhere (final (tryUnsub s w))) →
  everywhere w → everywhere (final (removeNestedSub_with tryUnsub s k w)).
Proof using Q_strike.
  intros Htry Hw. unfold removeNestedSub_with.
  apply final_bind; [by apply everywhere_get_node|].
  intros n w0 [-> Hn]%get_node_done _.
  destruct (removers n !! k) as [rm|] eqn:Hrm; [|done].
  destruct (removed rm) eqn:Hremoved; [done|].
  apply final_bind; [|intros _ w1 _ Hw1; by apply Htry].
  apply everywhere_update; [done|]. intros n' Hn'. assert (n' = n) as -> by congruence.
  apply Q_strike; [by apply (Hw s)|done..].
Qed.

Lemma tryUnsubscribe_rec_everywhere fuel :
  ∀ s w, everywhere w → everywhere (final (tryUnsubscribe_rec fuel s w)).
Proof using Q_amount Q_unsubscribe Q_uninstall Q_strike.
  induction fuel as [|fuel IH]; intros s w Hw; [done|].
  simpl. apply final_bind; [by apply everywhere_get_node|].
  intros n w0 [-> Hn]%get_node_done _.
  apply final_bind.
  { apply everywhere_update; [done|]. intros n' Hn'. apply Q_amount. by apply (Hw s). }
  intros _ w1 _ Hw1.
  destruct (unsubscribe n) as [h|]; [|done].
  case_decide; [|done].
  apply final_bind; [done|]. intros _ w2 _ Hw2.
  apply final_bind.
  { destruct h as [p k|i]; [|done].
    apply removeNestedSub_with_everywhere; [apply IH|done]. }
  intros _ w3 _ Hw3.
  apply final_bind.
  { apply everywhere_update; [done|]. intros n' Hn'. apply Q_unsubscribe.
    by apply (Hw3 s). }
  intros _ w4 _ Hw4.
  apply final_bind; [by apply everywhere_get_node|].
  intros n' w5 [-> Hn']%get_node_done _.
  destruct (listeners n') as [r|] eqn:Hr; [|done].
  apply everywhere_update; [done|]. intros n5 Hn5. assert (n5 = n') as -> by congruence.
  apply Q_uninstall; [by apply (Hw4 s)|done].
Qed.

Lemma call_everywhere fuel : ∀ f w, everywhere w → everywhere (final (call fuel f w)).
Proof using All.
  induction fuel as [|fuel IH]; intros f w Hw; [done|].
  destruct f as [name|s|s|s|s|h]; simpl.
  - done.
  - apply final_bind; [by apply everywhere_get_node|].
    intros n w1 [-> Hn]%get_node_done _.
    destruct (onStateChange n); [by apply IH|done].
  - unfold notifyNestedSubs_with, notify_listeners.
    apply final_bind; [done|]. intros _ w1 _ Hw1.
    apply final_bind; [by apply everywhere_get_node|].
    intros n w2 [-> Hn]%get_node_done _.
    destruct (listeners n) as [r|]; [|done].
    unfold batch. apply final_bind; [done|]. intros cur w3 [= _ <-] _.
    clear Hn. revert cur w1 Hw1. generalize fuel at 2. intros loop.
    induction loop as [|loop IHl]; intros cur w1 Hw1.
    + by destruct cur.
    + destruct cur as [l|]; [|done].
      destruct (cells_of s r w1 !! l) as [cell|] eqn:Hcell; last first.
      { simpl. unfold bind, gets. by rewrite Hcell. }
      rewrite (Registry.notify_loop_turn _ _ _ _ cell) by done.
      assert (Hrun : everywhere (final ((emit (Dispatched (Some s) (Registry.callback cell)) ;;
                        call fuel (Registry.callback cell)) w1))).
      { apply final_bind; [done|]. intros _ w2 _ Hw2. by apply IH. }
      destruct ((emit (Dispatched (Some s) (Registry.callback cell)) ;;
                 call fuel (Registry.callback cell)) w1) as [[] w2|e w2]; [|done].
      by apply IHl.
  - unfold trySubscribeSelf. apply final_bind; [by apply everywhere_get_node|].
    intros n w1 [-> Hn]%get_node_done _. destruct (selfSubscribed n); [done|].
    apply final_bind; [|intros _ w2 _ Hw2; by apply trySubscribe_rec_everywhere].
    apply everywhere_update; [done|]. intros n' Hn'. apply Q_self. by apply (Hw s).
  - unfold tryUnsubscribeSelf. apply final_bind; [by apply everywhere_get_node|].
    intros n w1 [-> Hn]%get_node_done _. destruct (selfSubscribed n); [|done].
    apply final_bind; [|intros _ w2 _ Hw2; by apply tryUnsubscribe_rec_everywhere].
    apply everywhere_update; [done|]. intros n' Hn'. apply Q_self. by apply (Hw s).
  - destruct h as [s k|i]; simpl; [|done].
    apply removeNestedSub_with_everywhere; [|done].
    intros w1 Hw1. by apply tryUnsubscribe_rec_everywhere.
Qed.

Lemma fire_everywhere fuel ls : ∀ w, everywhere w → everywhere (final (fire fuel ls w)).
Proof using All.
  induction ls as [|cb ls IH]; intros w Hw; simpl; [done|].
  apply final_bind; [done|]. intros _ w1 _ Hw1.
  apply final_bind; [by apply call_everywhere|]. intros _ w2 _ Hw2. by apply IH.
Qed.

Lemma run_op_everywhere fuel o w : everywhere w → everywhere (final (run_op fuel o w)).
Proof using All.
  intros Hw. destruct o as [parent|s f|s listener|f|newState]; simpl.
  - apply final_bind; [|by intros]. unfold createSubscription, bind, gets, modify, ret.
    assert (Hnew : everywhere (set_nodes (λ ns, ns ++ [ {| parentSub := parent;
                      unsubscribe := None; listeners := None; subscriptionsAmount := 0;
                      selfSubscribed := false; onStateChange := None;
                      collections := []; removers := [] |} ]) w)).
    { intros s n. simpl. intros [[_ Hn]|[_ <-]]%lookup_snoc_Some; [by apply (Hw s)|].
      apply Q_new. }
    destruct parent as [p|]; simpl; [|done]. by case_decide.
  - unfold setOnStateChange. apply final_bind; [by apply everywhere_get_node|].
    intros n w1 [-> Hn]%get_node_done _.
    apply everywhere_update; [done|]. intros n' Hn'. apply Q_handler. by apply (Hw s).
  - apply final_bind; [|by intros]. unfold addNestedSub.
    apply final_bind; [|by intros]. apply addNestedSub_with_everywhere; [|done].
    intros w1 Hw1. by apply trySubscribe_rec_everywhere.
  - by apply call_everywhere.
  - unfold dispatch. apply final_bind; [done|]. intros _ w1 _ Hw1.
    apply final_bind; [done|]. intros ls w2 [= _ <-] _. by apply fire_everywhere.
Qed.

Lemma exec_everywhere fuel ops :
  ∀ w, everywhere w → everywhere (final (exec fuel ops w)).
Proof using All.
  induction ops as [|o ops IH]; intros w Hw; simpl; [done|].
  apply final_bind; [by apply run_op_everywhere|]. intros _ w1 _ Hw1. by apply IH.
Qed.

End Local.

(** *** The collection of a connected node *)

(** The collection that a node holds is a well-formed linked list. *)
Definition node_wired (n : node) : Prop :=
  ∀ r, listeners n = Some r →
    ∃ c L, collections n !! r = Some c ∧ Registry.linked c L.

Lemma unsubscribe_keeps_linked {C} l (c : Registry.ListenerCollection C) L :
  Registry.linked c L →
  Registry.linked (Registry.unsubscribe l c) (filter (λ x, x ≠ l) L).
Proof.
  intros HL. destruct (decide (l ∈ L)) as [Hl|Hl].
  - apply list_elem_of_lookup_1 in Hl as [k Hk].
    rewrite <- (Registry.increasing_delete_filter L k l);
      [|apply (Registry.linked_increasing _ _ HL)|done].
    by apply Registry.unsubscribe_linked.
  - rewrite (Registry.unsubscribe_unlinked _ _ _ HL Hl).
    rewrite Registry.filter_all; [done|]. intros x Hx ->. done.
Qed.

Lemma wired_reachable fuel (ops : list op) s n :
  nodes (final (exec fuel ops init)) !! s = Some n → node_wired n.
Proof.
  apply (exec_everywhere node_wired); try done.
  - intros h n0 Hn0 r [= <-]. simpl.
    exists Registry.createListenerCollection, [].
    split; [by rewrite lookup_app_r, Nat.sub_diag|apply Registry.linked_empty].
  - intros k rm n0 Hn0 Hrm Hremoved r Hr.
    destruct (Hn0 r Hr) as (c & L & Hc & HL).
    change (collections (strike k rm n0))
      with (alter (Registry.unsubscribe (cleanupListener rm).2) (cleanupListener rm).1
              (collections n0)).
    rewrite list_lookup_alter. case_decide as Hd.
    + subst r. rewrite Hc. simpl. eexists _, _. split; [done|].
      by apply unsubscribe_keeps_linked.
    + by exists c, L.
  - intros r c cb n0 Hn0 Hr Hc r' Hr'.
    assert (r' = r) as -> by (simpl in Hr'; congruence).
    destruct (Hn0 r Hr) as (c0 & L & Hc0 & HL).
    assert (c0 = c) as -> by congruence.
    change (collections (enlist r c cb n0))
      with (<[r := (Registry.subscribe cb c).2]> (collections n0)).
    rewrite list_lookup_insert_eq by (by eapply lookup_lt_Some).
    eexists _, _. split; [done|]. by apply Registry.subscribe_linked.
Qed.

(** The callbacks of the listeners [L] of the collection [c]. *)
Definition callbacks_of (c : Registry.ListenerCollection closure) (L : list nat) :=
  omap (λ l, Registry.callback <$> Registry.heap c !! l) L.

Lemma omap_same {A B} (f g : A → option B) (l : list A) :
  (∀ x, x ∈ l → f x = g x) → omap f l = omap g l.
Proof.
  induction l as [|a l IH]; intros H; [done|]. csimpl.
  rewrite (H a) by (by left). rewrite IH; [done|]. intros x Hx. apply H. by right.
Qed.

Lemma getListeners_linked s w n r c L :
  nodes w !! s = Some n → listeners n = Some r → collections n !! r = Some c →
  Registry.linked c L → getListeners s w = callbacks_of c L.
Proof.
  intros Hn Hr Hc HL. unfold getListeners. rewrite Hn, Hr, Hc.
  by rewrite (Registry.get_linked _ _ HL).
Qed.

Lemma callbacks_subscribe cb c L :
  Registry.linked c L →
  callbacks_of (Registry.subscribe cb c).2 (L ++ [length (Registry.heap c)])
  = callbacks_of c L ++ [cb].
Proof.
  intros HL. unfold callbacks_of. rewrite omap_app. f_equal.
  - apply omap_same. intros l Hl. rewrite <- !list_lookup_fmap.
    rewrite Registry.subscribe_callbacks, lookup_app_l; [done|].
    rewrite length_fmap. by apply (Registry.linked_bound _ _ _ HL).
  - rewrite (omap_same _ (λ _, Some cb)); [done|].
    intros x ->%list_elem_of_singleton.
    rewrite <- list_lookup_fmap, Registry.subscribe_callbacks.
    rewrite lookup_app_r by (by rewrite length_fmap).
    by rewrite length_fmap, Nat.sub_diag.
Qed.

(** What [trySubscribe] does to the node it is called on. *)
Lemma trySubscribe_own s w n :
  sound w → nodes w !! s = Some n →
  ∃ w1 h, trySubscribe s w = Done tt w1
    ∧ nodes w1 !! s
      = Some (match unsubscribe n with
              | Some _ => with_amount (subscriptionsAmount n + 1) n
              | None => install h (with_amount (subscriptionsAmount n + 1) n)
              end).
Proof.
  intros [Hc Hp] Hn. unfold trySubscribe.
  rewrite (trySubscribe_rec_unfold _ _ _ _ Hn). cbv zeta.
  set (w1 := set_nodes (alter (with_amount (subscriptionsAmount n + 1)) s) w).
  set (w2 := {| nodes := nodes w1; store := store w1; log := log w1 ++ [Connected s] |}).
  assert (Hn1 : nodes w1 !! s = Some (with_amount (subscriptionsAmount n + 1) n))
    by (by apply lookup_update_eq).
  destruct (unsubscribe n) as [h|] eqn:Hnone.
  { exists w1, (StoreSub 0). done. }
  pose proof (Hc s n Hn) as [A1 A2 A3 A4 A5 A6].
  assert (K12 : kept w w2).
  { eapply kept_trans; [|apply kept_log]. apply kept_update. by split; eauto. }
  assert (Hne2 : ∀ u, u ≠ s → nodes w2 !! u = nodes w !! u).
  { intros u Hu. unfold w2, w1. simpl. by apply list_lookup_alter_ne. }
  destruct (parentSub n) as [p|] eqn:Hpar.
  - specialize (A1 p eq_refl).
    destruct (lookup_lt_is_Some_2 (nodes w) p) as [np Hnp].
    { apply lookup_lt_Some in Hn. lia. }
    destruct (trySubscribe_rec_rises s p w2 np) as (w3 & H3 & R3); [| |lia|].
    { intros u nu Hu Hnu. rewrite Hne2 in Hnu by lia.
      eapply node_ok_kept; [exact K12|]. by apply Hc. }
    { rewrite Hne2 by lia. done. }
    destruct (rise_connected _ _ _ R3) as (np3 & Hnp3 & Hcon).
    pose proof (rise_ok _ _ _ R3 p np3 (le_n _) Hnp3) as Hok3.
    destruct (listeners np3) as [r|] eqn:Hr; last first.
    { apply (ok_null _ _ _ Hok3) in Hr. rewrite Hr in Hcon. by destruct Hcon. }
    destruct (lookup_lt_is_Some_2 (collections np3) r) as [c Hcol].
    { by apply (ok_real _ _ _ Hok3). }
    unfold bind at 1.
    rewrite (addNestedSub_with_unfold _ _ _ _ _ _ _ _ H3 Hnp3 Hr Hcol).
    unfold ret. eexists _, _. split; [done|].
    apply lookup_update_eq. rewrite lookup_update_ne by lia.
    rewrite (rise_above _ _ _ R3) by lia. done.
  - unfold store_subscribe, bind, gets, modify, ret.
    eexists _, _. split; [done|]. by apply lookup_update_eq.
Qed.

(** X6. In every world that an execution reaches, [addNestedSub] on a node
    completes, returns the cleanup closure with the next free index, and
    puts the listener at the end of what [getListeners().get()] of the
    node returns; the listeners that were there stay, in their order.  On
    a node that was not connected the listener is the only one. *)
Theorem addNestedSub_appends fuel (ops : list op) s cb n :
  let w := final (exec fuel ops init) in
  nodes w !! s = Some n →
  ∃ w', addNestedSub s cb w = Done (Unsubscribe (NestedSub s (length (removers n)))) w'
    ∧ getListeners s w' = getListeners s w ++ [cb]
    ∧ (unsubscribe n = None → getListeners s w = []).
Proof.
  intros w Hn.
  assert (Hw : sound w) by (apply (exec_safe fuel ops init), sound_init).
  pose proof (wired_reachable fuel ops s n Hn) as Hwired.
  pose proof (proj1 Hw s n Hn) as [A1 A2 A3 A4 A5 A6].
  destruct (trySubscribe_own s w n Hw Hn) as (w1 & h & H1 & Hn1).
  assert (Hshape : ∃ n1 r c L,
            nodes w1 !! s = Some n1 ∧ removers n1 = removers n
            ∧ listeners n1 = Some r ∧ collections n1 !! r = Some c
            ∧ Registry.linked c L ∧ getListeners s w = callbacks_of c L
            ∧ (unsubscribe n = None → getListeners s w = [])).
  { destruct (unsubscribe n) as [h0|] eqn:Hu.
    - destruct (listeners n) as [r|] eqn:Hr;
        [|destruct A4 as [_ A4]; discriminate (A4 eq_refl)].
      destruct (Hwired r Hr) as (c & L & Hc & HL).
      eexists _, r, c, L. split_and!; [exact Hn1|done..| |done].
      by apply (getListeners_linked s w n r c L).
    - assert (Hr : listeners n = None) by (by apply A4).
      eexists _, _, _, []. split_and!; [exact Hn1|done|done| |apply Registry.linked_empty| |].
      + simpl. by rewrite lookup_app_r, Nat.sub_diag.
      + unfold getListeners. by rewrite Hn, Hr.
      + intros _. unfold getListeners. by rewrite Hn, Hr. }
  destruct Hshape as (n1 & r & c & L & Hn1' & Hrm & Hr & Hc & HL & Hget & Hnone).
  unfold addNestedSub, bind.
  rewrite (addNestedSub_with_unfold _ _ _ _ _ _ _ _ H1 Hn1' Hr Hc). unfold ret.
  rewrite Hrm. eexists. split_and!; [done| |done]. rewrite Hget.
  rewrite <- (callbacks_subscribe cb c L HL).
  apply (getListeners_linked s _ (enlist r c cb n1) r).
  - by apply lookup_update_eq.
  - done.
  - change (collections (enlist r c cb n1))
      with (<[r := (Registry.subscribe cb c).2]> (collections n1)).
    apply list_lookup_insert_eq. by eapply lookup_lt_Some.
  - by apply Registry.subscribe_linked.
Qed.

Lemma addNestedSub_appends_witness :
  let w := final (exec 1 [Create None; AddNestedSub 0 (Consumer 1);
                          AddNestedSub 0 (Consumer 2);
                          Call (Unsubscribe (NestedSub 0 0))] init) in
  getListeners 0 w = [Consumer 2]
  ∧ ∃ w', addNestedSub 0 (Consumer 3) w = Done (Unsubscribe (NestedSub 0 2)) w'
          ∧ getListeners 0 w' = [Consumer 2; Consumer 3].
Proof.
  intros w.
  assert (Hg : getListeners 0 w = [Consumer 2]) by (vm_compute; reflexivity).
  assert (H : ∃ n, nodes w !! 0 = Some n ∧ length (removers n) = 2)
    by (eexists; split; vm_compute; reflexivity).
  destruct H as (n & Hn & Hlen). split; [done|].
  destruct (addNestedSub_appends 1 _ 0 (Consumer 3) n Hn) as (w' & H1 & H2 & _).
  exists w'. rewrite Hlen in H1. unfold w in Hg. rewrite Hg in H2. done.
Defined.

(** The listeners that [getListeners().get()] returns, as the indices of
    their Listener objects. *)
Definition liveListeners (s : nat) (w : World) : list nat :=
  match nodes w !! s with
  | Some n =>
      match listeners n with
      | Some r =>
          match collections n !! r with
          | Some c => default [] (Registry.get c)
          | None => []
          end
      | None => []
      end
  | None => []
  end.

Lemma omap_delete {A B} (f : A → option B) (l : list A) i :
  (∀ x, x ∈ l → is_Some (f x)) → omap f (delete i l) = delete i (omap f l).
Proof.
  revert i. induction l as [|a l IH]; intros i H; [done|].
  destruct (H a) as [b Hb]; [by left|].
  destruct i as [|i]; csimpl; rewrite Hb; [done|]. csimpl. f_equal.
  apply IH. intros x Hx. apply H. by right.
Qed.

(** X7. In every world that an execution reaches, the first call of a
    cleanup closure of a node completes and takes one from the counter of
    the node.  If the counter reaches zero, [getListeners().get()] of the
    node is empty afterwards.  Otherwise the listener of the closure, if
    it is in the collection that the node holds, is taken out of what
    [getListeners().get()] returns, and the other listeners stay in their
    order. *)
Theorem cleanup_removes_its_listener fuel (ops : list op) s k n rm r l i :
  let w := final (exec fuel ops init) in
  nodes w !! s = Some n →
  removers n !! k = Some rm → removed rm = false →
  listeners n = Some r → cleanupListener rm = (r, l) →
  liveListeners s w !! i = Some l →
  ∃ w', call_handle (NestedSub s k) w = Done tt w'
    ∧ amount w' s = (amount w s - 1)%Z
    ∧ getListeners s w'
      = (if decide (amount w s = 1%Z) then [] else delete i (getListeners s w))
    ∧ liveListeners s w'
      = (if decide (amount w s = 1%Z) then [] else delete i (liveListeners s w)).
Proof.
  intros w Hn Hrm Hremoved Hr Hcl Hi.
  assert (Hw : sound w) by (apply (exec_safe fuel ops init), sound_init).
  destruct (wired_reachable fuel ops s n Hn r Hr) as (c & L & Hc & HL).
  assert (Hlive : liveListeners s w = L).
  { unfold liveListeners. fold w. by rewrite Hn, Hr, Hc, (Registry.get_linked _ _ HL). }
  rewrite Hlive in Hi |- *.
  rewrite (getListeners_linked s w n r c L Hn Hr Hc HL).
  destruct (strike_then_falls s k w n rm Hw Hn Hrm Hremoved) as (K0 & w1 & H1 & F & Hc1).
  set (w0 := set_nodes (alter (strike k rm) s) w) in *.
  assert (Hcall : call_handle (NestedSub s k) w = Done tt w1).
  { simpl. rewrite (removeNestedSub_with_unfold _ _ _ _ _ _ Hn Hrm), Hremoved. done. }
  assert (Hn0 : nodes w0 !! s = Some (strike k rm n)) by (by apply lookup_update_eq).
  assert (Hamt : amount w1 s = (amount w s - 1)%Z).
  { rewrite (fall_amount _ _ _ F). unfold w0. rewrite amount_update, decide_True by done.
    unfold amount. fold w. by rewrite Hn. }
  exists w1. split_and!; [done|done|..].
  all: destruct (decide (amount w s = 1%Z)) as [Ha|Ha].
  - destruct (kept_nodes _ _ (fall_kept _ _ _ F) s _ Hn0) as (n1 & Hn1 & _).
    pose proof (Hc1 s n1 Hn1) as [_ _ B3 B4 _ _].
    assert (Hz : subscriptionsAmount n1 = 0%Z).
    { rewrite Ha in Hamt. unfold amount in Hamt. rewrite Hn1 in Hamt. lia. }
    unfold getListeners. rewrite Hn1.
    by rewrite (proj1 B4 (proj1 B3 Hz)).
  - assert (H1' : tryUnsubscribe s w0
                  = Done tt (set_nodes (alter (with_amount
                       (subscriptionsAmount (strike k rm n) - 1)) s) w0)).
    { unfold tryUnsubscribe. rewrite (tryUnsubscribe_rec_unfold _ _ _ _ Hn0). cbv zeta.
      destruct (unsubscribe (strike k rm n)) as [h|]; [|done].
      rewrite decide_False; [done|]. unfold amount in Ha. fold w in Ha.
      rewrite Hn in Ha. simpl. lia. }
    rewrite H1' in H1. injection H1 as <-.
    rewrite (getListeners_linked s _
               (with_amount (subscriptionsAmount n - 1) (strike k rm n))
               r (Registry.unsubscribe l c) (filter (λ x, x ≠ l) L)).
    + unfold callbacks_of.
      rewrite <- (Registry.increasing_delete_filter L i l);
        [|apply (Registry.linked_increasing _ _ HL)|done].
      rewrite omap_delete.
      * f_equal. apply omap_same. intros x Hx. rewrite <- !list_lookup_fmap.
        by rewrite Registry.unsubscribe_callbacks.
      * intros x Hx. pose proof (Registry.linked_bound _ _ _ HL Hx) as Hb.
        rewrite <- list_lookup_fmap, Registry.unsubscribe_callbacks.
        apply lookup_lt_is_Some. by rewrite length_fmap.
    + by apply lookup_update_eq.
    + done.
    + change (collections (with_amount _ (strike k rm n)))
        with (alter (Registry.unsubscribe (cleanupListener rm).2) (cleanupListener rm).1
                (collections n)).
      rewrite Hcl. simpl. by rewrite list_lookup_alter, decide_True, Hc.
    + by apply unsubscribe_keeps_linked.
  - destruct (kept_nodes _ _ (fall_kept _ _ _ F) s _ Hn0) as (n1 & Hn1 & _).
    pose proof (Hc1 s n1 Hn1) as [_ _ B3 B4 _ _].
    assert (Hz : subscriptionsAmount n1 = 0%Z).
    { rewrite Ha in Hamt. unfold amount in Hamt. rewrite Hn1 in Hamt. lia. }
    unfold liveListeners. rewrite Hn1.
    by rewrite (proj1 B4 (proj1 B3 Hz)).
  - assert (H1' : tryUnsubscribe s w0
                  = Done tt (set_nodes (alter (with_amount
                       (subscriptionsAmount (strike k rm n) - 1)) s) w0)).
    { unfold tryUnsubscribe. rewrite (tryUnsubscribe_rec_unfold _ _ _ _ Hn0). cbv zeta.
      destruct (unsubscribe (strike k rm n)) as [h|]; [|done].
      rewrite decide_False; [done|]. unfold amount in Ha. fold w in Ha.
      rewrite Hn in Ha. simpl. lia. }
    rewrite H1' in H1. injection H1 as <-.
    rewrite (Registry.increasing_delete_filter L i l);
      [|apply (Registry.linked_increasing _ _ HL)|done].
    unfold liveListeners. rewrite (lookup_update_eq _ _ _ _ Hn0).
    change (listeners (with_amount _ (strike k rm n))) with (listeners n).
    change (collections (with_amount _ (strike k rm n)))
      with (alter (Registry.unsubscribe (cleanupListener rm).2) (cleanupListener rm).1
              (collections n)).
    rewrite Hr, Hcl. simpl. rewrite list_lookup_alter, decide_True, Hc by done. simpl.
    by rewrite (Registry.get_linked _ _ (unsubscribe_keeps_linked l c L HL)).
Qed.

Lemma cleanup_removes_its_listener_witness :
  let w := final (exec 1 [Create None; AddNestedSub 0 (Consumer 1);
                          AddNestedSub 0 (Consumer 2);
                          AddNestedSub 0 (Consumer 3)] init) in
  getListeners 0 w = [Consumer 1; Consumer 2; Consumer 3]
  ∧ ∃ w', call_handle (NestedSub 0 1) w = Done tt w'
          ∧ getListeners 0 w' = [Consumer 1; Consumer 3]
          ∧ liveListeners 0 w' = [0; 2].
Proof.
  intros w.
  assert (Hg : getListeners 0 w = [Consumer 1; Consumer 2; Consumer 3])
    by (vm_compute; reflexivity).
  assert (Hl : liveListeners 0 w = [0; 1; 2]) by (vm_compute; reflexivity).
  assert (Ha : amount w 0 = 3%Z) by (vm_compute; reflexivity).
  assert (H : ∃ n, nodes w !! 0 = Some n
                   ∧ removers n !! 1 = Some {| removed := false; cleanupListener := (0, 1) |}
                   ∧ listeners n = Some 0)
    by (eexists; split_and!; vm_compute; reflexivity).
  destruct H as (n & Hn & Hrm & Hr). split; [done|].
  destruct (cleanup_removes_its_listener 1 _ 0 1 n _ 0 1 1 Hn Hrm eq_refl Hr eq_refl)
    as (w' & H1 & _ & H2 & H3).
  { unfold w in Hl. by rewrite Hl. }
  unfold w in Hg, Hl, Ha. rewrite Ha, ?Hg, ?Hl in H2, H3.
  exists w'. done.
Defined.

(** *** What the first subscription registers upstream *)

Lemma wired_everywhere_step fuel s w :
  everywhere node_wired w → everywhere node_wired (final (trySubscribe_rec fuel s w)).
Proof.
  apply (trySubscribe_rec_everywhere node_wired); try done.
  - intros h n0 Hn0 r [= <-]. simpl.
    exists Registry.createListenerCollection, [].
    split; [by rewrite lookup_app_r, Nat.sub_diag|apply Registry.linked_empty].
  - intros r c cb n0 Hn0 Hr Hc r' Hr'.
    assert (r' = r) as -> by (simpl in Hr'; congruence).
    destruct (Hn0 r Hr) as (c0 & L & Hc0 & HL).
    assert (c0 = c) as -> by congruence.
    change (collections (enlist r c cb n0))
      with (<[r := (Registry.subscribe cb c).2]> (collections n0)).
    rewrite list_lookup_insert_eq by (by eapply lookup_lt_Some).
    eexists _, _. split; [done|]. by apply Registry.subscribe_linked.
Qed.

Lemma getListeners_same s w w' :
  nodes w' !! s = nodes w !! s → getListeners s w' = getListeners s w.
Proof. intros H. unfold getListeners. by rewrite H. Qed.

Lemma getListeners_enlist p w np r c L cb :
  nodes w !! p = Some np → listeners np = Some r → collections np !! r = Some c →
  Registry.linked c L →
  getListeners p (set_nodes (alter (enlist r c cb) p) w) = getListeners p w ++ [cb].
Proof.
  intros Hn Hr Hc HL. rewrite (getListeners_linked p w np r c L Hn Hr Hc HL).
  rewrite <- (callbacks_subscribe cb c L HL).
  apply (getListeners_linked p _ (enlist r c cb np) r).
  - by apply lookup_update_eq.
  - done.
  - change (collections (enlist r c cb np))
      with (<[r := (Registry.subscribe cb c).2]> (collections np)).
    apply list_lookup_insert_eq. by eapply lookup_lt_Some.
  - by apply Registry.subscribe_linked.
Qed.

Lemma trySubscribe_rec_upstream fuel :
  ∀ s w n, ok_below w s → everywhere node_wired w → nodes w !! s = Some n → s < fuel →
    ∃ w1 h, trySubscribe_rec fuel s w = Done tt w1
      ∧ rises s w w1
      ∧ nodes w1 !! s
        = Some (match unsubscribe n with
                | Some _ => with_amount (subscriptionsAmount n + 1) n
                | None => install h (with_amount (subscriptionsAmount n + 1) n)
                end)
      ∧ (unsubscribe n = None →
         match parentSub n with
         | Some p => getListeners p w1 = getListeners p w ++ [HandleChangeWrapper s]
         | None => registered (store w1)
                   = registered (store w) ++ [(HandleChangeWrapper s, true)]
         end).
Proof.
  induction fuel as [|fuel IH]; intros s w n Hok Hwired Hn Hfuel; [lia|].
  destruct (trySubscribe_rec_rises (S fuel) s w n Hok Hn Hfuel) as (wr & Hr0 & R).
  rewrite Hr0. revert Hr0.
  rewrite (trySubscribe_rec_unfold _ _ _ _ Hn). cbv zeta.
  set (w1 := set_nodes (alter (with_amount (subscriptionsAmount n + 1)) s) w).
  set (w2 := {| nodes := nodes w1; store := store w1; log := log w1 ++ [Connected s] |}).
  assert (Hn1 : nodes w1 !! s = Some (with_amount (subscriptionsAmount n + 1) n))
    by (by apply lookup_update_eq).
  destruct (unsubscribe n) as [h|] eqn:Hnone.
  { intros [= <-]. exists w1, (StoreSub 0). done. }
  pose proof (Hok s n (le_n _) Hn) as [A1 A2 A3 A4 A5 A6].
  assert (K12 : kept w w2).
  { eapply kept_trans; [|apply kept_log]. apply kept_update. by split; eauto. }
  assert (Hne2 : ∀ u, u ≠ s → nodes w2 !! u = nodes w !! u).
  { intros u Hu. unfold w2, w1. simpl. by apply list_lookup_alter_ne. }
  assert (Hwired2 : everywhere node_wired w2).
  { intros u nu. unfold w2, w1. simpl. rewrite list_lookup_alter.
    case_decide as Hd; [|by apply Hwired]. subst u. rewrite Hn. intros [= <-].
    by apply (Hwired s n). }
  destruct (parentSub n) as [p|] eqn:Hpar.
  - specialize (A1 p eq_refl).
    destruct (lookup_lt_is_Some_2 (nodes w) p) as [np Hnp].
    { apply lookup_lt_Some in Hn. lia. }
    destruct (IH p w2 np) as (w3 & hp & H3 & R3 & Hnp3 & _); [|done| |lia|].
    { intros u nu Hu Hnu. rewrite Hne2 in Hnu by lia.
      eapply node_ok_kept; [exact K12|]. apply Hok; [lia|done]. }
    { rewrite Hne2 by lia. done. }
    pose proof (wired_everywhere_step fuel p w2 Hwired2) as Hwired3.
    rewrite H3 in Hwired3. simpl in Hwired3.
    pose proof (Hok p np ltac:(lia) Hnp) as [B1 B2 B3 B4 B5 B6].
    set (np3 := match unsubscribe np with
                | Some _ => with_amount (subscriptionsAmount np + 1) np
                | None => install hp (with_amount (subscriptionsAmount np + 1) np)
                end) in *.
    assert (Hshape : ∃ r c L, listeners np3 = Some r ∧ collections np3 !! r = Some c
              ∧ Registry.linked c L ∧ getListeners p w3 = getListeners p w).
    { destruct (unsubscribe np) as [h0|] eqn:Hu.
      - destruct (listeners np) as [r|] eqn:Hr;
          [|destruct B4 as [_ B4]; discriminate (B4 eq_refl)].
        destruct (Hwired p np Hnp r Hr) as (c & L & Hc & HL).
        exists r, c, L. split_and!; [done..|].
        unfold getListeners. by rewrite Hnp3, Hnp.
      - assert (Hr : listeners np = None) by (by apply B4).
        eexists _, _, []. split_and!; [done| |apply Registry.linked_empty|].
        + simpl. by rewrite lookup_app_r, Nat.sub_diag.
        + unfold getListeners. rewrite Hnp3, Hnp, Hr. simpl.
          by rewrite lookup_app_r, Nat.sub_diag. }
    destruct Hshape as (r & c & L & Hr & Hc & HL & Hget3).
    unfold bind at 1.
    rewrite (addNestedSub_with_unfold _ _ _ _ _ _ _ _ H3 Hnp3 Hr Hc).
    unfold ret. intros [= <-]. eexists _, _. split_and!; [done|done| |].
    + apply lookup_update_eq. rewrite lookup_update_ne by lia.
      rewrite (rise_above _ _ _ R3) by lia. done.
    + intros _. rewrite <- Hget3.
      rewrite <- (getListeners_enlist p w3 np3 r c L _ Hnp3 Hr Hc HL).
      apply getListeners_same. apply lookup_update_ne. lia.
  - unfold store_subscribe, bind, gets, modify, ret.
    intros [= <-]. eexists _, _. split_and!; [done|done| |done].
    by apply lookup_update_eq.
Qed.

(** X9. In every world that an execution reaches, [addNestedSub] on a node
    that holds no upstream handle connects the node: if the node has a
    parent, the [handleChangeWrapper] of the node becomes the last
    listener of what [getListeners().get()] of the parent returns, behind
    the listeners that were there, and the parent is connected; if it has
    none, the [handleChangeWrapper] becomes the last listener of the
    store. *)
Theorem first_subscription_registers_upstream fuel (ops : list op) s cb n :
  let w := final (exec fuel ops init) in
  nodes w !! s = Some n → unsubscribe n = None →
  ∃ w' k n', addNestedSub s cb w = Done (Unsubscribe (NestedSub s k)) w'
    ∧ nodes w' !! s = Some n' ∧ is_Some (unsubscribe n')
    ∧ getListeners s w' = [cb]
    ∧ match parentSub n with
      | Some p => getListeners p w' = getListeners p w ++ [HandleChangeWrapper s]
                  ∧ (0 < amount w' p)%Z
      | None => registered (store w')
                = registered (store w) ++ [(HandleChangeWrapper s, true)]
      end.
Proof.
  intros w Hn Hnone.
  assert (Hw : sound w) by (apply (exec_safe fuel ops init), sound_init).
  assert (Hwired : everywhere node_wired w).
  { intros u nu Hu. by apply (wired_reachable fuel ops u). }
  pose proof (proj1 Hw s n Hn) as [A1 A2 A3 A4 A5 A6].
  destruct (trySubscribe_rec_upstream (S s) s w n) as (w1 & h & H1 & R & Hn1 & Hup);
    [by apply consistent_below, Hw|done|done|lia|].
  rewrite Hnone in Hn1. specialize (Hup Hnone).
  change (trySubscribe_rec (S s) s w) with (trySubscribe s w) in H1.
  set (n1 := install h (with_amount (subscriptionsAmount n + 1) n)) in *.
  assert (Hr : listeners n1 = Some (length (collections n))) by done.
  assert (Hc : collections n1 !! length (collections n)
               = Some Registry.createListenerCollection).
  { simpl. by rewrite lookup_app_r, Nat.sub_diag. }
  unfold addNestedSub, bind.
  rewrite (addNestedSub_with_unfold _ _ _ _ _ _ _ _ H1 Hn1 Hr Hc). unfold ret.
  set (w' := set_nodes (alter (enlist (length (collections n))
                                 Registry.createListenerCollection cb) s) w1).
  assert (Hget1 : getListeners s w1 = []).
  { unfold getListeners. by rewrite Hn1, Hr, Hc. }
  exists w', (length (removers n1)), (enlist (length (collections n))
                                        Registry.createListenerCollection cb n1).
  split_and!; [done|by apply lookup_update_eq|by eexists| |].
  - unfold w'.
    rewrite (getListeners_enlist s w1 n1 _ _ [] cb Hn1 Hr Hc Registry.linked_empty).
    by rewrite Hget1.
  - destruct (parentSub n) as [p|] eqn:Hpar; [|done].
    pose proof (A1 p eq_refl) as Hlt. split.
    + rewrite <- Hup. apply getListeners_same. unfold w'. apply lookup_update_ne. lia.
    + unfold w'. rewrite amount_update, decide_False by lia.
      destruct (lookup_lt_is_Some_2 (nodes w) p) as [np Hnp].
      { apply lookup_lt_Some in Hn. lia. }
      destruct (rise_others _ _ _ R p ltac:(lia)) as [Hsame|Hplus].
      * (* the parent was connected before *)
        assert (Hlive : getListeners p w1 ≠ []).
        { rewrite Hup. intros [_ ?]%app_nil. discriminate. }
        rewrite Hsame.
        destruct (decide (0 < amount w p)%Z) as [Hpos|Hzero]; [done|].
        exfalso. apply Hlive.
        destruct (kept_nodes _ _ (rise_kept _ _ _ R) p np Hnp) as (np1 & Hnp1 & _).
        pose proof (rise_ok _ _ _ R p np1 ltac:(lia) Hnp1) as [_ C2 C3 C4 _ _].
        assert (Hz : subscriptionsAmount np1 = 0%Z).
        { unfold amount in Hsame, Hzero. rewrite Hnp1 in Hsame. rewrite Hnp in Hzero, Hsame.
          pose proof (proj1 Hw p np Hnp) as [_ D2 _ _ _ _]. lia. }
        unfold getListeners. rewrite Hnp1. by rewrite (proj1 C4 (proj1 C3 Hz)).
      * pose proof (proj1 Hw p np Hnp) as [_ D2 _ _ _ _].
        rewrite Hplus. unfold amount. rewrite Hnp. lia.
Qed.

Lemma first_subscription_registers_upstream_witness :
  let w := final (exec 1 [Create None; Create (Some 0);
                          AddNestedSub 0 (Consumer 1)] init) in
  ∃ w', addNestedSub 1 (Consumer 2) w = Done (Unsubscribe (NestedSub 1 0)) w'
    ∧ getListeners 1 w' = [Consumer 2]
    ∧ getListeners 0 w' = [Consumer 1; HandleChangeWrapper 1].
Proof.
  intros w.
  assert (Hg : getListeners 0 w = [Consumer 1]) by (vm_compute; reflexivity).
  assert (H : ∃ n, nodes w !! 1 = Some n ∧ unsubscribe n = None
                   ∧ parentSub n = Some 0 ∧ length (removers n) = 0)
    by (eexists; split_and!; vm_compute; reflexivity).
  destruct H as (n & Hn & Hu & Hp & Hlen).
  destruct (first_subscription_registers_upstream 1 _ 1 (Consumer 2) n Hn Hu)
    as (w' & k & n' & H1 & _ & _ & H2 & H3).
  rewrite Hp in H3. destruct H3 as [H3 _]. unfold w in Hg. rewrite Hg in H3.
  assert (Hk : k = 0).
  { assert (E : addNestedSub 1 (Consumer 2) w
                = Done (Unsubscribe (NestedSub 1 0))
                    (final (addNestedSub 1 (Consumer 2) w)))
      by (vm_compute; reflexivity).
    unfold w in E. rewrite E in H1. by injection H1 as <- _. }
  subst k. exists w'. done.
Defined.

(** *** What the store holds *)

(** Every listener of the store is the [handleChangeWrapper] of a node
    without parent, which holds the unsubscribe function of that
    registration as long as the registration is active; and a node that
    holds a cleanup closure of another node has that node as its parent. *)
Record rooted (w : World) : Prop := mkRooted {
  rooted_entry : ∀ i cb b, registered (store w) !! i = Some (cb, b) →
    ∃ r n, cb = HandleChangeWrapper r ∧ nodes w !! r = Some n ∧ parentSub n = None
           ∧ (b = true → unsubscribe n = Some (StoreSub i));
  rooted_handle : ∀ s n p k, nodes w !! s = Some n →
    unsubscribe n = Some (NestedSub p k) → parentSub n = Some p;
}.

Definition settled {A} (w : World) (o : outcome World A) : Prop :=
  rooted (final o) ∧ parents (final o) = parents w.

Lemma rooted_init : rooted init.
Proof. split; [by intros i cb b ?|by intros s n p k ?]. Qed.

Lemma settled_done {A} (a : A) w : rooted w → settled w (Done a w).
Proof. by split. Qed.

Lemma settled_abort {A} e w : rooted w → settled w (@Abort World A e w).
Proof. by split. Qed.

Lemma settled_bind {A B} (m : M World A) (k : A → M World B) w :
  settled w (m w) →
  (∀ a w1, m w = Done a w1 → rooted w1 → parents w1 = parents w → settled w1 (k a w1)) →
  settled w (bind m k w).
Proof.
  intros [Hr Hp] Hk. unfold bind.
  destruct (m w) as [a w1|e w1] eqn:Hm; [|by split].
  destruct (Hk a w1 eq_refl Hr Hp) as [Hr' Hp']. split; [done|].
  simpl in Hp. congruence.
Qed.

Lemma rooted_same w w' :
  nodes w' = nodes w → registered (store w') = registered (store w) →
  rooted w → rooted w'.
Proof. intros Hn Hs [HE HH]. split; rewrite ?Hn, ?Hs; done. Qed.

Lemma rooted_update s f w :
  rooted w →
  (∀ n, nodes w !! s = Some n →
        parentSub (f n) = parentSub n ∧ unsubscribe (f n) = unsubscribe n) →
  rooted (set_nodes (alter f s) w).
Proof.
  intros [HE HH] Hf. split.
  - intros i cb b Hi. destruct (HE i cb b Hi) as (r & n & -> & Hn & Hp & Hu).
    destruct (decide (s = r)) as [->|Hne].
    + exists r, (f n). rewrite (lookup_update_eq w r f n Hn).
      destruct (Hf n Hn) as [-> ->]. done.
    + exists r, n. by rewrite lookup_update_ne.
  - intros u nu p k. rewrite lookup_update. case_decide as Hd; [|apply HH].
    subst u. destruct (nodes w !! s) as [n|] eqn:Hn; [|done]. intros [= <-].
    destruct (Hf n eq_refl) as [-> ->]. by apply (HH s).
Qed.

Lemma update_settled s f w :
  rooted w →
  (∀ n, nodes w !! s = Some n →
        parentSub (f n) = parentSub n ∧ unsubscribe (f n) = unsubscribe n) →
  settled w (update_node s f w).
Proof.
  intros Hw Hf. split; [by apply rooted_update|].
  apply parents_update. intros n Hn. by apply Hf.
Qed.

Lemma get_node_settled s w : rooted w → settled w (get_node s w).
Proof. intros Hw. unfold get_node. by destruct (nodes w !! s). Qed.

(** A node with a parent takes or drops a cleanup closure of the parent. *)
Lemma rooted_update_nested s f w p :
  rooted w → parents w !! s = Some (Some p) →
  (∀ n, parentSub (f n) = parentSub n) →
  (∀ n q k, unsubscribe (f n) = Some (NestedSub q k) → q = p) →
  rooted (set_nodes (alter f s) w).
Proof.
  intros [HE HH] Hps Hpar Hh. unfold parents in Hps. rewrite list_lookup_fmap in Hps.
  destruct (nodes w !! s) as [ns|] eqn:Hs; [|done]. simpl in Hps.
  split.
  - intros i cb b Hi. destruct (HE i cb b Hi) as (r & n & -> & Hn & Hp & Hu).
    destruct (decide (s = r)) as [->|Hne]; [congruence|].
    exists r, n. by rewrite lookup_update_ne.
  - intros u nu q k. rewrite lookup_update. case_decide as Hd; [|apply HH].
    subst u. rewrite Hs. intros [= <-] Hq. rewrite Hpar.
    rewrite (Hh _ _ _ Hq). congruence.
Qed.

(** A node without parent subscribes to the store and keeps what it
    returns. *)
Lemma rooted_connect_root s w n :
  rooted w → nodes w !! s = Some n → unsubscribe n = None → parentSub n = None →
  rooted (set_nodes (alter (install (StoreSub (length (registered (store w))))) s)
            (set_store (λ st, {| state := state st;
                                 registered := registered st
                                               ++ [(HandleChangeWrapper s, true)] |}) w)).
Proof.
  intros [HE HH] Hn Hnone Hpar. split.
  - intros i cb b. cbn [store set_nodes set_store registered].
    intros [[_ Hi]|[-> [= <- <-]]]%lookup_snoc_Some.
    + destruct (HE i cb b Hi) as (r & nr & -> & Hr & Hp & Hu).
      destruct (decide (s = r)) as [<-|Hne].
      * assert (nr = n) as -> by congruence.
        eexists s, _. split_and!; [done|by apply lookup_update_eq|done|].
        intros Hb. specialize (Hu Hb). congruence.
      * exists r, nr. by rewrite lookup_update_ne.
    + eexists s, _. split_and!; [done|by apply lookup_update_eq|done|done].
  - intros u nu q k. rewrite lookup_update. case_decide as Hd; [|apply HH].
    subst u. cbn [nodes set_store]. rewrite Hn. by intros [= <-].
Qed.

(** A node calls the unsubscribe function of the store that it holds and
    forgets it. *)
Lemma rooted_disconnect_root s w n i :
  rooted w → nodes w !! s = Some n → unsubscribe n = Some (StoreSub i) →
  rooted (set_nodes (alter (with_unsubscribe None) s)
            (set_store (λ st, {| state := state st;
                                 registered := alter (λ e, (e.1, false)) i
                                                 (registered st) |}) w)).
Proof.
  intros [HE HH] Hn Hi. split.
  - intros j cb b. cbn [store set_nodes set_store registered].
    rewrite list_lookup_alter. intros Hj.
    assert (Hold : ∃ b0, registered (store w) !! j = Some (cb, b0)
                         ∧ (b = true → b0 = true ∧ i ≠ j)).
    { case_decide as Hd.
      - destruct (registered (store w) !! i) as [[cb0 b0]|] eqn:E; [|done].
        injection Hj as <- <-. subst j. exists b0. split; [exact E|discriminate].
      - exists b. by split. }
    destruct Hold as (b0 & Hj0 & Hb).
    destruct (HE j cb b0 Hj0) as (r & nr & -> & Hr & Hp & Hu).
    destruct (decide (s = r)) as [<-|Hne].
    + assert (nr = n) as -> by congruence.
      eexists s, _. split_and!; [done|by apply lookup_update_eq|done|].
      intros Hb'. destruct (Hb Hb') as [Hb0 Hij]. specialize (Hu Hb0). congruence.
    + exists r, nr. rewrite lookup_update_ne by done. split_and!; [done..|].
      intros Hb'. apply Hu. by apply Hb.
  - intros u nu q k. rewrite lookup_update. case_decide as Hd; [|apply HH].
    subst u. cbn [nodes set_store]. rewrite Hn. by intros [= <-].
Qed.

Lemma rooted_store_unsubscribe i w :
  rooted w →
  rooted (set_store (λ st, {| state := state st;
                              registered := alter (λ e, (e.1, false)) i
                                              (registered st) |}) w).
Proof.
  intros [HE HH]. split; [|apply HH].
  intros j cb b. cbn [store set_store registered]. rewrite list_lookup_alter.
  case_decide as Hd.
  - destruct (registered (store w) !! i) as [[cb0 b0]|] eqn:E; [|done].
    intros [= <- <-]. subst j.
    destruct (HE i cb0 b0 E) as (r & nr & -> & Hr & Hp & Hu).
    exists r, nr. done.
  - apply HE.
Qed.

Lemma addNestedSub_with_settled trySub s cb w :
  (∀ w, rooted w → settled w (trySub s w)) →
  rooted w → settled w (addNestedSub_with trySub s cb w).
Proof.
  intros Htry Hw. unfold addNestedSub_with.
  apply settled_bind; [by apply Htry|]. intros _ w1 _ Hw1 _.
  apply settled_bind; [by apply get_node_settled|].
  intros n w2 [-> Hn]%get_node_done _ _.
  destruct (listeners n) as [r|]; [|by apply settled_abort].
  destruct (collections n !! r) as [c|]; [|by apply settled_abort].
  apply settled_bind; [|intros; by apply settled_done].
  by apply update_settled.
Qed.

Lemma trySubscribe_rec_settled fuel :
  ∀ s w, rooted w → settled w (trySubscribe_rec fuel s w).
Proof.
  induction fuel as [|fuel IH]; intros s w Hw; [by apply settled_abort|].
  destruct (nodes w !! s) as [n|] eqn:Hn; last first.
  { simpl. unfold bind, get_node. rewrite Hn. by apply settled_abort. }
  rewrite (trySubscribe_rec_unfold _ _ _ _ Hn). cbv zeta.
  set (w1 := set_nodes (alter (with_amount (subscriptionsAmount n + 1)) s) w).
  set (w2 := {| nodes := nodes w1; store := store w1; log := log w1 ++ [Connected s] |}).
  assert (H1 : rooted w1) by (by apply rooted_update).
  assert (P1 : parents w1 = parents w) by (by apply parents_update).
  destruct (unsubscribe n) as [h|] eqn:Hu; [by split|].
  assert (H2 : rooted w2) by (by apply (rooted_same w1)).
  assert (Hn2 : nodes w2 !! s = Some (with_amount (subscriptionsAmount n + 1) n))
    by (by apply lookup_update_eq).
  destruct (parentSub n) as [p|] eqn:Hpar.
  - destruct (addNestedSub_with_settled (trySubscribe_rec fuel) p
                (HandleChangeWrapper s) w2 (IH p) H2) as [H3 P3].
    unfold bind at 1.
    destruct (addNestedSub_with (trySubscribe_rec fuel) p (HandleChangeWrapper s) w2)
      as [k w3|e w3]; cbn [final] in H3, P3; [|split; [done|by rewrite <- P1]].
    unfold ret. split; cbn [final].
    + apply (rooted_update_nested s _ w3 p); [done| |done|].
      * rewrite P3. change (parents w2) with (parents w1). rewrite P1.
        unfold parents. by rewrite list_lookup_fmap, Hn, <- Hpar.
      * by intros n0 q k0 [= <- _].
    + rewrite parents_update by done. by rewrite <- P1.
  - unfold store_subscribe, bind, gets, modify, ret. split.
    + by apply (rooted_connect_root s w2 _ H2 Hn2).
    + simpl. rewrite parents_update by done. done.
Qed.

Lemma removeNestedSub_with_settled tryUnsub s k w :
  (∀ w, rooted w → settled w (tryUnsub s w)) →
  rooted w → settled w (removeNestedSub_with tryUnsub s k w).
Proof.
  intros Htry Hw. unfold removeNestedSub_with.
  apply settled_bind; [by apply get_node_settled|].
  intros n w0 [-> Hn]%get_node_done _ _.
  destruct (removers n !! k) as [rm|]; [|by apply settled_abort].
  destruct (removed rm); [by apply settled_done|].
  apply settled_bind; [by apply update_settled|].
  intros _ w1 _ Hw1 _. by apply Htry.
Qed.

Lemma tryUnsubscribe_rec_settled fuel :
  ∀ s w, rooted w → settled w (tryUnsubscribe_rec fuel s w).
Proof.
  induction fuel as [|fuel IH]; intros s w Hw; [by apply settled_abort|].
  destruct (nodes w !! s) as [n|] eqn:Hn; last first.
  { simpl. unfold bind, get_node. rewrite Hn. by apply settled_abort. }
  rewrite (tryUnsubscribe_rec_unfold _ _ _ _ Hn). cbv zeta.
  set (w1 := set_nodes (alter (with_amount (subscriptionsAmount n - 1)) s) w).
  set (w2 := {| nodes := nodes w1; store := store w1;
                log := log w1 ++ [Disconnected s] |}).
  assert (H1 : rooted w1) by (by apply rooted_update).
  assert (P1 : parents w1 = parents w) by (by apply parents_update).
  destruct (unsubscribe n) as [h|] eqn:Hu; [|by split].
  case_decide as Hzero; [|by split].
  assert (H2 : rooted w2) by (by apply (rooted_same w1)).
  assert (Hn2 : nodes w2 !! s = Some (with_amount (subscriptionsAmount n - 1) n))
    by (by apply lookup_update_eq).
  assert (Hlast : ∀ w3, rooted (set_nodes (alter (with_unsubscribe None) s) w3) →
            parents w3 = parents w →
            settled w
              (let w4 := set_nodes (alter (with_unsubscribe None) s) w3 in
               match nodes w4 !! s with
               | Some n' =>
                   match listeners n' with
                   | Some r => Done tt (set_nodes (alter (uninstall r) s) w4)
                   | None => Abort TypeError w4
                   end
               | None => Abort Dangling w4
               end)).
  { intros w3 H4 P3. cbv zeta.
    assert (P4 : parents (set_nodes (alter (with_unsubscribe None) s) w3) = parents w).
    { rewrite parents_update by done. done. }
    destruct (nodes (set_nodes (alter (with_unsubscribe None) s) w3) !! s) as [n'|];
      [|by split].
    destruct (listeners n') as [r|]; [|by split].
    split; cbn [final]; [by apply rooted_update|].
    rewrite parents_update by done. exact P4. }
  destruct h as [p k|i].
  - destruct (removeNestedSub_with_settled (tryUnsubscribe_rec fuel) p k w2 (IH p) H2)
      as [H3 P3].
    destruct (removeNestedSub_with (tryUnsubscribe_rec fuel) p k w2) as [[] w3|e w3];
      cbn [final] in H3, P3; [|split; [done|by rewrite <- P1]].
    apply Hlast; [|by rewrite <- P1].
    apply (rooted_update_nested s _ w3 p); [done| |done|done].
    rewrite P3. change (parents w2) with (parents w1). rewrite P1.
    unfold parents. rewrite list_lookup_fmap, Hn. simpl.
    by rewrite (rooted_handle w Hw s n p k Hn Hu).
  - unfold store_unsubscribe, modify. apply Hlast; [|done].
    by apply (rooted_disconnect_root s w2 _ i H2 Hn2).
Qed.

Lemma rooted_emit e w : rooted w → rooted (final (emit e w)).
Proof. by apply rooted_same. Qed.

Lemma rooted_get_node s w : rooted w → rooted (final (get_node s w)).
Proof. intros Hw. unfold get_node. by destruct (nodes w !! s). Qed.

Lemma call_handle_rooted h w : rooted w → rooted (final (call_handle h w)).
Proof.
  intros Hw. destruct h as [s k|i]; simpl.
  - apply removeNestedSub_with_settled; [|done].
    intros w1 Hw1. by apply tryUnsubscribe_rec_settled.
  - by apply rooted_store_unsubscribe.
Qed.

Lemma call_rooted fuel : ∀ f w, rooted w → rooted (final (call fuel f w)).
Proof.
  induction fuel as [|fuel IH]; intros f w Hw; [done|].
  destruct f as [name|s|s|s|s|h]; simpl.
  - by apply rooted_emit.
  - apply final_bind; [by apply rooted_get_node|].
    intros n w1 [-> Hn]%get_node_done _.
    destruct (onStateChange n); [by apply IH|done].
  - unfold notifyNestedSubs_with, notify_listeners.
    apply final_bind; [by apply rooted_emit|]. intros _ w1 _ Hw1.
    apply final_bind; [by apply rooted_get_node|].
    intros n w2 [-> Hn]%get_node_done _.
    destruct (listeners n) as [r|]; [|done].
    unfold batch. apply final_bind; [done|]. intros cur w3 [= _ <-] _.
    clear Hn. revert cur w1 Hw1. generalize fuel at 2. intros loop.
    induction loop as [|loop IHl]; intros cur w1 Hw1.
    + by destruct cur.
    + destruct cur as [l|]; [|done].
      destruct (cells_of s r w1 !! l) as [cell|] eqn:Hcell; last first.
      { simpl. unfold bind, gets. by rewrite Hcell. }
      rewrite (Registry.notify_loop_turn _ _ _ _ cell) by done.
      assert (Hrun : rooted (final ((emit (Dispatched (Some s) (Registry.callback cell)) ;;
                        call fuel (Registry.callback cell)) w1))).
      { apply final_bind; [by apply rooted_emit|]. intros _ w2 _ Hw2. by apply IH. }
      destruct ((emit (Dispatched (Some s) (Registry.callback cell)) ;;
                 call fuel (Registry.callback cell)) w1) as [[] w2|e w2]; [|done].
      by apply IHl.
  - unfold trySubscribeSelf. apply final_bind; [by apply rooted_get_node|].
    intros n w1 [-> Hn]%get_node_done _. destruct (selfSubscribed n); [done|].
    apply final_bind; [|intros _ w2 _ Hw2; by apply trySubscribe_rec_settled].
    by apply rooted_update.
  - unfold tryUnsubscribeSelf. apply final_bind; [by apply rooted_get_node|].
    intros n w1 [-> Hn]%get_node_done _. destruct (selfSubscribed n); [|done].
    apply final_bind; [|intros _ w2 _ Hw2; by apply tryUnsubscribe_rec_settled].
    by apply rooted_update.
  - by apply call_handle_rooted.
Qed.

Lemma fire_rooted fuel ls : ∀ w, rooted w → rooted (final (fire fuel ls w)).
Proof.
  induction ls as [|cb ls IH]; intros w Hw; simpl; [done|].
  apply final_bind; [by apply rooted_emit|]. intros _ w1 _ Hw1.
  apply final_bind; [by apply call_rooted|]. intros _ w2 _ Hw2. by apply IH.
Qed.

Lemma run_op_rooted fuel o w : rooted w → rooted (final (run_op fuel o w)).
Proof.
  intros Hw. destruct o as [parent|s f|s listener|f|newState]; simpl.
  - apply final_bind; [|by intros]. unfold createSubscription, bind, gets, modify, ret.
    assert (Hnew : rooted (set_nodes (λ ns, ns ++ [ {| parentSub := parent;
                      unsubscribe := None; listeners := None; subscriptionsAmount := 0;
                      selfSubscribed := false; onStateChange := None;
                      collections := []; removers := [] |} ]) w)).
    { destruct Hw as [HE HH]. split.
      - intros i cb b Hi. destruct (HE i cb b Hi) as (r & n & -> & Hn & Hp & Hu).
        exists r, n. split_and!; [done| |done..]. simpl.
        by apply lookup_app_l_Some.
      - intros s n p k. simpl.
        intros [[_ Hn]|[_ <-]]%lookup_snoc_Some; [by apply (HH s)|done]. }
    destruct parent as [p|]; simpl; [|done]. by case_decide.
  - unfold setOnStateChange. apply final_bind; [by apply rooted_get_node|].
    intros n w1 [-> Hn]%get_node_done _. by apply rooted_update.
  - apply final_bind; [|by intros]. unfold addNestedSub.
    apply final_bind; [|by intros]. apply addNestedSub_with_settled; [|done].
    intros w1 Hw1. by apply trySubscribe_rec_settled.
  - by apply call_rooted.
  - unfold dispatch. apply final_bind; [by apply (rooted_same w)|]. intros _ w1 _ Hw1.
    apply final_bind; [done|]. intros ls w2 [= _ <-] _. by apply fire_rooted.
Qed.

Lemma exec_rooted fuel ops : ∀ w, rooted w → rooted (final (exec fuel ops w)).
Proof.
  induction ops as [|o ops IH]; intros w Hw; simpl; [done|].
  apply final_bind; [by apply run_op_rooted|]. intros _ w1 _ Hw1. by apply IH.
Qed.

Lemma active_once (l : list (closure * bool)) :
  (∀ i j cb, l !! i = Some (cb, true) → l !! j = Some (cb, true) → i = j) →
  NoDup (filter (λ e, e.2 = true) l).*1.
Proof.
  induction l as [|[cb b] l IH]; intros Hl; [constructor|].
  assert (Hrest : NoDup (filter (λ e, e.2 = true) l).*1).
  { apply IH. intros i j c Hi Hj. by injection (Hl (S i) (S j) c Hi Hj). }
  rewrite filter_cons. case_decide as Hb; [|done]. simpl in Hb. subst b.
  simpl. constructor; [|done].
  intros ([c b] & Hc & [Hact Hin]%list_elem_of_filter)%list_elem_of_fmap.
  simpl in Hc, Hact. subst c b.
  apply list_elem_of_lookup in Hin as [j Hj].
  by specialize (Hl 0 (S j) cb eq_refl Hj).
Qed.

(** X10. In every world that an execution reaches, every active listener
    of the store is the [handleChangeWrapper] of a connected node without
    parent that holds the unsubscribe function of that registration: no
    node is registered with the store twice, so that the listeners that a
    change of the store fires are all different. *)
Theorem store_holds_each_root_once fuel (ops : list op) :
  let w := final (exec fuel ops init) in
  (∀ i cb, registered (store w) !! i = Some (cb, true) →
     ∃ r n, cb = HandleChangeWrapper r ∧ nodes w !! r = Some n
            ∧ parentSub n = None ∧ unsubscribe n = Some (StoreSub i)
            ∧ (0 < subscriptionsAmount n)%Z)
  ∧ NoDup (filter (λ e, e.2 = true) (registered (store w))).*1.
Proof.
  intros w.
  assert (Hw : sound w) by (apply (exec_safe fuel ops init), sound_init).
  assert (Hr : rooted w) by (apply exec_rooted, rooted_init).
  assert (Hact : ∀ i cb, registered (store w) !! i = Some (cb, true) →
     ∃ r n, cb = HandleChangeWrapper r ∧ nodes w !! r = Some n
            ∧ parentSub n = None ∧ unsubscribe n = Some (StoreSub i)
            ∧ (0 < subscriptionsAmount n)%Z).
  { intros i cb Hi.
    destruct (rooted_entry w Hr i cb true Hi) as (r & n & -> & Hn & Hp & Hu).
    specialize (Hu eq_refl). exists r, n. split_and!; [done..|].
    pose proof (proj1 Hw r n Hn) as [_ A2 A3 _ _ _].
    destruct (decide (subscriptionsAmount n = 0%Z)) as [Hz|Hz]; [|lia].
    apply A3 in Hz. congruence. }
  split; [done|]. apply active_once. intros i j cb Hi Hj.
  destruct (Hact i cb Hi) as (r & n & -> & Hn & _ & Hu & _).
  destruct (Hact j _ Hj) as (r' & n' & [= <-] & Hn' & _ & Hu' & _).
  congruence.
Qed.

(** *** What a pass delivers in a tame world *)

(** What the log shows of the call of a listener [cb]: a callback of the
    application is called; the [handleChangeWrapper] of a node calls the
    [onStateChange] of the node, which is such a callback or starts the
    pass of a node, whose part of the log is [pass]. *)
Definition reaction (pass : nat → list event) (w : World) (cb : closure) : list event :=
  match cb with
  | Consumer x => [Called x]
  | HandleChangeWrapper d =>
      match nodes w !! d with
      | Some n =>
          match onStateChange n with
          | Some (Consumer x) => [Called x]
          | Some (NotifyNestedSubs u) => pass u
          | _ => []
          end
      | None => []
      end
  | _ => []
  end.

(** What the log shows of [notifyNestedSubs] on node [s] in the world [w]:
    every listener that [getListeners().get()] returns is invoked, in this
    order, and reacts before the next one is invoked.  [depth] bounds the
    number of nodes on a chain below [s]. *)
Fixpoint deliveries (depth : nat) (w : World) (s : nat) : list event :=
  match depth with
  | O => []
  | S depth' =>
      Notified s
      :: flat_map (λ cb, Dispatched (Some s) cb :: reaction (deliveries depth' w) w cb)
           (getListeners s w)
  end.

(** The listeners that the store fires on a change. *)
Definition store_listeners (w : World) : list closure :=
  (filter (λ e, e.2 = true) (registered (store w))).*1.

(** The largest number of listeners that a collection ever held. *)
Definition widest (w : World) : nat :=
  max_list (n ← nodes w; (λ c, length (Registry.heap c)) <$> collections n).

Lemma widest_bound w s n r c :
  nodes w !! s = Some n → collections n !! r = Some c →
  length (Registry.heap c) ≤ widest w.
Proof.
  intros Hn Hc. apply max_list_elem_of_le, list_elem_of_bind.
  exists n. split; [|by eapply list_elem_of_lookup_2].
  apply list_elem_of_fmap. exists c. split; [done|by eapply list_elem_of_lookup_2].
Qed.

Lemma reaction_same pass pass' w w' cb :
  nodes w' = nodes w → (∀ u, pass' u = pass u) →
  reaction pass' w' cb = reaction pass w cb.
Proof.
  intros Hn Hp. unfold reaction. rewrite Hn. destruct cb; try done.
  destruct (nodes w !! s) as [n|]; [|done].
  by destruct (onStateChange n) as [[]|].
Qed.

Lemma deliveries_same depth w w' :
  nodes w' = nodes w → ∀ s, deliveries depth w' s = deliveries depth w s.
Proof.
  intros Hn. induction depth as [|depth IH]; intros s; [done|].
  simpl. f_equal. rewrite (getListeners_same s w w') by (by rewrite Hn).
  apply flat_map_ext. intros cb. f_equal. by apply reaction_same.
Qed.

Section Delivery.
Variable w : World.
Hypothesis w_tame : tame w.
Hypothesis w_consistent : consistent w.
Hypothesis w_wired : everywhere node_wired w.

(** The worlds that a pass goes through: only the log grows. *)
Definition like (w1 : World) : Prop := nodes w1 = nodes w ∧ store w1 = store w.

Definition delivered (w1 : World) (o : outcome World unit) (seg : list event) : Prop :=
  ∃ w2, o = Done tt w2 ∧ like w2 ∧ log w2 = log w1 ++ seg.

Lemma loop_delivers s r c L (R : closure → list event) invoke :
  collection_of s r w = Some c → Registry.linked c L →
  (∀ cb w1, cb ∈ callbacks_of c L → like w1 → delivered w1 (invoke cb w1) (R cb)) →
  ∀ loop k w1, like w1 → length L - k ≤ loop →
    delivered w1
      (Registry.notify_loop (cells_of s r)
         (λ _ cb, emit (Dispatched (Some s) cb) ;; invoke cb) loop (L !! k) w1)
      (flat_map (λ cb, Dispatched (Some s) cb :: R cb) (callbacks_of c (drop k L))).
Proof.
  intros Hc HL Hinv.
  assert (Hcells : ∀ w1, like w1 → cells_of s r w1 = Registry.heap c).
  { intros w1 [Hn _]. unfold cells_of, collection_of in *. rewrite Hn.
    by destruct (nodes w !! s) as [n|]; [rewrite Hc|]. }
  induction loop as [|loop IH]; intros k w1 Hw1 Hk.
  - rewrite (lookup_ge_None_2 L k), drop_ge by lia.
    exists w1. split_and!; [done..|]. by rewrite app_nil_r.
  - destruct (L !! k) as [l|] eqn:Hl; last first.
    { apply lookup_ge_None_1 in Hl. rewrite drop_ge by lia.
      exists w1. split_and!; [done..|]. by rewrite app_nil_r. }
    destruct (Registry.linked_cells _ _ HL k l Hl) as (x & Hx & Hnx & _).
    rewrite (Registry.notify_loop_turn _ _ _ _ x) by (by rewrite Hcells).
    unfold bind at 1, emit at 1, modify.
    set (w1' := {| nodes := nodes w1; store := store w1;
                   log := log w1 ++ [Dispatched (Some s) (Registry.callback x)] |}).
    destruct (Hinv (Registry.callback x) w1') as (w2 & H2 & Hw2 & Hlog2).
    { apply list_elem_of_omap. exists l. split; [by eapply list_elem_of_lookup_2|].
      by rewrite Hx. }
    { done. }
    rewrite H2, (Hcells w2 Hw2), Hx, Hnx.
    destruct (IH (S k) w2 Hw2) as (w3 & H3 & Hw3 & Hlog3); [lia|].
    exists w3. split_and!; [done..|].
    rewrite Hlog3, Hlog2, (drop_S _ _ _ Hl). unfold callbacks_of. csimpl.
    rewrite Hx. simpl. by rewrite <- !app_assoc.
Qed.

Lemma answer_delivers depth F cb w1 :
  (∀ F' s w1, like w1 → s < length (nodes w) → length (nodes w) - s ≤ depth →
      widest w + 2 * depth ≤ F' →
      delivered w1 (notifyNestedSubs F' s w1) (deliveries depth w s)) →
  like w1 →
  match cb with
  | Consumer _ => True
  | HandleChangeWrapper d => d < length (nodes w) ∧ length (nodes w) - d ≤ depth
  | _ => False
  end →
  widest w + 2 * depth + 2 ≤ F →
  delivered w1 (call F cb w1) (reaction (deliveries depth w) w cb).
Proof using w_tame.
  intros Hpass Hw1 Hcb HF.
  destruct F as [|[|F]]; [lia|lia|].
  destruct cb as [x|d| | | |]; try done.
  - eexists. split_and!; [reflexivity|done|done].
  - destruct Hcb as [Hd Hdepth].
    destruct (lookup_lt_is_Some_2 (nodes w) d Hd) as [n Hn].
    assert (Hcall : call (S (S F)) (HandleChangeWrapper d) w1
                    = match onStateChange n with
                      | Some g => call (S F) g w1
                      | None => Done tt w1
                      end).
    { simpl. unfold bind, get_node. destruct Hw1 as [Hn1 _]. rewrite Hn1, Hn.
      by destruct (onStateChange n). }
    rewrite Hcall. unfold reaction. rewrite Hn.
    pose proof (tame_nodes w w_tame d n Hn) as [Hh _].
    destruct (onStateChange n) as [g|]; last first.
    { exists w1. split_and!; [done..|]. by rewrite app_nil_r. }
    destruct g as [x| |u| | |]; try done; simpl in Hh.
    + eexists. split_and!; [reflexivity|done|done].
    + apply bool_decide_eq_true in Hh. subst u.
      change (call (S F) (NotifyNestedSubs d) w1) with (notifyNestedSubs F d w1).
      apply Hpass; [done..|lia].
Qed.

Lemma pass_delivers depth :
  ∀ F s w1, like w1 → s < length (nodes w) → length (nodes w) - s ≤ depth →
    widest w + 2 * depth ≤ F →
    delivered w1 (notifyNestedSubs F s w1) (deliveries depth w s).
Proof using All.
  induction depth as [|depth IH]; intros F s w1 Hw1 Hs Hdepth HF; [lia|].
  destruct (lookup_lt_is_Some_2 (nodes w) s Hs) as [n Hn].
  unfold notifyNestedSubs, notifyNestedSubs_with. unfold bind at 1, emit at 1, modify.
  set (w1' := {| nodes := nodes w1; store := store w1; log := log w1 ++ [Notified s] |}).
  assert (Hw1' : like w1') by done.
  assert (Hn1 : nodes w1' !! s = Some n) by (destruct Hw1' as [Hx _]; by rewrite Hx).
  unfold notify_listeners, bind at 1, get_node. rewrite Hn1.
  cbn [deliveries].
  destruct (listeners n) as [r|] eqn:Hr; last first.
  { exists w1'. split_and!; [done..|]. unfold getListeners. by rewrite Hn, Hr. }
  destruct (w_wired s n Hn r Hr) as (c & L & Hc & HL).
  assert (Hcol : collection_of s r w = Some c) by (unfold collection_of; by rewrite Hn).
  assert (Hcol1 : collection_of s r w1' = Some c) by (unfold collection_of; by rewrite Hn1).
  unfold batch, bind at 1, gets. rewrite Hcol1, (Registry.linked_first _ _ HL), head_lookup.
  destruct (loop_delivers s r c L (reaction (deliveries depth w) w) (call F) Hcol HL)
    with (loop := F) (k := 0) (w1 := w1') as (w2 & H2 & Hw2 & Hlog2).
  - intros cb w0 Hcb Hw0. apply answer_delivers; [exact IH|done| |lia].
    apply list_elem_of_omap in Hcb as (l & Hl & Hx).
    destruct (Registry.heap c !! l) as [x|] eqn:Hx'; [|done]. injection Hx as <-.
    pose proof (cells_tame w s r l x w_tame) as Hok. unfold cells_of in Hok.
    rewrite Hcol in Hok. specialize (Hok Hx').
    destruct (Registry.callback x) as [ |d| | | |]; try done.
    apply bool_decide_eq_true in Hok. unfold parents in Hok.
    rewrite list_lookup_fmap in Hok.
    destruct (nodes w !! d) as [nd|] eqn:Hnd; [|done]. injection Hok as Hpar.
    pose proof (ok_parent _ _ _ (w_consistent d nd Hnd) s Hpar).
    apply lookup_lt_Some in Hnd. lia.
  - done.
  - pose proof (Registry.increasing_length L (length (Registry.heap c))
                  (Registry.linked_increasing _ _ HL)) as Hlen.
    pose proof (widest_bound w s n r c Hn Hc).
    assert (length L ≤ length (Registry.heap c)); [|lia].
    apply Hlen. intros x Hx. by eapply Registry.linked_bound.
  - exists w2. split_and!; [done..|].
    rewrite Hlog2, drop_0. simpl. rewrite <- app_assoc.
    by rewrite (getListeners_linked s w n r c L Hn Hr Hc HL).
Qed.

Lemma fire_delivers depth F ls :
  Forall (λ cb, ∃ r, cb = HandleChangeWrapper r ∧ r < length (nodes w)) ls →
  length (nodes w) ≤ depth → widest w + 2 * depth + 2 ≤ F →
  ∀ w1, like w1 →
    delivered w1 (fire F ls w1)
      (flat_map (λ cb, Dispatched None cb :: reaction (deliveries depth w) w cb) ls).
Proof using All.
  intros Hls Hdepth HF. induction Hls as [|cb ls (r & -> & Hr) _ IH]; intros w1 Hw1.
  { exists w1. split_and!; [done..|]. by rewrite app_nil_r. }
  simpl. unfold bind at 1, emit at 1, modify.
  set (w1' := {| nodes := nodes w1; store := store w1;
                 log := log w1 ++ [Dispatched None (HandleChangeWrapper r)] |}).
  destruct (answer_delivers depth F (HandleChangeWrapper r) w1')
    as (w2 & H2 & Hw2 & Hlog2); [|done|split; lia|done|].
  { intros F' s w0 Hw0 Hs Hd HF'. by apply pass_delivers. }
  unfold bind at 1. rewrite H2.
  destruct (IH w2 Hw2) as (w3 & H3 & Hw3 & Hlog3).
  exists w3. split_and!; [done..|].
  rewrite Hlog3, Hlog2. simpl. by rewrite <- !app_assoc.
Qed.

End Delivery.

(** X11. In a world that the components have built, [notifyNestedSubs] on
    a node completes when the bound on the nesting of calls is large
    enough; it changes neither the nodes nor the store, and it invokes
    every listener that [getListeners().get()] of the node returns, once
    and in this order: a callback of the application is called, and the
    [handleChangeWrapper] of a child hands on to the [onStateChange] of the
    child, whose pass is complete before the next listener of the node is
    invoked. *)
Theorem notifyNestedSubs_delivers fuel (ops : list op) F s :
  let w := final (exec fuel ops init) in
  forallb tame_op ops = true →
  s < length (nodes w) →
  widest w + 2 * (length (nodes w) - s) ≤ F →
  ∃ w', notifyNestedSubs F s w = Done tt w'
    ∧ nodes w' = nodes w ∧ store w' = store w
    ∧ log w' = log w ++ deliveries (length (nodes w) - s) w s.
Proof.
  intros w Hops Hs HF.
  assert (Ht : tame w) by (by apply exec_tame; [apply tame_init|]).
  assert (Hw : sound w) by (apply (exec_safe fuel ops init), sound_init).
  assert (Hwired : everywhere node_wired w).
  { intros u nu Hu. by apply (wired_reachable fuel ops u). }
  destruct (pass_delivers w Ht (proj1 Hw) Hwired (length (nodes w) - s) F s w)
    as (w' & H & [Hn Hst] & Hlog); [done|done|lia|done|].
  by exists w'.
Qed.

Lemma notifyNestedSubs_delivers_witness :
  let ops := [Create None; SetOnStateChange 0 (Some (NotifyNestedSubs 0));
              Create (Some 0); SetOnStateChange 1 (Some (NotifyNestedSubs 1));
              AddNestedSub 0 (Consumer 1); AddNestedSub 1 (Consumer 2);
              AddNestedSub 0 (Consumer 3)] in
  let w := final (exec 1 ops init) in
  ∃ w', notifyNestedSubs 7 0 w = Done tt w'
    ∧ nodes w' = nodes w ∧ store w' = store w
    ∧ log w' = log w ++ deliveries 2 w 0
    ∧ calls_of (deliveries 2 w 0) = [1; 2; 3].
Proof.
  intros ops w.
  destruct (notifyNestedSubs_delivers 1 ops 7 0)
    as (w' & H & Hn & Hst & Hlog);
    [reflexivity|vm_compute; lia|vm_compute; lia|].
  exists w'. split_and!; [done..|vm_compute; reflexivity].
Defined.

(** X12. In a world that the components have built, a change of the store
    completes when the bound on the nesting of calls is large enough; it
    leaves the nodes and the registrations alone, and the store fires each
    of its active listeners, once and in the order of their registration:
    each is the [handleChangeWrapper] of a node, whose reaction is complete
    before the next one fires. *)
Theorem store_change_delivers fuel (ops : list op) F x :
  let w := final (exec fuel ops init) in
  forallb tame_op ops = true →
  widest w + 2 * length (nodes w) + 2 ≤ F →
  ∃ w', dispatch F x w = Done tt w'
    ∧ nodes w' = nodes w ∧ state (store w') = x
    ∧ registered (store w') = registered (store w)
    ∧ log w' = log w
               ++ flat_map (λ cb, Dispatched None cb
                                  :: reaction (deliveries (length (nodes w)) w) w cb)
                    (store_listeners w).
Proof.
  intros w Hops HF.
  assert (Ht : tame w) by (by apply exec_tame; [apply tame_init|]).
  assert (Hw : sound w) by (apply (exec_safe fuel ops init), sound_init).
  assert (Hwired : everywhere node_wired w).
  { intros u nu Hu. by apply (wired_reachable fuel ops u). }
  set (w0 := set_store (λ st, {| state := x; registered := registered st |}) w).
  assert (Ht0 : tame w0) by (by apply (tame_same_nodes w)).
  destruct (fire_delivers w0 Ht0 (proj1 Hw) Hwired (length (nodes w)) F (store_listeners w))
    with (w1 := w0) as (w' & H & [Hn Hst] & Hlog); [|done|done|done|].
  { apply Forall_forall. intros cb ([cb' b] & -> & [_ Hin]%list_elem_of_filter)%list_elem_of_fmap.
    apply list_elem_of_lookup in Hin as [i Hi].
    destruct (tame_store w Ht i cb' b Hi) as (r & -> & Hr).
    exists r. split; [done|]. apply lookup_lt_Some in Hr.
    unfold parents in Hr. by rewrite length_fmap in Hr. }
  exists w'. split_and!.
  - unfold dispatch, bind at 1, modify. fold w0. unfold bind at 1, gets. exact H.
  - done.
  - by rewrite Hst.
  - by rewrite Hst.
  - rewrite Hlog. simpl. f_equal. apply flat_map_ext. intros cb. f_equal.
    apply reaction_same; [done|]. intros u. by apply deliveries_same.
Qed.

Lemma store_change_delivers_witness :
  let ops := [Create None; SetOnStateChange 0 (Some (NotifyNestedSubs 0));
              Create (Some 0); SetOnStateChange 1 (Some (NotifyNestedSubs 1));
              AddNestedSub 0 (Consumer 1); AddNestedSub 1 (Consumer 2);
              AddNestedSub 0 (Consumer 3)] in
  let w := final (exec 1 ops init) in
  ∃ w', dispatch 9 5 w = Done tt w'
    ∧ nodes w' = nodes w ∧ state (store w') = 5
    ∧ calls_of (log w') = calls_of (log w) ++ [1; 2; 3].
Proof.
  intros ops w.
  destruct (store_change_delivers 1 ops 9 5)
    as (w' & H & Hn & Hst & _ & Hlog);
    [reflexivity|vm_compute; lia|].
  exists w'. split_and!; [done..|].
  rewrite Hlog. unfold calls_of. rewrite omap_app.
  apply (f_equal (app _)). vm_compute. reflexivity.
Defined.

End SubscriptionLaws.

(** ** More about the effect of the [Provider] component *)

Module ProviderLaws.
Import Subscription Provider.

(** X8. In a world that the components have built, on a subscription
    without parent that is not self-subscribed: the cleanup of the effect
    undoes the effect.  It completes; the counter of the subscription is
    what it was before the effect ran, so the subscription is connected
    afterwards exactly if it was before; [isSubscribed()] is false again;
    the handler is unset, so that a [handleChangeWrapper] call that the
    store still makes does nothing; and the state of the store is
    untouched. *)
Theorem detach_undoes_attach fuel (ops : list op) fuel' (sub prev : nat) n :
  let w := final (exec fuel ops init) in
  let w1 := final (attach fuel' sub prev w) in
  forallb tame_op ops = true →
  nodes w !! sub = Some n → parentSub n = None → selfSubscribed n = false →
  ∃ w2 n2, detach sub w1 = Done tt w2
    ∧ nodes w2 !! sub = Some n2
    ∧ subscriptionsAmount n2 = subscriptionsAmount n
    ∧ (unsubscribe n2 = None ↔ unsubscribe n = None)
    ∧ selfSubscribed n2 = false
    ∧ onStateChange n2 = None
    ∧ state (store w2) = state (store w)
    ∧ ∀ f, call (S f) (HandleChangeWrapper sub) w2 = Done tt w2.
Proof.
  intros w w1 Hops Hn Hroot Hself.
  assert (Hw : sound w) by (apply (exec_safe fuel ops init), sound_init).
  assert (Ht : tame w) by (by apply exec_tame; [apply tame_init|]).
  set (f := Some (NotifyNestedSubs sub)).
  set (wa := set_nodes (alter (with_onStateChange f) sub) w).
  assert (Ha : setOnStateChange sub f w = Done tt wa).
  { unfold setOnStateChange, bind, get_node. by rewrite Hn. }
  assert (Hwa : sound wa).
  { pose proof (setOnStateChange_safe sub f w Hw) as (Hs & _). by rewrite Ha in Hs. }
  assert (Hta : tame wa).
  { pose proof (setOnStateChange_tame sub f w Ht) as Hs. rewrite Ha in Hs.
    apply Hs. simpl. by apply bool_decide_eq_true. }
  assert (Hna : nodes wa !! sub = Some (with_onStateChange f n))
    by (by apply lookup_update_eq).
  assert (Hpa : parents wa = parents w) by (apply parents_update; by intros).
  destruct (trySubscribeSelf_spec sub wa _ Hwa Hna)
    as (wb & nb & Hb & Hwb & Hnb & Hfb & Hab & _ & _).
  pose proof (trySubscribeSelf_steady sub wa Hta) as (Htb & Hpb & Hsb & _).
  rewrite Hb in Htb, Hpb, Hsb. simpl in Htb, Hpb, Hsb, Hab.
  rewrite Hself in Hab.
  (* the world that the effect leaves has the nodes of [wb] *)
  assert (Hstill : nodes w1 = nodes wb ∧ store w1 = store wb).
  { unfold w1, attach, bind. fold f. rewrite Ha, Hb. unfold getState, gets.
    destruct (decide (prev ≠ state (store wb))); [|done].
    set (wc := {| nodes := nodes wb; store := store wb;
                  log := log wb ++ [Notified sub] |}).
    change (notifyNestedSubs fuel' sub wb)
      with (notify_listeners (call fuel') fuel' sub wc).
    destruct (notify_listeners_silent sub fuel' wc) as [(H1 & H2 & _) _].
    - by apply (tame_same_nodes wb).
    - change (parents wc) with (parents wb). rewrite Hpb, Hpa.
      unfold parents. rewrite list_lookup_fmap. fold w. rewrite Hn. simpl.
      by rewrite Hroot.
    - done. }
  destruct Hstill as [Hn1 Hs1].
  assert (Hw1 : sound w1) by (by apply (sound_same_nodes wb)).
  assert (Ht1 : tame w1) by (apply (tame_same_nodes wb); [done|by rewrite Hs1|done]).
  assert (Hnb1 : nodes w1 !! sub = Some nb) by (by rewrite Hn1).
  destruct (tryUnsubscribeSelf_spec sub w1 nb Hw1 Hnb1)
    as (wc & nc & Hc & Hwc & Hnc & Hfc & Hac & _).
  pose proof (tryUnsubscribeSelf_steady sub w1 Ht1) as (_ & _ & Hsc & _).
  rewrite Hc in Hsc. simpl in Hsc. rewrite Hfb in Hac.
  set (w2 := set_nodes (alter (with_onStateChange None) sub) wc).
  assert (H2 : detach sub w1 = Done tt w2).
  { unfold detach, bind. rewrite Hc. unfold setOnStateChange, bind, get_node.
    by rewrite Hnc. }
  assert (Hn2 : nodes w2 !! sub = Some (with_onStateChange None nc))
    by (by apply lookup_update_eq).
  assert (Hamt : subscriptionsAmount nc = subscriptionsAmount n).
  { assert (A1 : amount wc sub = subscriptionsAmount nc)
      by (unfold amount; by rewrite Hnc).
    assert (A2 : amount w1 sub = amount wb sub) by (unfold amount; by rewrite Hn1).
    assert (A3 : amount wa sub = subscriptionsAmount n)
      by (unfold amount; by rewrite Hna).
    lia. }
  exists w2, (with_onStateChange None nc).
  split_and!; [done|done|done| |done|done| |].
  - pose proof (proj1 Hwc sub nc Hnc) as [_ _ B3 _ _ _].
    pose proof (proj1 Hw sub n Hn) as [_ _ C3 _ _ _].
    simpl. rewrite <- B3, <- C3, Hamt. done.
  - change (state (store w2)) with (state (store wc)).
    rewrite Hsc, Hs1, Hsb. done.
  - intros g. simpl. unfold bind, get_node. by rewrite Hn2.
Qed.

Lemma detach_undoes_attach_witness :
  let w := final (exec 1 [Create None; AddNestedSub 0 (Consumer 5); Dispatch 3] init) in
  let w1 := final (attach 3 0 0 w) in
  calls_of (log w1) = [5]
  ∧ amount w 0 = 1%Z ∧ amount w1 0 = 2%Z
  ∧ ∃ w2 n2, detach 0 w1 = Done tt w2
      ∧ nodes w2 !! 0 = Some n2
      ∧ subscriptionsAmount n2 = 1%Z
      ∧ selfSubscribed n2 = false
      ∧ onStateChange n2 = None.
Proof.
  intros w w1.
  assert (H : ∃ n, nodes w !! 0 = Some n ∧ parentSub n = None
                   ∧ selfSubscribed n = false ∧ subscriptionsAmount n = 1%Z)
    by (eexists; split_and!; vm_compute; reflexivity).
  destruct H as (n & Hn & Hp & Hs & Ha).
  split_and!; [vm_compute; reflexivity..|].
  destruct (detach_undoes_attach 1
              [Create None; AddNestedSub 0 (Consumer 5); Dispatch 3] 3 0 0 n
              eq_refl Hn Hp Hs)
    as (w2 & n2 & H1 & H2 & H3 & _ & H5 & H6 & _).
  exists w2, n2. rewrite Ha in H3. done.
Defined.

End ProviderLaws.

(** ** The connection of a node, edge by edge *)

Module ConnectionLaws.
Import Subscription SubscriptionLaws.

(** The node [s], which was [n] before a call, invoked its upstream
    subscribe in the call from [w] to [w']: [addNestedSub] of its parent
    with the [handleChangeWrapper] of [s], or [subscribe] of the store if
    it has no parent; and it holds what the upstream subscribe returned. *)
Definition upstream_subscribed (w w' : World) (s : nat) (n : node) : Prop :=
  match parentSub n with
  | Some p =>
      getListeners p w' = getListeners p w ++ [HandleChangeWrapper s]
      ∧ ∃ np n', nodes w !! p = Some np ∧ nodes w' !! s = Some n'
                 ∧ unsubscribe n' = Some (NestedSub p (length (removers np)))
  | None =>
      registered (store w') = registered (store w) ++ [(HandleChangeWrapper s, true)]
      ∧ ∃ n', nodes w' !! s = Some n'
              ∧ unsubscribe n' = Some (StoreSub (length (registered (store w))))
  end.

(** The function [h] that subscribing returned has been called: the
    cleanup closure has run, or the listener of the store is no longer
    active. *)
Definition released (h : handle) (w : World) : Prop :=
  match h with
  | NestedSub p k => struck w p k
  | StoreSub i => ∀ e, registered (store w) !! i = Some e → e.2 = false
  end.

Lemma released_persists h w w' :
  persists w w' → registered (store w') = registered (store w) →
  released h w → released h w'.
Proof.
  intros Hp Hs. destruct h as [p k|i]; simpl; [apply Hp|]. by rewrite Hs.
Qed.

Lemma trySubscribe_rec_connects fuel :
  ∀ s w n, ok_below w s → everywhere node_wired w → nodes w !! s = Some n → s < fuel →
    ∃ w1, trySubscribe_rec fuel s w = Done tt w1
      ∧ rises s w w1
      ∧ (∃ h, nodes w1 !! s
              = Some (match unsubscribe n with
                      | Some _ => with_amount (subscriptionsAmount n + 1) n
                      | None => install h (with_amount (subscriptionsAmount n + 1) n)
                      end))
      ∧ ∀ u nu, nodes w !! u = Some nu → amount w u = 0%Z → (0 < amount w1 u)%Z →
                upstream_subscribed w w1 u nu.
Proof.
  induction fuel as [|fuel IH]; intros s w n Hok Hwired Hn Hfuel; [lia|].
  destruct (trySubscribe_rec_rises (S fuel) s w n Hok Hn Hfuel) as (wr & Hr0 & R).
  rewrite Hr0. exists wr. split; [done|]. split; [done|]. revert Hr0.
  rewrite (trySubscribe_rec_unfold _ _ _ _ Hn). cbv zeta.
  set (w1 := set_nodes (alter (with_amount (subscriptionsAmount n + 1)) s) w).
  set (w2 := {| nodes := nodes w1; store := store w1; log := log w1 ++ [Connected s] |}).
  assert (Hn1 : nodes w1 !! s = Some (with_amount (subscriptionsAmount n + 1) n))
    by (by apply lookup_update_eq).
  pose proof (Hok s n (le_n _) Hn) as [A1 A2 A3 A4 A5 A6].
  assert (Hamt1 : ∀ u, u ≠ s → amount w1 u = amount w u).
  { intros u Hu. unfold w1. rewrite amount_update. by rewrite decide_False. }
  destruct (unsubscribe n) as [h|] eqn:Hnone.
  { intros [= <-]. split; [by exists (StoreSub 0)|].
    intros u nu Hu Hz Hpos. exfalso. destruct (decide (u = s)) as [->|Hne].
    - unfold amount in Hz. rewrite Hn in Hz. apply A3 in Hz.
      assert (nu = n) as -> by congruence. congruence.
    - rewrite Hamt1 in Hpos by done. lia. }
  assert (K12 : kept w w2).
  { eapply kept_trans; [|apply kept_log]. apply kept_update. by split; eauto. }
  assert (Hne2 : ∀ u, u ≠ s → nodes w2 !! u = nodes w !! u).
  { intros u Hu. unfold w2, w1. simpl. by apply list_lookup_alter_ne. }
  assert (Hwired2 : everywhere node_wired w2).
  { intros u nu. unfold w2, w1. simpl. rewrite list_lookup_alter.
    case_decide as Hd; [|by apply Hwired]. subst u. rewrite Hn. intros [= <-].
    by apply (Hwired s n). }
  destruct (parentSub n) as [p|] eqn:Hpar.
  - specialize (A1 p eq_refl).
    destruct (lookup_lt_is_Some_2 (nodes w) p) as [np Hnp].
    { apply lookup_lt_Some in Hn. lia. }
    destruct (IH p w2 np) as (w3 & H3 & R3 & (hp & Hnp3) & Hall3); [|done| |lia|].
    { intros u nu Hu Hnu. rewrite Hne2 in Hnu by lia.
      eapply node_ok_kept; [exact K12|]. apply Hok; [lia|done]. }
    { rewrite Hne2 by lia. done. }
    pose proof (wired_everywhere_step fuel p w2 Hwired2) as Hwired3.
    rewrite H3 in Hwired3. simpl in Hwired3.
    pose proof (Hok p np ltac:(lia) Hnp) as [B1 B2 B3 B4 B5 B6].
    set (np3 := match unsubscribe np with
                | Some _ => with_amount (subscriptionsAmount np + 1) np
                | None => install hp (with_amount (subscriptionsAmount np + 1) np)
                end) in *.
    assert (Hrm3 : removers np3 = removers np) by (unfold np3; by destruct (unsubscribe np)).
    assert (Hshape : ∃ r c L, listeners np3 = Some r ∧ collections np3 !! r = Some c
              ∧ Registry.linked c L ∧ getListeners p w3 = getListeners p w).
    { destruct (unsubscribe np) as [h0|] eqn:Hu.
      - destruct (listeners np) as [r|] eqn:Hr;
          [|destruct B4 as [_ B4]; discriminate (B4 eq_refl)].
        destruct (Hwired p np Hnp r Hr) as (c & L & Hc & HL).
        exists r, c, L. split_and!; [done..|].
        unfold getListeners. by rewrite Hnp3, Hnp.
      - assert (Hr : listeners np = None) by (by apply B4).
        eexists _, _, []. split_and!; [done| |apply Registry.linked_empty|].
        + simpl. by rewrite lookup_app_r, Nat.sub_diag.
        + unfold getListeners. rewrite Hnp3, Hnp, Hr. simpl.
          by rewrite lookup_app_r, Nat.sub_diag. }
    destruct Hshape as (r & c & L & Hr & Hc & HL & Hget3).
    unfold bind at 1.
    rewrite (addNestedSub_with_unfold _ _ _ _ _ _ _ _ H3 Hnp3 Hr Hc).
    unfold ret. intros [= <-].
    set (w4 := set_nodes (alter (enlist r c (HandleChangeWrapper s)) p) w3).
    assert (Hs4 : nodes w4 !! s = Some (with_amount (subscriptionsAmount n + 1) n)).
    { unfold w4. rewrite lookup_update_ne by lia.
      rewrite (rise_above _ _ _ R3) by lia. done. }
    split.
    { eexists. by apply lookup_update_eq. }
    intros u nu Hu Hz Hpos. destruct (decide (u = s)) as [->|Hne].
    + assert (nu = n) as -> by congruence.
      unfold upstream_subscribed. rewrite Hpar. split.
      * rewrite <- Hget3.
        rewrite <- (getListeners_enlist p w3 np3 r c L _ Hnp3 Hr Hc HL).
        apply getListeners_same. apply lookup_update_ne. lia.
      * eexists np, _. split_and!; [done|by apply lookup_update_eq|].
        simpl. by rewrite Hrm3.
    + assert (Hu4 : amount (set_nodes (alter (install (NestedSub p (length (removers np3)))) s) w4) u
                    = amount w3 u).
      { rewrite amount_update, decide_False by done. unfold w4.
        rewrite amount_update. case_decide as Hd; [|done]. subst u.
        rewrite Hnp3. unfold amount. by rewrite Hnp3. }
      rewrite Hu4 in Hpos.
      assert (Hup : u ≤ p).
      { destruct (decide (u ≤ p)); [done|]. exfalso.
        unfold amount in Hpos. rewrite (rise_above _ _ _ R3), Hne2 in Hpos by lia.
        unfold amount in Hz. lia. }
      assert (Hu2 : nodes w2 !! u = Some nu) by (by rewrite Hne2).
      assert (Hz2 : amount w2 u = 0%Z).
      { unfold amount in Hz |- *. rewrite Hu2. by rewrite Hu in Hz. }
      specialize (Hall3 u nu Hu2 Hz2 Hpos).
      pose proof (Hok u nu ltac:(lia) Hu) as [C1 _ _ _ _ _].
      unfold upstream_subscribed in *.
      destruct (parentSub nu) as [pu|] eqn:Hpu.
      * specialize (C1 pu eq_refl).
        destruct Hall3 as (Hg & npu & n' & Hnpu & Hn' & Hh). split.
        -- rewrite <- (getListeners_same pu w w2) by (apply Hne2; lia).
           rewrite <- Hg. apply getListeners_same.
           rewrite lookup_update_ne by lia. unfold w4. apply lookup_update_ne. lia.
        -- rewrite Hne2 in Hnpu by lia.
           destruct (decide (u = p)) as [->|Hnp'].
           ++ eexists npu, _. split_and!; [done| |].
              ** rewrite lookup_update_ne by lia. unfold w4.
                 by apply lookup_update_eq.
              ** assert (n' = np3) as -> by congruence. exact Hh.
           ++ exists npu, n'. split_and!; [done| |done].
              rewrite lookup_update_ne by lia. unfold w4.
              by rewrite lookup_update_ne.
      * destruct Hall3 as (Hg & n' & Hn' & Hh). split; [exact Hg|].
        destruct (decide (u = p)) as [->|Hnp'].
        -- eexists. split.
           ++ rewrite lookup_update_ne by lia. unfold w4. by apply lookup_update_eq.
           ++ assert (n' = np3) as -> by congruence. exact Hh.
        -- exists n'. split; [|done].
           rewrite lookup_update_ne by lia. unfold w4. by rewrite lookup_update_ne.
  - unfold store_subscribe, bind, gets, modify, ret.
    intros [= <-]. split.
    { eexists. by apply lookup_update_eq. }
    intros u nu Hu Hz Hpos. destruct (decide (u = s)) as [->|Hne].
    + assert (nu = n) as -> by congruence.
      unfold upstream_subscribed. rewrite Hpar. split; [done|].
      eexists. split; [by apply lookup_update_eq|done].
    + exfalso. rewrite amount_update, decide_False in Hpos by done.
      unfold amount in Hpos, Hz. simpl in Hpos. rewrite Hne2 in Hpos by done. lia.
Qed.

Lemma tryUnsubscribe_rec_detaches fuel :
  ∀ s w n,
    ok_below w s → nodes w !! s = Some n → s < fuel →
    (1 ≤ subscriptionsAmount n)%Z →
    (∀ u, u < s → slack w u = 0%Z) →
    ∃ w', tryUnsubscribe_rec fuel s w = Done tt w' ∧ falls s w w'
      ∧ ∀ u nu h, nodes w !! u = Some nu → unsubscribe nu = Some h →
                  (0 < amount w u)%Z → amount w' u = 0%Z → released h w'.
Proof.
  induction fuel as [|fuel IH]; intros s w n Hok Hn Hfuel Hamt Hslack; [lia|].
  destruct (tryUnsubscribe_rec_falls (S fuel) s w n Hok Hn Hfuel Hamt Hslack)
    as (w' & Hdone & F).
  exists w'. split; [done|]. split; [done|]. revert Hdone.
  pose proof (Hok s n (le_n _) Hn) as Hs.
  assert (∃ h, unsubscribe n = Some h) as [h0 Hh0].
  { destruct (unsubscribe n) eqn:E; [eauto|]. apply (ok_edge _ _ _ Hs) in E. lia. }
  rewrite (tryUnsubscribe_rec_unfold _ _ _ _ Hn), Hh0. cbv zeta.
  set (w1 := set_nodes (alter (with_amount (subscriptionsAmount n - 1)) s) w).
  set (w2 := {| nodes := nodes w1; store := store w1; log := log w1 ++ [Disconnected s] |}).
  assert (Hamt1 : ∀ u, u ≠ s → amount w1 u = amount w u).
  { intros u Hu. unfold w1. rewrite amount_update. by rewrite decide_False. }
  assert (Hs1 : amount w1 s = (subscriptionsAmount n - 1)%Z).
  { unfold w1. rewrite amount_update, decide_True by done. by rewrite Hn. }
  case_decide as Ha.
  2:{ intros [= <-] u nu h Hu Hh Hpos Hzero. exfalso.
      destruct (decide (u = s)) as [->|Hne]; [lia|].
      rewrite Hamt1 in Hzero by done. lia. }
  assert (Hne2 : ∀ u, u ≠ s → nodes w2 !! u = nodes w !! u).
  { intros u Hu. unfold w2, w1. simpl. by apply list_lookup_alter_ne. }
  assert (Hlow : ∀ u, u < s → nodes w2 !! u = nodes w !! u).
  { intros u Hu. apply Hne2. lia. }
  assert (K12 : kept w w2).
  { eapply kept_trans; [|apply kept_log]. apply kept_update. by split; eauto. }
  (* what the last steps, on the node itself, keep *)
  assert (Hlast : ∀ w3,
            match nodes (set_nodes (alter (with_unsubscribe None) s) w3) !! s with
            | Some n' =>
                match listeners n' with
                | Some r => Done tt (set_nodes (alter (uninstall r) s)
                                       (set_nodes (alter (with_unsubscribe None) s) w3))
                | None => Abort TypeError (set_nodes (alter (with_unsubscribe None) s) w3)
                end
            | None => Abort Dangling (set_nodes (alter (with_unsubscribe None) s) w3)
            end = Done tt w' →
            persists w3 w' ∧ store w' = store w3
            ∧ ∀ u, u ≠ s → amount w' u = amount w3 u).
  { intros w3.
    destruct (nodes (set_nodes (alter (with_unsubscribe None) s) w3) !! s) as [n'|];
      [|done].
    destruct (listeners n') as [r|]; [|done]. intros [= <-]. split_and!.
    - eapply persists_trans; by apply persists_update.
    - done.
    - intros u Hu. rewrite !amount_update. by rewrite !decide_False. }
  destruct h0 as [p k|i].
  - destruct (ok_handle _ _ _ Hs p k Hh0) as (Hp & pn & Hpn & Hk).
    pose proof (ok_parent _ _ _ Hs p Hp) as Hps.
    destruct (lookup_lt_is_Some_2 (removers pn) k Hk) as [rm Hrm].
    assert (Hpn2 : nodes w2 !! p = Some pn) by (rewrite Hlow; done).
    rewrite (removeNestedSub_with_unfold _ _ _ _ _ _ Hpn2 Hrm).
    destruct (removed rm) eqn:Hremoved.
    { intros Hdone. destruct (Hlast w2 Hdone) as (Hper & Hst & Hsame).
      intros u nu h Hu Hh Hpos Hzero. destruct (decide (u = s)) as [->|Hne].
      - assert (nu = n) as -> by congruence. assert (h = NestedSub p k) as -> by congruence.
        apply Hper. by exists pn, rm.
      - exfalso. rewrite Hsame in Hzero by done.
        unfold amount in Hzero, Hpos. rewrite Hne2 in Hzero by done. lia. }
    set (w2' := set_nodes (alter (strike k rm) p) w2).
    assert (K22 : kept w2 w2').
    { apply kept_update. intros n' Hn'. assert (n' = pn) as -> by congruence.
      by apply node_kept_strike. }
    assert (Hne2' : ∀ u, u ≠ p → nodes w2' !! u = nodes w2 !! u).
    { intros u Hu. unfold w2'. by apply lookup_update_ne. }
    assert (Hpn2' : nodes w2' !! p = Some (strike k rm pn)) by (by apply lookup_update_eq).
    assert (Hamt2' : ∀ u, amount w2' u = amount w2 u).
    { intros u. unfold w2'. rewrite amount_update. case_decide; [|done].
      subst u. unfold amount. by rewrite Hpn2. }
    assert (Hsp : slack w p = 0%Z) by (by apply Hslack).
    unfold slack in Hsp. rewrite Hpn in Hsp.
    pose proof (reasons_strike k rm pn Hrm Hremoved) as Hrs.
    pose proof (reasons_nonneg (strike k rm pn)) as Hrn.
    destruct (IH p w2' (strike k rm pn)) as (w3 & H3 & F3 & Hrel3);
      [|done|lia|simpl; lia| |].
    { intros u nu Hu. destruct (decide (u = p)) as [->|Hne].
      - rewrite Hpn2'. intros [= <-]. apply node_ok_strike.
        refine (node_ok_kept w w2' _ _ _ _); [eauto using kept_trans|].
        apply Hok; [lia|done].
      - rewrite Hne2', Hlow by lia. intros Hnu.
        refine (node_ok_kept w w2' _ _ _ _); [eauto using kept_trans|].
        apply Hok; [lia|done]. }
    { intros u Hu. unfold slack. rewrite Hne2', Hlow by lia.
      apply Hslack. lia. }
    rewrite H3. intros Hdone. destruct (Hlast w3 Hdone) as (Hper & Hst & Hsame).
    intros u nu h Hu Hh Hpos Hzero. destruct (decide (u = s)) as [->|Hne].
    + assert (nu = n) as -> by congruence. assert (h = NestedSub p k) as -> by congruence.
      apply Hper, (kept_persists w2' w3 (fall_kept _ _ _ F3)).
      exists (strike k rm pn), {| removed := true; cleanupListener := cleanupListener rm |}.
      split_and!; [done| |done]. simpl.
      apply list_lookup_insert_eq. by apply lookup_lt_Some in Hrm.
    + rewrite Hsame in Hzero by done.
      apply (released_persists h w3 w' Hper (f_equal registered Hst)).
      assert (Hu2 : ∃ nu', nodes w2' !! u = Some nu' ∧ unsubscribe nu' = Some h).
      { destruct (decide (u = p)) as [->|Hnp].
        - assert (nu = pn) as -> by congruence. by exists (strike k rm pn).
        - exists nu. by rewrite Hne2', Hne2. }
      destruct Hu2 as (nu' & Hnu' & Hh').
      apply (Hrel3 u nu' h Hnu' Hh'); [|done].
      rewrite Hamt2'. unfold amount in Hpos |- *. by rewrite Hne2.
  - unfold store_unsubscribe, modify. intros Hdone.
    match type of Hdone with
    | match nodes (set_nodes _ ?w3) !! s with _ => _ end = _ =>
        destruct (Hlast w3 Hdone) as (Hper & Hst & Hsame)
    end.
    intros u nu h Hu Hh Hpos Hzero. destruct (decide (u = s)) as [->|Hne].
    + assert (nu = n) as -> by congruence. assert (h = StoreSub i) as -> by congruence.
      simpl. rewrite Hst. simpl. intros e. rewrite list_lookup_alter, decide_True by done.
      destruct (registered (store w) !! i) as [e0|]; [|done]. by intros [= <-].
    + exfalso. rewrite Hsame in Hzero by done.
      unfold amount in Hzero, Hpos. simpl in Hzero. rewrite Hne2 in Hzero by done. lia.
Qed.

(** *** The four calls that reach the connection machinery *)

(** The node that a call is made on, and what the call does to the counter
    of that node, which was [n] before the call. *)
Definition target (c : connection) : nat :=
  match c with Add s _ | Remove s _ | SelfSubscribe s | SelfUnsubscribe s => s end.

Definition step (c : connection) (n : node) : Z :=
  match c with
  | Add _ _ => 1
  | Remove _ k =>
      match removers n !! k with
      | Some rm => if removed rm then 0 else -1
      | None => 0
      end
  | SelfSubscribe _ => if selfSubscribed n then 0 else 1
  | SelfUnsubscribe _ => if selfSubscribed n then -1 else 0
  end.

(** The function that is called exists. *)
Definition defined (c : connection) (n : node) : Prop :=
  match c with
  | Remove _ k => is_Some (removers n !! k)
  | _ => True
  end.

Lemma rises_up s w w1 u : rises s w w1 → (amount w u ≤ amount w1 u)%Z.
Proof.
  intros R. destruct (decide (u = s)) as [->|Hne].
  - rewrite (rise_amount _ _ _ R). lia.
  - destruct (rise_others _ _ _ R u Hne); lia.
Qed.

Lemma falls_down s w w1 u : falls s w w1 → (amount w1 u ≤ amount w u)%Z.
Proof.
  intros F. destruct (decide (u = s)) as [->|Hne].
  - rewrite (fall_amount _ _ _ F). lia.
  - destruct (fall_others _ _ _ F u Hne); lia.
Qed.

Lemma getListeners_update p s f w :
  (∀ n, listeners (f n) = listeners n ∧ collections (f n) = collections n) →
  getListeners p (set_nodes (alter f s) w) = getListeners p w.
Proof.
  intros Hf. unfold getListeners. rewrite lookup_update. case_decide as Hd; [|done].
  subst p. destruct (nodes w !! s) as [n|]; [|done]. simpl.
  by destruct (Hf n) as [-> ->].
Qed.

(** What a call leaves of the nodes when it starts with an update of the
    node [s] that keeps what the connection of a node depends on. *)
Record mild (f : node → node) : Prop := mkMild {
  mild_parent : ∀ n, parentSub (f n) = parentSub n;
  mild_unsubscribe : ∀ n, unsubscribe (f n) = unsubscribe n;
  mild_listeners : ∀ n, listeners (f n) = listeners n;
  mild_amount : ∀ n, subscriptionsAmount (f n) = subscriptionsAmount n;
  mild_removers : ∀ n, length (removers (f n)) = length (removers n);
}.

Lemma mild_lookup f s w u nu :
  nodes w !! u = Some nu →
  ∃ nu', nodes (set_nodes (alter f s) w) !! u = Some nu'
         ∧ (nu' = nu ∨ nu' = f nu).
Proof.
  intros Hu. rewrite lookup_update. case_decide as Hd.
  - subst u. rewrite Hu. eauto.
  - eauto.
Qed.

Lemma mild_amount_same f s w u :
  mild f → amount (set_nodes (alter f s) w) u = amount w u.
Proof.
  intros Hf. rewrite amount_update. case_decide as Hd; [|done]. subst u.
  unfold amount. destruct (nodes w !! s) as [n|]; [|done]. apply Hf.
Qed.

Lemma upstream_subscribed_start f s w w' u nu nu' :
  mild f → (∀ p, getListeners p (set_nodes (alter f s) w) = getListeners p w) →
  nu' = nu ∨ nu' = f nu →
  upstream_subscribed (set_nodes (alter f s) w) w' u nu' →
  upstream_subscribed w w' u nu.
Proof.
  intros Hf Hg Hnu. unfold upstream_subscribed.
  assert (parentSub nu' = parentSub nu) as ->.
  { destruct Hnu as [->| ->]; [done|apply Hf]. }
  destruct (parentSub nu) as [p|]; [|done].
  rewrite Hg. intros (H1 & np & n' & Hnp & Hn' & Hh). split; [done|].
  rewrite lookup_update in Hnp.
  destruct (decide (s = p)) as [->|Hne].
  - destruct (nodes w !! p) as [np0|] eqn:Hnp0; [|done]. injection Hnp as <-.
    exists np0, n'. split_and!; [done..|]. by rewrite Hh, (mild_removers f Hf).
  - by exists np, n'.
Qed.

Lemma mild_self b : mild (with_selfSubscribed b).
Proof. by split. Qed.

Lemma mild_strike k rm : mild (strike k rm).
Proof. split; try done. intros n. simpl. by rewrite length_insert. Qed.

(** [addNestedSub], from what its [trySubscribe] did. *)
Lemma addNestedSub_result s cb w n :
  sound w → everywhere node_wired w → nodes w !! s = Some n →
  ∃ w1 n1 r c,
    rises s w w1
    ∧ (∀ u nu, nodes w !! u = Some nu → amount w u = 0%Z → (0 < amount w1 u)%Z →
               upstream_subscribed w w1 u nu)
    ∧ nodes w1 !! s = Some n1 ∧ subscriptionsAmount n1 = (subscriptionsAmount n + 1)%Z
    ∧ addNestedSub s cb w
      = Done (Unsubscribe (NestedSub s (length (removers n1))))
          (set_nodes (alter (enlist r c cb) s) w1).
Proof.
  intros Hw Hwired Hn.
  destruct (trySubscribe_rec_connects (S s) s w n) as (w1 & H1 & R & (h & Hn1) & Hall);
    [by apply consistent_below, Hw|done|done|lia|].
  pose proof (proj1 Hw s n Hn) as [A1 A2 A3 A4 A5 A6].
  set (n1 := match unsubscribe n with
             | Some _ => with_amount (subscriptionsAmount n + 1) n
             | None => install h (with_amount (subscriptionsAmount n + 1) n)
             end) in *.
  assert (Hshape : ∃ r c, listeners n1 = Some r ∧ collections n1 !! r = Some c).
  { unfold n1. destruct (unsubscribe n) as [h0|] eqn:Hu.
    - destruct (listeners n) as [r|] eqn:Hr;
        [|destruct A4 as [_ A4]; discriminate (A4 eq_refl)].
      destruct (Hwired s n Hn r Hr) as (c & L & Hc & HL). by exists r, c.
    - eexists _, _. split; [done|]. simpl. by rewrite lookup_app_r, Nat.sub_diag. }
  destruct Hshape as (r & c & Hr & Hc).
  exists w1, n1, r, c. split_and!; [done|done|done| |].
  - unfold n1. by destruct (unsubscribe n).
  - unfold addNestedSub, bind.
    change (trySubscribe_rec (S s) s w) with (trySubscribe s w) in H1.
    by rewrite (addNestedSub_with_unfold _ _ _ _ _ _ _ _ H1 Hn1 Hr Hc).
Qed.

(** What a call does to the node it is made on, and what it does upstream
    of every node that it connects or disconnects. *)
Lemma connect_effect c w :
  sound w → everywhere node_wired w →
  let w' := final (connect c w) in
  (∀ n, nodes w !! target c = Some n →
     amount w' (target c) = (amount w (target c) + step c n)%Z
     ∧ (defined c n → connect c w = Done tt w'))
  ∧ (∀ u nu, nodes w !! u = Some nu → amount w u = 0%Z → (0 < amount w' u)%Z →
       upstream_subscribed w w' u nu)
  ∧ (∀ u nu h, nodes w !! u = Some nu → unsubscribe nu = Some h →
       (0 < amount w u)%Z → amount w' u = 0%Z → released h w').
Proof.
  intros Hw Hwired.
  assert (Hidle : ∀ o : outcome World unit, final o = w →
    (∀ u nu, nodes w !! u = Some nu → amount w u = 0%Z → (0 < amount (final o) u)%Z →
       upstream_subscribed w (final o) u nu)
    ∧ (∀ u nu h, nodes w !! u = Some nu → unsubscribe nu = Some h →
       (0 < amount w u)%Z → amount (final o) u = 0%Z → released h (final o))).
  { intros o ->. split; intros; lia. }
  destruct c as [s cb|s k|s|s]; cbn [target step defined].
  - (* addNestedSub *)
    destruct (nodes w !! s) as [n|] eqn:Hn; last first.
    { assert (H : connect (Add s cb) w = Abort Dangling w).
      { simpl. unfold addNestedSub, addNestedSub_with, bind.
        by rewrite (trySubscribe_dangling s w Hn). }
      rewrite H. split; [done|]. by apply (Hidle (Abort Dangling w)). }
    destruct (addNestedSub_result s cb w n Hw Hwired Hn)
      as (w1 & n1 & r & c & R & Hall & Hn1 & Hamt1 & Hadd).
    assert (H : connect (Add s cb) w = Done tt (set_nodes (alter (enlist r c cb) s) w1)).
    { simpl. unfold bind. by rewrite Hadd. }
    rewrite H. cbn [final].
    assert (Hsame : ∀ u, amount (set_nodes (alter (enlist r c cb) s) w1) u = amount w1 u).
    { intros u. rewrite amount_update. case_decide as Hd; [|done]. subst u.
      unfold amount. by rewrite Hn1. }
    split_and!.
    + intros n0 [= <-]. split; [|done].
      rewrite Hsame, (rise_amount _ _ _ R). lia.
    + intros u nu Hu Hz Hpos. rewrite Hsame in Hpos.
      pose proof (Hall u nu Hu Hz Hpos) as Hup.
      assert (Hus : u ≤ s).
      { destruct (decide (u ≤ s)); [done|]. exfalso.
        unfold amount in Hpos, Hz. rewrite (rise_above _ _ _ R) in Hpos by lia. lia. }
      pose proof (proj1 Hw u nu Hu) as [C1 _ _ _ _ _].
      unfold upstream_subscribed in *. destruct (parentSub nu) as [pu|].
      * specialize (C1 pu eq_refl).
        destruct Hup as (Hg & npu & n' & Hnpu & Hn' & Hh). split.
        -- rewrite <- Hg. apply getListeners_same, lookup_update_ne. lia.
        -- destruct (mild_lookup (enlist r c cb) s w1 u n' Hn') as (n'' & Hn'' & [->| ->]);
             (eexists npu, _; split_and!; [done|exact Hn''|exact Hh]).
      * destruct Hup as (Hg & n' & Hn' & Hh). split; [done|].
        destruct (mild_lookup (enlist r c cb) s w1 u n' Hn') as (n'' & Hn'' & [->| ->]);
          (eexists; split; [exact Hn''|exact Hh]).
    + intros u nu h Hu Hh Hpos Hzero. rewrite Hsame in Hzero.
      pose proof (rises_up s w w1 u R). lia.
  - (* a cleanup closure *)
    destruct (nodes w !! s) as [n|] eqn:Hn; last first.
    { assert (H : connect (Remove s k) w = Abort Dangling w).
      { simpl. unfold removeNestedSub_with, bind, get_node. by rewrite Hn. }
      rewrite H. split; [done|]. by apply (Hidle (Abort Dangling w)). }
    destruct (removers n !! k) as [rm|] eqn:Hrm; last first.
    { assert (H : connect (Remove s k) w = Abort Dangling w).
      { simpl. unfold removeNestedSub_with, bind, get_node. by rewrite Hn, Hrm. }
      rewrite H. split; [|by apply (Hidle (Abort Dangling w))].
      intros n0 [= <-]. rewrite Hrm. split; [simpl; lia|]. by intros [? ?]. }
    assert (Hcall : connect (Remove s k) w
                    = if removed rm then Done tt w
                      else tryUnsubscribe s (set_nodes (alter (strike k rm) s) w)).
    { simpl. by apply (removeNestedSub_with_unfold _ s k w n rm). }
    rewrite Hcall. destruct (removed rm) eqn:Hremoved.
    { split; [|by apply (Hidle (Done tt w))].
      intros n0 [= <-]. rewrite Hrm, Hremoved. split; [simpl; lia|done]. }
    set (w0 := set_nodes (alter (strike k rm) s) w).
    assert (Hn0 : nodes w0 !! s = Some (strike k rm n)) by (by apply lookup_update_eq).
    destruct Hw as [Hc Hp].
    assert (Hc0 : consistent w0).
    { apply consistent_update; [|done]. intros n'. split; simpl; try done.
      - by rewrite length_alter.
      - by rewrite length_insert. }
    assert (Hs0 : ∀ u, slack w0 u = if decide (s = u) then 1%Z else 0%Z).
    { intros u. unfold w0. rewrite slack_update, Hn. specialize (Hp u).
      unfold slack in Hp. destruct (decide (s = u)) as [<-|Hne]; [|done].
      rewrite Hn in Hp. rewrite (reasons_strike _ _ _ Hrm Hremoved). simpl. lia. }
    destruct (tryUnsubscribe_rec_detaches (S s) s w0 (strike k rm n))
      as (w1 & H1 & F & Hrel); [by apply consistent_below|done|lia| | |].
    { simpl. specialize (Hp s). unfold slack in Hp. rewrite Hn in Hp.
      pose proof (reasons_nonneg (strike k rm n)) as Hr.
      rewrite (reasons_strike _ _ _ Hrm Hremoved) in Hr. lia. }
    { intros u Hu. rewrite Hs0. apply decide_False. lia. }
    change (tryUnsubscribe_rec (S s) s w0) with (tryUnsubscribe s w0) in H1.
    rewrite H1. cbn [final].
    assert (Ham0 : ∀ u, amount w0 u = amount w u).
    { intros u. apply mild_amount_same, mild_strike. }
    split_and!.
    + intros n0 [= <-]. rewrite Hrm, Hremoved. split; [|done].
      rewrite (fall_amount _ _ _ F), Ham0. lia.
    + intros u nu Hu Hz Hpos. pose proof (falls_down s w0 w1 u F).
      rewrite Ham0 in *. lia.
    + intros u nu h Hu Hh Hpos Hzero.
      destruct (mild_lookup (strike k rm) s w u nu Hu) as (nu' & Hnu' & Hor).
      apply (Hrel u nu' h Hnu'); [|by rewrite Ham0|done].
      destruct Hor as [->| ->]; [done|by rewrite (mild_unsubscribe _ (mild_strike k rm))].
  - (* the public trySubscribe *)
    destruct (nodes w !! s) as [n|] eqn:Hn; last first.
    { assert (H : connect (SelfSubscribe s) w = Abort Dangling w).
      { simpl. unfold trySubscribeSelf, bind, get_node. by rewrite Hn. }
      rewrite H. split; [done|]. by apply (Hidle (Abort Dangling w)). }
    assert (Hcall : connect (SelfSubscribe s) w
                    = if selfSubscribed n then Done tt w
                      else trySubscribe s (set_nodes (alter (with_selfSubscribed true) s) w)).
    { simpl. unfold trySubscribeSelf, bind at 1, get_node. rewrite Hn.
      by destruct (selfSubscribed n). }
    rewrite Hcall. destruct (selfSubscribed n) eqn:Hself.
    { split; [|by apply (Hidle (Done tt w))].
      intros n0 [= <-]. rewrite Hself. split; [simpl; lia|done]. }
    set (w0 := set_nodes (alter (with_selfSubscribed true) s) w).
    assert (Hn0 : nodes w0 !! s = Some (with_selfSubscribed true n))
      by (by apply lookup_update_eq).
    assert (Hc0 : consistent w0) by (apply consistent_update; [done|apply Hw]).
    assert (Hwired0 : everywhere node_wired w0).
    { intros u nu. unfold w0. rewrite lookup_update. case_decide as Hd; [|apply Hwired].
      subst u. rewrite Hn. intros [= <-]. apply (Hwired s n Hn). }
    destruct (trySubscribe_rec_connects (S s) s w0 _ (consistent_below _ _ Hc0) Hwired0 Hn0)
      as (w1 & H1 & R & _ & Hall); [lia|].
    change (trySubscribe_rec (S s) s w0) with (trySubscribe s w0) in H1.
    rewrite H1. cbn [final].
    assert (Ham0 : ∀ u, amount w0 u = amount w u).
    { intros u. apply mild_amount_same, mild_self. }
    split_and!.
    + intros n0 [= <-]. rewrite Hself. split; [|done].
      rewrite (rise_amount _ _ _ R), Ham0. lia.
    + intros u nu Hu Hz Hpos.
      destruct (mild_lookup (with_selfSubscribed true) s w u nu Hu) as (nu' & Hnu' & Hor).
      apply (upstream_subscribed_start (with_selfSubscribed true) s w w1 u nu nu');
        [apply mild_self| |done|].
      * intros p. by apply getListeners_update.
      * apply Hall; [done|by rewrite Ham0|done].
    + intros u nu h Hu Hh Hpos Hzero. pose proof (rises_up s w0 w1 u R).
      rewrite Ham0 in *. lia.
  - (* the public tryUnsubscribe *)
    destruct (nodes w !! s) as [n|] eqn:Hn; last first.
    { assert (H : connect (SelfUnsubscribe s) w = Abort Dangling w).
      { simpl. unfold tryUnsubscribeSelf, bind, get_node. by rewrite Hn. }
      rewrite H. split; [done|]. by apply (Hidle (Abort Dangling w)). }
    assert (Hcall : connect (SelfUnsubscribe s) w
                    = if selfSubscribed n
                      then tryUnsubscribe s (set_nodes (alter (with_selfSubscribed false) s) w)
                      else Done tt w).
    { simpl. unfold tryUnsubscribeSelf, bind at 1, get_node. rewrite Hn.
      by destruct (selfSubscribed n). }
    rewrite Hcall. destruct (selfSubscribed n) eqn:Hself; last first.
    { split; [|by apply (Hidle (Done tt w))].
      intros n0 [= <-]. rewrite Hself. split; [simpl; lia|done]. }
    set (w0 := set_nodes (alter (with_selfSubscribed false) s) w).
    assert (Hn0 : nodes w0 !! s = Some (with_selfSubscribed false n))
      by (by apply lookup_update_eq).
    destruct Hw as [Hc Hp].
    assert (Hc0 : consistent w0) by (by apply consistent_update).
    assert (Hs0 : ∀ u, slack w0 u = if decide (s = u) then 1%Z else 0%Z).
    { intros u. unfold w0. rewrite slack_update, Hn. specialize (Hp u).
      unfold slack in Hp. destruct (decide (s = u)) as [<-|Hne]; [|done].
      rewrite Hn in Hp. unfold reasons in *. simpl. rewrite Hself in Hp. lia. }
    destruct (tryUnsubscribe_rec_detaches (S s) s w0 (with_selfSubscribed false n))
      as (w1 & H1 & F & Hrel); [by apply consistent_below|done|lia| | |].
    { simpl. specialize (Hp s). unfold slack in Hp. rewrite Hn in Hp.
      pose proof (reasons_nonneg (with_selfSubscribed false n)) as Hr.
      unfold reasons in *. simpl in *. rewrite Hself in Hp. lia. }
    { intros u Hu. rewrite Hs0. apply decide_False. lia. }
    change (tryUnsubscribe_rec (S s) s w0) with (tryUnsubscribe s w0) in H1.
    rewrite H1. cbn [final].
    assert (Ham0 : ∀ u, amount w0 u = amount w u).
    { intros u. apply mild_amount_same, mild_self. }
    split_and!.
    + intros n0 [= <-]. rewrite Hself. split; [|done].
      rewrite (fall_amount _ _ _ F), Ham0. lia.
    + intros u nu Hu Hz Hpos. pose proof (falls_down s w0 w1 u F).
      rewrite Ham0 in *. lia.
    + intros u nu h Hu Hh Hpos Hzero.
      destruct (mild_lookup (with_selfSubscribed false) s w u nu Hu) as (nu' & Hnu' & Hor).
      apply (Hrel u nu' h Hnu'); [|by rewrite Ham0|done].
      by destruct Hor as [->| ->].
Qed.

(** C2. Take any world that the application can reach, and any call that
    reaches the internal [trySubscribe] or [tryUnsubscribe]: [addNestedSub],
    a cleanup closure, or the self pair.  The call completes, or names a
    node or closure that does not exist and changes nothing.  On the node
    it is made on, [addNestedSub] raises the counter by one, the first call
    of a cleanup closure lowers it by one and a later call leaves it, the
    public [trySubscribe] raises it by one unless the node is
    self-subscribed, and the public [tryUnsubscribe] lowers it by one if it
    is.  For every node [s], the counter moves by at most one; the log of
    the call holds the upstream subscribe of [s] exactly once when the
    counter of [s] leaves zero and not otherwise, and the upstream
    unsubscribe of [s] exactly once when the counter reaches zero and not
    otherwise; before and after the call, the node holds no upstream handle
    and the null registry exactly when its counter is zero, and a
    collection of its own otherwise; the collection it held is cleared when
    the counter reaches zero.  When the counter of [s] leaves zero, the
    [handleChangeWrapper] of [s] has become the last listener of its
    parent, or of the store if it has none, and [s] holds the function that
    this returned; when the counter reaches zero, the function that [s]
    held has been called.  So a node whose counter went back to zero is as
    one that never connected, and the next [addNestedSub] or public
    [trySubscribe] on it subscribes upstream once more. *)
Theorem connection_is_edge_triggered fuel (ops : list op) (c : connection) (s : nat) :
  let w := final (exec fuel ops init) in
  let w' := final (connect c w) in
  (connect c w = Done tt w' ∨ connect c w = Abort Dangling w)
  ∧ (∀ n, nodes w !! target c = Some n →
       amount w' (target c) = (amount w (target c) + step c n)%Z
       ∧ (defined c n → connect c w = Done tt w'))
  ∧ two_states w s ∧ two_states w' s
  ∧ (amount w' s = amount w s ∨ amount w' s = (amount w s + 1)%Z
     ∨ amount w' s = (amount w s - 1)%Z)
  ∧ (∃ seg, log w' = log w ++ seg
      ∧ occurrences (Connected s) seg
        = (if decide (amount w s = 0 ∧ 0 < amount w' s)%Z then 1 else 0)
      ∧ occurrences (Disconnected s) seg
        = (if decide (0 < amount w s ∧ amount w' s = 0)%Z then 1 else 0))
  ∧ (∀ n r, nodes w !! s = Some n → listeners n = Some r →
       (0 < amount w s)%Z → amount w' s = 0%Z →
       ∃ c, collection_of s r w' = Some c
            ∧ Registry.first c = None ∧ Registry.last c = None)
  ∧ (∀ n, nodes w !! s = Some n → amount w s = 0%Z → (0 < amount w' s)%Z →
       upstream_subscribed w w' s n)
  ∧ (∀ n h, nodes w !! s = Some n → unsubscribe n = Some h →
       (0 < amount w s)%Z → amount w' s = 0%Z → released h w').
Proof.
  intros w w'.
  assert (Hw : sound w) by (apply (exec_safe fuel ops init), sound_init).
  assert (Hwired : everywhere node_wired w).
  { intros u nu Hu. by apply (wired_reachable fuel ops u). }
  destruct (connect_moves c w Hw) as [Ho Hs Ha (seg & Hlog & He) Hc _].
  destruct (connect_effect c w Hw Hwired) as (Hstep & Hup & Hdown).
  fold w' in Ho, Hs, Ha, Hlog, He, Hc, Hstep, Hup, Hdown.
  split_and!.
  - destruct Ho as [[[] Ho]|Ho]; auto.
  - exact Hstep.
  - by apply sound_two_states.
  - by apply sound_two_states.
  - apply Ha.
  - exists seg. destruct (He s) as [H1 H2]. done.
  - intros n r. apply Hc.
  - apply Hup.
  - apply Hdown.
Qed.

(** A node that connects to the store, disconnects and connects again, and
    a child that connects its parent with it. *)
Example detach_and_reconnect :
  let w0 := final (exec 1 [Create None; Create (Some 0)] init) in
  let w1 := final (connect (Add 1 (Consumer 7)) w0) in
  let w2 := final (connect (Remove 1 0) w1) in
  let w3 := final (connect (SelfSubscribe 1) w2) in
  (amount w0 0, amount w0 1) = (0, 0)%Z
  ∧ (amount w1 0, amount w1 1) = (1, 1)%Z
  ∧ getListeners 0 w1 = [HandleChangeWrapper 1]
  ∧ registered (store w1) = [(HandleChangeWrapper 0, true)]
  ∧ (amount w2 0, amount w2 1) = (0, 0)%Z
  ∧ getListeners 0 w2 = []
  ∧ registered (store w2) = [(HandleChangeWrapper 0, false)]
  ∧ (amount w3 0, amount w3 1) = (1, 1)%Z
  ∧ getListeners 0 w3 = [HandleChangeWrapper 1]
  ∧ registered (store w3) = [(HandleChangeWrapper 0, false); (HandleChangeWrapper 0, true)]
  ∧ log w3 = [Connected 1; Connected 0; Disconnected 1; Disconnected 0;
              Connected 1; Connected 0].
Proof. intros w0 w1 w2 w3. split_and!; vm_compute; reflexivity. Qed.

End ConnectionLaws.

(** ** A child that loses its last nested subscription *)

Module DetachLaws.
Import Subscription SubscriptionLaws ConnectionLaws.

(** The node [c] is connected to the node [p]: it holds the cleanup closure
    [kp] of [p], which has not been called, and the listener of that
    closure is the [i]-th of those that [getListeners().get()] of [p]
    returns and calls the [handleChangeWrapper] of [c]. *)
Definition registered_under (w : World) (c p kp i : nat) : Prop :=
  ∃ nc np rmp rp lp,
    nodes w !! c = Some nc ∧ unsubscribe nc = Some (NestedSub p kp)
    ∧ nodes w !! p = Some np ∧ removers np !! kp = Some rmp ∧ removed rmp = false
    ∧ listeners np = Some rp ∧ cleanupListener rmp = (rp, lp)
    ∧ liveListeners p w !! i = Some lp
    ∧ getListeners p w !! i = Some (HandleChangeWrapper c).

(** The cleanup closure [k] of the node [c] has not been called, and it is
    the last reason of [c] to stay connected. *)
Definition last_subscription (w : World) (c k : nat) : Prop :=
  ∃ nc rm, nodes w !! c = Some nc ∧ subscriptionsAmount nc = 1%Z
           ∧ removers nc !! k = Some rm ∧ removed rm = false.

(** The collections of the node [c] from the [r0]-th on, among them the
    one it holds, have no other listeners than [handleChangeWrapper]s. *)
Definition node_wrappers (r0 : nat) (n : node) : Prop :=
  r0 ≤ length (collections n)
  ∧ (∀ r, listeners n = Some r → r0 ≤ r)
  ∧ (∀ r col cb, r0 ≤ r → collections n !! r = Some col →
       cb ∈ Registry.callback <$> Registry.heap col → ∃ d, cb = HandleChangeWrapper d).

Definition wrappers_only (c r0 : nat) (w : World) : Prop :=
  ∀ n, nodes w !! c = Some n → node_wrappers r0 n.

(** The first call of a cleanup closure whose listener is in the
    collection that the node holds, in a world that is in order up to the
    node. *)
Lemma strike_then_falls_below fuel s k w n rm r l i c L :
  ok_below w s → (∀ u, u ≤ s → slack w u = 0%Z) →
  nodes w !! s = Some n → s < fuel →
  removers n !! k = Some rm → removed rm = false →
  listeners n = Some r → cleanupListener rm = (r, l) →
  collections n !! r = Some c → Registry.linked c L → L !! i = Some l →
  let w0 := set_nodes (alter (strike k rm) s) w in
  ∃ w1, tryUnsubscribe_rec fuel s w0 = Done tt w1 ∧ falls s w0 w1
    ∧ getListeners s w1
      = (if decide (amount w s = 1%Z) then [] else delete i (getListeners s w)).
Proof.
  intros Hok Hslack Hn Hfuel Hrm Hremoved Hr Hcl Hc HL Hi w0.
  assert (Hn0 : nodes w0 !! s = Some (strike k rm n)) by (by apply lookup_update_eq).
  assert (K0 : kept w w0).
  { apply kept_update. intros n' Hn'. assert (n' = n) as -> by congruence.
    by apply node_kept_strike. }
  assert (Hok0 : ok_below w0 s).
  { intros u nu Hu. unfold w0. rewrite lookup_update. case_decide as Hd.
    - subst u. rewrite Hn. intros [= <-]. apply node_ok_strike.
      apply (node_ok_kept w w0 _ _ K0). by apply Hok.
    - intros Hnu. apply (node_ok_kept w w0 _ _ K0). by apply Hok. }
  pose proof (Hslack s (le_n _)) as Hss. unfold slack in Hss. rewrite Hn in Hss.
  pose proof (reasons_strike k rm n Hrm Hremoved) as Hrs.
  pose proof (reasons_nonneg (strike k rm n)) as Hrn.
  destruct fuel as [|fuel]; [lia|].
  destruct (tryUnsubscribe_rec_falls (S fuel) s w0 (strike k rm n))
    as (w1 & H1 & F); [done|done|done|simpl; lia| |].
  { intros u Hu. unfold w0. rewrite slack_update, decide_False by lia.
    apply Hslack. lia. }
  exists w1. split; [done|]. split; [done|].
  rewrite (getListeners_linked s w n r c L Hn Hr Hc HL).
  assert (Hamt : amount w1 s = (amount w s - 1)%Z).
  { rewrite (fall_amount _ _ _ F). unfold w0. rewrite amount_update, decide_True by done.
    unfold amount. by rewrite Hn. }
  destruct (decide (amount w s = 1%Z)) as [Ha|Ha].
  - destruct (kept_nodes _ _ (fall_kept _ _ _ F) s _ Hn0) as (n1 & Hn1 & _).
    pose proof (fall_ok _ _ _ F s n1 (le_n _) Hn1) as [_ _ B3 B4 _ _].
    assert (Hz : subscriptionsAmount n1 = 0%Z).
    { rewrite Ha in Hamt. unfold amount in Hamt. rewrite Hn1 in Hamt. lia. }
    unfold getListeners. rewrite Hn1.
    by rewrite (proj1 B4 (proj1 B3 Hz)).
  - assert (H1' : tryUnsubscribe_rec (S fuel) s w0
                  = Done tt (set_nodes (alter (with_amount
                       (subscriptionsAmount (strike k rm n) - 1)) s) w0)).
    { rewrite (tryUnsubscribe_rec_unfold _ _ _ _ Hn0). cbv zeta.
      destruct (unsubscribe (strike k rm n)) as [h|]; [|done].
      rewrite decide_False; [done|]. unfold amount in Ha.
      rewrite Hn in Ha. simpl. lia. }
    rewrite H1' in H1. injection H1 as <-.
    rewrite (getListeners_linked s _
               (with_amount (subscriptionsAmount n - 1) (strike k rm n))
               r (Registry.unsubscribe l c) (filter (λ x, x ≠ l) L)).
    + unfold callbacks_of.
      rewrite <- (Registry.increasing_delete_filter L i l);
        [|apply (Registry.linked_increasing _ _ HL)|done].
      rewrite omap_delete.
      * f_equal. apply omap_same. intros x Hx. rewrite <- !list_lookup_fmap.
        by rewrite Registry.unsubscribe_callbacks.
      * intros x Hx. pose proof (Registry.linked_bound _ _ _ HL Hx) as Hb.
        rewrite <- list_lookup_fmap, Registry.unsubscribe_callbacks.
        apply lookup_lt_is_Some. by rewrite length_fmap.
    + by apply lookup_update_eq.
    + done.
    + change (collections (with_amount _ (strike k rm n)))
        with (alter (Registry.unsubscribe (cleanupListener rm).2) (cleanupListener rm).1
                (collections n)).
      rewrite Hcl. simpl. by rewrite list_lookup_alter, decide_True, Hc.
    + by apply unsubscribe_keeps_linked.
Qed.

(** The last cleanup closure of a node that is connected to a parent. *)
Lemma last_cleanup_detaches w c k p kp i :
  sound w → everywhere node_wired w →
  registered_under w c p kp i → last_subscription w c k →
  ∃ w' r0, call_handle (NestedSub c k) w = Done tt w'
    ∧ amount w' c = 0%Z ∧ getListeners c w' = []
    ∧ getListeners p w'
      = (if decide (amount w p = 1%Z) then [] else delete i (getListeners p w))
    ∧ wrappers_only c r0 w'.
Proof.
  intros Hw Hwired (nc & np & rmp & rp & lp & Hnc & Hh & Hnp & Hrmp & Hremp & Hrp & Hclp
                      & Hlive & Hget) (nc' & rm & Hnc' & Hone & Hrm & Hrem).
  assert (nc' = nc) as -> by congruence. clear Hnc'.
  pose proof (proj1 Hw c nc Hnc) as [A1 A2 A3 A4 A5 A6].
  destruct (A6 p kp Hh) as (Hpar & _).
  pose proof (A1 p Hpar) as Hpc.
  destruct (listeners nc) as [rc|] eqn:Hrc;
    [|destruct A4 as [_ A4]; specialize (A4 eq_refl); congruence].
  destruct (Hwired p np Hnp rp Hrp) as (cp & L & Hcp & HL).
  assert (HLi : L !! i = Some lp).
  { unfold liveListeners in Hlive.
    by rewrite Hnp, Hrp, Hcp, (Registry.get_linked _ _ HL) in Hlive. }
  destruct (strike_then_falls c k w nc rm Hw Hnc Hrm Hrem) as (K0 & w' & H1 & F & Hc1).
  set (w0 := set_nodes (alter (strike k rm) c) w) in *.
  assert (Hcall : call_handle (NestedSub c k) w = Done tt w').
  { simpl. rewrite (removeNestedSub_with_unfold _ _ _ _ _ _ Hnc Hrm), Hrem. done. }
  assert (Hn0 : nodes w0 !! c = Some (strike k rm nc)) by (by apply lookup_update_eq).
  assert (Hne0 : ∀ u, u ≠ c → nodes w0 !! u = nodes w !! u).
  { intros u Hu. unfold w0. by apply lookup_update_ne. }
  revert H1. unfold tryUnsubscribe.
  rewrite (tryUnsubscribe_rec_unfold _ _ _ _ Hn0). cbv zeta.
  change (unsubscribe (strike k rm nc)) with (unsubscribe nc). rewrite Hh.
  change (subscriptionsAmount (strike k rm nc)) with (subscriptionsAmount nc).
  rewrite decide_True by lia.
  set (w1 := set_nodes (alter (with_amount (subscriptionsAmount nc - 1)) c) w0).
  set (w2 := {| nodes := nodes w1; store := store w1; log := log w1 ++ [Disconnected c] |}).
  assert (Hne2 : ∀ u, u ≠ c → nodes w2 !! u = nodes w !! u).
  { intros u Hu. change (nodes w2) with (nodes w1). unfold w1.
    rewrite lookup_update_ne by done. by apply Hne0. }
  assert (Hc2 : nodes w2 !! c
                = Some (with_amount (subscriptionsAmount nc - 1) (strike k rm nc))).
  { change (nodes w2) with (nodes w1). by apply lookup_update_eq. }
  assert (Hnp2 : nodes w2 !! p = Some np) by (rewrite Hne2 by lia; done).
  rewrite (removeNestedSub_with_unfold _ _ _ _ _ _ Hnp2 Hrmp), Hremp.
  assert (K02 : kept w w2).
  { eapply kept_trans; [exact K0|]. eapply kept_trans; [|apply kept_log].
    apply kept_update. by split; eauto. }
  destruct (strike_then_falls_below c p kp w2 np rmp rp lp i cp L)
    as (w3 & H3 & F3 & Hg3); [| |done|lia|done..|].
  { intros u nu Hu Hnu. rewrite Hne2 in Hnu by lia.
    apply (node_ok_kept w w2 _ _ K02). by apply (proj1 Hw). }
  { intros u Hu. unfold slack. rewrite Hne2 by lia. apply (proj2 Hw u). }
  rewrite H3.
  set (w2' := set_nodes (alter (strike kp rmp) p) w2) in *.
  assert (Hc3 : nodes w3 !! c
                = Some (with_amount (subscriptionsAmount nc - 1) (strike k rm nc))).
  { rewrite (fall_above _ _ _ F3) by lia. unfold w2'.
    rewrite lookup_update_ne by lia. done. }
  rewrite (lookup_update_eq _ _ _ _ Hc3).
  change (listeners (with_unsubscribe None _)) with (listeners nc). rewrite Hrc.
  intros [= <-].
  set (nf := uninstall rc (with_unsubscribe None
               (with_amount (subscriptionsAmount nc - 1) (strike k rm nc)))).
  assert (Hcf : nodes (set_nodes (alter (uninstall rc) c)
                        (set_nodes (alter (with_unsubscribe None) c) w3)) !! c = Some nf).
  { apply lookup_update_eq. by apply lookup_update_eq. }
  eexists _, (length (collections nc)). split_and!; [exact Hcall| | | |].
  - unfold amount. rewrite Hcf. simpl. lia.
  - unfold getListeners. by rewrite Hcf.
  - rewrite (getListeners_same p w3) by (rewrite !lookup_update_ne by lia; done).
    rewrite Hg3. rewrite (getListeners_same p w w2) by (apply Hne2; lia).
    unfold amount. by rewrite Hnp2, Hnp.
  - intros n Hn. rewrite Hcf in Hn. injection Hn as <-. split_and!.
    + unfold nf. simpl. by rewrite !length_alter.
    + by intros r.
    + intros r col cb Hr Hcol. apply lookup_lt_Some in Hcol.
      unfold nf in Hcol. simpl in Hcol. rewrite !length_alter in Hcol. lia.
Qed.

(** *** No callback of the application is a listener of the node again *)

Section Unheard.
Variables c r0 : nat.

(** The outcome of a call made in the world [w]: the collections of [c]
    still hold [handleChangeWrapper]s only, and no listener of [c] that is
    a callback of the application was invoked. *)
Definition unheard {A} (w : World) (o : outcome World A) : Prop :=
  wrappers_only c r0 (final o)
  ∧ ∃ seg, log (final o) = log w ++ seg
           ∧ ∀ x, Dispatched (Some c) (Consumer x) ∉ seg.

Lemma unheard_step {A} (a : A) w w' :
  wrappers_only c r0 w' → log w' = log w → unheard w (Done a w').
Proof.
  intros Hw Hl. split; [done|]. exists []. rewrite app_nil_r.
  split; [done|]. intros x. apply not_elem_of_nil.
Qed.

Lemma unheard_abort {A} e w : wrappers_only c r0 w → unheard w (@Abort World A e w).
Proof.
  intros Hw. split; [done|]. exists []. rewrite app_nil_r.
  split; [done|]. intros x. apply not_elem_of_nil.
Qed.

Lemma unheard_match {A B} (o : outcome World A) (k : A → World → outcome World B) w :
  unheard w o →
  (∀ a w1, o = Done a w1 → wrappers_only c r0 w1 → unheard w1 (k a w1)) →
  unheard w (match o with Done a w1 => k a w1 | Abort e w1 => Abort e w1 end).
Proof.
  intros (Hw & seg & Hlog & Hseg) Hk. destruct o as [a w1|e w1]; simpl in *.
  - destruct (Hk a w1 eq_refl Hw) as (Hw' & seg' & Hlog' & Hseg').
    split; [done|]. exists (seg ++ seg'). rewrite Hlog', Hlog, app_assoc.
    split; [done|]. intros x [?|?]%elem_of_app; [by apply (Hseg x)|by apply (Hseg' x)].
  - split; [done|]. by exists seg.
Qed.

Lemma unheard_bind {A B} (m : M World A) (k : A → M World B) w :
  unheard w (m w) →
  (∀ a w1, m w = Done a w1 → wrappers_only c r0 w1 → unheard w1 (k a w1)) →
  unheard w (bind m k w).
Proof. intros Hm Hk. unfold bind. by apply unheard_match. Qed.

Lemma unheard_get_node s w : wrappers_only c r0 w → unheard w (get_node s w).
Proof.
  intros Hw. unfold get_node.
  destruct (nodes w !! s); [by apply unheard_step|by apply unheard_abort].
Qed.

Lemma unheard_emit e w :
  wrappers_only c r0 w → (∀ x, e ≠ Dispatched (Some c) (Consumer x)) →
  unheard w (emit e w).
Proof.
  intros Hw He. split; [done|]. exists [e]. split; [done|].
  intros x Hx%list_elem_of_singleton. by apply (He x).
Qed.

Lemma unheard_update s f w :
  wrappers_only c r0 w →
  (∀ n, s = c → nodes w !! c = Some n → node_wrappers r0 n → node_wrappers r0 (f n)) →
  unheard w (update_node s f w).
Proof.
  intros Hw Hf. apply unheard_step; [|done].
  intros n. rewrite lookup_update. case_decide as Hd; [|apply Hw].
  subst s. destruct (nodes w !! c) as [n0|] eqn:Hn0; [|done]. intros [= <-].
  apply Hf; [done..|]. by apply Hw.
Qed.

Lemma node_wrappers_install h n : node_wrappers r0 n → node_wrappers r0 (install h n).
Proof.
  intros (H1 & H2 & H3). split_and!; simpl.
  - rewrite length_app. simpl. lia.
  - intros r [= <-]. done.
  - intros r col cb Hr [[_ Hcol]|[_ <-]]%lookup_snoc_Some; [by apply (H3 r col)|].
    simpl. by intros ?%elem_of_nil.
Qed.

Lemma node_wrappers_enlist r col d n :
  listeners n = Some r → collections n !! r = Some col →
  node_wrappers r0 n → node_wrappers r0 (enlist r col (HandleChangeWrapper d) n).
Proof.
  intros Hr Hcol (H1 & H2 & H3). split_and!.
  - simpl. by rewrite length_insert.
  - exact H2.
  - intros r' col' cb Hr'.
    change (collections (enlist r col (HandleChangeWrapper d) n))
      with (<[r := (Registry.subscribe (HandleChangeWrapper d) col).2]> (collections n)).
    destruct (decide (r = r')) as [<-|Hne].
    + rewrite list_lookup_insert_eq by (by eapply lookup_lt_Some). intros Heq.
      assert (col' = (Registry.subscribe (HandleChangeWrapper d) col).2) as ->
        by congruence.
      rewrite Registry.subscribe_callbacks.
      intros [Hcb|Hcb%list_elem_of_singleton]%elem_of_app;
        [by apply (H3 r col)|by eexists].
    + rewrite list_lookup_insert_ne by done. by apply H3.
Qed.

Lemma node_wrappers_strike k rm n : node_wrappers r0 n → node_wrappers r0 (strike k rm n).
Proof.
  intros (H1 & H2 & H3). split_and!.
  - simpl. by rewrite length_alter.
  - exact H2.
  - intros r col cb Hr.
    change (collections (strike k rm n))
      with (alter (Registry.unsubscribe (cleanupListener rm).2) (cleanupListener rm).1
              (collections n)).
    rewrite list_lookup_alter. case_decide as Hd; [|by apply H3].
    destruct (collections n !! (cleanupListener rm).1) as [col0|] eqn:Hcol0; [|done].
    intros Heq.
    assert (col = Registry.unsubscribe (cleanupListener rm).2 col0) as ->
      by (simpl in Heq; congruence).
    rewrite Registry.unsubscribe_callbacks. rewrite <- Hd in Hr.
    by apply (H3 (cleanupListener rm).1 col0).
Qed.

Lemma node_wrappers_uninstall r n : node_wrappers r0 n → node_wrappers r0 (uninstall r n).
Proof.
  intros (H1 & H2 & H3). split_and!.
  - simpl. by rewrite length_alter.
  - by intros r'.
  - intros r' col cb Hr.
    change (collections (uninstall r n)) with (alter Registry.clear r (collections n)).
    rewrite list_lookup_alter. case_decide as Hd; [|by apply H3].
    destruct (collections n !! r) as [col0|] eqn:Hcol0; [|done].
    intros Heq. assert (col = Registry.clear col0) as -> by (simpl in Heq; congruence).
    rewrite <- Hd in Hr. by apply (H3 r col0).
Qed.

Lemma addNestedSub_with_unheard trySub s d w :
  (∀ w, wrappers_only c r0 w → unheard w (trySub s w)) →
  wrappers_only c r0 w →
  unheard w (addNestedSub_with trySub s (HandleChangeWrapper d) w).
Proof.
  intros Htry Hw. unfold addNestedSub_with.
  apply unheard_bind; [by apply Htry|]. intros _ w1 _ Hw1.
  apply unheard_bind; [by apply unheard_get_node|].
  intros n w2 [-> Hn]%get_node_done _.
  destruct (listeners n) as [r|] eqn:Hr; [|by apply unheard_abort].
  destruct (collections n !! r) as [col|] eqn:Hcol; [|by apply unheard_abort].
  apply unheard_bind; [|intros; by apply unheard_step].
  apply unheard_update; [done|]. intros n' -> Hn' Hnw.
  assert (n' = n) as -> by congruence. by apply node_wrappers_enlist.
Qed.

Lemma trySubscribe_rec_unheard fuel :
  ∀ s w, wrappers_only c r0 w → unheard w (trySubscribe_rec fuel s w).
Proof.
  induction fuel as [|fuel IH]; intros s w Hw; [by apply unheard_abort|].
  simpl. apply unheard_bind; [by apply unheard_get_node|].
  intros n w0 [-> Hn]%get_node_done _.
  apply unheard_bind; [by apply unheard_update|]. intros _ w1 _ Hw1.
  destruct (unsubscribe n); [by apply unheard_step|].
  apply unheard_bind; [by apply unheard_emit|]. intros _ w2 _ Hw2.
  apply unheard_bind.
  { destruct (parentSub n) as [p|].
    - apply unheard_bind; [|intros; by apply unheard_step].
      apply addNestedSub_with_unheard; [apply IH|done].
    - by apply unheard_step. }
  intros h w3 _ Hw3. apply unheard_update; [done|].
  intros n3 _ _. apply node_wrappers_install.
Qed.

Lemma removeNestedSub_with_unheard tryUnsub s k w :
  (∀ w, wrappers_only c r0 w → unheard w (tryUnsub s w)) →
  wrappers_only c r0 w → unheard w (removeNestedSub_with tryUnsub s k w).
Proof.
  intros Htry Hw. unfold removeNestedSub_with.
  apply unheard_bind; [by apply unheard_get_node|].
  intros n w0 [-> Hn]%get_node_done _.
  destruct (removers n !! k) as [rm|]; [|by apply unheard_abort].
  destruct (removed rm); [by apply unheard_step|].
  apply unheard_bind; [|intros _ w1 _ Hw1; by apply Htry].
  apply unheard_update; [done|]. intros n' _ _. apply node_wrappers_strike.
Qed.

Lemma tryUnsubscribe_rec_unheard fuel :
  ∀ s w, wrappers_only c r0 w → unheard w (tryUnsubscribe_rec fuel s w).
Proof.
  induction fuel as [|fuel IH]; intros s w Hw; [by apply unheard_abort|].
  simpl. apply unheard_bind; [by apply unheard_get_node|].
  intros n w0 [-> Hn]%get_node_done _.
  apply unheard_bind; [by apply unheard_update|]. intros _ w1 _ Hw1.
  destruct (unsubscribe n) as [h|]; [|by apply unheard_step].
  case_decide; [|by apply unheard_step].
  apply unheard_bind; [by apply unheard_emit|]. intros _ w2 _ Hw2.
  apply unheard_bind.
  { destruct h as [p k|i]; [|by apply unheard_step].
    apply removeNestedSub_with_unheard; [apply IH|done]. }
  intros _ w3 _ Hw3.
  apply unheard_bind; [by apply unheard_update|]. intros _ w4 _ Hw4.
  apply unheard_bind; [by apply unheard_get_node|].
  intros n' w5 [-> Hn']%get_node_done _.
  destruct (listeners n') as [r|]; [|by apply unheard_abort].
  apply unheard_update; [done|]. intros n5 _ _. apply node_wrappers_uninstall.
Qed.

Lemma cells_wrappers s r w l cell :
  wrappers_only c r0 w → (s = c → r0 ≤ r) → cells_of s r w !! l = Some cell →
  ∀ x, Dispatched (Some s) (Registry.callback cell) ≠ Dispatched (Some c) (Consumer x).
Proof.
  intros Hw Hr Hcell x [= -> Hcb]. specialize (Hr eq_refl).
  unfold cells_of, collection_of in Hcell.
  destruct (nodes w !! c) as [n|] eqn:Hn; [|done].
  destruct (collections n !! r) as [col|] eqn:Hcol; [|done].
  destruct (Hw n Hn) as (_ & _ & H3).
  destruct (H3 r col (Registry.callback cell) Hr Hcol) as [d Hd]; [|congruence].
  apply list_elem_of_fmap. exists cell. split; [done|]. by eapply list_elem_of_lookup_2.
Qed.

Lemma call_unheard fuel : ∀ f w, wrappers_only c r0 w → unheard w (call fuel f w).
Proof.
  induction fuel as [|fuel IH]; intros f w Hw; [by apply unheard_abort|].
  destruct f as [name|s|s|s|s|h]; simpl.
  - by apply unheard_emit.
  - apply unheard_bind; [by apply unheard_get_node|].
    intros n w1 [-> Hn]%get_node_done _.
    destruct (onStateChange n); [by apply IH|by apply unheard_step].
  - unfold notifyNestedSubs_with, notify_listeners.
    apply unheard_bind; [by apply unheard_emit|]. intros _ w1 _ Hw1.
    apply unheard_bind; [by apply unheard_get_node|].
    intros n w2 [-> Hn]%get_node_done _.
    destruct (listeners n) as [r|] eqn:Hr; [|by apply unheard_step].
    assert (Hr0 : s = c → r0 ≤ r).
    { intros ->. destruct (Hw1 n Hn) as (_ & H2 & _). by apply H2. }
    unfold batch. apply unheard_bind; [by apply unheard_step|].
    intros cur w3 [= _ <-] _.
    clear Hn. revert cur w1 Hw1. generalize fuel at 2. intros loop.
    induction loop as [|loop IHl]; intros cur w1 Hw1.
    + destruct cur; [by apply unheard_abort|by apply unheard_step].
    + destruct cur as [l|]; [|by apply unheard_step].
      destruct (cells_of s r w1 !! l) as [cell|] eqn:Hcell; last first.
      { simpl. unfold bind, gets. rewrite Hcell. by apply unheard_abort. }
      rewrite (Registry.notify_loop_turn _ _ _ _ cell) by done.
      apply (unheard_match _ (λ _ w', Registry.notify_loop (cells_of s r) _ loop _ w')).
      * apply unheard_bind; [|intros _ w2 _ Hw2; by apply IH].
        apply unheard_emit; [done|]. by apply (cells_wrappers s r w1 l).
      * intros _ w2 _ Hw2. by apply IHl.
  - unfold trySubscribeSelf. apply unheard_bind; [by apply unheard_get_node|].
    intros n w1 [-> Hn]%get_node_done _.
    destruct (selfSubscribed n); [by apply unheard_step|].
    apply unheard_bind; [by apply unheard_update|].
    intros _ w2 _ Hw2. by apply trySubscribe_rec_unheard.
  - unfold tryUnsubscribeSelf. apply unheard_bind; [by apply unheard_get_node|].
    intros n w1 [-> Hn]%get_node_done _.
    destruct (selfSubscribed n); [|by apply unheard_step].
    apply unheard_bind; [by apply unheard_update|].
    intros _ w2 _ Hw2. by apply tryUnsubscribe_rec_unheard.
  - destruct h as [s k|i]; simpl; [|by apply unheard_step].
    apply removeNestedSub_with_unheard; [|done].
    intros w1 Hw1. by apply tryUnsubscribe_rec_unheard.
Qed.

Lemma fire_unheard fuel ls : ∀ w, wrappers_only c r0 w → unheard w (fire fuel ls w).
Proof.
  induction ls as [|cb ls IH]; intros w Hw; simpl; [by apply unheard_step|].
  apply unheard_bind; [by apply unheard_emit|]. intros _ w1 _ Hw1.
  apply unheard_bind; [by apply call_unheard|]. intros _ w2 _ Hw2. by apply IH.
Qed.

Lemma dispatch_unheard fuel x w :
  wrappers_only c r0 w → unheard w (dispatch fuel x w).
Proof.
  intros Hw. unfold dispatch.
  apply unheard_bind; [by apply unheard_step|]. intros _ w1 _ Hw1.
  apply unheard_bind; [by apply unheard_step|]. intros ls w2 [= _ <-] _.
  by apply fire_unheard.
Qed.

End Unheard.

Lemma delete_only {A} (l : list A) (x : A) i :
  (∀ j, l !! j = Some x → j = i) → x ∉ delete i l.
Proof.
  intros Honly [j Hj]%list_elem_of_lookup_1.
  destruct (decide (j < i)) as [Hlt|Hge].
  - rewrite list_lookup_delete_lt in Hj by done. specialize (Honly j Hj). lia.
  - rewrite list_lookup_delete_ge in Hj by lia. specialize (Honly (S j) Hj). lia.
Qed.



End DetachLaws.

(** ** The order in which a change reaches the nodes *)

Module OrderLaws.
Import Subscription SubscriptionLaws.

(** *** What the nodes wire themselves, and what the application hands out

    [trySubscribe] registers the [handleChangeWrapper] of a node with the
    parent of the node; the components install the [notifyNestedSubs] of a
    node as the [onStateChange] of that node.  Every other function can
    come from the application only: callbacks of its own, the functions
    that subscribing returned and the public [trySubscribe] and
    [tryUnsubscribe] are [benign]; a [handleChangeWrapper] or a
    [notifyNestedSubs] in any other place is not. *)

Definition benign (f : closure) : bool :=
  match f with
  | HandleChangeWrapper _ | NotifyNestedSubs _ => false
  | _ => true
  end.

Definition handler_fine (s : nat) (f : option closure) : bool :=
  match f with
  | None => true
  | Some (NotifyNestedSubs u) => bool_decide (u = s)
  | Some g => benign g
  end.

Definition listener_fine (ps : list (option nat)) (s : nat) (cb : closure) : bool :=
  match cb with
  | HandleChangeWrapper d => bool_decide (ps !! d = Some (Some s))
  | _ => benign cb
  end.

(** The parent and the handler of a node; no call of a closure changes
    them. *)
Definition wiring (n : node) : option nat * option closure :=
  (parentSub n, onStateChange n).

Definition frame (w : World) : list (option nat * option closure) := wiring <$> nodes w.

Definition handlers (w : World) : list (option closure) := onStateChange <$> nodes w.

Lemma frame_parents w w' : frame w' = frame w → parents w' = parents w.
Proof.
  intros H. apply (f_equal (fmap fst)) in H. unfold frame in H.
  by rewrite <- !list_fmap_compose in H.
Qed.

Lemma frame_handlers w w' : frame w' = frame w → handlers w' = handlers w.
Proof.
  intros H. apply (f_equal (fmap snd)) in H. unfold frame in H.
  by rewrite <- !list_fmap_compose in H.
Qed.

Lemma frame_update w s f :
  (∀ n, nodes w !! s = Some n → wiring (f n) = wiring n) →
  frame (set_nodes (alter f s) w) = frame w.
Proof.
  intros Hf. apply list_eq. intros i. unfold frame.
  rewrite !list_lookup_fmap, lookup_update. case_decide as Hd; [|done].
  subst i. destruct (nodes w !! s) as [n|] eqn:Hn; [|done]. simpl. by rewrite Hf.
Qed.

(** *** Worlds that keep to a policy

    [fine ps s cb] says which listeners a node [s] may hold, [hfine s f]
    which handler, and [allowed cb] what the application may hand to
    [addNestedSub]. *)
Section Policy.
Variable fine : list (option nat) → nat → closure → bool.
Variable hfine : nat → option closure → bool.
Variable allowed : closure → bool.
Hypothesis fine_wrapper :
  ∀ ps s d, ps !! d = Some (Some s) → fine ps s (HandleChangeWrapper d) = true.
Hypothesis fine_grow :
  ∀ ps extra s cb, fine ps s cb = true → fine (ps ++ extra) s cb = true.
Hypothesis hfine_none : ∀ s, hfine s None = true.
Hypothesis allowed_fine : ∀ ps s cb, allowed cb = true → fine ps s cb = true.

Definition collection_orderly (ps : list (option nat)) (s : nat)
    (c : Registry.ListenerCollection closure) : Prop :=
  Forall (λ cb, fine ps s cb = true) (Registry.callback <$> Registry.heap c).

Definition node_orderly (ps : list (option nat)) (s : nat) (n : node) : Prop :=
  hfine s (onStateChange n) = true ∧ Forall (collection_orderly ps s) (collections n).

(** The listeners and handlers of the nodes keep to the policy, and the
    store holds the [handleChangeWrapper]s of nodes without parent only. *)
Record orderly (w : World) : Prop := mkOrderly {
  orderly_nodes : ∀ s n, nodes w !! s = Some n → node_orderly (parents w) s n;
  orderly_store : ∀ i f b, registered (store w) !! i = Some (f, b) →
                  ∃ r, f = HandleChangeWrapper r ∧ parents w !! r = Some None;
}.

Definition orderly_op (o : op) : bool :=
  match o with
  | SetOnStateChange s f => hfine s f
  | AddNestedSub _ cb => allowed cb
  | _ => true
  end.

(** The outcome of a call of the connection machinery made in the orderly
    world [w]: the world it left is orderly, every node has the parent and
    the handler it had, and the world is calm. *)
Definition sober {A} (w : World) (o : outcome World A) : Prop :=
  orderly (final o) ∧ frame (final o) = frame w ∧ calm w (final o).

Lemma orderly_init : orderly init.
Proof. split; [by intros s n ?|by intros i f b ?]. Qed.

Lemma sober_done {A} (a : A) w : orderly w → sober w (Done a w).
Proof. intros Ht. split_and!; [done..|apply calm_refl]. Qed.

Lemma sober_abort {A} e w : orderly w → sober w (@Abort World A e w).
Proof. intros Ht. split_and!; [done..|apply calm_refl]. Qed.

Lemma sober_bind {A B} (m : M World A) (k : A → M World B) w :
  sober w (m w) →
  (∀ a w1, m w = Done a w1 → orderly w1 → frame w1 = frame w → sober w1 (k a w1)) →
  sober w (bind m k w).
Proof using All.
  intros (Ht & Hp & Hc) Hk. unfold bind.
  destruct (m w) as [a w1|e w1] eqn:Hm; [|by split_and!].
  destruct (Hk a w1 eq_refl Ht Hp) as (Ht' & Hp' & Hc').
  split_and!; [done| |by apply (calm_trans w w1)]. simpl in Hp. congruence.
Qed.

Lemma update_sober s f w :
  orderly w →
  (∀ n, nodes w !! s = Some n →
        wiring (f n) = wiring n ∧ node_orderly (parents w) s (f n)) →
  sober w (update_node s f w).
Proof using All.
  intros [Hn Hs] Hf. unfold update_node, modify, sober. simpl.
  assert (Hfr : frame (set_nodes (alter f s) w) = frame w).
  { apply frame_update. intros n H. by apply Hf. }
  pose proof (frame_parents _ _ Hfr) as Hp.
  split_and!; [|done|by apply calm_same]. split; rewrite Hp.
  - intros u nu. rewrite lookup_update. case_decide as Hd; [|by apply Hn].
    subst u. destruct (nodes w !! s) as [n|] eqn:Hlook; [|done].
    intros [= <-]. by apply Hf.
  - apply Hs.
Qed.

Lemma orderly_same_nodes w w' :
  nodes w' = nodes w → registered (store w') = registered (store w) → orderly w → orderly w'.
Proof using All.
  intros Hn Hr [H1 H2]. split; unfold parents; rewrite Hn; [done|]. by rewrite Hr.
Qed.

Lemma emit_sober e w : orderly w → edge_event e = true → sober w (emit e w).
Proof using All.
  intros Ht He. split_and!; [by apply (orderly_same_nodes w)|done|].
  split; [done|]. exists [e]. simpl. by rewrite He.
Qed.

Lemma get_node_sober s w : orderly w → sober w (get_node s w).
Proof using All.
  intros Ht. unfold get_node.
  destruct (nodes w !! s); [by apply sober_done|by apply sober_abort].
Qed.

Lemma store_subscribe_sober r w :
  orderly w → parents w !! r = Some None →
  sober w (store_subscribe (HandleChangeWrapper r) w).
Proof using All.
  intros [Hn Hs] Hr. split_and!; [|done|by apply calm_same]. split; [apply Hn|].
  intros i f b. simpl. intros [[_ H]|[_ [= <- <-]]]%lookup_snoc_Some; eauto.
Qed.

Lemma store_unsubscribe_sober i w : orderly w → sober w (store_unsubscribe i w).
Proof using All.
  intros [Hn Hs]. split_and!; [|done|by apply calm_same]. split; [apply Hn|].
  intros j f b. simpl. rewrite list_lookup_alter. case_decide as Hd; [|by apply Hs].
  subst j. destruct (registered (store w) !! i) as [[f' b']|] eqn:Hi; [|done].
  intros [= <- <-]. by apply (Hs i f' b').
Qed.

Lemma node_orderly_install ps s h n : node_orderly ps s n → node_orderly ps s (install h n).
Proof using All.
  intros [H1 H2]. split; [done|]. simpl. apply Forall_app_2; [done|].
  apply Forall_singleton. by apply Forall_nil.
Qed.

Lemma node_orderly_enlist ps s r c cb n :
  collections n !! r = Some c → fine ps s cb = true →
  node_orderly ps s n → node_orderly ps s (enlist r c cb n).
Proof using All.
  intros Hc Hcb [H1 H2]. split; [done|].
  change (collections (enlist r c cb n))
    with (<[r := (Registry.subscribe cb c).2]> (collections n)).
  apply Forall_insert; [done|].
  unfold collection_orderly. rewrite Registry.subscribe_callbacks.
  apply Forall_app_2; [apply (Forall_lookup_1 _ _ _ _ H2 Hc)|by apply Forall_singleton].
Qed.

Lemma node_orderly_strike ps s k rm n : node_orderly ps s n → node_orderly ps s (strike k rm n).
Proof using All.
  intros [H1 H2]. split; [done|].
  change (collections (strike k rm n))
    with (alter (Registry.unsubscribe (cleanupListener rm).2) (cleanupListener rm).1
            (collections n)).
  apply Forall_alter; [done|].
  intros c _ Hc. unfold collection_orderly. by rewrite Registry.unsubscribe_callbacks.
Qed.

Lemma node_orderly_uninstall ps s r n : node_orderly ps s n → node_orderly ps s (uninstall r n).
Proof using All.
  intros [H1 H2]. split; [done|]. simpl. apply Forall_alter; [done|]. by intros c _ Hc.
Qed.

Lemma addNestedSub_with_sober trySub s cb w :
  (∀ w, orderly w → sober w (trySub s w)) → orderly w →
  fine (parents w) s cb = true →
  sober w (addNestedSub_with trySub s cb w).
Proof using All.
  intros Htry Ht Hcb. unfold addNestedSub_with.
  apply sober_bind; [by apply Htry|]. intros _ w1 _ Ht1 Hp1.
  apply sober_bind; [by apply get_node_sober|].
  intros n w2 [-> Hn]%get_node_done _ _.
  destruct (listeners n) as [r|]; [|by apply sober_abort].
  destruct (collections n !! r) as [c|] eqn:Hc; [|by apply sober_abort].
  apply sober_bind; [|intros; by apply sober_done].
  apply update_sober; [done|]. intros n' Hn'. assert (n' = n) as -> by congruence.
  split; [done|]. apply node_orderly_enlist; [done|by rewrite (frame_parents _ _ Hp1)|by apply Ht1].
Qed.

Lemma trySubscribe_rec_sober fuel :
  ∀ s w, orderly w → sober w (trySubscribe_rec fuel s w).
Proof using All.
  induction fuel as [|fuel IH]; intros s w Ht; [by apply sober_abort|].
  simpl. apply sober_bind; [by apply get_node_sober|].
  intros n w0 [-> Hn]%get_node_done _ _.
  apply sober_bind.
  { apply update_sober; [done|]. intros n' Hn'. split; [done|].
    exact (orderly_nodes _ Ht _ _ Hn'). }
  intros _ w1 _ Ht1 Hp1.
  destruct (unsubscribe n); [by apply sober_done|].
  apply sober_bind; [by apply emit_sober|]. intros _ w2 _ Ht2 Hp2.
  assert (Hpar : parents w2 !! s = Some (parentSub n)).
  { rewrite (frame_parents _ _ Hp2), (frame_parents _ _ Hp1). unfold parents. by rewrite list_lookup_fmap, Hn. }
  apply sober_bind.
  { destruct (parentSub n) as [p|].
    - apply sober_bind; [|intros; by apply sober_done].
      apply addNestedSub_with_sober; [apply IH|done|].
      by apply fine_wrapper.
    - by apply store_subscribe_sober. }
  intros h w3 _ Ht3 Hp3. apply update_sober; [done|]. intros n3 Hn3.
  split; [done|]. apply node_orderly_install. by apply (orderly_nodes _ Ht3).
Qed.

Lemma removeNestedSub_with_sober tryUnsub s k w :
  (∀ w, orderly w → sober w (tryUnsub s w)) → orderly w →
  sober w (removeNestedSub_with tryUnsub s k w).
Proof using All.
  intros Htry Ht. unfold removeNestedSub_with.
  apply sober_bind; [by apply get_node_sober|].
  intros n w0 [-> Hn]%get_node_done _ _.
  destruct (removers n !! k) as [rm|]; [|by apply sober_abort].
  destruct (removed rm); [by apply sober_done|].
  apply sober_bind; [|intros _ w1 _ Ht1 _; by apply Htry].
  apply update_sober; [done|]. intros n' Hn'. split; [done|].
  apply node_orderly_strike. by apply (orderly_nodes _ Ht).
Qed.

Lemma tryUnsubscribe_rec_sober fuel :
  ∀ s w, orderly w → sober w (tryUnsubscribe_rec fuel s w).
Proof using All.
  induction fuel as [|fuel IH]; intros s w Ht; [by apply sober_abort|].
  simpl. apply sober_bind; [by apply get_node_sober|].
  intros n w0 [-> Hn]%get_node_done _ _.
  apply sober_bind.
  { apply update_sober; [done|]. intros n' Hn'. split; [done|].
    exact (orderly_nodes _ Ht _ _ Hn'). }
  intros _ w1 _ Ht1 Hp1.
  destruct (unsubscribe n) as [h|]; [|by apply sober_done].
  case_decide; [|by apply sober_done].
  apply sober_bind; [by apply emit_sober|]. intros _ w2 _ Ht2 Hp2.
  apply sober_bind.
  { destruct h as [p k|i].
    - apply removeNestedSub_with_sober; [apply IH|done].
    - by apply store_unsubscribe_sober. }
  intros _ w3 _ Ht3 Hp3.
  apply sober_bind.
  { apply update_sober; [done|]. intros n' Hn'. split; [done|].
    exact (orderly_nodes _ Ht3 _ _ Hn'). }
  intros _ w4 _ Ht4 Hp4.
  apply sober_bind; [by apply get_node_sober|].
  intros n' w5 [-> Hn']%get_node_done _ _.
  destruct (listeners n') as [r|]; [|by apply sober_abort].
  apply update_sober; [done|]. intros n5 Hn5. split; [done|].
  apply node_orderly_uninstall. by apply (orderly_nodes _ Ht4).
Qed.

Lemma trySubscribeSelf_sober s w : orderly w → sober w (trySubscribeSelf s w).
Proof using All.
  intros Ht. unfold trySubscribeSelf.
  apply sober_bind; [by apply get_node_sober|].
  intros n w0 [-> Hn]%get_node_done _ _.
  destruct (selfSubscribed n); [by apply sober_done|].
  apply sober_bind; [|intros _ w1 _ Ht1 _; by apply trySubscribe_rec_sober].
  apply update_sober; [done|]. intros n' Hn'. split; [done|].
  exact (orderly_nodes _ Ht _ _ Hn').
Qed.

Lemma tryUnsubscribeSelf_sober s w : orderly w → sober w (tryUnsubscribeSelf s w).
Proof using All.
  intros Ht. unfold tryUnsubscribeSelf.
  apply sober_bind; [by apply get_node_sober|].
  intros n w0 [-> Hn]%get_node_done _ _.
  destruct (selfSubscribed n); [|by apply sober_done].
  apply sober_bind; [|intros _ w1 _ Ht1 _; by apply tryUnsubscribe_rec_sober].
  apply update_sober; [done|]. intros n' Hn'. split; [done|].
  exact (orderly_nodes _ Ht _ _ Hn').
Qed.

Lemma call_handle_sober h w : orderly w → sober w (call_handle h w).
Proof using All.
  intros Ht. destruct h as [s k|i]; simpl.
  - apply removeNestedSub_with_sober; [|done].
    intros w1 Ht1. by apply tryUnsubscribe_rec_sober.
  - by apply store_unsubscribe_sober.
Qed.


Lemma cells_orderly w s r l cell :
  orderly w → cells_of s r w !! l = Some cell →
  fine (parents w) s (Registry.callback cell) = true.
Proof using All.
  intros Ht. unfold cells_of, collection_of.
  destruct (nodes w !! s) as [n|] eqn:Hn; [|done].
  destruct (collections n !! r) as [c|] eqn:Hc; [|done]. intros Hcell.
  destruct (orderly_nodes _ Ht s n Hn) as [_ Hall].
  pose proof (Forall_lookup_1 _ _ _ _ Hall Hc) as Hcol.
  apply (Forall_lookup_1 _ _ l _ Hcol). by rewrite list_lookup_fmap, Hcell.
Qed.

Lemma orderly_bind {A B} (m : M World A) (k : A → M World B) w :
  orderly (final (m w)) →
  (∀ a w1, m w = Done a w1 → orderly w1 → orderly (final (k a w1))) →
  orderly (final (bind m k w)).
Proof using All.
  intros Hm Hk. unfold bind. destruct (m w) as [a w1|e w1] eqn:Heq; [|done].
  by apply (Hk a w1).
Qed.

Lemma store_listeners_orderly w f :
  orderly w → f ∈ (filter (λ e, e.2 = true) (registered (store w))).*1 →
  ∃ r, f = HandleChangeWrapper r ∧ parents w !! r = Some None.
Proof using All.
  intros Ht ([f' b] & -> & [_ Hin]%list_elem_of_filter)%list_elem_of_fmap.
  apply list_elem_of_lookup_1 in Hin as [i Hi]. by apply (orderly_store _ Ht i f' b).
Qed.

Lemma node_orderly_grow ps extra s n : node_orderly ps s n → node_orderly (ps ++ extra) s n.
Proof using All.
  intros [H1 H2]. split; [done|]. eapply Forall_impl; [done|].
  intros c Hc. eapply Forall_impl; [done|]. intros cb. apply fine_grow.
Qed.

Lemma createSubscription_orderly parent w :
  orderly w → orderly (final (createSubscription parent w)).
Proof using All.
  intros Ht. unfold createSubscription, bind, gets, modify, ret.
  assert (Hnew : orderly (set_nodes (λ ns, ns ++ [ {| parentSub := parent;
                    unsubscribe := None; listeners := None; subscriptionsAmount := 0;
                    selfSubscribed := false; onStateChange := None;
                    collections := []; removers := [] |} ]) w)).
  { split; unfold parents; simpl; rewrite fmap_app.
    - intros s n [[Hs Hn]|[-> <-]]%lookup_snoc_Some.
      + apply node_orderly_grow. by apply (orderly_nodes _ Ht).
      + split; [apply hfine_none|]. by apply Forall_nil.
    - intros i f b Hi. destruct (orderly_store _ Ht i f b Hi) as (r & -> & Hr).
      exists r. split; [done|]. by apply lookup_app_l_Some. }
  destruct parent as [p|]; simpl; [|done]. by case_decide.
Qed.

Lemma setOnStateChange_orderly s f w :
  orderly w → hfine s f = true → orderly (final (setOnStateChange s f w)).
Proof using All.
  intros Ht Hf. unfold setOnStateChange.
  apply orderly_bind; [by apply get_node_sober|].
  intros n w1 [-> Hn]%get_node_done _.
  destruct Ht as [Hnodes Hstore]. unfold update_node, modify. simpl.
  assert (Hp : parents (set_nodes (alter (with_onStateChange f) s) w) = parents w)
    by (by apply parents_update).
  split; rewrite Hp.
  - intros u nu. rewrite lookup_update. case_decide as Hd; [|by apply Hnodes].
    subst u. rewrite Hn. intros [= <-]. split; [done|]. apply (Hnodes _ _ Hn).
  - apply Hstore.
Qed.

(** *** Calls in an orderly world

    A property [inv] of the log that every call keeps, given what holds
    when a closure is entered ([may_enter]) and while the pass over the
    listeners of a node runs ([in_pass]). *)
Section Guided.
Variable ps : list (option nat).
Variable hs : list (option closure).
Variable inv : list event → Prop.
Variable may_enter : list event → closure → Prop.
Variable in_pass : list event → nat → Prop.
Hypothesis inv_called : ∀ l x, inv l → inv (l ++ [Called x]).
Hypothesis inv_edge : ∀ l e, inv l → edge_event e = true → inv (l ++ [e]).
Hypothesis enter_benign : ∀ l f, benign f = true → may_enter l f.
Hypothesis enter_handler :
  ∀ l c g, may_enter l (HandleChangeWrapper c) → hs !! c = Some (Some g) →
           hfine c (Some g) = true → may_enter l g.
Hypothesis inv_notified :
  ∀ l c, inv l → may_enter l (NotifyNestedSubs c) →
         inv (l ++ [Notified c]) ∧ in_pass (l ++ [Notified c]) c.
Hypothesis pass_grows : ∀ l l' c, in_pass l c → in_pass (l ++ l') c.
Hypothesis inv_dispatched :
  ∀ l c cb, inv l → in_pass l c → fine ps c cb = true →
            inv (l ++ [Dispatched (Some c) cb])
            ∧ may_enter (l ++ [Dispatched (Some c) cb]) cb.
Hypothesis inv_fired :
  ∀ l r, inv l → ps !! r = Some None →
         inv (l ++ [Dispatched None (HandleChangeWrapper r)])
         ∧ may_enter (l ++ [Dispatched None (HandleChangeWrapper r)])
                     (HandleChangeWrapper r).

Definition guided {A} (w : World) (o : outcome World A) : Prop :=
  orderly (final o) ∧ frame (final o) = frame w
  ∧ (∃ seg, log (final o) = log w ++ seg) ∧ inv (log (final o)).

Lemma inv_edges seg : ∀ l, inv l → forallb edge_event seg = true → inv (l ++ seg).
Proof using All.
  induction seg as [|e seg IH]; intros l Hl Hseg; [by rewrite app_nil_r|].
  simpl in Hseg. apply andb_prop in Hseg as [He Hseg].
  rewrite (cons_middle e), app_assoc. apply IH; [|done]. by apply inv_edge.
Qed.

Lemma guided_done {A} (a : A) w : orderly w → inv (log w) → guided w (Done a w).
Proof using All. intros Ho Hi. split_and!; [done..| |done]. exists []. by rewrite app_nil_r. Qed.

Lemma guided_abort {A} e w : orderly w → inv (log w) → guided w (@Abort World A e w).
Proof using All. intros Ho Hi. split_and!; [done..| |done]. exists []. by rewrite app_nil_r. Qed.

Lemma guided_after {A} w w1 (o : outcome World A) :
  frame w1 = frame w → (∃ seg, log w1 = log w ++ seg) → guided w1 o → guided w o.
Proof using All.
  intros Hp [seg Hl] (Ho & Hp' & [seg' Hl'] & Hi).
  split_and!; [done|congruence| |done]. exists (seg ++ seg').
  by rewrite Hl', Hl, app_assoc.
Qed.

Lemma guided_bind {A B} (m : M World A) (k : A → M World B) w :
  guided w (m w) →
  (∀ a w1, m w = Done a w1 → orderly w1 → frame w1 = frame w →
           (∃ seg, log w1 = log w ++ seg) → inv (log w1) → guided w1 (k a w1)) →
  guided w (bind m k w).
Proof using All.
  intros Hm Hk. unfold bind. destruct (m w) as [a w1|e w1] eqn:Heq; [|done].
  destruct Hm as (Ho & Hp & Hl & Hi). simpl in Ho, Hp, Hl, Hi.
  apply (guided_after w w1); auto.
Qed.

Lemma guided_sober {A} w (o : outcome World A) : sober w o → inv (log w) → guided w o.
Proof using All.
  intros (Ho & Hp & _ & seg & Hl & He) Hi. split_and!; [done|done|by exists seg|].
  rewrite Hl. by apply inv_edges.
Qed.

Lemma guided_emit e w : orderly w → inv (log w ++ [e]) → guided w (emit e w).
Proof using All.
  intros Ho He. split_and!; [by apply (orderly_same_nodes w)|done|by exists [e]|done].
Qed.

Lemma guided_get_node s w : orderly w → inv (log w) → guided w (get_node s w).
Proof using All.
  intros Ho Hi. unfold get_node.
  destruct (nodes w !! s); [by apply guided_done|by apply guided_abort].
Qed.

Lemma emit_frame e w a w1 :
  emit e w = Done a w1 → log w1 = log w ++ [e] ∧ frame w1 = frame w.
Proof using All. intros [= _ <-]. done. Qed.

Section Invoke.
Variable invoke : closure → M World unit.
Hypothesis invoke_guided :
  ∀ f w, orderly w → parents w = ps → handlers w = hs → inv (log w) →
         may_enter (log w) f → guided w (invoke f w).

Lemma notify_loop_guided c r fuel :
  ∀ cur w, orderly w → parents w = ps → handlers w = hs → inv (log w) →
    in_pass (log w) c →
    guided w
      (Registry.notify_loop (cells_of c r)
         (λ _ cb, emit (Dispatched (Some c) cb) ;; invoke cb) fuel cur w).
Proof using All.
  induction fuel as [|fuel IH]; intros cur w Ho Hps Hhs Hinv Hpass.
  - destruct cur; simpl; [by apply guided_abort|by apply guided_done].
  - destruct cur as [l|]; [|by apply guided_done].
    destruct (cells_of c r w !! l) as [cell|] eqn:Hcell; last first.
    { simpl. unfold bind, gets. rewrite Hcell. by apply guided_abort. }
    rewrite (Registry.notify_loop_turn _ _ _ _ cell) by done.
    pose proof (cells_orderly _ _ _ _ _ Ho Hcell) as Hok. rewrite Hps in Hok.
    destruct (inv_dispatched _ c _ Hinv Hpass Hok) as [Hinv1 Henter].
    assert (Hrun : guided w
              ((emit (Dispatched (Some c) (Registry.callback cell)) ;;
                invoke (Registry.callback cell)) w)).
    { apply guided_bind; [by apply guided_emit|].
      intros _ w1 [Hlog Hfr]%emit_frame Ho1 _ _ _. apply invoke_guided.
      - done.
      - by rewrite (frame_parents _ _ Hfr).
      - by rewrite (frame_handlers _ _ Hfr).
      - by rewrite Hlog.
      - by rewrite Hlog. }
    destruct ((emit (Dispatched (Some c) (Registry.callback cell)) ;;
               invoke (Registry.callback cell)) w) as [[] w1|e w1] eqn:Hr; [|done].
    destruct Hrun as (Ho1 & Hp1 & [seg Hl1] & Hi1). simpl in Ho1, Hp1, Hl1, Hi1.
    apply (guided_after w w1); [done|by exists seg|].
    apply IH; [done| | |done|].
    + by rewrite (frame_parents _ _ Hp1).
    + by rewrite (frame_handlers _ _ Hp1).
    + rewrite Hl1. by apply pass_grows.
Qed.

Lemma notify_listeners_guided fuel c w :
  orderly w → parents w = ps → handlers w = hs → inv (log w) → in_pass (log w) c →
  guided w (notify_listeners invoke fuel c w).
Proof using All.
  intros Ho Hps Hhs Hinv Hpass. unfold notify_listeners.
  apply guided_bind; [by apply guided_get_node|].
  intros n w1 [-> Hn]%get_node_done _ _ _ _.
  destruct (listeners n) as [r|]; [|by apply guided_done].
  unfold batch. apply guided_bind; [by apply guided_done|].
  intros cur w2 [= _ <-] _ _ _ _. by apply notify_loop_guided.
Qed.

End Invoke.

Lemma call_guided fuel :
  ∀ f w, orderly w → parents w = ps → handlers w = hs → inv (log w) →
         may_enter (log w) f → guided w (call fuel f w).
Proof using All.
  induction fuel as [|fuel IH]; intros f w Ho Hps Hhs Hinv Hin;
    [by apply guided_abort|].
  destruct f as [name|s|s|s|s|h]; simpl.
  - apply guided_emit; [done|]. by apply inv_called.
  - apply guided_bind; [by apply guided_get_node|].
    intros n w1 [-> Hn]%get_node_done _ _ _ _.
    destruct (orderly_nodes _ Ho s n Hn) as [Hh _].
    destruct (onStateChange n) as [g|] eqn:Hg; [|by apply guided_done].
    apply IH; [done..|]. apply (enter_handler _ s); [done| |done].
    rewrite <- Hhs. unfold handlers. by rewrite list_lookup_fmap, Hn, <- Hg.
  - unfold notifyNestedSubs_with.
    destruct (inv_notified _ s Hinv Hin) as [Hinv1 Hpass].
    apply guided_bind; [by apply guided_emit|].
    intros _ w1 [Hlog Hfr]%emit_frame Ho1 _ _ _.
    apply (notify_listeners_guided (call fuel) IH); [done| | |by rewrite Hlog..].
    + by rewrite (frame_parents _ _ Hfr).
    + by rewrite (frame_handlers _ _ Hfr).
  - apply guided_sober; [by apply trySubscribeSelf_sober|done].
  - apply guided_sober; [by apply tryUnsubscribeSelf_sober|done].
  - apply guided_sober; [by apply call_handle_sober|done].
Qed.

Lemma fire_guided fuel ls :
  ∀ w, orderly w → parents w = ps → handlers w = hs → inv (log w) →
    (∀ f, f ∈ ls → ∃ r, f = HandleChangeWrapper r ∧ ps !! r = Some None) →
    guided w (fire fuel ls w).
Proof using All.
  induction ls as [|cb ls IH]; intros w Ho Hps Hhs Hinv Hls; [by apply guided_done|].
  destruct (Hls cb) as (r & -> & Hr); [by left|].
  destruct (inv_fired _ r Hinv Hr) as [Hinv1 Henter].
  change (fire fuel (HandleChangeWrapper r :: ls))
    with (emit (Dispatched None (HandleChangeWrapper r)) ;;
          call fuel (HandleChangeWrapper r) ;; fire fuel ls).
  apply guided_bind; [by apply guided_emit|].
  intros _ w1 [Hlog Hfr]%emit_frame Ho1 _ _ _.
  apply guided_bind.
  { apply call_guided; [done| | |by rewrite Hlog..].
    - by rewrite (frame_parents _ _ Hfr).
    - by rewrite (frame_handlers _ _ Hfr). }
  intros _ w2 _ Ho2 Hp2 _ Hi2. apply IH; [done| | |done|].
  - by rewrite (frame_parents _ _ Hp2), (frame_parents _ _ Hfr).
  - by rewrite (frame_handlers _ _ Hp2), (frame_handlers _ _ Hfr).
  - intros f Hf. apply Hls. by right.
Qed.

Lemma dispatch_guided fuel newState w :
  orderly w → parents w = ps → handlers w = hs → inv (log w) →
  guided w (dispatch fuel newState w).
Proof using All.
  intros Ho Hps Hhs Hinv.
  set (w0 := set_store (λ st, {| state := newState; registered := registered st |}) w).
  assert (Ho0 : orderly w0) by (by apply (orderly_same_nodes w)).
  apply (guided_after w w0); [done|by (exists []; rewrite app_nil_r)|].
  apply (fire_guided fuel _ w0 Ho0); [done..|].
  intros f Hf. rewrite <- Hps. by apply (store_listeners_orderly w).
Qed.

End Guided.

(** Every call and every state change leaves an orderly world orderly. *)
Lemma call_orderly fuel f w : orderly w → orderly (final (call fuel f w)).
Proof using All.
  intros Ho.
  destruct (call_guided (parents w) (handlers w) (λ _, True) (λ _ _, True) (λ _ _, True))
    with (fuel := fuel) (f := f) (w := w) as (H1 & _); done.
Qed.

Lemma dispatch_orderly fuel newState w :
  orderly w → orderly (final (dispatch fuel newState w)).
Proof using All.
  intros Ho.
  destruct (dispatch_guided (parents w) (handlers w) (λ _, True) (λ _ _, True)
              (λ _ _, True))
    with (fuel := fuel) (newState := newState) (w := w) as (H1 & _); done.
Qed.

Lemma run_op_orderly fuel o w :
  orderly w → orderly_op o = true → orderly (final (run_op fuel o w)).
Proof using All.
  intros Ho Hop. destruct o as [parent|s f|s listener|f|newState]; simpl.
  - apply orderly_bind; [by apply createSubscription_orderly|]. by intros.
  - by apply setOnStateChange_orderly.
  - apply orderly_bind; [|by intros]. unfold addNestedSub.
    apply orderly_bind; [|by intros].
    apply addNestedSub_with_sober; [|done|by apply allowed_fine].
    intros w1 Ho1. by apply trySubscribe_rec_sober.
  - by apply call_orderly.
  - by apply dispatch_orderly.
Qed.

Lemma exec_orderly fuel ops :
  ∀ w, orderly w → forallb orderly_op ops = true → orderly (final (exec fuel ops w)).
Proof using All.
  induction ops as [|o ops IH]; intros w Ho Hops; [done|].
  simpl in Hops. apply andb_prop in Hops as [Hop Hops]. simpl.
  apply orderly_bind; [by apply run_op_orderly|]. intros _ w1 _ Ho1. by apply IH.
Qed.

End Policy.

(** *** The nodes' own wiring, and no policy at all *)

(** The application hands out benign functions only. *)
Definition proper : World → Prop := orderly listener_fine handler_fine.

Definition proper_op : op → bool := orderly_op handler_fine benign.

(** The application hands out what it likes. *)
Definition free : World → Prop := orderly (λ _ _ _, true) (λ _ _, true).

Lemma listener_fine_grow ps extra s cb :
  listener_fine ps s cb = true → listener_fine (ps ++ extra) s cb = true.
Proof.
  destruct cb as [x|d|u|u|u|h]; try done. simpl.
  rewrite !bool_decide_eq_true. by apply lookup_app_l_Some.
Qed.

Lemma listener_fine_wrapper ps s d :
  ps !! d = Some (Some s) → listener_fine ps s (HandleChangeWrapper d) = true.
Proof. intros H. simpl. by apply bool_decide_eq_true. Qed.

Lemma benign_fine ps s cb : benign cb = true → listener_fine ps s cb = true.
Proof. by destruct cb. Qed.

(** The application of [tame_op] is proper. *)
Lemma tame_op_proper o : tame_op o = true → proper_op o = true.
Proof.
  destruct o as [parent|s f|s cb|f|x]; try done; simpl.
  - by destruct f as [[]|].
  - by destruct cb.
Qed.

Lemma exec_proper fuel ops :
  forallb proper_op ops = true → proper (final (exec fuel ops init)).
Proof.
  intros Hops.
  apply (exec_orderly listener_fine handler_fine benign listener_fine_wrapper
           listener_fine_grow (λ _, eq_refl) benign_fine); [apply orderly_init|done].
Qed.

Lemma exec_free fuel ops : free (final (exec fuel ops init)).
Proof.
  apply (exec_orderly (λ _ _ _, true) (λ _ _, true) (λ _, true)
           (λ _ _ _ _, eq_refl) (λ _ _ _ _ _, eq_refl) (λ _, eq_refl)
           (λ _ _ _ _, eq_refl)); [apply orderly_init|].
  induction ops as [|o ops IH]; [done|]. simpl. rewrite IH. by destruct o.
Qed.

(** *** A change that travels down a proper world *)

Lemma dispatch_announces fuel newState w :
  proper w →
  ∃ seg, log (final (dispatch fuel newState w)) = log w ++ seg
    ∧ frame (final (dispatch fuel newState w)) = frame w
    ∧ ∀ i c cb, seg !! i = Some (Dispatched (Some c) cb) →
        ∃ p j, parents w !! c = Some p ∧ j < i
               ∧ seg !! j = Some (Dispatched p (HandleChangeWrapper c)).
Proof.
  intros Ho. set (ps := parents w). set (b := length (log w)).
  destruct (dispatch_guided listener_fine handler_fine benign
              listener_fine_wrapper listener_fine_grow (λ _, eq_refl) benign_fine
              ps (handlers w) (heralded ps b) (entered ps b) (announced ps b))
    with (fuel := fuel) (newState := newState) (w := w)
    as (_ & Hp & [seg Hlog] & Hh); try done.
  - intros l x Hl. by apply heralded_snoc.
  - intros l e Hl He. apply heralded_snoc; [done|]. intros c cb ->. done.
  - intros l f Hf. by destruct f.
  - intros l c g Hc _ Hg. destruct g as [x|u|u|u|u|h]; try done.
    simpl in Hg. apply bool_decide_eq_true in Hg. by subst u.
  - intros l c Hl Hc. split; [by apply heralded_snoc|by apply announced_app].
  - intros l l' c. apply announced_app.
  - intros l c cb Hl Hc Hok. split.
    + apply heralded_snoc; [done|]. by intros c' cb' [= <- <-].
    + destruct cb as [x|d|u|u|u|h]; try done. simpl.
      apply announced_emit; [apply Hl|]. simpl in Hok.
      by apply bool_decide_eq_true in Hok.
  - intros l r Hl Hr. split.
    + apply heralded_snoc; [done|]. intros c cb [=].
    + simpl. by apply announced_emit; [apply Hl|].
  - split; [done|]. intros i c cb Hb Hlook. apply lookup_lt_Some in Hlook.
    unfold b in Hb. lia.
  - exists seg. split_and!; [done..|]. intros i c cb Hi.
    destruct Hh as [_ Hh].
    destruct (Hh (b + i) c cb) as (p & j & Hpc & Hj & Hlook).
    + lia.
    + rewrite Hlog, lookup_app_r by (unfold b; lia).
      by replace (b + i - length (log w)) with i by (unfold b; lia).
    + exists p, (j - b). split_and!; [done|lia|].
      rewrite Hlog, lookup_app_r in Hlook by (unfold b; lia). done.
Qed.

(** *** A change that travels down any world *)

(** The registry of node [src], or the store, invoked a function that the
    application handed out: [f] is a listener of a node, and is a
    [notifyNestedSubs] or the [handleChangeWrapper] of a node that is no
    child of that node; or [f] is the [handleChangeWrapper] of a node whose
    [onStateChange] is a [handleChangeWrapper] or the [notifyNestedSubs] of
    another node. *)
Definition handed_out (ps : list (option nat)) (hs : list (option closure))
    (src : option nat) (f : closure) : bool :=
  match src with Some s => negb (listener_fine ps s f) | None => false end
  || match f with
     | HandleChangeWrapper c =>
         match hs !! c with Some g => negb (handler_fine c g) | None => false end
     | _ => false
     end.

(** From position [b] of the log on and before position [i], a function
    that the application handed out was invoked. *)
Definition excused (ps : list (option nat)) (hs : list (option closure))
    (b : nat) (l : list event) (i : nat) : Prop :=
  ∃ j src f, b ≤ j < i ∧ l !! j = Some (Dispatched src f)
             ∧ handed_out ps hs src f = true.

(** From position [b] of the log on, a listener of a node fires only after
    the [handleChangeWrapper] of the node was called from above, or after a
    function that the application handed out was invoked. *)
Definition loose (ps : list (option nat)) (hs : list (option closure))
    (b : nat) (l : list event) : Prop :=
  b ≤ length l
  ∧ ∀ i c cb, b ≤ i → l !! i = Some (Dispatched (Some c) cb) →
      (∃ p j, ps !! c = Some p ∧ b ≤ j < i
              ∧ l !! j = Some (Dispatched p (HandleChangeWrapper c)))
      ∨ excused ps hs b l i.

Lemma excused_app ps hs b l l' i : excused ps hs b l i → excused ps hs b (l ++ l') i.
Proof.
  intros (j & src & f & Hj & Hlook & Hout). exists j, src, f.
  split_and!; [lia|lia| |done]. by apply lookup_app_l_Some.
Qed.

Lemma excused_later ps hs b l i i' : i ≤ i' → excused ps hs b l i → excused ps hs b l i'.
Proof.
  intros Hi (j & src & f & Hj & Hlook & Hout). exists j, src, f.
  split_and!; [lia|lia|done|done].
Qed.

Lemma tainted_app ps hs b l l' :
  excused ps hs b l (length l) → excused ps hs b (l ++ l') (length (l ++ l')).
Proof.
  intros H. apply excused_app. apply (excused_later _ _ _ _ (length l)); [|done].
  rewrite length_app. lia.
Qed.

Lemma loose_snoc ps hs b l e :
  loose ps hs b l →
  (∀ c cb, e = Dispatched (Some c) cb →
           announced ps b l c ∨ excused ps hs b l (length l)) →
  loose ps hs b (l ++ [e]).
Proof.
  intros [Hlen Hl] He. split; [rewrite length_app; lia|].
  intros i c cb Hb [[Hi H]|[-> ->]]%lookup_snoc_Some.
  - destruct (Hl i c cb Hb H) as [(p & j & Hp & Hj & Hlook)|Hex].
    + left. exists p, j. split_and!; [done|lia|lia|]. by apply lookup_app_l_Some.
    + right. by apply excused_app.
  - destruct (He c cb eq_refl) as [(p & j & Hp & Hj & Hlook)|Hex].
    + left. exists p, j. pose proof (lookup_lt_Some _ _ _ Hlook).
      split_and!; [done|lia|lia|]. by apply lookup_app_l_Some.
    + right. by apply excused_app.
Qed.

Lemma dispatch_loose fuel newState w :
  free w →
  ∃ seg, log (final (dispatch fuel newState w)) = log w ++ seg
    ∧ frame (final (dispatch fuel newState w)) = frame w
    ∧ ∀ i c cb, seg !! i = Some (Dispatched (Some c) cb) →
        (∃ p j, parents w !! c = Some p ∧ j < i
                ∧ seg !! j = Some (Dispatched p (HandleChangeWrapper c)))
        ∨ excused (parents w) (handlers w) 0 seg i.
Proof.
  intros Ho. set (ps := parents w). set (hs := handlers w).
  set (b := length (log w)).
  destruct (dispatch_guided (λ _ _ _, true) (λ _ _, true) (λ _, true)
              (λ _ _ _ _, eq_refl) (λ _ _ _ _ _, eq_refl) (λ _, eq_refl)
              (λ _ _ _ _, eq_refl)
              ps hs (loose ps hs b)
              (λ l f, excused ps hs b l (length l) ∨ entered ps b l f)
              (λ l c, excused ps hs b l (length l) ∨ announced ps b l c))
    with (fuel := fuel) (newState := newState) (w := w)
    as (_ & Hp & [seg Hlog] & Hh); try done.
  - intros l x Hl. by apply loose_snoc.
  - intros l e Hl He. apply loose_snoc; [done|]. intros c cb ->. done.
  - intros l f Hf. right. by destruct f.
  - intros l c g [Ht|Ha] Hg _; [by left|].
    destruct (handler_fine c (Some g)) eqn:Hf.
    + right. destruct g as [x|u|u|u|u|h]; try done.
      simpl in Hf. apply bool_decide_eq_true in Hf. by subst u.
    + left. destruct Ha as (p & j & Hpc & Hb & Hj).
      exists j, p, (HandleChangeWrapper c).
      pose proof (lookup_lt_Some _ _ _ Hj).
      split_and!; [done..|]. unfold handed_out. rewrite Hg, Hf.
      by rewrite orb_true_r.
  - intros l c Hl Hc. split; [by apply loose_snoc|].
    destruct Hc as [Ht|Ha]; [left; by apply tainted_app|right; by apply announced_app].
  - intros l l' c [Ht|Ha]; [left; by apply tainted_app|right; by apply announced_app].
  - intros l c cb Hl Hc _. split.
    + apply loose_snoc; [done|]. intros c' cb' [= <- <-]. by destruct Hc; [right|left].
    + destruct (listener_fine ps c cb) eqn:Hf.
      * right. destruct cb as [x|d|u|u|u|h]; try done. simpl.
        apply announced_emit; [apply Hl|]. simpl in Hf.
        by apply bool_decide_eq_true in Hf.
      * left. exists (length l), (Some c), cb. destruct Hl as [Hb _].
        split_and!.
        -- done.
        -- rewrite length_app. simpl. lia.
        -- by rewrite lookup_app_r, Nat.sub_diag.
        -- unfold handed_out. by rewrite Hf.
  - intros l r Hl Hr. split.
    + apply loose_snoc; [done|]. intros c cb [=].
    + right. simpl. by apply announced_emit; [apply Hl|].
  - split; [done|]. intros i c cb Hb Hlook. apply lookup_lt_Some in Hlook.
    unfold b in Hb. lia.
  - exists seg. split_and!; [done..|]. intros i c cb Hi.
    destruct Hh as [_ Hh].
    destruct (Hh (b + i) c cb) as [(p & j & Hpc & Hj & Hlook)|(j & src & f & Hj & Hlook & Hout)].
    + lia.
    + rewrite Hlog, lookup_app_r by (unfold b; lia).
      by replace (b + i - length (log w)) with i by (unfold b; lia).
    + left. exists p, (j - b). split_and!; [done|lia|].
      rewrite Hlog, lookup_app_r in Hlook by (unfold b; lia). done.
    + right. exists (j - b), src, f. split_and!; [lia|lia| |done].
      rewrite Hlog, lookup_app_r in Hlook by (unfold b; lia). done.
Qed.

(** *** A listener that is the [notifyNestedSubs] of another node *)

(** The application creates a root node and a child of it, and hands the
    [notifyNestedSubs] of the child to [addNestedSub] of the root before
    the child connects. *)
Definition handed_over : list op :=
  [Create None; SetOnStateChange 0 (Some (NotifyNestedSubs 0)); Call (TrySubscribe 0);
   Create (Some 0); SetOnStateChange 1 (Some (NotifyNestedSubs 1));
   AddNestedSub 0 (NotifyNestedSubs 1); AddNestedSub 1 (Consumer 5)].



(** A root, its child and its grandchild: a listener of the child
    unsubscribes itself, and a listener of the root unsubscribes the one
    listener of the grandchild, which disconnects the grandchild. *)
Definition chain : list op :=
  [Create None; SetOnStateChange 0 (Some (NotifyNestedSubs 0));
   Create (Some 0); SetOnStateChange 1 (Some (NotifyNestedSubs 1));
   Create (Some 1); SetOnStateChange 2 (Some (NotifyNestedSubs 2));
   Call (TrySubscribe 0);
   AddNestedSub 2 (Consumer 5);
   AddNestedSub 1 (Unsubscribe (NestedSub 1 1));
   AddNestedSub 1 (Consumer 6);
   AddNestedSub 0 (Unsubscribe (NestedSub 2 0));
   AddNestedSub 0 (Consumer 7)].


(** The world of [chain] and the change that travels down it. *)
Example chain_change :
  let w := final (exec 4 chain init) in
  let w' := final (dispatch 9 7 w) in
  exec 4 chain init = Done tt w
  ∧ dispatch 9 7 w = Done tt w'
  ∧ parents w = [None; Some 0; Some 1]
  ∧ getListeners 0 w = [HandleChangeWrapper 1; Unsubscribe (NestedSub 2 0); Consumer 7]
  ∧ getListeners 1 w = [HandleChangeWrapper 2; Unsubscribe (NestedSub 1 1); Consumer 6]
  ∧ getListeners 2 w = [Consumer 5]
  ∧ log w' = log w ++
      [Dispatched None (HandleChangeWrapper 0); Notified 0;
       Dispatched (Some 0) (HandleChangeWrapper 1); Notified 1;
       Dispatched (Some 1) (HandleChangeWrapper 2); Notified 2;
       Dispatched (Some 2) (Consumer 5); Called 5;
       Dispatched (Some 1) (Unsubscribe (NestedSub 1 1));
       Dispatched (Some 1) (Consumer 6); Called 6;
       Dispatched (Some 0) (Unsubscribe (NestedSub 2 0)); Disconnected 2;
       Dispatched (Some 0) (Consumer 7); Called 7]
  ∧ getListeners 1 w' = [Consumer 6]
  ∧ getListeners 2 w' = [].
Proof. intros w w'. split_and!; vm_compute; reflexivity. Qed.

End OrderLaws.
